(* ===== verification/_CoqProject ===== *)
-Q . S2P
Prelude.v
Json.v
Wire.v
Addr.v
Prog.v
Fs.v
Storage.v
Registry.v
StackApi.v
NodeManager.v
ManagerOps.v
Controller.v
Vendors.v
Commands.v
Dispatch.v
Sched.v
CommandFacts.v
Progress.v
ConfigLock.v
Mirror.v
Text.v
Jsdb.v
Decode.v
Convert.v
Identity.v
Migrate.v
Gen.v
GenBuild.v
GenRender.v
TlvJson.v
Accumulate.v
Ctx.v
Interact.v
Reports.v
Supervisor.v
SupervisorFacts.v
Ws.v
Server.v
Records.v
Durable.v
Listen.v
Closing.v
Races.v
DeviceOps.v
Window.v
Browse.v
Onboard.v
StackHandle.v
System.v
OneNode.v
Boot.v
MdnsIface.v
Sockets.v
Ops.v
Executor.v
Process.v
Program.v
