(* ===== verification/Prelude.v ===== *)
(** * matter-rs-server: a verification library

    The program is a Matter controller with a WebSocket API.  It has five crates
    that matter here: [wire] (the JSON protocol), [controller] (nodes, commands,
    persistence), [stack] (the thread that talks Matter through the [rs-matter]
    library), [server] (the process around them) and [migrate] (a tool that
    takes over a matter.js installation); [gen] generates the cluster tables
    from the IDL.  Source paths below are under [src/crates].

    ** Parts and files

    Foundations.  [Prelude]: results, integers at their width, ordered maps
    ([BTreeMap]), byte strings, UTF-8, hexadecimal and decimal text.  [Json]:
    [serde_json] values, accessors and derived serialization.  [Prog]: programs
    as trees of operations, run to the end or watched step by step.  [Fs]: a
    file system whose operations can fail.  [Text]: lenient parsing and folds.

    [wire] - [Wire]: [wire/src].

    [controller] - [Addr]: [addr.rs].  [Storage]: [storage.rs].  [Registry]:
    [registry.rs].  [StackApi]: [stack_api.rs], the [Stack] trait as the class
    [Stack].  [NodeManager]: [node_manager.rs], each handler a function.
    [ManagerOps]: the same handlers one operation at a time.  [Controller]: [real.rs] up to
    the dispatch.  [Vendors]: [vendors.rs].  [Commands]: [commands/], a Module per
    file.  [Dispatch]: [handle_command] of [real.rs], and [stub.rs].  [Sched]:
    tasks of several connections interleaved at every await.  [CommandFacts]: what
    the commands do.  [Progress]: pools of running commands and their locks.
    [ConfigLock]: the history of the configuration in such a pool.
    [Mirror]: a client that keeps its own copy of the nodes from the events.

    [migrate] - [Jsdb]: [jsdb.rs].  [Decode]: [decode.rs].  [Convert]:
    [convert.rs].  [Migrate]: [checks.rs], [lib.rs], [main.rs].

    [gen] - [Gen]: [src/lib.rs], the tables as the class [Tables].  [GenBuild]:
    the IDL parser of [build.rs].  [GenRender]: its printer, and the Rust it
    prints.

    [stack] - [Identity]: [identity.rs], [migration.rs].  [TlvJson]:
    [tlv_json.rs].  [Accumulate] and [Reports]: [reports.rs].  [Ctx]: [ctx.rs].
    [Interact], [DeviceOps], [Window], [Browse], [Onboard]: [ops/interact.rs],
    [fabrics.rs], [window.rs], [discovery.rs], [commission.rs].  [Supervisor],
    [SupervisorFacts]: [supervisor.rs] and the control requests of [runtime.rs].
    [StackHandle]: [lib.rs] and the dispatch of [runtime.rs], an instance of
    [Stack], one call at a time.  [Ops]: the functions of [ops/] again, as programs
    over their awaits, each with its timer.  [Executor]: the request loop with
    concurrent callers, a request queue and these programs as detached tasks, a
    clock running.  [System]: supervisors, reports and node manager together.
    [OneNode]: what the node manager does about one node while commands run.
    [MdnsIface]: [select_interface] of [mdns.rs].  [Sockets]: the sockets of
    [runtime.rs], [mdns.rs] and [server/src/main.rs], and which background tasks
    end the stack.

    [server] - [Ws]: [ws.rs], one connection.  [Boot]: the decisions of
    [logging.rs], [config.rs], [main.rs] and [http.rs] at start-up: log level and
    filter, fabric label, listening addresses, exit code.  [Process]: [main] as a
    whole, with [spawn] of [stack/src/lib.rs] and the boot sequence of
    [runtime.rs].  [Server]: the composite of one controller and all connections,
    its channel, its locks, its node manager and the task that starts the
    supervisors.  [Records], [Durable], [Listen], [Closing]: what holds of its
    nodes, their files, its listening clients and its end.  [Races]: schedules that end badly.  [Program]:
    that server over the thread of [StackHandle], with the relay task of
    [main.rs] between them.

    ** How state and operations correspond

    A struct is a [Record], an enum an [Inductive] with the source's
    constructors; [Result] and [?] are [Result] and [let?] ([do?] in programs);
    [u8] to [u64] are [Z] with the wrap-around, the checked conversion or the
    saturation written out where the code has it.  Code that runs without an
    await is a function on its state.  A command handler is a program over the
    operations between which other tasks run; so is the file code, over single
    system calls, because a crash can come between any two.  A task with awaits
    (supervisor, connection, node manager) is a state machine whose steps are
    its synchronous stretches; the environment's part is the labels.  [HashMap]s
    are [gmap]s, [BTreeMap]s sorted association lists, and where the code
    iterates a [HashMap] the order is a parameter.

    What is not under [src] appears as a class, with laws where something is
    proved from them: [SerdeJson], [Base64], [NodeDate] (chrono), [Processes]
    (ping), [RsMatter], [ImDevices], [Mdns], [Commissioner], [PaseCrypto], [Rng],
    [CodeFormats], [OnboardCodes], [FabricTable], [NetParams] ([rs-matter] and the devices
    behind it), [SocketLaws] (socket2), flate2 and hex (in [Jsdb] and [Decode]).  Each file with such a
    class ends with a concrete instance on which the theorems are applied.

    ** What the theorems show

    Persistence: a crash or error at any point of a write leaves the old or the
    new file, an identity is stored once, never replaced, and round-trips, a
    minted fabric is installed exactly when it is stored; the migration tool
    writes only what passed its checks, and its log replay applies exactly the
    commits after the snapshot.  Concurrency: whatever commands run side by side,
    there is one history of updates of the configuration and none is lost; locks
    are taken in one order and given back, so that running commands never block
    each other for good and all finish.
    Nodes: served availability is what clients were last told, a client that
    applies the events of a command or of the node manager to its copy keeps it
    equal to what the server would serve; commissioning and removal on
    every branch; together with the stack thread a removed node leaves no trace
    but of reports that come in before its supervisor's future is dropped, and
    through the whole program a subscribed node can be brought up to date and is
    then served with exactly what its subscription delivered, unless a client
    interviews it meanwhile.  Supervision: subscriptions belong to live tasks, each node's
    events follow the protocol, silence and only silence ends a subscription,
    retries back off, nothing gets stuck; each call through the handle is exactly
    the step of this system it is documented to be and none has an effect after
    shutdown; with concurrent callers the thread goes through exactly the steps of
    the control requests, in order, of the tasks, of the supervisors and of the
    reports, each request is answered once, by its own task, within the timers of
    its own awaits and whatever the others wait for, and nothing acts any more
    once the thread is down.  Device operations: which
    reports are believed and how chunked reports are merged, what reads, writes,
    invokes, windows, discovery and commissioning answer, in which error kinds.
    Encodings: TLV and JSON, integers at their IDL width, generated tables, their
    Rust source and their lookup. The process: the courses a run can take, from
    storage to exit code, with nothing served before the stack is ready; a socket is opened with its settings or not at all.
    Connections: one answer for each request, in order, and an unbroken event
    stream for a client that keeps up. The whole server, for any number of
    connections: every client sees a stretch of one common stream, every request
    can still be answered, the fabric label is that of a connected client, a node
    that is known stays known until it is removed and is on file for the next
    start, there is one commissioning at a time, a client that listens is up to
    date when each frame and stack event is handled to its end before the next,
    and a server told to stop can.
    Where the code does not do what its comments say, the theorem states what it
    does ([NodeManager.stale_expiry_ends_new_grace], [Sched.set_wifi_race],
    [GenBuild.attribute_list_dropped], [Ws.start_listening_loses_event],
    [Ws.lagged_drain_keeps_old_events], [Mirror.interview_overwrites_report],
    [Mirror.interview_revives_removed_node], [Races.report_revives_removed_node],
    [Races.removed_newcomer_is_supervised]).

    ** Grain of the interleavings

    The runtime is multi-threaded, so tasks can be preempted between any two
    accesses to what they share.  A step of a command, of a handler of the node
    manager or of the task that starts the supervisors is one such access: one
    critical section, one send, one call.  Saving a file is one step of these
    tasks, which takes effect at its rename; [Storage] has its system calls one
    by one.  A call into the stack is one step of the server; on the stack's side
    [Executor] has it await by await, where an exchange with a device is settled
    when it is issued and its answer comes back later.  [NodeManager] has each
    handler in one go, [ManagerOps.event_ops_at_once] relates the two, and
    [Server.manage_in_one_go] makes the one a schedule of the other.

    [Program] and the order of events in [SupervisorFacts] assume of the stack's
    executor that it drops a node's cancelled futures before the network or a timer
    resumes a task of this node ([Supervisor.drops_first], [Program.promptly]);
    supervisors are started, stopped and replaced at any time.  [Listen] assumes
    that frames and stack events are handled one after the other, and says why.

    ** Fuel

    Loops that are not structural take fuel.  [Ws.drain] has one more than the
    queue is long, [Browse.browse] one more than [MAX_SWEEP], and both are proved
    to end within it; [Identity.draw_rcac]'s is the code's own bound of 32
    attempts; [TlvJson.tlv_to_json_at] is structural, with the code's depth limit
    of 32; [GenRender.parse_expr] has the number of tokens, proved to be enough for
    what is printed; [Ops.sweep_task] has that of [Browse.browse];
    [Window.draw_passcode] repeats until the generator yields an acceptable
    passcode, and is proved to end with the first one for any larger fuel.

    ** What is not modelled, and why

    In [server/src] the command line parser (clap) and the router (axum); in
    [stack/src/runtime.rs] and [lib.rs] the joining of the thread and the
    construction of [rs-matter]'s objects.  [spike/] is an
    experiment outside the server.  Log lines are left out everywhere, as is the
    real duration of a computation between two awaits.  In [Fs] flushing a file has
    no effect of its own and an operation that fails changes nothing. *)

From Stdlib Require Export ZArith Lia Sorted.
From Stdlib Require Ascii.
Export Ascii.AsciiSyntax.
From stdpp Require Export base strings gmap pretty countable list.

(** ** Scope, notations and automation *)

Declare Scope matter_scope.
Delimit Scope matter_scope with matter.
Delimit Scope char_scope with char.
Open Scope string_scope.
Open Scope list_scope.
Open Scope matter_scope.
Open Scope Z_scope.

Create HintDb matter.
Create Rewrite HintDb matter.

(** Split every hypothesis and the goal along the matches they contain. *)
Ltac case_all :=
  repeat (case_match; simplify_eq/=; try done).

(** Replace boolean comparisons on integers by the propositions they decide. *)
Ltac z_bools :=
  repeat match goal with
  | H : (_ =? _)%Z = true |- _ => apply Z.eqb_eq in H
  | H : (_ =? _)%Z = false |- _ => apply Z.eqb_neq in H
  | H : (_ <? _)%Z = true |- _ => apply Z.ltb_lt in H
  | H : (_ <? _)%Z = false |- _ => apply Z.ltb_ge in H
  | H : (_ <=? _)%Z = true |- _ => apply Z.leb_le in H
  | H : (_ <=? _)%Z = false |- _ => apply Z.leb_gt in H
  | H : (_ && _)%bool = true |- _ => apply andb_true_iff in H as [? ?]
  end.

(** ** Fallible results

    Rust's [Result<T, E>], with the [?] operator as a bind. *)

Inductive Result (T E : Type) : Type :=
| Ok (t : T)
| Err (e : E).
Arguments Ok {T E} t.
Arguments Err {T E} e.

Definition result_bind {A B E} (r : Result A E) (f : A -> Result B E) : Result B E :=
  match r with Ok a => f a | Err e => Err e end.

Definition result_map {A B E} (f : A -> B) (r : Result A E) : Result B E :=
  match r with Ok a => Ok (f a) | Err e => Err e end.

Definition map_err {A E F} (f : E -> F) (r : Result A E) : Result A F :=
  match r with Ok a => Ok a | Err e => Err (f e) end.

Definition ok_or {A E} (o : option A) (e : E) : Result A E :=
  match o with Some a => Ok a | None => Err e end.

Definition result_ok {A E} (r : Result A E) : option A :=
  match r with Ok a => Some a | Err _ => None end.

Definition is_ok {A E} (r : Result A E) : bool :=
  match r with Ok _ => true | Err _ => false end.

Definition unwrap_or {A} (d : A) (o : option A) : A :=
  match o with Some a => a | None => d end.

Notation "'let?' x := r 'in' k" := (result_bind r (fun x => k))
  (at level 10, x pattern, r at level 100, k at level 200) : matter_scope.

(** [iter().map(f).collect::<Result<Vec<_>, _>>()]: stops at the first error. *)
Fixpoint collect_results {A B E} (f : A -> Result B E) (l : list A) : Result (list B) E :=
  match l with
  | [] => Ok []
  | a :: l => let? b := f a in let? bs := collect_results f l in Ok (b :: bs)
  end.

(** [Iterator::filter_map]. *)
Definition filter_map {A B} (f : A -> option B) (l : list A) : list B := omap f l.

Lemma collect_results_Ok {A B E} (f : A -> Result B E) l bs :
  collect_results f l = Ok bs <-> Forall2 (fun a b => f a = Ok b) l bs.
Proof.
  revert bs. induction l as [|a l IH]; intros bs; simpl.
  - split; [intros [= <-]; constructor | inversion 1; done].
  - split.
    + destruct (f a) as [b|e] eqn:Hf; simpl; [|done].
      destruct (collect_results f l) as [bs'|e] eqn:Hl; simpl; [|done].
      intros [= <-]. constructor; [done | by apply IH].
    + inversion 1 as [|? ? ? ? Hf Hl]; subst. rewrite Hf. simpl.
      apply IH in Hl. by rewrite Hl.
Qed.

(** ** Machine integers

    Unsigned and signed Rust integers are [Z] within their width; arithmetic
    that can leave the width is written with these functions. *)

Definition in_u (bits : Z) (n : Z) : bool := (0 <=? n) && (n <? 2 ^ bits).
Definition in_i (bits : Z) (n : Z) : bool := (- 2 ^ (bits - 1) <=? n) && (n <? 2 ^ (bits - 1)).

Definition u64_max : Z := 2 ^ 64 - 1.
Definition i64_max : Z := 2 ^ 63 - 1.

(** [uN::try_from]. *)
Definition try_from_u (bits n : Z) : option Z := if in_u bits n then Some n else None.
Definition try_from_i (bits n : Z) : option Z := if in_i bits n then Some n else None.

(** [n as uN]. *)
Definition as_u (bits n : Z) : Z := n mod 2 ^ bits.

(** [u64::checked_add], [u64::checked_sub]. *)
Definition checked_add_u64 (a b : Z) : option Z := try_from_u 64 (a + b).
Definition checked_sub_u64 (a b : Z) : option Z := try_from_u 64 (a - b).

Lemma in_u_spec bits n : in_u bits n = true <-> 0 <= n < 2 ^ bits.
Proof. unfold in_u. rewrite andb_true_iff, Z.leb_le, Z.ltb_lt. lia. Qed.

Lemma in_i_spec bits n : in_i bits n = true <-> - 2 ^ (bits - 1) <= n < 2 ^ (bits - 1).
Proof. unfold in_i. rewrite andb_true_iff, Z.leb_le, Z.ltb_lt. lia. Qed.

Lemma try_from_u_Some bits n m : try_from_u bits n = Some m <-> m = n /\ 0 <= n < 2 ^ bits.
Proof.
  unfold try_from_u. destruct (in_u bits n) eqn:H.
  - apply in_u_spec in H. split; [intros [= <-] | intros [-> _]]; done.
  - split; [done|]. intros [_ Hr]. apply in_u_spec in Hr. congruence.
Qed.

Lemma try_from_i_Some bits n m :
  try_from_i bits n = Some m <-> m = n /\ - 2 ^ (bits - 1) <= n < 2 ^ (bits - 1).
Proof.
  unfold try_from_i. destruct (in_i bits n) eqn:H.
  - apply in_i_spec in H. split; [intros [= <-] | intros [-> _]]; done.
  - split; [done|]. intros [_ Hr]. apply in_i_spec in Hr. congruence.
Qed.

(** ** Ordered keys

    Rust's [Ord], with the laws that [BTreeMap] relies on. *)

Class Ord (K : Type) := {
  cmp : K -> K -> comparison;
  cmp_eq : forall a b, cmp a b = Eq <-> a = b;
  cmp_anti : forall a b, cmp b a = CompOpp (cmp a b);
  cmp_lt_trans : forall a b c, cmp a b = Lt -> cmp b c = Lt -> cmp a c = Lt;
}.

Lemma cmp_refl `{Ord K} (a : K) : cmp a a = Eq.
Proof. by apply cmp_eq. Qed.

Lemma cmp_lt_ne `{Ord K} (a b : K) : cmp a b = Lt -> a <> b.
Proof. intros Hc ->. by rewrite cmp_refl in Hc. Qed.

Lemma cmp_gt_lt `{Ord K} (a b : K) : cmp a b = Gt -> cmp b a = Lt.
Proof. intros Hc. by rewrite cmp_anti, Hc. Qed.

#[export] Instance Z_ord : Ord Z.
Proof.
  refine {| cmp := Z.compare |}.
  - apply Z.compare_eq_iff.
  - intros a b. by rewrite <- Z.compare_antisym.
  - intros a b c. rewrite !Z.compare_lt_iff. lia.
Defined.

Lemma string_compare_lt_trans a b c :
  String.compare a b = Lt -> String.compare b c = Lt -> String.compare a c = Lt.
Proof.
  revert b c. induction a as [|x a IH]; intros [|y b] [|z c]; simpl; try done.
  unfold Ascii.compare.
  destruct (N.compare_spec (Ascii.N_of_ascii x) (Ascii.N_of_ascii y)) as [E1|E1|E1];
    destruct (N.compare_spec (Ascii.N_of_ascii y) (Ascii.N_of_ascii z)) as [E2|E2|E2];
    intros H1 H2; try done;
    destruct (N.compare_spec (Ascii.N_of_ascii x) (Ascii.N_of_ascii z)) as [E3|E3|E3];
    try done; try lia; eauto.
Qed.

(** [str]'s order is the lexicographic order of its UTF-8 bytes. *)
#[export] Instance string_ord : Ord string.
Proof.
  refine {| cmp := String.compare |}.
  - intros a b. split; [apply String.compare_eq_iff|]. intros ->.
    pose proof (String.compare_antisym b b) as E.
    by destruct (String.compare b b).
  - intros a b. rewrite String.compare_antisym. done.
  - apply string_compare_lt_trans.
Defined.

(** ** BTreeMap

    A finite map as the strictly ascending list of its entries: iteration
    order is key order, as for [std::collections::BTreeMap]. *)

Definition BTreeMap (K V : Type) : Type := list (K * V).

Section btree.
Context {K V : Type} {HO : Ord K}.

Fixpoint bt_get (m : BTreeMap K V) (k : K) : option V :=
  match m with
  | [] => None
  | (k', v) :: m => match cmp k k' with Eq => Some v | _ => bt_get m k end
  end.

Fixpoint bt_insert (k : K) (v : V) (m : BTreeMap K V) : BTreeMap K V :=
  match m with
  | [] => [(k, v)]
  | (k', v') :: m' =>
      match cmp k k' with
      | Lt => (k, v) :: m
      | Eq => (k, v) :: m'
      | Gt => (k', v') :: bt_insert k v m'
      end
  end.

Fixpoint bt_remove (k : K) (m : BTreeMap K V) : BTreeMap K V :=
  match m with
  | [] => []
  | (k', v) :: m' => match cmp k k' with Eq => bt_remove k m' | _ => (k', v) :: bt_remove k m' end
  end.

Definition bt_contains (m : BTreeMap K V) (k : K) : bool :=
  match bt_get m k with Some _ => true | None => false end.

Definition bt_keys (m : BTreeMap K V) : list K := map fst m.
Definition bt_values (m : BTreeMap K V) : list V := map snd m.

(** [FromIterator]: a later entry replaces an earlier one with its key. *)
Definition bt_from_iter (l : list (K * V)) : BTreeMap K V :=
  fold_left (fun m kv => bt_insert kv.1 kv.2 m) l [].

Definition bt_lt (a b : K * V) : Prop := cmp a.1 b.1 = Lt.
Definition bt_wf (m : BTreeMap K V) : Prop := StronglySorted bt_lt m.

Lemma bt_get_insert_eq k v m : bt_get (bt_insert k v m) k = Some v.
Proof.
  induction m as [|[k' v'] m IH]; simpl; [by rewrite cmp_refl|].
  destruct (cmp k k') eqn:E; simpl; rewrite ?cmp_refl, ?E; done.
Qed.

Lemma bt_get_insert_ne k j v m : k <> j -> bt_get (bt_insert k v m) j = bt_get m j.
Proof.
  intros Hne. induction m as [|[k' v'] m IH]; simpl.
  - destruct (cmp j k) eqn:E; try done. apply cmp_eq in E. congruence.
  - destruct (cmp k k') eqn:E; simpl.
    + apply cmp_eq in E as <-. destruct (cmp j k) eqn:E; try done.
      apply cmp_eq in E. congruence.
    + destruct (cmp j k) eqn:E2; try done. apply cmp_eq in E2. congruence.
    + by rewrite IH.
Qed.

Lemma bt_get_insert `{EqDecision K} k j v m :
  bt_get (bt_insert k v m) j = if decide (k = j) then Some v else bt_get m j.
Proof.
  case_decide; subst; auto using bt_get_insert_eq, bt_get_insert_ne.
Qed.

Lemma bt_get_remove_eq k m : bt_get (bt_remove k m) k = None.
Proof.
  induction m as [|[k' v'] m IH]; simpl; [done|].
  destruct (cmp k k') eqn:E; simpl; rewrite ?E; done.
Qed.

Lemma bt_get_remove_ne k j m : k <> j -> bt_get (bt_remove k m) j = bt_get m j.
Proof.
  intros Hne. induction m as [|[k' v'] m IH]; simpl; [done|].
  destruct (cmp k k') eqn:E; simpl; rewrite ?IH; try done.
  apply cmp_eq in E as <-. destruct (cmp j k) eqn:E; try done.
  apply cmp_eq in E. congruence.
Qed.

Lemma bt_get_elem k v m : bt_get m k = Some v -> (k, v) ∈ m.
Proof.
  induction m as [|[k' v'] m IH]; simpl; [done|].
  destruct (cmp k k') eqn:E; intros Hk; try (right; by apply IH).
  apply cmp_eq in E as ->. simplify_eq. left.
Qed.

Lemma bt_insert_elem k v m kv : kv ∈ bt_insert k v m -> kv = (k, v) \/ kv ∈ m.
Proof.
  induction m as [|[k' v'] m IH]; simpl.
  - rewrite list_elem_of_singleton. auto.
  - destruct (cmp k k'); rewrite ?elem_of_cons; intuition auto.
Qed.

Lemma bt_remove_elem k m kv : kv ∈ bt_remove k m -> kv ∈ m.
Proof.
  induction m as [|[k' v'] m IH]; simpl; [done|].
  destruct (cmp k k'); rewrite ?elem_of_cons; intuition auto.
Qed.

Lemma bt_wf_nil : bt_wf [].
Proof. constructor. Qed.

Lemma bt_wf_insert k v m : bt_wf m -> bt_wf (bt_insert k v m).
Proof.
  unfold bt_wf. induction 1 as [|[k' v'] m Hs IH Hf]; simpl.
  { repeat constructor. }
  destruct (cmp k k') eqn:E.
  - apply cmp_eq in E as ->. by constructor.
  - constructor; [by constructor|]. constructor; [done|].
    eapply Forall_impl; [exact Hf|]. intros [j w] Hj. unfold bt_lt in *; simpl in *.
    by eapply cmp_lt_trans.
  - constructor; [done|]. apply Forall_forall. intros kv Hkv.
    apply bt_insert_elem in Hkv as [->|Hkv].
    + by apply cmp_gt_lt.
    + rewrite Forall_forall in Hf. by apply Hf.
Qed.

Lemma bt_wf_remove k m : bt_wf m -> bt_wf (bt_remove k m).
Proof.
  unfold bt_wf. induction 1 as [|[k' v'] m Hs IH Hf]; simpl; [constructor|].
  destruct (cmp k k'); try done; constructor; try done;
    apply Forall_forall; intros kv Hkv%bt_remove_elem; rewrite Forall_forall in Hf; by apply Hf.
Qed.

Lemma bt_wf_from_iter l : bt_wf (bt_from_iter l).
Proof.
  unfold bt_from_iter. assert (Hg : bt_wf (@nil (K * V))) by apply bt_wf_nil.
  revert Hg. generalize (@nil (K * V)) as m.
  induction l as [|[k v] l IH]; intros m Hm; simpl; [done|].
  apply IH. by apply bt_wf_insert.
Qed.

Lemma bt_wf_lt_None k v m : bt_wf ((k, v) :: m) -> bt_get m k = None.
Proof.
  inversion_clear 1 as [|? ? _ Hf]. induction m as [|[k' v'] m IH]; simpl; [done|].
  inversion_clear Hf as [|? ? Hlt Hf']. unfold bt_lt in Hlt; simpl in Hlt.
  rewrite Hlt. by apply IH.
Qed.

Lemma bt_elem_get k v m : bt_wf m -> (k, v) ∈ m -> bt_get m k = Some v.
Proof.
  induction m as [|[k' v'] m IH]; [by rewrite elem_of_nil|].
  intros Hwf Hin. apply elem_of_cons in Hin as [[= <- <-]|Hin].
  - simpl. by rewrite cmp_refl.
  - inversion_clear Hwf as [|? ? Hs Hf]. simpl.
    rewrite Forall_forall in Hf. pose proof (Hf _ Hin) as Hlt. unfold bt_lt in Hlt; simpl in Hlt.
    rewrite (cmp_anti k'), Hlt. simpl. by apply IH.
Qed.

Lemma bt_keys_elem k m : bt_wf m -> k ∈ bt_keys m <-> is_Some (bt_get m k).
Proof.
  intros Hwf. unfold bt_keys. rewrite list_elem_of_fmap. split.
  - intros ([k' v] & -> & Hin). exists v. by apply bt_elem_get.
  - intros [v Hv]. exists (k, v). split; [done|]. by apply bt_get_elem.
Qed.

(** Two maps with the same lookups are the same list of entries. *)
Lemma bt_ext m1 m2 :
  bt_wf m1 -> bt_wf m2 -> (forall k, bt_get m1 k = bt_get m2 k) -> m1 = m2.
Proof.
  revert m2. induction m1 as [|[k1 v1] m1 IH]; intros [|[k2 v2] m2] H1 H2 Heq.
  - done.
  - specialize (Heq k2). simpl in Heq. by rewrite cmp_refl in Heq.
  - specialize (Heq k1). simpl in Heq. by rewrite cmp_refl in Heq.
  - pose proof (bt_wf_lt_None _ _ _ H1) as N1. pose proof (bt_wf_lt_None _ _ _ H2) as N2.
    inversion H1 as [|? ? S1 F1]; inversion H2 as [|? ? S2 F2]; subst.
    pose proof (Heq k1) as E1. pose proof (Heq k2) as E2. simpl in E1, E2.
    rewrite cmp_refl in E1. rewrite cmp_refl in E2.
    assert (k1 = k2) as ->.
    { destruct (cmp k1 k2) eqn:C; [by apply cmp_eq| |].
      - symmetry in E1. apply bt_get_elem in E1. rewrite Forall_forall in F2.
        apply F2 in E1. unfold bt_lt in E1; simpl in E1.
        rewrite cmp_anti, C in E1. done.
      - rewrite (cmp_anti k1), C in E2. simpl in E2. apply bt_get_elem in E2.
        rewrite Forall_forall in F1. apply F1 in E2. unfold bt_lt in E2; simpl in E2. congruence. }
    rewrite cmp_refl in E1. injection E1 as ->. f_equal.
    apply IH; [done..|]. intros k. specialize (Heq k). simpl in Heq.
    destruct (cmp k k2) eqn:C; try done. apply cmp_eq in C as ->. congruence.
Qed.

Lemma bt_insert_id k v m : bt_wf m -> bt_get m k = Some v -> bt_insert k v m = m.
Proof.
  intros Hwf Hk. apply bt_ext; [by apply bt_wf_insert | done |]. intros j.
  destruct (cmp k j) eqn:E.
  { apply cmp_eq in E as <-. by rewrite bt_get_insert_eq. }
  all: rewrite bt_get_insert_ne; [done|]; intros ->; by rewrite cmp_refl in E.
Qed.
End btree.

#[export] Hint Resolve bt_wf_nil bt_wf_insert bt_wf_remove bt_wf_from_iter : matter.
#[export] Hint Rewrite @bt_get_insert_eq @bt_get_remove_eq : matter.

(** ** Strings

    A Rust [str] is a [string] of its UTF-8 bytes; the functions below are the
    methods of [str] and [char] the program calls. *)

Abbreviation byte := Ascii.ascii (only parsing).

Definition byte_of (c : byte) : Z := Z.of_N (Ascii.N_of_ascii c).
Definition byte_at (n : Z) : byte := Ascii.ascii_of_N (Z.to_N n).

Definition str_len (s : string) : Z := Z.of_nat (String.length s).
Definition str_is_empty (s : string) : bool := match s with EmptyString => true | _ => false end.

Definition starts_with (p s : string) : bool := String.prefix p s.

Fixpoint strip_prefix (p s : string) : option string :=
  match p, s with
  | EmptyString, _ => Some s
  | String a p, String b s => if Ascii.eqb a b then strip_prefix p s else None
  | String _ _, EmptyString => None
  end.

Fixpoint str_rev_app (s acc : string) : string :=
  match s with EmptyString => acc | String c s => str_rev_app s (String c acc) end.
Definition str_rev (s : string) : string := str_rev_app s "".

Definition strip_suffix (p s : string) : option string :=
  str_rev <$> strip_prefix (str_rev p) (str_rev s).
Definition ends_with (p s : string) : bool :=
  match strip_suffix p s with Some _ => true | None => false end.

(** [split_once(c)], [rsplit_once(c)] and [split(c)] for an ASCII [c]. *)
Fixpoint split_once (c : byte) (s : string) : option (string * string) :=
  match s with
  | EmptyString => None
  | String b s' =>
      if Ascii.eqb b c then Some (EmptyString, s')
      else match split_once c s' with Some (l, r) => Some (String b l, r) | None => None end
  end.

Fixpoint rsplit_once (c : byte) (s : string) : option (string * string) :=
  match s with
  | EmptyString => None
  | String b s' =>
      match rsplit_once c s' with
      | Some (l, r) => Some (String b l, r)
      | None => if Ascii.eqb b c then Some (EmptyString, s') else None
      end
  end.

Fixpoint split (c : byte) (s : string) : list string :=
  match s with
  | EmptyString => [EmptyString]
  | String b s' =>
      if Ascii.eqb b c then EmptyString :: split c s'
      else match split c s' with w :: ws => String b w :: ws | [] => [String b EmptyString] end
  end.

(** [matches(c).count()]. *)
Fixpoint count_byte (c : byte) (s : string) : nat :=
  match s with
  | EmptyString => O
  | String b s' => if Ascii.eqb b c then S (count_byte c s') else count_byte c s'
  end.

#[global] Arguments split_once c%_char_scope s%_string_scope.
#[global] Arguments rsplit_once c%_char_scope s%_string_scope.
#[global] Arguments split c%_char_scope s%_string_scope.
#[global] Arguments count_byte c%_char_scope s%_string_scope.

Definition is_digit (c : byte) : bool := (48 <=? byte_of c) && (byte_of c <=? 57).

Definition lower_byte (c : byte) : byte :=
  if (65 <=? byte_of c) && (byte_of c <=? 90) then byte_at (byte_of c + 32) else c.

Fixpoint str_map (f : byte -> byte) (s : string) : string :=
  match s with EmptyString => EmptyString | String c s => String (f c) (str_map f s) end.

Fixpoint str_forall (f : byte -> bool) (s : string) : bool :=
  match s with EmptyString => true | String c s => f c && str_forall f s end.

Definition to_ascii_lowercase (s : string) : string := str_map lower_byte s.
Definition eq_ignore_ascii_case (a b : string) : bool :=
  String.eqb (to_ascii_lowercase a) (to_ascii_lowercase b).

(** The value of a digit in a radix up to 16, either case. *)
Definition digit_value (radix : Z) (c : byte) : option Z :=
  let n := byte_of c in
  let v := if (48 <=? n) && (n <=? 57) then n - 48
           else if (97 <=? n) && (n <=? 102) then n - 87
           else if (65 <=? n) && (n <=? 70) then n - 55
           else 99 in
  if v <? radix then Some v else None.

Definition is_ascii_hexdigit (c : byte) : bool :=
  match digit_value 16 c with Some _ => true | None => false end.

Fixpoint digits_value (radix acc : Z) (s : string) : option Z :=
  match s with
  | EmptyString => Some acc
  | String c s =>
      match digit_value radix c with
      | Some d => digits_value radix (acc * radix + d) s
      | None => None
      end
  end.

(** [uN::from_str_radix] and [str::parse::<uN>()]: an optional [+], at least
    one digit, and a value that fits. *)
Definition from_str_radix (radix bits : Z) (s : string) : option Z :=
  let digits := match s with
                | String c (String d ds) => if Ascii.eqb c "+"%char then String d ds else s
                | _ => s
                end in
  match digits with
  | EmptyString => None
  | _ => match digits_value radix 0 digits with Some n => try_from_u bits n | None => None end
  end.

Definition parse_u (bits : Z) (s : string) : option Z := from_str_radix 10 bits s.

(** [chars()]: a lead byte with its continuation bytes. *)
Definition is_cont (c : byte) : bool := (128 <=? byte_of c) && (byte_of c <? 192).

Fixpoint chars (s : string) : list string :=
  match s with
  | EmptyString => []
  | String b s' =>
      match chars s' with
      | String c cs :: rest =>
          if is_cont c then String b (String c cs) :: rest
          else String b EmptyString :: String c cs :: rest
      | l => String b EmptyString :: l
      end
  end.

Definition str_concat (l : list string) : string := foldr String.append "" l.

(** [is_char_boundary]. *)
Definition is_char_boundary (s : string) (i : nat) : bool :=
  match i with
  | O => true
  | _ => if Nat.eqb i (String.length s) then true
         else match String.get i s with Some c => negb (is_cont c) | None => false end
  end.

(** [char::is_whitespace], on the UTF-8 encoding of the character. *)
Definition bytes_str (l : list Z) : string :=
  foldr (fun n s => String (byte_at n) s) EmptyString l.

Definition whitespace_chars : list string :=
  map bytes_str
    [[9]; [10]; [11]; [12]; [13]; [32]; [0xC2; 0x85]; [0xC2; 0xA0]; [0xE1; 0x9A; 0x80];
     [0xE2; 0x80; 0x80]; [0xE2; 0x80; 0x81]; [0xE2; 0x80; 0x82]; [0xE2; 0x80; 0x83];
     [0xE2; 0x80; 0x84]; [0xE2; 0x80; 0x85]; [0xE2; 0x80; 0x86]; [0xE2; 0x80; 0x87];
     [0xE2; 0x80; 0x88]; [0xE2; 0x80; 0x89]; [0xE2; 0x80; 0x8A]; [0xE2; 0x80; 0xA8];
     [0xE2; 0x80; 0xA9]; [0xE2; 0x80; 0xAF]; [0xE2; 0x81; 0x9F]; [0xE3; 0x80; 0x80]].

Definition is_whitespace (ch : string) : bool := existsb (String.eqb ch) whitespace_chars.

Fixpoint drop_while {A} (p : A -> bool) (l : list A) : list A :=
  match l with [] => [] | a :: l' => if p a then drop_while p l' else l end.

(** [str::trim]. *)
Definition trim_chars (l : list string) : list string :=
  rev (drop_while is_whitespace (rev (drop_while is_whitespace l))).
Definition trim (s : string) : string := str_concat (trim_chars (chars s)).

(** [format!("{:02X}")] and [{:016X}]: upper- or lower-case hexadecimal,
    zero-padded to a width. *)
Definition hex_digit (upper : bool) (d : Z) : byte :=
  byte_at (if d <? 10 then 48 + d else if upper then 55 + d else 87 + d).

Fixpoint hex_digits (upper : bool) (width : nat) (n : Z) : string :=
  match width with
  | O => EmptyString
  | S w => String (hex_digit upper (n / 16 ^ Z.of_nat w mod 16)) (hex_digits upper w n)
  end.

(** [format!("{n}")]. *)
Definition show (n : Z) : string := pretty n.

Definition str_contains (c : byte) (s : string) : bool :=
  match split_once c s with Some _ => true | None => false end.

(** [{s:?}] of a [str]: quoted, with the ASCII control characters, the quote
    and the backslash escaped (characters outside ASCII are kept, as Rust keeps
    the printable ones). *)
Definition dquote : string := String (byte_at 34) EmptyString.
Definition backslash : string := String (byte_at 92) EmptyString.

Fixpoint trim_zeros (s : string) : string :=
  match s with
  | EmptyString => s
  | String c r =>
      if Ascii.eqb c "0"%char && negb (str_is_empty r) then trim_zeros r else s
  end.

Definition debug_byte (c : byte) : string :=
  let n := byte_of c in
  if n =? 0 then backslash +:+ "0"
  else if n =? 9 then backslash +:+ "t"
  else if n =? 10 then backslash +:+ "n"
  else if n =? 13 then backslash +:+ "r"
  else if (n =? 34) || (n =? 92) then backslash +:+ String c EmptyString
  else if (n <? 32) || (n =? 127) then backslash +:+ "u{" +:+ trim_zeros (hex_digits false 2 n) +:+ "}"
  else String c EmptyString.

Fixpoint debug_body (s : string) : string :=
  match s with EmptyString => EmptyString | String c s => debug_byte c +:+ debug_body s end.

Definition debug_str (s : string) : string := dquote +:+ debug_body s +:+ dquote.

#[global] Arguments String.append !_ _ / : simpl nomatch.

Lemma str_app_assoc (a b c : string) : (a +:+ b) +:+ c = a +:+ (b +:+ c).
Proof. induction a; simpl; congruence. Qed.

Lemma str_app_nil_r (s : string) : s +:+ "" = s.
Proof. induction s; simpl; congruence. Qed.

Lemma str_concat_app l1 l2 : str_concat (l1 ++ l2) = str_concat l1 +:+ str_concat l2.
Proof. induction l1; simpl; [done|]. by rewrite IHl1, str_app_assoc. Qed.

Lemma chars_concat s : str_concat (chars s) = s.
Proof.
  induction s as [|b s IH]; simpl; [done|].
  destruct (chars s) as [|[|c cs] rest] eqn:E; simpl in *; try by rewrite <- IH.
  case_match; simpl; by rewrite <- IH.
Qed.

Lemma split_once_count c s : split_once c s = None <-> count_byte c s = O.
Proof.
  induction s as [|b s IH]; simpl; [done|].
  destruct (Ascii.eqb b c); [done|].
  destruct (split_once c s) as [[? ?]|]; [split; [done|] | done].
  intros E. by apply IH in E.
Qed.

Lemma split_once_Some c s l r :
  split_once c s = Some (l, r) -> s = l +:+ String c r /\ count_byte c l = O.
Proof.
  revert l r. induction s as [|b s IH]; intros l r; simpl; [done|].
  destruct (Ascii.eqb b c) eqn:E.
  - apply Ascii.eqb_eq in E as ->. intros [= <- <-]. done.
  - destruct (split_once c s) as [[l' r']|]; [|done]. intros [= <- <-].
    destruct (IH l' r') as [-> ?]; [done|]. simpl. by rewrite E.
Qed.

Lemma rsplit_once_None c s : rsplit_once c s = None <-> count_byte c s = O.
Proof.
  induction s as [|b s IH]; simpl; [done|].
  destruct (rsplit_once c s) as [[? ?]|], (Ascii.eqb b c); try done.
  split; [done|]. intros E. by apply IH in E.
Qed.

Lemma rsplit_once_Some c s l r :
  rsplit_once c s = Some (l, r) -> s = l +:+ String c r /\ count_byte c r = O.
Proof.
  revert l r. induction s as [|b s IH]; intros l r; simpl; [done|].
  destruct (rsplit_once c s) as [[l' r']|] eqn:E1.
  - intros [= <- <-]. destruct (IH l' r') as [-> ?]; [done|]. done.
  - destruct (Ascii.eqb b c) eqn:E; [|done]. apply Ascii.eqb_eq in E as ->.
    intros [= <- <-]. apply rsplit_once_None in E1. done.
Qed.

Lemma count_byte_app c a b : count_byte c (a +:+ b) = (count_byte c a + count_byte c b)%nat.
Proof.
  induction a as [|x a IH]; simpl; [done|]. destruct (Ascii.eqb x c); lia.
Qed.

Lemma split_once_app c l r :
  count_byte c l = O -> split_once c (l +:+ String c r) = Some (l, r).
Proof.
  induction l as [|b l IH]; simpl; [by rewrite Ascii.eqb_refl|].
  destruct (Ascii.eqb b c); [done|]. intros Hl. by rewrite IH.
Qed.

Lemma rsplit_once_app c l r :
  count_byte c r = O -> rsplit_once c (l +:+ String c r) = Some (l, r).
Proof.
  intros Hr. apply rsplit_once_None in Hr.
  induction l as [|b l IH]; simpl; [by rewrite Hr, Ascii.eqb_refl|]. by rewrite IH.
Qed.

Lemma parse_u_range bits s n : parse_u bits s = Some n -> 0 <= n < 2 ^ bits.
Proof.
  unfold parse_u, from_str_radix. intros H.
  repeat (case_match; simplify_eq/=); by apply try_from_u_Some in H as [-> ?].
Qed.

(** ** Printing and parsing decimal numbers *)

Lemma digit_value_pretty d :
  (d < 10)%N -> digit_value 10 (pretty_N_char d) = Some (Z.of_N d) /\ is_digit (pretty_N_char d) = true.
Proof.
  intros Hd.
  assert (d = 0 \/ d = 1 \/ d = 2 \/ d = 3 \/ d = 4 \/ d = 5 \/ d = 6 \/ d = 7 \/ d = 8 \/ d = 9)%N
    as Hc by lia.
  destruct_or! Hc; subst; vm_compute; done.
Qed.

Lemma digits_value_pretty_go x s :
  digits_value 10 0 (pretty_N_go x s) = digits_value 10 (Z.of_N x) s /\
  (str_forall is_digit s = true -> str_forall is_digit (pretty_N_go x s) = true).
Proof.
  split; revert s; induction (N.lt_wf_0 x) as [x _ IH]; intros s.
  - destruct (decide (x = 0)%N) as [->|]; [by rewrite pretty_N_go_0|].
    rewrite pretty_N_go_step by lia. rewrite IH by (apply N.div_lt; lia). simpl.
    destruct (digit_value_pretty (x mod 10)) as [-> _]; [by apply N.mod_lt|].
    f_equal. pose proof (N.div_mod x 10). lia.
  - destruct (decide (x = 0)%N) as [->|]; [by rewrite pretty_N_go_0|]. intros Hs.
    rewrite pretty_N_go_step by lia. apply IH; [apply N.div_lt; lia|]. simpl.
    destruct (digit_value_pretty (x mod 10)) as [_ ->]; [by apply N.mod_lt|]. done.
Qed.

Lemma show_nonneg n : 0 <= n -> show n = pretty (Z.to_N n).
Proof. by destruct n. Qed.

Lemma show_digits n :
  0 <= n -> digits_value 10 0 (show n) = Some n /\ str_forall is_digit (show n) = true.
Proof.
  intros Hn. rewrite show_nonneg by done. unfold pretty, pretty_N. case_decide as E.
  - assert (n = 0) as -> by lia. done.
  - destruct (digits_value_pretty_go (Z.to_N n) "") as (-> & Hd). simpl.
    rewrite Z2N.id by done. auto.
Qed.

Lemma show_nonempty n : show n <> "".
Proof.
  intros E. destruct (decide (0 <= n)) as [Hn|Hn].
  - destruct (show_digits n Hn) as [Hv _]. rewrite E in Hv.
    assert (n = 0) as -> by (simpl in Hv; congruence). done.
  - destruct n; [lia | lia | discriminate E].
Qed.

Lemma str_forall_count f c s : str_forall f s = true -> f c = false -> count_byte c s = O.
Proof.
  intros Hs Hc. induction s as [|b s IH]; simpl in *; [done|].
  apply andb_true_iff in Hs as [Hb Hs]. destruct (Ascii.eqb b c) eqn:E; [|by apply IH].
  apply Ascii.eqb_eq in E as ->. congruence.
Qed.

Lemma count_byte_show c n : 0 <= n -> is_digit c = false -> count_byte c (show n) = O.
Proof. intros Hn. apply str_forall_count. by apply show_digits. Qed.

(** Parsing a printed number gives it back, when it fits. *)
Lemma parse_u_show bits n : 0 <= n < 2 ^ bits -> parse_u bits (show n) = Some n.
Proof.
  intros Hn. destruct (show_digits n) as [Hv Hd]; [lia|].
  pose proof (show_nonempty n) as Hne.
  unfold parse_u, from_str_radix.
  destruct (show n) as [|c s] eqn:E; [done|]. simpl in Hd. apply andb_true_iff in Hd as [Hc _].
  assert (Ascii.eqb c "+"%char = false) as Hp.
  { destruct (Ascii.eqb c "+"%char) eqn:E2; [|done]. apply Ascii.eqb_eq in E2 as ->. done. }
  assert (match String c s with
          | String c (String d ds) => if Ascii.eqb c "+"%char then String d ds else String c s
          | _ => String c s end = String c s) as ->.
  { destruct s; [done|]. by rewrite Hp. }
  rewrite Hv. apply try_from_u_Some. done.
Qed.

Lemma show_inj a b : show a = show b -> a = b.
Proof. apply pretty_Z_inj. Qed.

(** ** UTF-8 validity ([std::str::from_utf8]) *)

Definition in_range (lo hi : Z) (c : byte) : bool := (lo <=? byte_of c) && (byte_of c <=? hi).

(** The number of continuation bytes a lead byte announces, with the range of
    the first of them. *)
Definition utf8_lead (c : byte) : option (nat * Z * Z) :=
  if in_range 0 0x7F c then Some (0%nat, 0, 0)
  else if in_range 0xC2 0xDF c then Some (1%nat, 0x80, 0xBF)
  else if in_range 0xE0 0xE0 c then Some (2%nat, 0xA0, 0xBF)
  else if in_range 0xED 0xED c then Some (2%nat, 0x80, 0x9F)
  else if in_range 0xE1 0xEF c then Some (2%nat, 0x80, 0xBF)
  else if in_range 0xF0 0xF0 c then Some (3%nat, 0x90, 0xBF)
  else if in_range 0xF1 0xF3 c then Some (3%nat, 0x80, 0xBF)
  else if in_range 0xF4 0xF4 c then Some (3%nat, 0x80, 0x8F)
  else None.

(** [pending]: continuation bytes still expected, and the range of the next. *)
Fixpoint utf8_scan (pending : nat) (lo hi : Z) (s : string) : bool :=
  match s with
  | EmptyString => match pending with O => true | _ => false end
  | String c s =>
      match pending with
      | O => match utf8_lead c with Some (n, lo, hi) => utf8_scan n lo hi s | None => false end
      | S n => in_range lo hi c && utf8_scan n 0x80 0xBF s
      end
  end.

Definition utf8_valid (s : string) : bool := utf8_scan 0 0 0 s.

(** ** Stable sorting ([slice::sort_by_key]) *)

Section sort.
Context {A : Type} (key : A -> Z).

Fixpoint insert_by_key (a : A) (l : list A) : list A :=
  match l with
  | [] => [a]
  | b :: l' => if key a <=? key b then a :: l else b :: insert_by_key a l'
  end.

Definition sort_by_key (l : list A) : list A := foldr insert_by_key [] l.

Definition key_le (a b : A) : Prop := key a <= key b.

Lemma insert_by_key_perm a l : insert_by_key a l ≡ₚ a :: l.
Proof.
  induction l as [|b l IH]; simpl; [done|]. destruct (key a <=? key b); [done|].
  rewrite IH. apply Permutation_swap.
Qed.

Lemma sort_by_key_perm l : sort_by_key l ≡ₚ l.
Proof.
  induction l as [|a l IH]; simpl; [done|]. by rewrite insert_by_key_perm, IH.
Qed.

Lemma insert_by_key_sorted a l :
  StronglySorted key_le l -> StronglySorted key_le (insert_by_key a l).
Proof.
  induction 1 as [|b l Hs IH Hf]; simpl; [repeat constructor|].
  destruct (key a <=? key b) eqn:E.
  - apply Z.leb_le in E. constructor; [by constructor|]. constructor; [done|].
    eapply Forall_impl; [exact Hf|]. intros c Hc. unfold key_le in *. lia.
  - apply Z.leb_gt in E. constructor; [done|]. rewrite insert_by_key_perm.
    constructor; [unfold key_le; lia | done].
Qed.

Lemma sort_by_key_sorted l : StronglySorted key_le (sort_by_key l).
Proof. induction l; simpl; [constructor | by apply insert_by_key_sorted]. Qed.
End sort.

(** ** The characters of a string *)

Definition lead_char (c : string) : Prop :=
  match c with String b cs => is_cont b = false | EmptyString => False end.

Definition tail_cont (c : string) : Prop :=
  match c with String b cs => str_forall is_cont cs = true | EmptyString => False end.

(** What [chars] returns: one lead byte per character, except that a string
    starting inside a character keeps its continuation bytes first. *)
Definition chars_ok (l : list string) : Prop :=
  Forall tail_cont l /\ Forall lead_char (drop 1 l).

Lemma chars_shape s : chars_ok (chars s).
Proof.
  unfold chars_ok. induction s as [|b s [IH1 IH2]]; simpl; [done|].
  destruct (chars s) as [|[|c cs] rest]; simpl in *.
  - repeat constructor.
  - apply Forall_cons in IH1 as [[] _].
  - apply Forall_cons in IH1 as [H1 IH1]. simpl in H1. destruct (is_cont c) eqn:E; simpl.
    + split; [|done]. constructor; [|done]. simpl. by rewrite E, H1.
    + rewrite drop_0 in *. split; [|by constructor]. constructor; [done|]. by constructor.
Qed.

Lemma chars_lead_app c l :
  tail_cont c -> match chars (str_concat l) with [] => True | d :: _ => lead_char d end ->
  chars (c +:+ str_concat l) = c :: chars (str_concat l).
Proof.
  destruct c as [|b cs]; [done|]. simpl. intros Hc Hl. revert b.
  induction cs as [|x cs IH]; intros b; simpl.
  - destruct (chars (str_concat l)) as [|[|y ys] rest] eqn:E; try done.
    simpl in Hl. by rewrite Hl.
  - simpl in Hc. apply andb_true_iff in Hc as [Hx Hc]. rewrite (IH Hc x). by rewrite Hx.
Qed.

Lemma chars_str_concat l : chars_ok l -> chars (str_concat l) = l.
Proof.
  unfold chars_ok. induction l as [|c l IH]; intros [H1 H2]; [done|]. simpl in *.
  apply Forall_cons in H1 as [Hc H1]. rewrite drop_0 in H2.
  assert (E : chars (str_concat l) = l).
  { apply IH. split; [done|]. by apply Forall_drop. }
  rewrite chars_lead_app; rewrite ?E; [done..|]. destruct H2; done.
Qed.

Lemma chars_take n s : chars (str_concat (take n (chars s))) = take n (chars s).
Proof.
  apply chars_str_concat. destruct (chars_shape s) as [H1 H2]. split; [by apply Forall_take|].
  destruct n; [done|]. destruct (chars s); [done|]. simpl in *. rewrite drop_0 in *. by apply Forall_take.
Qed.

Lemma chars_nonempty s : s <> "" -> chars s <> [].
Proof. destruct s as [|b s]; [done|]. intros _. simpl. repeat case_match; done. Qed.

Lemma str_len_concat l : str_len (str_concat l) = foldr (fun c n => str_len c + n) 0 l.
Proof.
  unfold str_len. induction l as [|c l IH]; simpl; [done|]. rewrite <- IH.
  assert (E : forall a b, String.length (a +:+ b) = (String.length a + String.length b)%nat).
  { induction a; simpl; intros; [done|]. by rewrite IHa. }
  rewrite E. lia.
Qed.

(** ** Sorted lists under [map] and [filter] *)

Lemma StronglySorted_map {A B} (R : A -> A -> Prop) (S : B -> B -> Prop) (f : A -> B) l :
  (forall a b, a ∈ l -> b ∈ l -> R a b -> S (f a) (f b)) -> StronglySorted R l -> StronglySorted S (map f l).
Proof.
  intros Hf. induction 1 as [|a l Hs IH Hall]; simpl; constructor.
  - apply IH. intros x y ? ?. apply Hf; by right.
  - rewrite Forall_forall in Hall. apply Forall_forall. intros ? (b & -> & Hb)%list_elem_of_fmap.
    apply Hf; [left | by right | by apply Hall].
Qed.

Lemma StronglySorted_filter {A} (R : A -> A -> Prop) (f : A -> bool) l :
  StronglySorted R l -> StronglySorted R (List.filter f l).
Proof.
  induction 1 as [|a l Hs IH Hall]; simpl; [constructor|]. destruct (f a); [|done].
  constructor; [done|]. rewrite Forall_forall in Hall. apply Forall_forall.
  intros b (Hb & _)%list_elem_of_In%filter_In. by apply Hall, list_elem_of_In.
Qed.

Lemma filter_of_map {A B} (p : B -> bool) (f : A -> B) l :
  List.filter p (map f l) = map f (List.filter (fun a => p (f a)) l).
Proof. induction l as [|a l IH]; simpl; [done|]. destruct (p (f a)); simpl; by rewrite IH. Qed.

(** ** Binary search ([slice::binary_search_by_key])

    [base] and [size] delimit the candidates; the loop halves [size] until one
    is left. *)

Section binary_search.
Context {A : Type} (key : A -> Z) (l : list A).

Fixpoint bs_loop (fuel : nat) (k : Z) (base size : nat) : nat :=
  match fuel with
  | O => base
  | S fuel =>
      if (size <=? 1)%nat then base
      else
        let half := Nat.div2 size in
        let mid := (base + half)%nat in
        let base' := match l !! mid with Some a => if key a >? k then base else mid | None => base end in
        bs_loop fuel k base' (size - half)
  end.

Definition binary_search (k : Z) : option nat :=
  let base := bs_loop (length l) k 0 (length l) in
  match l !! base with Some a => if key a =? k then Some base else None | None => None end.

Definition ascending : Prop := StronglySorted Z.lt (map key l).

Lemma ascending_lookup i j a b :
  ascending -> l !! i = Some a -> l !! j = Some b -> (i < j)%nat -> key a < key b.
Proof.
  unfold ascending. intros Hs. revert i j. induction l as [|x t IH]; intros i j Ha Hb Hij; [done|].
  simpl in Hs. inversion Hs as [|? ? Hs' Hf]; subst. destruct i as [|i], j as [|j]; simpl in *; try lia.
  - simplify_eq. rewrite Forall_forall in Hf. apply Hf, list_elem_of_fmap. exists b.
    split; [done|]. by eapply list_elem_of_lookup_2.
  - by eapply (IH Hs' i j); [..|lia].
Qed.

Lemma bs_loop_spec fuel k base size i a :
  ascending -> (size <= fuel)%nat -> (base + size <= length l)%nat ->
  l !! i = Some a -> key a = k -> (base <= i < base + size)%nat -> bs_loop fuel k base size = i.
Proof.
  intros Hs. revert base size. induction fuel as [|fuel IH]; intros base size Hf Hlen Hi Hk Hb; [lia|]. simpl.
  destruct (Nat.leb_spec size 1) as [H1|H1]; [lia|].
  assert (Hh : (0 < Nat.div2 size < size)%nat) by (pose proof (Nat.div2_odd size); destruct (Nat.odd size); cbn [Nat.b2n] in *; lia).
  destruct (lookup_lt_is_Some_2 l (base + Nat.div2 size)) as [b Hmid]; [lia|]. rewrite Hmid.
  pose proof (Zgt_cases (key b) k) as Hc. destruct (key b >? k).
  - apply IH; try done; try lia. split; [lia|].
    destruct (Nat.lt_ge_cases i (base + (size - Nat.div2 size))); [done|]. exfalso.
    destruct (decide (i = (base + Nat.div2 size)%nat)) as [->|]; [simplify_eq; lia|].
    destruct (Nat.lt_ge_cases i (base + Nat.div2 size)).
    + pose proof (Nat.div2_odd size). lia.
    + assert (key b < key a) by (eapply (ascending_lookup (base + Nat.div2 size) i); [done..|lia]). lia.
  - apply IH; try done; try lia. split; [|lia].
    destruct (Nat.lt_ge_cases i (base + Nat.div2 size)); [|done]. exfalso.
    assert (key a < key b) by (eapply (ascending_lookup i); [done..|lia]). lia.
Qed.

(** In an ascending table the search finds exactly the position of the key. *)
Lemma binary_search_spec k i :
  ascending -> binary_search k = Some i <-> exists a, l !! i = Some a /\ key a = k.
Proof.
  intros Hs. unfold binary_search. split.
  - destruct (l !! bs_loop (length l) k 0 (length l)) as [a|] eqn:E; [|done].
    destruct (Z.eqb_spec (key a) k) as [Hk|]; [|done]. intros [= <-]. by exists a.
  - intros (a & Hi & Hk). pose proof (lookup_lt_Some _ _ _ Hi).
    rewrite (bs_loop_spec (length l) k 0 (length l) i a) by (done || lia).
    rewrite Hi, Hk, Z.eqb_refl. done.
Qed.

Lemma binary_search_None k : ascending -> binary_search k = None <-> forall a, a ∈ l -> key a <> k.
Proof.
  intros Hs. split.
  - intros Hn a [i Hi]%list_elem_of_lookup Hk.
    assert (E : binary_search k = Some i) by (apply binary_search_spec; [done | by exists a]). congruence.
  - intros Hall. destruct (binary_search k) as [i|] eqn:E; [|done].
    apply binary_search_spec in E as (a & Hi & Hk); [|done]. by apply list_elem_of_lookup_2, Hall in Hi.
Qed.
End binary_search.

(** A check for [ascending] that evaluates. *)
Fixpoint ascending_from (lo : Z) (l : list Z) : bool :=
  match l with [] => true | k :: l => (lo <? k) && ascending_from k l end.

Lemma ascending_from_sorted lo l :
  ascending_from lo l = true -> StronglySorted Z.lt l /\ Forall (Z.lt lo) l.
Proof.
  revert lo. induction l as [|k l IH]; intros lo Hl; simpl in *; [by repeat constructor|].
  z_bools. destruct (IH k) as [Hs Hf]; [done|]. split; [by constructor|]. constructor; [done|].
  eapply Forall_impl; [exact Hf|]. simpl. lia.
Qed.
