(* ===== verification/Json.v ===== *)
(** * JSON values

    [serde_json::Value] as the program uses it: the data type, the accessors
    the handlers call, and the text functions [to_string] and [from_str] as an
    interface ([SerdeJson]).  [serde_json] is built without [preserve_order]
    (Cargo.toml), so [Map<String, Value>] is a [BTreeMap]; numbers are the three
    cases of [serde_json::Number]; [f64] is IEEE binary64 as [spec_float]. *)

From Stdlib Require Import Floats.SpecFloat.
From S2P Require Import Prelude.

Inductive number : Type :=
| PosInt (n : Z)      (* a u64 *)
| NegInt (z : Z)      (* a negative i64 *)
| Float (f : spec_float).

#[warnings="-register-all"]
Inductive Value : Type :=
| VNull
| VBool (b : bool)
| VNumber (n : number)
| VString (s : string)
| VArray (l : list Value)
| VObject (m : list (string * Value)).

(** [serde_json::Map<String, Value>]. *)
Abbreviation Map := (BTreeMap string Value).

(** ** Construction *)

Definition json_u (n : Z) : Value := VNumber (PosInt n).
Definition json_i (z : Z) : Value := VNumber (if z <? 0 then NegInt z else PosInt z).

Definition is_finite_float (f : spec_float) : bool :=
  match f with S754_zero _ | S754_finite _ _ _ => true | _ => false end.

(** [Value::from(f64)]: JSON has no NaN and no infinity. *)
Definition json_f64 (f : spec_float) : Value :=
  if is_finite_float f then VNumber (Float f) else VNull.

(** [json!({..})] with literal keys. *)
Definition json_obj (l : list (string * Value)) : Value := VObject (bt_from_iter l).

Definition json_opt {A} (f : A -> Value) (o : option A) : Value :=
  match o with Some a => f a | None => VNull end.

(** ** Accessors *)

Definition as_u64 (v : Value) : option Z :=
  match v with VNumber (PosInt n) => Some n | _ => None end.

Definition as_i64 (v : Value) : option Z :=
  match v with
  | VNumber (PosInt n) => try_from_i 64 n
  | VNumber (NegInt z) => Some z
  | _ => None
  end.

(** [u64 as f64], [i64 as f64]: round to nearest, ties to even. *)
Definition f64_of_Z (z : Z) : spec_float := binary_normalize 53 1024 z 0 false.

Definition as_f64 (v : Value) : option spec_float :=
  match v with
  | VNumber (PosInt n) | VNumber (NegInt n) => Some (f64_of_Z n)
  | VNumber (Float f) => Some f
  | _ => None
  end.

Definition as_bool (v : Value) : option bool := match v with VBool b => Some b | _ => None end.
Definition as_str (v : Value) : option string := match v with VString s => Some s | _ => None end.
Definition as_array (v : Value) : option (list Value) := match v with VArray l => Some l | _ => None end.
Definition as_object (v : Value) : option Map := match v with VObject m => Some m | _ => None end.
Definition is_null (v : Value) : bool := match v with VNull => true | _ => false end.
Definition is_array (v : Value) : bool := match v with VArray _ => true | _ => false end.

(** [Value::get(key)]. *)
Definition value_get (v : Value) (key : string) : option Value :=
  match v with VObject m => bt_get m key | _ => None end.

(** [o.and_then(f)]. *)
Definition and_then {A B} (o : option A) (f : A -> option B) : option B :=
  match o with Some a => f a | None => None end.

(** ** Text

    The parser and printer of [serde_json] are not part of the repository: the
    development is parametric in them, and the theorems that need them assume
    that printing then parsing returns the value. *)

(** What a derived [Deserialize] reports; its text is the library's. *)
Inductive DeError : Type :=
| DeMissing (field : string)
| DeType (expected : string)
| DeRange (expected : string)
| DeLength.

Class SerdeJson : Type := {
  de_message : DeError -> string;
  json_to_string : Value -> string;                   (* Display / to_string *)
  json_chunks : Value -> list string;                 (* to_writer_pretty's writes *)
  json_from_str : string -> Result Value string;      (* from_str, its error as text *)
}.

(** The [base64] crate's standard engine, on byte strings. *)
Class Base64 : Type := {
  b64_encode : string -> string;
  b64_decode : string -> option string;
}.

(** ** Serialization and deserialization of structs

    A derived [Serialize] writes the fields in order, leaving out those whose
    [skip_serializing_if] holds ([None] below); [to_value] collects them in a
    [Map].  A derived [Deserialize] takes an object (unknown keys ignored) or an
    array of the fields in order. *)

Definition field (k : string) (v : Value) : string * option Value := (k, Some v).
Definition skip_none {A} (k : string) (f : A -> Value) (o : option A) : string * option Value :=
  (k, f <$> o).

Definition ser_fields (l : list (string * option Value)) : list (string * Value) :=
  omap (fun kv => (fun v => (kv.1, v)) <$> kv.2) l.

(** [serde_json::to_value(&s)] *)
Definition struct_value (l : list (string * option Value)) : Value :=
  VObject (bt_from_iter (ser_fields l)).

(** The document [serde_json::to_string(&s)] prints, in field order. *)
Definition struct_document (l : list (string * option Value)) : Value := VObject (ser_fields l).

Definition Decoder (A : Type) : Type := Value -> Result A DeError.

Definition de_u (bits : Z) : Decoder Z := fun v =>
  match as_u64 v with
  | Some n => ok_or (try_from_u bits n) (DeRange ("u" +:+ show bits))
  | None => Err (DeType ("u" +:+ show bits))
  end.
Definition de_string : Decoder string := fun v => ok_or (as_str v) (DeType "a string").
Definition de_map : Decoder Map := fun v => ok_or (as_object v) (DeType "a map").
Definition de_vec {A} (d : Decoder A) : Decoder (list A) := fun v =>
  match v with VArray l => collect_results d l | _ => Err (DeType "a sequence") end.
Definition de_option {A} (d : Decoder A) : Decoder (option A) := fun v =>
  match v with VNull => Ok None | _ => result_map Some (d v) end.
(** [BTreeMap<String, A>] *)
Definition de_btree {A} (d : Decoder A) : Decoder (BTreeMap string A) := fun v =>
  match v with
  | VObject m => collect_results (fun kv => result_map (fun a => (kv.1, a)) (d kv.2)) m
  | _ => Err (DeType "a map")
  end.

Definition de_fields (names : list string) : Decoder Map := fun v =>
  match v with
  | VObject m => Ok m
  | VArray l => if (length l <=? length names)%nat then Ok (bt_from_iter (zip names l)) else Err DeLength
  | _ => Err (DeType "struct")
  end.

Definition de_req {A} (m : Map) (k : string) (d : Decoder A) : Result A DeError :=
  match bt_get m k with Some v => d v | None => Err (DeMissing k) end.
Definition de_default {A} (m : Map) (k : string) (a : A) (d : Decoder A) : Result A DeError :=
  match bt_get m k with Some v => d v | None => Ok a end.

(** A [#[serde(with = "b64")]] field. *)
Definition de_b64 `{Base64} : Decoder string := fun v =>
  let? s := de_string v in ok_or (b64_decode s) (DeType "base64").

(** What parsing a printed document gives: objects with their keys in order. *)
Fixpoint canon (v : Value) : Value :=
  match v with
  | VArray l => VArray (map canon l)
  | VObject m => VObject (bt_from_iter (map (fun kv => (kv.1, canon kv.2)) m))
  | _ => v
  end.

(** Decimal and binary floats do not convert exactly, so the round trip is
    stated for values without them. *)
Fixpoint float_free (v : Value) : bool :=
  match v with
  | VNumber (Float _) => false
  | VArray l => forallb float_free l
  | VObject m => forallb (fun kv => float_free kv.2) m
  | _ => true
  end.

(** A Rust [String] is valid UTF-8; so is every string of a value. *)
Fixpoint value_utf8 (v : Value) : bool :=
  match v with
  | VString s => utf8_valid s
  | VArray l => forallb value_utf8 l
  | VObject m => forallb (fun kv => utf8_valid kv.1 && value_utf8 kv.2) m
  | _ => true
  end.

Class SerdeJsonLaws `{SerdeJson} : Prop := {
  json_roundtrip : forall v, float_free v = true -> json_from_str (str_concat (json_chunks v)) = Ok (canon v);
  json_utf8 : forall v, value_utf8 v = true -> utf8_valid (str_concat (json_chunks v)) = true;
}.

Class Base64Laws `{Base64} : Prop := {
  b64_roundtrip : forall s, b64_decode (b64_encode s) = Some s;
  b64_utf8 : forall s, utf8_valid (b64_encode s) = true;
}.

(** ** Induction over nested values *)

Section value_ind.
Context (P : Value -> Prop).
Hypothesis Hnull : P VNull.
Hypothesis Hbool : forall b, P (VBool b).
Hypothesis Hnum : forall n, P (VNumber n).
Hypothesis Hstr : forall s, P (VString s).
Hypothesis Harr : forall l, Forall P l -> P (VArray l).
Hypothesis Hobj : forall m, Forall (fun kv => P kv.2) m -> P (VObject m).

Fixpoint value_ind' (v : Value) : P v :=
  match v with
  | VNull => Hnull
  | VBool b => Hbool b
  | VNumber n => Hnum n
  | VString s => Hstr s
  | VArray l =>
      Harr l ((fix go l := match l return Forall P l with
                           | [] => Forall_nil_2 P
                           | v :: l => Forall_cons_2 P v l (value_ind' v) (go l)
                           end) l)
  | VObject m =>
      Hobj m ((fix go m := match m return Forall (fun kv => P kv.2) m with
                           | [] => Forall_nil_2 _
                           | kv :: m => Forall_cons_2 _ kv m (value_ind' kv.2) (go m)
                           end) m)
  end.
End value_ind.

#[export] Instance spec_float_eq_dec : EqDecision spec_float.
Proof. solve_decision. Defined.
#[export] Instance number_eq_dec : EqDecision number.
Proof. solve_decision. Defined.

(** ** Values as trees, for decidable equality and a concrete text encoding *)

Fixpoint to_tree (v : Value) : gen_tree (string + number) :=
  match v with
  | VNull => GenNode 0 []
  | VBool b => GenNode (if b then 1 else 2) []
  | VNumber n => GenLeaf (inr n)
  | VString s => GenLeaf (inl s)
  | VArray l => GenNode 3 (map to_tree l)
  | VObject m => GenNode 4 (map (fun kv => GenNode 5 [GenLeaf (inl kv.1); to_tree kv.2]) m)
  end.

Fixpoint of_tree (t : gen_tree (string + number)) : Value :=
  match t with
  | GenLeaf (inr n) => VNumber n
  | GenLeaf (inl s) => VString s
  | GenNode 0 _ => VNull
  | GenNode 1 _ => VBool true
  | GenNode 2 _ => VBool false
  | GenNode 3 l => VArray (map of_tree l)
  | GenNode _ l =>
      VObject (map (fun t => match t with
                             | GenNode _ [GenLeaf (inl k); t'] => (k, of_tree t')
                             | _ => ("", VNull)
                             end) l)
  end.

Lemma of_to_tree v : of_tree (to_tree v) = v.
Proof.
  induction v as [|[]| | |l IH|m IH] using value_ind'; simpl; try done; f_equal;
    induction IH as [|? ? E _ IHl]; simpl; try done; f_equal; try done.
  match goal with kv : (string * Value)%type |- _ => destruct kv end. simpl in *. congruence.
Qed.

#[export] Instance to_tree_inj : Inj (=) (=) to_tree.
Proof. intros a b E. by rewrite <- (of_to_tree a), <- (of_to_tree b), E. Qed.

#[export] Instance Value_eq_dec : EqDecision Value.
Proof.
  refine (fun a b => cast_if (decide (to_tree a = to_tree b))); [by apply (inj to_tree) | congruence].
Defined.

(** ** Well-formed values: what [serde_json] can hold *)

Definition number_wf (n : number) : bool :=
  match n with
  | PosInt n => in_u 64 n
  | NegInt z => (- 2 ^ 63 <=? z) && (z <? 0)
  | Float f => is_finite_float f
  end.

Fixpoint value_wf (v : Value) : Prop :=
  match v with
  | VNumber n => number_wf n = true
  | VArray l => (fix go l := match l with [] => True | v :: l => value_wf v /\ go l end) l
  | VObject m =>
      bt_wf m /\ (fix go m := match m with [] => True | kv :: m => value_wf kv.2 /\ go m end) m
  | _ => True
  end.

Lemma value_wf_array l : value_wf (VArray l) <-> Forall value_wf l.
Proof.
  simpl. induction l as [|v l IH]; [done|]. rewrite Forall_cons, <- IH. done.
Qed.

Lemma value_wf_object (m : Map) :
  value_wf (VObject m) <-> bt_wf m /\ Forall (fun kv => value_wf kv.2) m.
Proof.
  simpl. apply and_iff_compat_l. induction m as [|v l IH]; [done|].
  rewrite Forall_cons, <- IH. done.
Qed.

Lemma as_u64_Some v n : as_u64 v = Some n <-> v = json_u n.
Proof.
  split; [|by intros ->]. destruct v as [| | [] | | |]; try done. simpl. by intros [= ->].
Qed.

Lemma value_wf_u64 v n : value_wf v -> as_u64 v = Some n -> 0 <= n < 2 ^ 64.
Proof. intros Hwf ->%as_u64_Some. by apply in_u_spec in Hwf. Qed.

(** ** A concrete text encoding, for the witnesses

    Any injective encoding satisfies the interface; this one prints a tree
    code in binary. *)

Section tree_text.
#[local] Instance sf_countable : Countable spec_float.
Proof.
  refine (inj_countable'
    (fun f => match f with
      | S754_zero b => inl (inl b) | S754_infinity b => inl (inr b)
      | S754_nan => inr (inl tt) | S754_finite s m e => inr (inr (s, m, e)) end)
    (fun x => match x with
      | inl (inl b) => S754_zero b | inl (inr b) => S754_infinity b
      | inr (inl _) => S754_nan | inr (inr (s, m, e)) => S754_finite s m e end) _).
  by intros [].
Defined.
#[local] Instance number_countable : Countable number.
Proof.
  refine (inj_countable'
    (fun n => match n with PosInt n => inl n | NegInt z => inr (inl z) | Float f => inr (inr f) end)
    (fun x => match x with inl n => PosInt n | inr (inl z) => NegInt z | inr (inr f) => Float f end) _).
  by intros [].
Defined.

Fixpoint bits_to_string (p : positive) : string :=
  match p with
  | xH => String "." EmptyString
  | xO p => String "0" (bits_to_string p)
  | xI p => String "1" (bits_to_string p)
  end%char.

Fixpoint string_to_bits (s : string) : option positive :=
  match s with
  | String "." EmptyString => Some xH
  | String "0" s => xO <$> string_to_bits s
  | String "1" s => xI <$> string_to_bits s
  | _ => None
  end%char.

Lemma string_to_bits_to_string p : string_to_bits (bits_to_string p) = Some p.
Proof. induction p; simpl; rewrite ?IHp; done. Qed.

Definition tree_text (v : Value) : string := bits_to_string (encode (to_tree v)).
Definition tree_parse (s : string) : Result Value string :=
  match p ← string_to_bits s; (decode p : option (gen_tree (string + number))) with
  | Some t => Ok (of_tree t)
  | None => Err "expected value"
  end.

Lemma tree_parse_text v : tree_parse (tree_text v) = Ok v.
Proof.
  unfold tree_parse, tree_text. rewrite string_to_bits_to_string. simpl.
  rewrite decode_encode. by rewrite of_to_tree.
Qed.
End tree_text.

Definition TreeJson : SerdeJson := {|
  de_message e := match e with
    | DeMissing f => "missing field `" +:+ f +:+ "`"
    | DeType t => "invalid type, expected " +:+ t
    | DeRange t => "invalid value, expected " +:+ t
    | DeLength => "invalid length"
    end;
  json_to_string := tree_text;
  json_chunks v := [tree_text v];
  json_from_str s := result_map canon (tree_parse s);
|}.

#[export] Instance TreeJson_laws : @SerdeJsonLaws TreeJson.
Proof.
  constructor; intros v _; simpl; rewrite str_app_nil_r; [by rewrite tree_parse_text|].
  unfold tree_text, utf8_valid. by induction (encode (to_tree v)).
Qed.

(** An encoding by hexadecimal digits satisfies the other interface. *)
Fixpoint hex_encode (s : string) : string :=
  match s with EmptyString => EmptyString | String c s => hex_digits false 2 (byte_of c) +:+ hex_encode s end.

Fixpoint hex_decode (s : string) : option string :=
  match s with
  | EmptyString => Some EmptyString
  | String a (String b s) =>
      match digit_value 16 a, digit_value 16 b, hex_decode s with
      | Some x, Some y, Some r => Some (String (byte_at (x * 16 + y)) r)
      | _, _, _ => None
      end
  | _ => None
  end.

Lemma hex_decode_encode s : hex_decode (hex_encode s) = Some s.
Proof.
  induction s as [|c s IH]; [done|]. cbn [hex_encode].
  transitivity (match hex_decode (hex_encode s) with Some r => Some (String c r) | None => None end).
  2: by rewrite IH.
  generalize (hex_encode s). intros t. by destruct c as [[] [] [] [] [] [] [] []].
Qed.

Lemma hex_encode_utf8 s : utf8_valid (hex_encode s) = true.
Proof.
  induction s as [|c s IH]; [done|]. unfold utf8_valid in *. rewrite <- IH. cbn [hex_encode].
  generalize (hex_encode s). intros t. by destruct c as [[] [] [] [] [] [] [] []].
Qed.

Definition HexBase64 : Base64 := {| b64_encode := hex_encode; b64_decode := hex_decode |}.
#[export] Instance HexBase64_laws : @Base64Laws HexBase64.
Proof. constructor; [apply hex_decode_encode | apply hex_encode_utf8]. Qed.

(** ** Canonical values *)

Lemma bt_from_iter_id {V} (m : BTreeMap string V) : bt_wf m -> bt_from_iter m = m.
Proof.
  intros Hwf. unfold bt_from_iter.
  assert (Hg : forall (l acc : BTreeMap string V), bt_wf (acc ++ l) ->
            fold_left (fun m kv => bt_insert kv.1 kv.2 m) l acc = acc ++ l).
  { clear m Hwf. induction l as [|[k v] l IH]; intros acc Hwf; simpl; [by rewrite app_nil_r|].
    assert (Hi : bt_insert k v acc = acc ++ [(k, v)]).
    { clear IH. induction acc as [|[k' v'] acc IHa]; simpl in *; [done|].
      inversion Hwf as [|? ? Hs Hf]; subst. rewrite Forall_app, Forall_cons in Hf.
      destruct Hf as (_ & Hlt & _). unfold bt_lt in Hlt; simpl in Hlt.
      rewrite String.compare_antisym, Hlt. simpl. f_equal. by apply IHa. }
    rewrite Hi, IH; by rewrite <- app_assoc. }
  by rewrite (Hg m []).
Qed.

Lemma map_id_Forall {A} (f : A -> A) l : Forall (fun a => f a = a) l -> map f l = l.
Proof. induction 1 as [|a l E _ IH]; simpl; congruence. Qed.

Lemma canon_wf v : value_wf v -> canon v = v.
Proof.
  induction v as [| | | |l IH|m IH] using value_ind'; try done.
  - rewrite value_wf_array. intros Hwf. simpl. f_equal. apply map_id_Forall.
    rewrite Forall_forall in *. auto.
  - rewrite value_wf_object. intros [Hm Hwf]. simpl. f_equal.
    rewrite map_id_Forall; [by apply bt_from_iter_id|].
    rewrite Forall_forall in *. intros [k v] Hin. simpl. f_equal.
    apply (IH (k, v) Hin). by apply (Hwf (k, v)).
Qed.

(** ** Decoding what was encoded *)

Lemma de_u_json bits n : 0 <= n < 2 ^ bits -> de_u bits (VNumber (PosInt n)) = Ok n.
Proof. intros Hn. unfold de_u. simpl. by rewrite (proj2 (try_from_u_Some bits n n)). Qed.

Lemma de_b64_json `{Base64} `{!Base64Laws} s : de_b64 (VString (b64_encode s)) = Ok s.
Proof. unfold de_b64. simpl. by rewrite b64_roundtrip. Qed.

Lemma de_vec_strings l : de_vec de_string (VArray (map VString l)) = Ok l.
Proof. simpl. induction l as [|s l IH]; simpl; [done|]. by rewrite IH. Qed.

Lemma de_btree_map {A} (d : Decoder A) (f : A -> Value) (P : A -> Prop) (m : BTreeMap string A) :
  (forall a, P a -> d (f a) = Ok a) -> Forall (fun kv => P kv.2) m ->
  de_btree d (VObject (map (fun kv => (kv.1, f kv.2)) m)) = Ok m.
Proof.
  intros Hd. simpl. induction 1 as [|[k a] m Ha _ IH]; simpl in *; [done|].
  rewrite Hd by done. simpl. by rewrite IH.
Qed.

Lemma bt_wf_map {A B} (f : A -> B) (m : BTreeMap string A) :
  bt_wf m -> bt_wf (map (fun kv => (kv.1, f kv.2)) m).
Proof.
  induction 1 as [|[k a] m _ IH Hf]; simpl; constructor; [done|].
  apply Forall_map. eapply Forall_impl; [exact Hf|]. done.
Qed.

Lemma float_free_array l : float_free (VArray l) = forallb float_free l.
Proof. done. Qed.

(** Evaluate a derived decoder on an object with its literal keys, discharging
    the field decoders with the lemmas above. *)
Ltac decode_fields :=
  unfold de_req, de_default;
  repeat first
    [ rewrite de_u_json by (simpl in *; lia)
    | rewrite de_b64_json
    | rewrite de_vec_strings
    | progress simpl ].

#[global] Arguments de_u _ _ : simpl never.
#[global] Arguments de_b64 {_} _ : simpl never.
#[global] Arguments de_btree {_} _ _ : simpl never.
#[global] Arguments de_vec {_} _ _ : simpl never.
