(* ===== verification/Wire.v ===== *)
(** * The wire crate

    [crates/wire/src]: error codes ([error.rs]), the command envelope
    ([envelope.rs]), node, event, fabric and ICD payloads ([node.rs]) and the
    server-info message ([server_info.rs]), with their JSON forms. *)

From S2P Require Import Prelude Json.

(** ** error.rs *)

Inductive ServerErrorCode : Type :=
| UnknownError
| NodeCommissionFailed
| NodeInterviewFailed
| NodeNotReady
| NodeNotResolving
| NodeNotExists
| VersionMismatch
| SdkStackError
| InvalidArguments
| InvalidCommand
| UpdateCheckError
| UpdateError
| IcdMultiAdmin
| OtaUploadError.

#[export] Instance ServerErrorCode_eq_dec : EqDecision ServerErrorCode.
Proof. solve_decision. Defined.

Definition code (c : ServerErrorCode) : Z :=
  match c with
  | UnknownError => 0
  | NodeCommissionFailed => 1
  | NodeInterviewFailed => 2
  | NodeNotReady => 3
  | NodeNotResolving => 4
  | NodeNotExists => 5
  | VersionMismatch => 6
  | SdkStackError => 7
  | InvalidArguments => 8
  | InvalidCommand => 9
  | UpdateCheckError => 10
  | UpdateError => 11
  | IcdMultiAdmin => 100
  | OtaUploadError => 101
  end.

(** ** envelope.rs *)

Record CommandMessage : Type := {
  cm_message_id : string;
  cm_command : string;
  cm_args : Map;
}.

(** [null_as_empty_map]: a JSON null counts as no arguments. *)
Definition null_as_empty_map : Decoder Map := fun v =>
  let? m := de_option de_map v in Ok (unwrap_or [] m).

Definition de_command_message : Decoder CommandMessage := fun v =>
  let? m := de_fields ["message_id"; "command"; "args"] v in
  let? message_id := de_req m "message_id" de_string in
  let? command := de_req m "command" de_string in
  let? args := de_default m "args" [] null_as_empty_map in
  Ok {| cm_message_id := message_id; cm_command := command; cm_args := args |}.

Record SuccessResult : Type := { sr_message_id : string; sr_result : Value }.

Definition success_document (r : SuccessResult) : Value :=
  struct_document [field "message_id" (VString (sr_message_id r)); field "result" (sr_result r)].

Record ErrorResult : Type := { er_message_id : string; er_error_code : Z; er_details : string }.

Definition ErrorResult_new (message_id : string) (c : ServerErrorCode) (details : string) : ErrorResult :=
  {| er_message_id := message_id; er_error_code := code c; er_details := details |}.

Definition error_document (r : ErrorResult) : Value :=
  struct_document [field "message_id" (VString (er_message_id r));
                   field "error_code" (json_u (er_error_code r));
                   field "details" (VString (er_details r))].

Record EventMessage : Type := { em_event : string; em_data : Value }.

Definition event_document (e : EventMessage) : Value :=
  struct_document [field "event" (VString (em_event e)); field "data" (em_data e)].

(** ** node.rs *)

Record MatterNodeData : Type := {
  nd_node_id : Z;
  nd_date_commissioned : string;
  nd_last_interview : string;
  nd_interview_version : Z;
  nd_available : bool;
  nd_is_bridge : bool;
  nd_attributes : Map;
  nd_attribute_subscriptions : list Value;
  nd_matter_version : option string;
}.

Definition node_data_value (n : MatterNodeData) : Value :=
  struct_value
    [field "node_id" (json_u (nd_node_id n));
     field "date_commissioned" (VString (nd_date_commissioned n));
     field "last_interview" (VString (nd_last_interview n));
     field "interview_version" (json_u (nd_interview_version n));
     field "available" (VBool (nd_available n));
     field "is_bridge" (VBool (nd_is_bridge n));
     field "attributes" (VObject (nd_attributes n));
     field "attribute_subscriptions" (VArray (nd_attribute_subscriptions n));
     skip_none "matter_version" VString (nd_matter_version n)].

Record MatterNodeEvent : Type := {
  ne_node_id : Z;
  ne_endpoint_id : Z;
  ne_cluster_id : Z;
  ne_event_id : Z;
  ne_event_number : Z;
  ne_priority : Z;
  ne_timestamp : Z;
  ne_timestamp_type : Z;
  ne_data : Value;
}.

Definition node_event_value (e : MatterNodeEvent) : Value :=
  struct_value
    [field "node_id" (json_u (ne_node_id e));
     field "endpoint_id" (json_u (ne_endpoint_id e));
     field "cluster_id" (json_u (ne_cluster_id e));
     field "event_id" (json_u (ne_event_id e));
     field "event_number" (json_u (ne_event_number e));
     field "priority" (json_u (ne_priority e));
     field "timestamp" (json_i (ne_timestamp e));
     field "timestamp_type" (json_u (ne_timestamp_type e));
     field "data" (ne_data e)].

Record CommissionableNodeData : Type := {
  cn_instance_name : option string;
  cn_host_name : string;
  cn_port : option Z;
  cn_long_discriminator : option Z;
  cn_vendor_id : Z;
  cn_product_id : Z;
  cn_commissioning_mode : Z;
  cn_device_type : option Z;
  cn_device_name : option string;
  cn_pairing_instruction : option string;
  cn_pairing_hint : Z;
  cn_mrp_retry_interval_idle : option Z;
  cn_mrp_retry_interval_active : option Z;
  cn_supports_tcp : bool;
  cn_addresses : list string;
  cn_rotating_id : option string;
}.

Definition commissionable_value (n : CommissionableNodeData) : Value :=
  struct_value
    [skip_none "instance_name" VString (cn_instance_name n);
     field "host_name" (VString (cn_host_name n));
     skip_none "port" json_u (cn_port n);
     skip_none "long_discriminator" json_u (cn_long_discriminator n);
     field "vendor_id" (json_i (cn_vendor_id n));
     field "product_id" (json_i (cn_product_id n));
     field "commissioning_mode" (json_u (cn_commissioning_mode n));
     skip_none "device_type" json_u (cn_device_type n);
     skip_none "device_name" VString (cn_device_name n);
     skip_none "pairing_instruction" VString (cn_pairing_instruction n);
     field "pairing_hint" (json_u (cn_pairing_hint n));
     skip_none "mrp_retry_interval_idle" json_u (cn_mrp_retry_interval_idle n);
     skip_none "mrp_retry_interval_active" json_u (cn_mrp_retry_interval_active n);
     field "supports_tcp" (VBool (cn_supports_tcp n));
     field "addresses" (VArray (map VString (cn_addresses n)));
     skip_none "rotating_id" VString (cn_rotating_id n)].

Record MatterFabricData : Type := {
  mf_fabric_id : Z;
  mf_vendor_id : Z;
  mf_fabric_index : Z;
  mf_fabric_label : option string;
  mf_vendor_name : option string;
}.

Definition fabric_value (f : MatterFabricData) : Value :=
  struct_value
    [field "fabric_id" (json_u (mf_fabric_id f));
     field "vendor_id" (json_u (mf_vendor_id f));
     field "fabric_index" (json_u (mf_fabric_index f));
     skip_none "fabric_label" VString (mf_fabric_label f);
     skip_none "vendor_name" VString (mf_vendor_name f)].

Record IcdState : Type := {
  icd_supported : bool;
  icd_lit_supported : bool;
  icd_registered : bool;
  icd_operating_mode : option string;
  icd_awake : option bool;
  icd_available : option bool;
  icd_next_expected_checkin : option Z;
}.

Definition IcdState_not_registered : IcdState :=
  {| icd_supported := false; icd_lit_supported := false; icd_registered := false;
     icd_operating_mode := None; icd_awake := None; icd_available := None;
     icd_next_expected_checkin := None |}.

Definition icd_value (i : IcdState) : Value :=
  struct_value
    [field "supported" (VBool (icd_supported i));
     field "lit_supported" (VBool (icd_lit_supported i));
     field "registered" (VBool (icd_registered i));
     field "operating_mode" (json_opt VString (icd_operating_mode i));
     field "awake" (json_opt VBool (icd_awake i));
     field "available" (json_opt VBool (icd_available i));
     field "next_expected_checkin" (json_opt json_i (icd_next_expected_checkin i))].

(** ** server_info.rs *)

Definition SCHEMA_VERSION : Z := 13.
Definition MIN_SUPPORTED_SCHEMA_VERSION : Z := 11.

Record ServerInfoMessage : Type := {
  si_fabric_id : Z;
  si_compressed_fabric_id : Z;
  si_fabric_index : option Z;
  si_schema_version : Z;
  si_min_supported_schema_version : Z;
  si_sdk_version : string;
  si_wifi_credentials_set : bool;
  si_wifi_ssid : option string;
  si_thread_credentials_set : bool;
  si_bluetooth_enabled : bool;
  si_ble_proxy_enabled : option bool;
  si_controller_node_id : option Z;
}.

Definition server_info_fields (i : ServerInfoMessage) : list (string * option Value) :=
  [field "fabric_id" (json_u (si_fabric_id i));
   field "compressed_fabric_id" (json_u (si_compressed_fabric_id i));
   skip_none "fabric_index" json_u (si_fabric_index i);
   field "schema_version" (json_u (si_schema_version i));
   field "min_supported_schema_version" (json_u (si_min_supported_schema_version i));
   field "sdk_version" (VString (si_sdk_version i));
   field "wifi_credentials_set" (VBool (si_wifi_credentials_set i));
   skip_none "wifi_ssid" VString (si_wifi_ssid i);
   field "thread_credentials_set" (VBool (si_thread_credentials_set i));
   field "bluetooth_enabled" (VBool (si_bluetooth_enabled i));
   skip_none "ble_proxy_enabled" VBool (si_ble_proxy_enabled i);
   skip_none "controller_node_id" json_u (si_controller_node_id i)].

Definition server_info_value (i : ServerInfoMessage) : Value := struct_value (server_info_fields i).
Definition server_info_document (i : ServerInfoMessage) : Value := struct_document (server_info_fields i).

(** ** Facts used by the clients of these types *)

Lemma code_inj : Inj (=) (=) code.
Proof. by intros [] []. Qed.

(** An absent [args] and a [null] one are the same command. *)
Lemma command_args_null_or_absent m c :
  de_command_message (json_obj [("message_id", VString m); ("command", VString c)]) =
  de_command_message (json_obj [("message_id", VString m); ("command", VString c); ("args", VNull)]).
Proof. reflexivity. Qed.
