(* ===== verification/Addr.v ===== *)
(** * "ip:port" splitting

    [crates/controller/src/addr.rs], shared by the controller, the stack and the
    migration tool. *)

From S2P Require Import Prelude.

Definition split_ip_port (address : string) : string * option Z :=
  match strip_prefix "[" address with
  | Some rest =>
      match split_once "]" rest with
      | Some (host, tail) =>
          (host, match strip_prefix ":" tail with Some p => parse_u 16 p | None => None end)
      | None => (rest, None)
      end
  | None =>
      if (1 <? count_byte ":" address)%nat then (address, None)
      else match rsplit_once ":" address with
           | Some (ip, port) => (ip, parse_u 16 port)
           | None => (address, None)
           end
  end.

Definition ip_of (address : string) : string := (split_ip_port address).1.

(** ** Socket addresses as the transport prints them

    [std::net::SocketAddr]'s [Display]: an IPv4 host and its port separated by a
    colon, an IPv6 host (scope id included) bracketed. *)

Inductive host : Type :=
| HostV4 (ip : string)
| HostV6 (ip : string).

Definition host_text (h : host) : string := match h with HostV4 ip | HostV6 ip => ip end.

Definition socket_text (h : host) (port : Z) : string :=
  match h with
  | HostV4 ip => ip +:+ ":" +:+ show port
  | HostV6 ip => "[" +:+ ip +:+ "]:" +:+ show port
  end.

(** A host as such an address holds it: no bracket in either family, no colon
    in an IPv4 one, at least two colons in an IPv6 one. *)
Definition host_ok (h : host) : Prop :=
  count_byte "[" (host_text h) = O /\ count_byte "]" (host_text h) = O /\
  match h with
  | HostV4 ip => count_byte ":" ip = O
  | HostV6 ip => (1 < count_byte ":" ip)%nat
  end.

Lemma strip_prefix_bracket_None s : count_byte "[" s = O -> strip_prefix "[" s = None.
Proof.
  destruct s as [|c s]; [done|]. cbn [strip_prefix count_byte].
  rewrite (Ascii.eqb_sym "["%char c). destruct (Ascii.eqb c "["%char); simpl; [discriminate | done].
Qed.

(** Splitting a socket address the transport prints gives back the host,
    without brackets, and the port, for every IPv4 and IPv6 host and every u16
    port. *)
Theorem split_ip_port_socket (h : host) (port : Z) :
  host_ok h -> 0 <= port < 2 ^ 16 ->
  split_ip_port (socket_text h port) = (host_text h, Some port).
Proof.
  intros (Hl & Hr & Hc) Hp. unfold split_ip_port.
  destruct h as [ip|ip]; unfold socket_text, host_text in *.
  - assert (Hd : forall c, is_digit c = false -> count_byte c (show port) = O).
    { intros c. apply count_byte_show. lia. }
    rewrite strip_prefix_bracket_None.
    2: { rewrite count_byte_app, Hl. simpl. by rewrite Hd. }
    rewrite count_byte_app, Hc. simpl. rewrite Hd by done. simpl.
    rewrite rsplit_once_app by (by apply Hd).
    by rewrite parse_u_show.
  - simpl. rewrite split_once_app by done. simpl. by rewrite parse_u_show.
Qed.

Lemma split_ip_port_socket_witness :
  split_ip_port "[fe80::1%14]:5540" = ("fe80::1%14", Some 5540) /\
  split_ip_port "192.168.1.60:5540" = ("192.168.1.60", Some 5540).
Proof.
  split.
  - apply (split_ip_port_socket (HostV6 "fe80::1%14") 5540); [vm_compute; auto with arith | lia].
  - apply (split_ip_port_socket (HostV4 "192.168.1.60") 5540); [vm_compute; auto | lia].
Defined.

(** The host of any address is free of a bracket as soon as the address has
    no bracket past its first byte: the unterminated and the port-less forms
    included. *)
Theorem ip_of_no_bracket (address : string) :
  count_byte "[" (match strip_prefix "[" address with Some r => r | None => address end) = O ->
  count_byte "[" (ip_of address) = O /\
  (strip_prefix "[" address = None -> (1 < count_byte ":" address)%nat -> ip_of address = address).
Proof.
  unfold ip_of, split_ip_port. intros H.
  destruct (strip_prefix "[" address) as [rest|] eqn:E.
  - split; [|done]. destruct (split_once "]" rest) as [[l r]|] eqn:S; [|done].
    apply split_once_Some in S as [-> _]. rewrite count_byte_app in H. simpl. lia.
  - split.
    + case_match; [done|].
      destruct (rsplit_once ":" address) as [[l r]|] eqn:S; [|done].
      apply rsplit_once_Some in S as [-> _]. rewrite count_byte_app in H. simpl. lia.
    + intros _ Hc. apply Nat.ltb_lt in Hc. by rewrite Hc.
Qed.

Lemma ip_of_no_bracket_witness :
  count_byte "[" (ip_of "[fd12::5") = O /\ ip_of "[fd12::5" = "fd12::5".
Proof.
  split; [|reflexivity]. apply (ip_of_no_bracket "[fd12::5"). reflexivity.
Defined.

(** A bare host is its own address. *)
Lemma ip_of_host h : host_ok h -> ip_of (host_text h) = host_text h.
Proof.
  intros (Hl & _ & Hc). unfold ip_of, split_ip_port.
  rewrite strip_prefix_bracket_None by done. destruct h as [ip|ip]; unfold host_text in *.
  - rewrite Hc. simpl. by apply rsplit_once_None in Hc as ->.
  - by apply Nat.ltb_lt in Hc as ->.
Qed.
