(* ===== verification/Prog.v ===== *)
(** * Programs with effects

    A program issues operations and continues with their replies.  The same
    program can be run to its end, or observed after every operation: the
    first gives the functional behaviour of a routine, the second the states a
    crash or another task can see in between. *)

From S2P Require Import Prelude.

Inductive Prog (Op : Type -> Type) (A : Type) : Type :=
| Ret (a : A)
| Do {B : Type} (op : Op B) (k : B -> Prog Op A).
Arguments Ret {Op A} a.
Arguments Do {Op A B} op k.

Fixpoint prog_bind {Op A B} (p : Prog Op A) (f : A -> Prog Op B) : Prog Op B :=
  match p with
  | Ret a => f a
  | Do op k => Do op (fun b => prog_bind (k b) f)
  end.

Definition do_op {Op B} (op : Op B) : Prog Op B := Do op Ret.

Notation "'do!' x := p 'in' k" := (prog_bind p (fun x => k))
  (at level 10, x pattern, p at level 100, k at level 200) : matter_scope.

(** The [?] operator inside a program. *)
Definition try_bind {Op A B E} (p : Prog Op (Result A E)) (f : A -> Prog Op (Result B E)) :
    Prog Op (Result B E) :=
  prog_bind p (fun r => match r with Ok a => f a | Err e => Ret (Err e) end).

Notation "'do?' x := p 'in' k" := (try_bind p (fun x => k))
  (at level 10, x pattern, p at level 100, k at level 200) : matter_scope.

(** [?] on a plain result. *)
Definition lift_result {Op A E} (r : Result A E) : Prog Op (Result A E) := Ret r.

Fixpoint prog_for {Op A} (l : list A) (f : A -> Prog Op unit) : Prog Op unit :=
  match l with [] => Ret tt | a :: l => prog_bind (f a) (fun _ => prog_for l f) end.

Fixpoint try_for {Op A E} (l : list A) (f : A -> Prog Op (Result unit E)) : Prog Op (Result unit E) :=
  match l with [] => Ret (Ok tt) | a :: l => try_bind (f a) (fun _ => try_for l f) end.

(** ** Running *)

Section run.
Context {Op : Type -> Type} {St : Type} (h : forall B, Op B -> St -> B * St).

Fixpoint run {A} (p : Prog Op A) (s : St) : A * St :=
  match p with
  | Ret a => (a, s)
  | Do op k => let '(b, s) := h _ op s in run (k b) s
  end.

(** Every state after an operation, in order. *)
Fixpoint states {A} (p : Prog Op A) (s : St) : list St :=
  match p with
  | Ret _ => []
  | Do op k => let '(b, s) := h _ op s in s :: states (k b) s
  end.

Lemma run_bind {A B} (p : Prog Op A) (f : A -> Prog Op B) s :
  run (prog_bind p f) s = let '(a, s) := run p s in run (f a) s.
Proof.
  revert s. induction p as [a|X op k IH]; intros s; simpl; [done|].
  destruct (h X op s) as [b s']. apply IH.
Qed.

Lemma run_try {A B E} (p : Prog Op (Result A E)) (f : A -> Prog Op (Result B E)) s :
  run (try_bind p f) s =
  match run p s with (Ok a, s) => run (f a) s | (Err e, s) => (Err e, s) end.
Proof.
  unfold try_bind. rewrite run_bind. by destruct (run p s) as [[] ?].
Qed.

Lemma states_bind {A B} (p : Prog Op A) (f : A -> Prog Op B) s :
  states (prog_bind p f) s = states p s ++ let '(a, s) := run p s in states (f a) s.
Proof.
  revert s. induction p as [a|X op k IH]; intros s; simpl; [done|].
  destruct (h X op s) as [b s']. simpl. by rewrite IH.
Qed.

(** Every operation the program can issue, whatever the replies. *)
Inductive all_ops (P : forall B, Op B -> Prop) {A} : Prog Op A -> Prop :=
| all_ops_ret a : all_ops P (Ret a)
| all_ops_do B (op : Op B) k : P B op -> (forall b, all_ops P (k b)) -> all_ops P (Do op k).

Lemma all_ops_bind P {A B} (p : Prog Op A) (f : A -> Prog Op B) :
  all_ops P p -> (forall a, all_ops P (f a)) -> all_ops P (prog_bind p f).
Proof. intros Hp Hf. induction Hp; simpl; [apply Hf | by constructor]. Qed.

Lemma all_ops_try P {A B E} (p : Prog Op (Result A E)) (f : A -> Prog Op (Result B E)) :
  all_ops P p -> (forall a, all_ops P (f a)) -> all_ops P (try_bind p f).
Proof. intros Hp Hf. apply all_ops_bind; [done|]. intros []; [apply Hf | constructor]. Qed.

Lemma all_ops_op P {B} (op : Op B) : P B op -> all_ops P (do_op op).
Proof. intros. constructor; [done|]. constructor. Qed.

Lemma all_ops_try_for P {A E} (l : list A) (f : A -> Prog Op (Result unit E)) :
  (forall a, all_ops P (f a)) -> all_ops P (try_for l f).
Proof. intros Hf. induction l; simpl; [constructor | by apply all_ops_try]. Qed.

(** An invariant of every operation of a program holds in every state the
    program goes through. *)
Lemma states_inv (I : St -> Prop) P {A} (p : Prog Op A) s :
  (forall B (op : Op B) s, P B op -> I s -> I (h B op s).2) ->
  all_ops P p -> I s -> Forall I (states p s) /\ I (run p s).2.
Proof.
  intros Hop Hp. revert s. induction Hp as [a|X op k Hx Hk IH]; intros s Hs; simpl.
  { split; [constructor | done]. }
  specialize (Hop X op s Hx Hs). destruct (h X op s) as [b s']. simpl in *.
  destruct (IH b s' Hop) as [? ?]. split; [by constructor | done].
Qed.

(** ** Crash Hoare triples

    [crash G P p Q]: from a state in [P], every state [p] goes through is in
    [G], and [p] ends with a reply and a state in [Q]. *)
Definition crash {A} (G P : St -> Prop) (p : Prog Op A) (Q : A -> St -> Prop) : Prop :=
  forall s, P s -> Forall G (states p s) /\ Q (run p s).1 (run p s).2.

Definition on_ok {A E} (Q : A -> St -> Prop) (R : E -> St -> Prop) (r : Result A E) (s : St) : Prop :=
  match r with Ok a => Q a s | Err e => R e s end.

Lemma crash_ret {A} G (a : A) (Q : A -> St -> Prop) : crash G (Q a) (Ret a) Q.
Proof. intros s Hs. split; [constructor | done]. Qed.

Lemma crash_conseq {A} (G P P' : St -> Prop) (p : Prog Op A) (Q Q' : A -> St -> Prop) :
  crash G P p Q -> (forall s, P' s -> P s) -> (forall a s, Q a s -> Q' a s) -> crash G P' p Q'.
Proof. intros Hp HP HQ s Hs. destruct (Hp s (HP s Hs)). auto. Qed.

Lemma crash_op {B} (G P : St -> Prop) (op : Op B) (Q : B -> St -> Prop) :
  (forall s, P s -> G (h B op s).2 /\ Q (h B op s).1 (h B op s).2) -> crash G P (do_op op) Q.
Proof.
  intros Hop s Hs. destruct (Hop s Hs) as [HG HQ]. unfold do_op. simpl.
  destruct (h B op s) as [b s']. simpl in *. auto.
Qed.

Lemma crash_bind {A B} (G P : St -> Prop) (p : Prog Op A) (f : A -> Prog Op B) Q R :
  crash G P p Q -> (forall a, crash G (Q a) (f a) R) -> crash G P (prog_bind p f) R.
Proof.
  intros Hp Hf s Hs. rewrite states_bind, run_bind. destruct (Hp s Hs) as [HG HQ].
  destruct (run p s) as [a s']. simpl in HQ. destruct (Hf a s' HQ). split; [|done].
  by apply Forall_app.
Qed.

Lemma crash_try {A B E} (G P : St -> Prop) (p : Prog Op (Result A E))
    (f : A -> Prog Op (Result B E)) (Q : A -> St -> Prop) (R : Result B E -> St -> Prop) :
  crash G P p (on_ok Q (fun e => R (Err e))) -> (forall a, crash G (Q a) (f a) R) ->
  crash G P (try_bind p f) R.
Proof.
  intros Hp Hf. eapply crash_bind; [exact Hp|]. intros [a|e]; simpl; [apply Hf|].
  apply (crash_ret G (Err e) R).
Qed.

(** The invariant of a loop names the elements already processed. *)
Lemma crash_try_for {A E} (G : St -> Prop) (f : A -> Prog Op (Result unit E))
    (J : list A -> St -> Prop) (R : E -> St -> Prop) l :
  (forall past a, crash G (J past) (f a) (on_ok (fun _ => J (past ++ [a])) R)) ->
  crash G (J []) (try_for l f) (on_ok (fun _ => J l) R).
Proof.
  intros Hf. assert (Hg : forall past, crash G (J past) (try_for l f) (on_ok (fun _ => J (past ++ l)) R)).
  { induction l as [|a l IH]; intros past; simpl.
    - rewrite app_nil_r. apply (crash_ret G (Ok tt) (on_ok (fun _ => J past) R)).
    - eapply (crash_try _ _ _ _ (fun _ => J (past ++ [a]))); [apply Hf|]. intros _.
      eapply crash_conseq; [apply IH | done |]. by rewrite <- app_assoc. }
  apply (Hg []).
Qed.
End run.

#[export] Hint Resolve all_ops_ret all_ops_bind all_ops_try all_ops_op all_ops_try_for : matter.
