(* ===== verification/Fs.v ===== *)
(** * The file system the storage code runs on

    [std::fs] as the program uses it: paths, files with a mode, and operations
    that can fail at any point ([fs_faults] scripts which one does). *)

From S2P Require Import Prelude Prog.

Inductive IoErrorKind : Type := NotFound | AlreadyExists | InvalidData | InvalidInput | OtherIo.

Record IoError : Type := { io_kind : IoErrorKind; io_message : string }.

Definition io_error (k : IoErrorKind) (m : string) : IoError := {| io_kind := k; io_message := m |}.

(** A path is its components; the root is the empty path. *)
Abbreviation Path := (list string).

Definition join (dir : Path) (name : string) : Path := dir ++ [name].

(** [Path::parent], [Path::file_name]. *)
Definition parent (p : Path) : option Path :=
  match p with [] => None | _ => Some (removelast p) end.
Definition file_name (p : Path) : option string :=
  match last p with Some ".." => None | o => o end.

(** [Path::extension] of a file name. *)
Definition extension (name : string) : option string :=
  match rsplit_once "." name with
  | Some (EmptyString, _) | None => None
  | Some (_, ext) => Some ext
  end.

Definition show_path (p : Path) : string := str_concat (map (fun c => "/" +:+ c) p).
(** [{path:?}] *)
Definition debug_path (p : Path) : string := debug_str (show_path p).

Definition mode_0600 : Z := 384.   (* 0o600 *)

Record File : Type := { f_data : string; f_mode : Z }.

Record FS : Type := {
  fs_files : gmap Path File;
  fs_dirs : gset Path;
  fs_faults : list (option IoError);   (* the outcome the environment forces on the next operations *)
  fs_seq : Z;                          (* TMP_SEQ *)
  fs_pid : Z;
  fs_create_mode : Z;                  (* 0o666 less the umask *)
}.

Definition with_files (fs : FS) (m : gmap Path File) : FS :=
  {| fs_files := m; fs_dirs := fs_dirs fs; fs_faults := fs_faults fs; fs_seq := fs_seq fs;
     fs_pid := fs_pid fs; fs_create_mode := fs_create_mode fs |}.
Definition with_dirs (fs : FS) (d : gset Path) : FS :=
  {| fs_files := fs_files fs; fs_dirs := d; fs_faults := fs_faults fs; fs_seq := fs_seq fs;
     fs_pid := fs_pid fs; fs_create_mode := fs_create_mode fs |}.

Inductive FsOp : Type -> Type :=
| CreateDirAll (p : Path) : FsOp (Result unit IoError)
| ReadFile (p : Path) : FsOp (Result string IoError)
| TryExists (p : Path) : FsOp (Result bool IoError)
| OpenWrite (p : Path) (mode : option Z) : FsOp (Result unit IoError)  (* write, create, truncate *)
| WriteChunk (p : Path) (s : string) : FsOp (Result unit IoError)
| SyncAll (p : Path) : FsOp (Result unit IoError)
| SetPermissions (p : Path) (mode : Z) : FsOp (Result unit IoError)
| Rename (p q : Path) : FsOp (Result unit IoError)
| RemoveFile (p : Path) : FsOp (Result unit IoError)
| ReadDir (p : Path) : FsOp (Result (list string) IoError)
| NextSeq : FsOp Z                                                     (* TMP_SEQ.fetch_add(1) *)
| Pid : FsOp Z.

(** The next scripted outcome. *)
Definition pop_fault (fs : FS) : option IoError * FS :=
  match fs_faults fs with
  | [] => (None, fs)
  | f :: rest =>
      (f, {| fs_files := fs_files fs; fs_dirs := fs_dirs fs; fs_faults := rest; fs_seq := fs_seq fs;
             fs_pid := fs_pid fs; fs_create_mode := fs_create_mode fs |})
  end.

Definition faulty {A : Type} (fs : FS) (f : FS -> Result A IoError * FS) : Result A IoError * FS :=
  match pop_fault fs with
  | (Some e, fs) => (Err e, fs)
  | (None, fs) => f fs
  end.

Definition not_found (p : Path) : IoError := io_error NotFound ("No such file or directory: " +:+ show_path p).

Definition on_file {A : Type} (p : Path) (fs : FS) (f : File -> Result A IoError * FS) : Result A IoError * FS :=
  match fs_files fs !! p with Some x => f x | None => (Err (not_found p), fs) end.

Definition children (p : Path) (fs : FS) : list string :=
  omap (fun q => if decide (parent q = Some p) then last q else None) ((map_to_list (fs_files fs)).*1).

Fixpoint prefixes (p : Path) : list Path :=
  match p with [] => [[]] | c :: p => [] :: map (cons c) (prefixes p) end.

Definition fs_step (B : Type) (op : FsOp B) (fs : FS) : B * FS :=
  match op with
  | CreateDirAll p => faulty fs (fun fs => (Ok tt, with_dirs fs (list_to_set (prefixes p) ∪ fs_dirs fs)))
  | ReadFile p => faulty fs (fun fs => on_file p fs (fun x => (Ok (f_data x), fs)))
  | TryExists p => faulty fs (fun fs => (Ok (bool_decide (is_Some (fs_files fs !! p))), fs))
  | OpenWrite p mode =>
      faulty fs (fun fs =>
        if decide (unwrap_or [] (parent p) ∈ fs_dirs fs) then
          let m := match fs_files fs !! p with
                   | Some x => f_mode x
                   | None => unwrap_or (fs_create_mode fs) mode
                   end in
          (Ok tt, with_files fs (<[p := {| f_data := ""; f_mode := m |}]> (fs_files fs)))
        else (Err (not_found p), fs))
  | WriteChunk p s =>
      faulty fs (fun fs => on_file p fs (fun x =>
        (Ok tt, with_files fs (<[p := {| f_data := f_data x +:+ s; f_mode := f_mode x |}]> (fs_files fs)))))
  | SyncAll p => faulty fs (fun fs => (Ok tt, fs))
  | SetPermissions p mode =>
      faulty fs (fun fs => on_file p fs (fun x =>
        (Ok tt, with_files fs (<[p := {| f_data := f_data x; f_mode := mode |}]> (fs_files fs)))))
  | Rename p q =>
      faulty fs (fun fs => on_file p fs (fun x =>
        (Ok tt, with_files fs (<[q := x]> (delete p (fs_files fs))))))
  | RemoveFile p =>
      faulty fs (fun fs => on_file p fs (fun _ => (Ok tt, with_files fs (delete p (fs_files fs)))))
  | ReadDir p =>
      faulty fs (fun fs => if decide (p ∈ fs_dirs fs) then (Ok (children p fs), fs)
                           else (Err (not_found p), fs))
  | NextSeq =>
      (fs_seq fs, {| fs_files := fs_files fs; fs_dirs := fs_dirs fs; fs_faults := fs_faults fs;
                     fs_seq := as_u 64 (fs_seq fs + 1); fs_pid := fs_pid fs;
                     fs_create_mode := fs_create_mode fs |})
  | Pid => (fs_pid fs, fs)
  end.

Abbreviation Io := (Prog FsOp).

Definition run_io {A : Type} (p : Io A) (fs : FS) : A * FS := run fs_step p fs.

(** ** What an operation can change *)

Definition touches (P : Path -> Prop) (B : Type) (op : FsOp B) : Prop :=
  match op with
  | OpenWrite p _ | WriteChunk p _ | SetPermissions p _ | RemoveFile p => P p
  | Rename p q => P p /\ P q
  | _ => True
  end.

Lemma pop_fault_files fs : fs_files (pop_fault fs).2 = fs_files fs.
Proof. unfold pop_fault. by destruct (fs_faults fs). Qed.

Lemma faulty_inv {A : Type} (I : gmap Path File -> Prop) fs (f : FS -> Result A IoError * FS) :
  I (fs_files fs) -> (forall fs', fs_files fs' = fs_files fs -> I (fs_files (f fs').2)) ->
  I (fs_files (faulty fs f).2).
Proof.
  intros HI Hf. unfold faulty. pose proof (pop_fault_files fs) as E.
  destruct (pop_fault fs) as [[e|] fs']; simpl in *; [by rewrite E | by apply Hf].
Qed.

Lemma fs_step_files (P : Path -> Prop) B (op : FsOp B) fs q :
  touches P B op -> ~ P q -> fs_files (fs_step B op fs).2 !! q = fs_files fs !! q.
Proof.
  intros Ht Hq. destruct op; simpl in Ht |- *; try done;
    apply (faulty_inv (fun m => m !! q = fs_files fs !! q)); try done; intros fs' E;
    unfold on_file; repeat case_match; simpl; rewrite ?E; try done;
    repeat first [rewrite lookup_insert_ne by naive_solver | rewrite lookup_delete_ne by naive_solver];
    done.
Qed.

(** Without scripted faults nothing is forced. *)
Lemma faulty_nil {A : Type} fs (f : FS -> Result A IoError * FS) : fs_faults fs = [] -> faulty fs f = f fs.
Proof. intros E. unfold faulty, pop_fault. by rewrite E. Qed.

Lemma fs_step_faults_nil B (op : FsOp B) fs :
  fs_faults fs = [] -> fs_faults (fs_step B op fs).2 = [].
Proof.
  intros E. destruct op; simpl; try done; rewrite faulty_nil by done;
    unfold on_file; repeat case_match; done.
Qed.

Lemma fs_step_dirs B (op : FsOp B) fs d :
  d ∈ fs_dirs fs -> d ∈ fs_dirs (fs_step B op fs).2.
Proof.
  intros Hd. destruct op; simpl; try done; unfold faulty, pop_fault; destruct (fs_faults fs) as [|[] ?];
    simpl; unfold on_file; repeat case_match; simpl; set_solver.
Qed.

(** ** Triples for the operations

    Assertions speak of the files only, so a scripted fault keeps them. *)

Definition at_files (P : gmap Path File -> Prop) (fs : FS) : Prop := P (fs_files fs).

Lemma crash_faulty {A : Type} (G P : gmap Path File -> Prop) (op : FsOp (Result A IoError))
    (f : FS -> Result A IoError * FS) (Q : A -> gmap Path File -> Prop) (R : IoError -> gmap Path File -> Prop) :
  (forall fs, fs_step _ op fs = faulty fs f) ->
  (forall m, P m -> G m) -> (forall e m, P m -> R e m) ->
  (forall fs, P (fs_files fs) ->
     G (fs_files (f fs).2) /\
     match (f fs).1 with Ok a => Q a (fs_files (f fs).2) | Err e => R e (fs_files (f fs).2) end) ->
  crash fs_step (at_files G) (at_files P) (do_op op)
    (on_ok (fun a => at_files (Q a)) (fun e => at_files (R e))).
Proof.
  intros Hop HG HR Hf. apply crash_op. intros fs HP. rewrite Hop. unfold faulty, at_files, on_ok in *.
  unfold pop_fault. destruct (fs_faults fs) as [|[e|] rest]; simpl.
  - destruct (Hf fs HP) as [? H]. split; [done|]. by destruct (f fs).1.
  - split; [by apply HG | by apply HR].
  - match goal with |- context [f ?s] => destruct (Hf s HP) as [? H]; split; [done|]; by destruct (f s).1 end.
Qed.

Lemma crash_weaken {A : Type} (G P P' : gmap Path File -> Prop) (p : Io (Result A IoError))
    (Q Q' : A -> gmap Path File -> Prop) (R R' : IoError -> gmap Path File -> Prop) :
  crash fs_step (at_files G) (at_files P) p (on_ok (fun a => at_files (Q a)) (fun e => at_files (R e))) ->
  (forall m, P' m -> P m) -> (forall a m, Q a m -> Q' a m) -> (forall e m, R e m -> R' e m) ->
  crash fs_step (at_files G) (at_files P') p (on_ok (fun a => at_files (Q' a)) (fun e => at_files (R' e))).
Proof.
  intros Hp HP HQ HR. eapply crash_conseq; [exact Hp | |].
  - intros s. apply HP.
  - intros [a|e] s; unfold on_ok, at_files; [apply HQ | apply HR].
Qed.
