(* ===== verification/Storage.v ===== *)
(** * Persistent state

    [crates/controller/src/storage.rs]: the identity, configuration and node
    records with their JSON forms, the atomic file writes, and the small rules
    on labels, node ids and credentials. *)

From S2P Require Import Prelude Json Prog Fs.

(** ** Data *)

Definition IDENTITY_VERSION : Z := 1.

Record ServerIdentity : Type := {
  id_version : Z;
  id_fabric_id : Z;
  id_vendor_id : Z;
  id_controller_node_id : Z;
  id_compressed_fabric_id : Z;
  id_ca_private_key : string;
  id_rcac_tlv : string;
  id_controller_private_key : string;
  id_controller_noc_tlv : string;
  id_ipk : string;
}.

Record WifiCredential : Type := { wc_ssid : string; wc_password : string }.

Record ConfigData : Type := {
  cfg_fabric_label : string;
  cfg_next_node_id : Z;
  cfg_wifi_credentials : BTreeMap string WifiCredential;
  cfg_thread_datasets : BTreeMap string string;
}.

Definition ConfigData_default : ConfigData :=
  {| cfg_fabric_label := "HomeAssistant"; cfg_next_node_id := 1;
     cfg_wifi_credentials := []; cfg_thread_datasets := [] |}.

Record NodeRecord : Type := {
  nr_node_id : Z;
  nr_date_commissioned : string;
  nr_last_interview : string;
  nr_device_fabric_index : Z;
  nr_addresses : list string;
  nr_attributes : Map;
}.

#[export] Instance WifiCredential_eq_dec : EqDecision WifiCredential.
Proof. solve_decision. Defined.
#[export] Instance NodeRecord_eq_dec : EqDecision NodeRecord.
Proof. solve_decision. Defined.

(** ** Debug output of the types holding secrets

    [debug_struct(name).field(..).finish()]: fields separated by commas. *)

Definition debug_struct (name : string) (fields : list (string * string)) : string :=
  name +:+ " { " +:+
  str_concat (imap (fun i f => (match i with O => "" | _ => ", " end) +:+ f.1 +:+ ": " +:+ f.2) fields)
  +:+ " }".

Definition identity_debug (i : ServerIdentity) : string :=
  let redacted s := "[redacted; " +:+ show (str_len s) +:+ " bytes]" in
  let sized s := "[" +:+ show (str_len s) +:+ " bytes]" in
  debug_struct "ServerIdentity"
    [("version", show (id_version i));
     ("fabric_id", show (id_fabric_id i));
     ("vendor_id", show (id_vendor_id i));
     ("controller_node_id", show (id_controller_node_id i));
     ("compressed_fabric_id", show (id_compressed_fabric_id i));
     ("ca_private_key", redacted (id_ca_private_key i));
     ("rcac_tlv", sized (id_rcac_tlv i));
     ("controller_private_key", redacted (id_controller_private_key i));
     ("controller_noc_tlv", sized (id_controller_noc_tlv i));
     ("ipk", redacted (id_ipk i))].

Definition wifi_debug (c : WifiCredential) : string :=
  debug_struct "WifiCredential"
    [("ssid", debug_str (wc_ssid c)); ("password", "[redacted]")].

(** ** JSON forms *)

Section serde.
Context `{Base64}.

Definition identity_document (i : ServerIdentity) : Value :=
  struct_document
    [field "version" (json_u (id_version i));
     field "fabric_id" (json_u (id_fabric_id i));
     field "vendor_id" (json_u (id_vendor_id i));
     field "controller_node_id" (json_u (id_controller_node_id i));
     field "compressed_fabric_id" (json_u (id_compressed_fabric_id i));
     field "ca_private_key" (VString (b64_encode (id_ca_private_key i)));
     field "rcac_tlv" (VString (b64_encode (id_rcac_tlv i)));
     field "controller_private_key" (VString (b64_encode (id_controller_private_key i)));
     field "controller_noc_tlv" (VString (b64_encode (id_controller_noc_tlv i)));
     field "ipk" (VString (b64_encode (id_ipk i)))].

Definition de_identity : Decoder ServerIdentity := fun v =>
  let? m := de_fields ["version"; "fabric_id"; "vendor_id"; "controller_node_id";
                       "compressed_fabric_id"; "ca_private_key"; "rcac_tlv";
                       "controller_private_key"; "controller_noc_tlv"; "ipk"] v in
  let? version := de_default m "version" IDENTITY_VERSION (de_u 32) in
  let? fabric_id := de_req m "fabric_id" (de_u 64) in
  let? vendor_id := de_req m "vendor_id" (de_u 16) in
  let? controller_node_id := de_req m "controller_node_id" (de_u 64) in
  let? compressed_fabric_id := de_req m "compressed_fabric_id" (de_u 64) in
  let? ca_private_key := de_req m "ca_private_key" de_b64 in
  let? rcac_tlv := de_req m "rcac_tlv" de_b64 in
  let? controller_private_key := de_req m "controller_private_key" de_b64 in
  let? controller_noc_tlv := de_req m "controller_noc_tlv" de_b64 in
  let? ipk := de_req m "ipk" de_b64 in
  Ok {| id_version := version; id_fabric_id := fabric_id; id_vendor_id := vendor_id;
        id_controller_node_id := controller_node_id;
        id_compressed_fabric_id := compressed_fabric_id;
        id_ca_private_key := ca_private_key; id_rcac_tlv := rcac_tlv;
        id_controller_private_key := controller_private_key;
        id_controller_noc_tlv := controller_noc_tlv; id_ipk := ipk |}.
End serde.

Definition wifi_document (c : WifiCredential) : Value :=
  struct_document [field "ssid" (VString (wc_ssid c)); field "password" (VString (wc_password c))].

Definition de_wifi : Decoder WifiCredential := fun v =>
  let? m := de_fields ["ssid"; "password"] v in
  let? ssid := de_req m "ssid" de_string in
  let? password := de_req m "password" de_string in
  Ok {| wc_ssid := ssid; wc_password := password |}.

Definition config_document (c : ConfigData) : Value :=
  struct_document
    [field "fabric_label" (VString (cfg_fabric_label c));
     field "next_node_id" (json_u (cfg_next_node_id c));
     field "wifi_credentials" (VObject (map (fun kv => (kv.1, wifi_document kv.2)) (cfg_wifi_credentials c)));
     field "thread_datasets" (VObject (map (fun kv => (kv.1, VString kv.2)) (cfg_thread_datasets c)))].

(** [#[serde(default)]] on the container: every field has one. *)
Definition de_config : Decoder ConfigData := fun v =>
  let? m := de_fields ["fabric_label"; "next_node_id"; "wifi_credentials"; "thread_datasets"] v in
  let d := ConfigData_default in
  let? fabric_label := de_default m "fabric_label" (cfg_fabric_label d) de_string in
  let? next_node_id := de_default m "next_node_id" (cfg_next_node_id d) (de_u 64) in
  let? wifi := de_default m "wifi_credentials" (cfg_wifi_credentials d) (de_btree de_wifi) in
  let? thread := de_default m "thread_datasets" (cfg_thread_datasets d) (de_btree de_string) in
  Ok {| cfg_fabric_label := fabric_label; cfg_next_node_id := next_node_id;
        cfg_wifi_credentials := wifi; cfg_thread_datasets := thread |}.

Definition node_document (r : NodeRecord) : Value :=
  struct_document
    [field "node_id" (json_u (nr_node_id r));
     field "date_commissioned" (VString (nr_date_commissioned r));
     field "last_interview" (VString (nr_last_interview r));
     field "device_fabric_index" (json_u (nr_device_fabric_index r));
     field "addresses" (VArray (map VString (nr_addresses r)));
     field "attributes" (VObject (nr_attributes r))].

Definition de_node : Decoder NodeRecord := fun v =>
  let? m := de_fields ["node_id"; "date_commissioned"; "last_interview"; "device_fabric_index";
                       "addresses"; "attributes"] v in
  let? node_id := de_req m "node_id" (de_u 64) in
  let? date_commissioned := de_req m "date_commissioned" de_string in
  let? last_interview := de_req m "last_interview" de_string in
  let? device_fabric_index := de_req m "device_fabric_index" (de_u 8) in
  let? addresses := de_default m "addresses" [] (de_vec de_string) in
  let? attributes := de_default m "attributes" [] de_map in
  Ok {| nr_node_id := node_id; nr_date_commissioned := date_commissioned;
        nr_last_interview := last_interview; nr_device_fabric_index := device_fabric_index;
        nr_addresses := addresses; nr_attributes := attributes |}.

(** ** Files *)

Section files.
Context `{SerdeJson}.

(** [read_to_string] refuses a file that is not UTF-8. *)
Definition read_to_string (p : Path) : Io (Result string IoError) :=
  do? data := do_op (ReadFile p) in
  Ret (if utf8_valid data then Ok data
       else Err (io_error InvalidData "stream did not contain valid UTF-8")).

Definition parse_as {A} (d : Decoder A) (data : string) : Result A string :=
  let? v := json_from_str data in map_err de_message (d v).

Definition read_json_strict {A} (d : Decoder A) (path : Path) : Io (Result (option A) IoError) :=
  do! r := read_to_string path in
  match r with
  | Ok data =>
      Ret (map_err (fun e => io_error InvalidData (debug_path path +:+ ": " +:+ e))
             (result_map Some (parse_as d data)))
  | Err e => match io_kind e with NotFound => Ret (Ok None) | _ => Ret (Err e) end
  end.

Definition read_json {A} (d : Decoder A) (path : Path) : Io (option A) :=
  do! r := read_to_string path in
  match r with
  | Err _ => Ret None
  | Ok data => Ret (result_ok (parse_as d data))
  end.

Definition write_tmp_then_rename (tmp path : Path) (value : Value) (secret : bool) : Io (Result unit IoError) :=
  do? _ := do_op (OpenWrite tmp (if secret then Some mode_0600 else None)) in
  do? _ := try_for (json_chunks value) (fun s => do_op (WriteChunk tmp s)) in
  do? _ := do_op (SyncAll tmp) in
  do? _ := (if secret then do_op (SetPermissions tmp mode_0600) else Ret (Ok tt)) in
  do_op (Rename tmp path).

Definition tmp_name (name : string) (pid seq : Z) : string :=
  "." +:+ name +:+ ".tmp-" +:+ show pid +:+ "-" +:+ show seq.

Definition write_json_atomic (path : Path) (value : Value) (secret : bool) : Io (Result unit IoError) :=
  match parent path, file_name path with
  | Some dir, Some name =>
      do! seq := do_op NextSeq in
      do! pid := do_op Pid in
      let tmp := join dir (tmp_name name pid seq) in
      do! result := write_tmp_then_rename tmp path value secret in
      match result with
      | Err _ => do! _ := do_op (RemoveFile tmp) in Ret result
      | Ok _ => Ret result
      end
  | _, _ =>
      Ret (Err (io_error InvalidInput
        (debug_path path +:+ " has no parent directory or file name to write atomically")))
  end.
End files.

(** ** Storage *)

Record Storage : Type := { st_root : Path }.

Section storage.
Context `{SerdeJson} `{Base64}.

Definition open (root : Path) : Io (Result Storage IoError) :=
  do? _ := do_op (CreateDirAll (join root "nodes")) in
  do? _ := do_op (CreateDirAll (join root "sessions")) in
  Ret (Ok {| st_root := root |}).

Definition load_identity (s : Storage) : Io (Result (option ServerIdentity) IoError) :=
  read_json_strict de_identity (join (st_root s) "server.json").

Definition create_identity (s : Storage) (id : ServerIdentity) : Io (Result unit IoError) :=
  let path := join (st_root s) "server.json" in
  do? exists_ := do_op (TryExists path) in
  if (exists_ : bool) then
    Ret (Err (io_error AlreadyExists
      ("refusing to overwrite existing " +:+ debug_path path +:+ " with a freshly generated identity")))
  else write_json_atomic path (identity_document id) true.

Definition save_identity (s : Storage) (id : ServerIdentity) : Io (Result unit IoError) :=
  write_json_atomic (join (st_root s) "server.json") (identity_document id) true.

Definition load_config (s : Storage) : Io ConfigData :=
  do! c := read_json de_config (join (st_root s) "config.json") in
  Ret (unwrap_or ConfigData_default c).

Definition save_config (s : Storage) (cfg : ConfigData) : Io (Result unit IoError) :=
  write_json_atomic (join (st_root s) "config.json") (config_document cfg) true.

Definition nodes_dir (s : Storage) : Path := join (st_root s) "nodes".
Definition node_file (s : Storage) (node_id : Z) : Path :=
  join (nodes_dir s) (show node_id +:+ ".json").

Fixpoint load_node_files (dir : Path) (entries : list string) : Io (list NodeRecord) :=
  match entries with
  | [] => Ret []
  | e :: entries =>
      if decide (extension e = Some "json") then
        do! rec := read_json de_node (join dir e) in
        do! rest := load_node_files dir entries in
        Ret (match rec with Some r => r :: rest | None => rest end)
      else load_node_files dir entries
  end.

Definition load_nodes (s : Storage) : Io (list NodeRecord) :=
  do! entries := do_op (ReadDir (nodes_dir s)) in
  match entries with
  | Err _ => Ret []
  | Ok entries =>
      do! out := load_node_files (nodes_dir s) entries in
      Ret (sort_by_key nr_node_id out)
  end.

Definition save_node (s : Storage) (rec : NodeRecord) : Io (Result unit IoError) :=
  write_json_atomic (node_file s (nr_node_id rec)) (node_document rec) false.

Definition delete_node (s : Storage) (node_id : Z) : Io (Result unit IoError) :=
  let p := node_file s node_id in
  do! e := do_op (TryExists p) in
  match e with
  | Ok true => do_op (RemoveFile p)      (* [exists()] folds errors into false *)
  | _ => Ret (Ok tt)
  end.
End storage.

(** ** Labels, ids, credentials *)

Definition normalize_fabric_label (label : option string) : string :=
  let trimmed := match label with Some l => trim l | None => "" end in
  let effective := if str_is_empty trimmed then "HomeAssistant" else trimmed in
  str_concat (take 32 (chars effective)).

(** The [while is_in_use(candidate)] loop, with the number of its iterations
    bounded by [fuel]; [candidate += 1] is the wrapping addition of a release
    build. *)
Fixpoint skip_in_use (fuel : nat) (is_in_use : Z -> bool) (candidate : Z) : option Z :=
  match fuel with
  | O => None
  | S fuel =>
      if is_in_use candidate then skip_in_use fuel is_in_use (as_u 64 (candidate + 1))
      else Some candidate
  end.

Definition allocate_node_id (fuel : nat) (cfg : ConfigData) (is_in_use : Z -> bool) :
    option (Z * ConfigData) :=
  let start := Z.max (cfg_next_node_id cfg) 1 in
  match skip_in_use fuel is_in_use start with
  | None => None
  | Some candidate =>
      Some (candidate,
            {| cfg_fabric_label := cfg_fabric_label cfg;
               cfg_next_node_id := as_u 64 (candidate + 1);
               cfg_wifi_credentials := cfg_wifi_credentials cfg;
               cfg_thread_datasets := cfg_thread_datasets cfg |})
  end.

Definition validate_credential_id (id : string) (existing : list string) : Result unit string :=
  if str_is_empty id then Err "invalid-credential-id: id must be non-empty"
  else
    let lower := to_ascii_lowercase id in
    if String.eqb lower "delete" || (String.eqb lower "default" && negb (String.eqb id "default")) then
      Err ("invalid-credential-id: '" +:+ id +:+ "' is reserved")
    else if String.eqb lower "default" then Ok tt
    else
      match List.find (fun other => String.eqb (to_ascii_lowercase other) lower
                                    && negb (String.eqb other id)) existing with
      | Some other => Err ("invalid-credential-id: '" +:+ id +:+ "' duplicates existing '" +:+ other +:+ "'")
      | None => Ok tt
      end.

Definition validate_thread_dataset (hex : string) : Result unit string :=
  if str_is_empty hex || negb (str_len hex mod 2 =? 0) || negb (str_forall is_ascii_hexdigit hex) then
    Err "Invalid Thread operational dataset: must be a non-empty hex string with even length (each byte is two hex characters)"
  else Ok tt.

(** [format_node_date] is [chrono]'s rendering of a [SystemTime] (milliseconds
    since 1970) in the local time zone. *)
Class NodeDate : Type := { format_node_date : Z -> string }.

(** ** Atomic writes *)

Section atomic.
Context `{SerdeJson} (path tmp : Path) (value : Value) (secret : bool) (m0 : gmap Path File).
Hypothesis Hne : tmp <> path.

(** The complete new file. *)
Definition complete (x : File) : Prop :=
  f_data x = str_concat (json_chunks value) /\ (secret = true -> f_mode x = mode_0600).

(** The temporary file is never readable by others when it holds secrets. *)
Definition tmp_private (m : gmap Path File) : Prop :=
  secret = true -> m0 !! tmp = None -> forall x, m !! tmp = Some x -> f_mode x = mode_0600.

Definition others_kept (m : gmap Path File) : Prop :=
  forall q, q <> path -> q <> tmp -> m !! q = m0 !! q.

Definition writing (m : gmap Path File) : Prop :=
  m !! path = m0 !! path /\ tmp_private m /\ others_kept m.

Definition old_or_complete (m : gmap Path File) : Prop :=
  (m !! path = m0 !! path \/ exists x, m !! path = Some x /\ complete x) /\
  tmp_private m /\ others_kept m.

Definition tmp_holds (d : string) (m : gmap Path File) : Prop :=
  writing m /\ exists x, m !! tmp = Some x /\ f_data x = d.

Definition tmp_complete (m : gmap Path File) : Prop :=
  writing m /\ exists x, m !! tmp = Some x /\ complete x.

Definition replaced (m : gmap Path File) : Prop :=
  (exists x, m !! path = Some x /\ complete x) /\ tmp_private m /\ others_kept m.

Lemma writing_old m : writing m -> old_or_complete m.
Proof. intros (? & ? & ?). split; auto. Qed.

Lemma writing_insert x m :
  writing m -> (secret = true -> m0 !! tmp = None -> f_mode x = mode_0600) ->
  writing (<[tmp := x]> m).
Proof.
  intros (Hp & _ & Ho) Hx. split; [|split].
  - by rewrite lookup_insert_ne.
  - intros ? ? y. rewrite lookup_insert_eq. intros [= <-]. auto.
  - intros q ? ?. rewrite lookup_insert_ne by done. by apply Ho.
Qed.

Lemma tmp_mode m x : writing m -> m !! tmp = Some x -> secret = true -> m0 !! tmp = None -> f_mode x = mode_0600.
Proof. intros (_ & Ht & _) ? ? ?. by apply Ht. Qed.

Abbreviation triple P p Q R :=
  (crash fs_step (at_files old_or_complete) (at_files P) p
     (on_ok (fun _ : unit => at_files Q) (fun _ : IoError => at_files R))).

Lemma triple_open :
  triple writing (do_op (OpenWrite tmp (if secret then Some mode_0600 else None))) (tmp_holds "") writing.
Proof.
  eapply (crash_faulty _ _ _ _ (fun _ => _) (fun _ => _)); [reflexivity | apply writing_old | done |].
  intros fs Hw. simpl. case_decide; simpl; [|auto using writing_old].
  assert (Hi : writing (<[tmp := {| f_data := "";
             f_mode := match fs_files fs !! tmp with
                       | Some x => f_mode x
                       | None => unwrap_or (fs_create_mode fs) (if secret then Some mode_0600 else None)
                       end |}]> (fs_files fs))).
  { apply writing_insert; [done|]. intros Hs Hn. simpl.
    destruct (fs_files fs !! tmp) as [x|] eqn:E; [by apply (tmp_mode (fs_files fs))|].
    by rewrite Hs. }
  split; [by apply writing_old|]. split; [done|]. eexists. by rewrite lookup_insert_eq.
Qed.

Lemma triple_write past s :
  triple (tmp_holds (str_concat past)) (do_op (WriteChunk tmp s)) (tmp_holds (str_concat (past ++ [s]))) writing.
Proof.
  eapply (crash_faulty _ _ _ _ (fun _ => _) (fun _ => _)); [reflexivity | | |].
  { intros m [? _]. by apply writing_old. }
  { by intros _ m [? _]. }
  intros fs (Hw & x & Hx & Hd). unfold on_file. rewrite Hx. simpl.
  assert (Hi : writing (<[tmp := {| f_data := f_data x +:+ s; f_mode := f_mode x |}]> (fs_files fs))).
  { apply writing_insert; [done|]. intros. simpl. by apply (tmp_mode (fs_files fs)). }
  split; [by apply writing_old|]. split; [done|]. eexists. rewrite lookup_insert_eq. split; [done|].
  simpl. rewrite str_concat_app, Hd. simpl. by rewrite str_app_nil_r.
Qed.

Lemma triple_sync d : triple (tmp_holds d) (do_op (SyncAll tmp)) (tmp_holds d) writing.
Proof.
  eapply (crash_faulty _ _ _ _ (fun _ => _) (fun _ => _)); [reflexivity | | |].
  { intros m [? _]. by apply writing_old. }
  { by intros _ m [? _]. }
  intros fs Hd. simpl. split; [|done]. apply writing_old, Hd.
Qed.

Lemma triple_permissions :
  triple (tmp_holds (str_concat (json_chunks value)))
    (if secret then do_op (SetPermissions tmp mode_0600) else Ret (Ok tt)) tmp_complete writing.
Proof.
  destruct secret eqn:Hs.
  2: { eapply crash_conseq; [apply (crash_ret _ _ (Ok tt)
         (on_ok (fun _ => at_files tmp_complete) (fun _ => at_files writing))) | | auto].
       intros fs (Hw & x & Hx & Hd). split; [done|]. exists x. split; [done|]. split; [done|].
       congruence. }
  eapply (crash_faulty _ _ _ _ (fun _ => _) (fun _ => _)); [reflexivity | | |].
  { intros m [? _]. by apply writing_old. }
  { by intros _ m [? _]. }
  intros fs (Hw & x & Hx & Hd). unfold on_file. rewrite Hx. simpl.
  assert (Hi : writing (<[tmp := {| f_data := f_data x; f_mode := mode_0600 |}]> (fs_files fs))).
  { by apply writing_insert. }
  split; [by apply writing_old|]. split; [done|]. eexists. rewrite lookup_insert_eq. done.
Qed.

Lemma triple_rename : triple tmp_complete (do_op (Rename tmp path)) replaced writing.
Proof.
  eapply (crash_faulty _ _ _ _ (fun _ => _) (fun _ => _)); [reflexivity | | |].
  { intros m [? _]. by apply writing_old. }
  { by intros _ m [? _]. }
  intros fs ((Hp & Ht & Ho) & x & Hx & Hc). unfold on_file. rewrite Hx. simpl.
  assert (Hr : replaced (<[path := x]> (delete tmp (fs_files fs)))).
  { split; [|split].
    - exists x. by rewrite lookup_insert_eq.
    - intros _ _ y. rewrite lookup_insert_ne, lookup_delete_eq by done. done.
    - intros q ? ?. rewrite lookup_insert_ne, lookup_delete_ne by done. by apply Ho. }
  split; [|done]. destruct Hr as (? & ? & ?). split; auto.
Qed.

Lemma triple_remove :
  triple writing (do_op (RemoveFile tmp)) writing writing.
Proof.
  eapply (crash_faulty _ _ _ _ (fun _ => _) (fun _ => _)); [reflexivity | apply writing_old | done |].
  intros fs Hw. simpl. unfold on_file. destruct (fs_files fs !! tmp) eqn:E; simpl; [|auto using writing_old].
  assert (Hd : writing (delete tmp (fs_files fs))).
  { destruct Hw as (Hp & Ht & Ho). split; [|split].
    - by rewrite lookup_delete_ne.
    - intros _ _ y. by rewrite lookup_delete_eq.
    - intros q ? ?. rewrite lookup_delete_ne by done. by apply Ho. }
  auto using writing_old.
Qed.

Lemma triple_write_tmp_then_rename :
  triple writing (write_tmp_then_rename tmp path value secret) replaced writing.
Proof.
  unfold write_tmp_then_rename.
  eapply crash_try; [apply triple_open | intros ?; cbv beta].
  eapply crash_try; [apply (crash_try_for _ _ (fun s => do_op (WriteChunk tmp s))
    (fun past => at_files (tmp_holds (str_concat past))) (fun _ => at_files writing)) | intros ?; cbv beta].
  { intros. apply triple_write. }
  eapply crash_try; [apply triple_sync | intros ?; cbv beta].
  eapply crash_try; [apply triple_permissions | intros ?; cbv beta].
  apply triple_rename.
Qed.
End atomic.

Lemma str_length_app (a b : string) : String.length (a +:+ b) = (String.length a + String.length b)%nat.
Proof. induction a; simpl; congruence. Qed.

Lemma tmp_name_ne name pid seq : tmp_name name pid seq <> name.
Proof.
  intros E. apply (f_equal String.length) in E. unfold tmp_name in E.
  rewrite !str_length_app in E. simpl in E. lia.
Qed.

Lemma join_ne (dir : Path) (a b : string) : a <> b -> join dir a <> join dir b.
Proof. unfold join. intros Hne E. by apply app_inj_2 in E as [_ [= ?]]. Qed.

Lemma parent_join dir name : parent (join dir name) = Some dir.
Proof.
  unfold parent, join. destruct (dir ++ [name]) eqn:E; [by destruct dir|].
  by rewrite <- E, removelast_last.
Qed.

Lemma file_name_join dir name : name <> ".." -> file_name (join dir name) = Some name.
Proof.
  intros Hn. unfold file_name, join. rewrite last_snoc. by repeat (case_match; simplify_eq/=).
Qed.

(** The whole write, as a triple. *)
Lemma write_json_atomic_triple `{SerdeJson} (dir : Path) (name : string) (value : Value) (secret : bool) (fs : FS) :
  name <> ".." ->
  let path := join dir name in
  let tmp := join dir (tmp_name name (fs_pid fs) (fs_seq fs)) in
  crash fs_step (at_files (old_or_complete path tmp value secret (fs_files fs)))
    (fun s => s = fs) (write_json_atomic path value secret)
    (on_ok (fun _ => at_files (replaced path tmp value secret (fs_files fs)))
           (fun _ => at_files (writing path tmp secret (fs_files fs)))).
Proof.
  intros Hn path tmp.
  assert (Hw : at_files (writing path tmp secret (fs_files fs)) fs).
  { split; [done|]. split; [|done]. intros _ E x. by rewrite E. }
  assert (Hne : tmp <> path) by apply join_ne, tmp_name_ne.
  unfold write_json_atomic, path. rewrite parent_join, file_name_join by done.
  eapply crash_bind.
  { apply (crash_op _ _ _ _ (fun n s => n = fs_seq fs /\ fs_pid s = fs_pid fs /\
                              at_files (writing path tmp secret (fs_files fs)) s)).
    intros s ->. simpl. split; [by apply writing_old | done]. }
  intros seq. cbv beta. eapply crash_bind.
  { apply (crash_op _ _ _ _ (fun pid s => seq = fs_seq fs /\ pid = fs_pid fs /\
                              at_files (writing path tmp secret (fs_files fs)) s)).
    intros s (-> & Hp & Hs). simpl. split; [by apply writing_old | done]. }
  intros pid. cbv beta. intros s (-> & -> & Hs). revert s Hs.
  eapply crash_bind; [by apply triple_write_tmp_then_rename|]. intros [[]|e]; cbv beta.
  { apply (crash_ret _ _ (Ok tt) (on_ok _ _)). }
  eapply crash_bind; [by apply triple_remove|]. intros [[]|?]; cbv beta;
    apply (crash_ret _ _ (Err e) (on_ok _ _)).
Qed.

(** C1: an atomic JSON write at any path, whatever file-system operations fail
    and wherever a crash cuts it: in every state it goes through, the target is
    the old file or the complete new one, nothing but the target and the temporary
    file changes, and the new content, when it is secret, is never in a target of
    another mode than 0600, nor, if the temporary file did not exist before, in a
    temporary file of another mode (one left behind keeps its mode until it is
    set).  It reports success exactly when the target is the new file, else the
    old one is there. *)
Theorem write_json_atomic_never_torn `{SerdeJson} (dir : Path) (name : string) (value : Value) (secret : bool)
    (fs : FS) :
  name <> ".." ->
  Forall (at_files (old_or_complete (join dir name) (join dir (tmp_name name (fs_pid fs) (fs_seq fs)))
                      value secret (fs_files fs)))
    (states fs_step (write_json_atomic (join dir name) value secret) fs) /\
  match run_io (write_json_atomic (join dir name) value secret) fs with
  | (Ok _, fs') => exists x, fs_files fs' !! join dir name = Some x /\ complete value secret x
  | (Err _, fs') => fs_files fs' !! join dir name = fs_files fs !! join dir name
  end.
Proof.
  intros Hn. destruct (write_json_atomic_triple dir name value secret fs Hn fs eq_refl) as [HG HQ].
  split; [exact HG|]. unfold run_io.
  destruct (run fs_step (write_json_atomic (join dir name) value secret) fs) as [[[]|e] fs'];
    destruct HQ as (HQ & _); exact HQ.
Qed.

Definition torn_demo_fs : FS :=
  {| fs_files := {[ ["d"; "server.json"] := {| f_data := "old"; f_mode := 420 |} ]};
     fs_dirs := {[ ["d"] ]}; fs_faults := [None; None; None; None; Some (io_error OtherIo "EIO")];
     fs_seq := 7; fs_pid := 42; fs_create_mode := 420 |}.

Lemma write_json_atomic_never_torn_witness :
  Forall (at_files (old_or_complete (H := TreeJson) (join ["d"] "server.json")
                      (join ["d"] (tmp_name "server.json" (fs_pid torn_demo_fs) (fs_seq torn_demo_fs)))
                      VNull true (fs_files torn_demo_fs)))
    (states fs_step (write_json_atomic (H := TreeJson) (join ["d"] "server.json") VNull true) torn_demo_fs).
Proof.
  apply (write_json_atomic_never_torn (H := TreeJson)). discriminate.
Defined.

(** ** Writes that meet no fault *)

Section faultless.
Context `{SerdeJson} (dir : Path).

Definition clean (fs : FS) : Prop := fs_faults fs = [] /\ dir ∈ fs_dirs fs.
Definition clean_with (p : Path) (fs : FS) : Prop := clean fs /\ is_Some (fs_files fs !! p).

Abbreviation total P p Q := (crash fs_step (fun _ => True) P p (on_ok (fun _ : unit => Q) (fun _ : IoError => fun _ => False))).

Lemma clean_step B (op : FsOp B) fs : clean fs -> clean (fs_step B op fs).2.
Proof. intros [? ?]. split; [by apply fs_step_faults_nil | by apply fs_step_dirs]. Qed.

Lemma total_op (op : FsOp (Result unit IoError)) (P : FS -> Prop) (p : Path) :
  (forall fs, P fs -> clean fs) ->
  (forall fs, P fs -> (fs_step _ op fs).1 = Ok tt /\ is_Some (fs_files (fs_step _ op fs).2 !! p)) ->
  total P (do_op op) (clean_with p).
Proof.
  intros HP Hop. apply crash_op. intros fs Hfs. split; [done|].
  destruct (Hop fs Hfs) as [-> ?]. simpl. split; [|done]. by apply clean_step, HP.
Qed.

Lemma total_write_tmp_then_rename name path value secret :
  total clean (write_tmp_then_rename (join dir name) path value secret) (clean_with path).
Proof.
  unfold write_tmp_then_rename. set (tmp := join dir name).
  eapply crash_try; [apply (total_op _ _ tmp); [done|] | intros ?; cbv beta].
  { intros fs [Hf Hd]. unfold tmp. simpl. rewrite faulty_nil, parent_join by done. simpl.
    rewrite decide_True by done. simpl. by rewrite lookup_insert_eq. }
  eapply crash_try; [apply (crash_try_for _ _ (fun s => do_op (WriteChunk tmp s))
    (fun _ => clean_with tmp) (fun _ _ => False)) | intros ?; cbv beta].
  { intros _ c. apply total_op; [by intros fs []|].
    intros fs [[Hf Hd] [x Hx]]. simpl. rewrite faulty_nil by done. unfold on_file. rewrite Hx. simpl.
    by rewrite lookup_insert_eq. }
  eapply crash_try; [apply (total_op _ _ tmp); [by intros fs []|] | intros ?; cbv beta].
  { intros fs [[Hf Hd] ?]. simpl. by rewrite faulty_nil by done. }
  eapply (crash_try _ _ _ _ _ (fun _ => clean_with tmp)); [destruct secret | intros ?; cbv beta].
  { apply total_op; [by intros fs []|]. intros fs [[Hf Hd] [x Hx]]. simpl. rewrite faulty_nil by done.
    unfold on_file. rewrite Hx. simpl. by rewrite lookup_insert_eq. }
  { apply (crash_ret _ _ (Ok tt) (on_ok (fun _ => clean_with tmp) _)). }
  apply total_op; [by intros fs []|]. intros fs [[Hf Hd] [x Hx]]. simpl. rewrite faulty_nil by done.
  unfold on_file. rewrite Hx. simpl. by rewrite lookup_insert_eq.
Qed.

Lemma write_json_atomic_succeeds name value secret fs :
  name <> ".." -> clean fs ->
  let (r, fs') := run_io (write_json_atomic (join dir name) value secret) fs in
  r = Ok tt /\ clean fs' /\
  (exists x, fs_files fs' !! join dir name = Some x /\ complete value secret x) /\
  others_kept (join dir name) (join dir (tmp_name name (fs_pid fs) (fs_seq fs))) (fs_files fs) (fs_files fs').
Proof.
  intros Hn Hc. unfold run_io.
  destruct (write_json_atomic_triple dir name value secret fs Hn fs eq_refl) as [_ HQ].
  assert (Ht : total (fun s => s = fs) (write_json_atomic (join dir name) value secret) (clean_with (join dir name))).
  { unfold write_json_atomic. rewrite parent_join, file_name_join by done.
    eapply crash_bind.
    { apply (crash_op _ _ _ _ (fun _ s => clean s)). intros s ->. split; [done|]. by apply clean_step. }
    intros seq. cbv beta. eapply crash_bind.
    { apply (crash_op _ _ _ _ (fun _ s => clean s)). intros s ?. split; [done|]. by apply clean_step. }
    intros pid. cbv beta. eapply crash_bind; [apply total_write_tmp_then_rename|].
    intros [[]|e]; cbv beta; [apply (crash_ret _ _ (Ok tt) (on_ok _ _)) | by intros ? []]. }
  destruct (Ht fs eq_refl) as [_ HT].
  destruct (run fs_step (write_json_atomic (join dir name) value secret) fs) as [[[]|e] fs']; [|done].
  simpl in *. destruct HQ as (? & ? & ?), HT. done.
Qed.
End faultless.

(** ** Reading back *)

(** Values within the width of their fields. *)
Definition identity_ok (i : ServerIdentity) : Prop :=
  in_u 32 (id_version i) = true /\ in_u 64 (id_fabric_id i) = true /\ in_u 16 (id_vendor_id i) = true /\
  in_u 64 (id_controller_node_id i) = true /\ in_u 64 (id_compressed_fabric_id i) = true.

Definition config_ok (c : ConfigData) : Prop :=
  in_u 64 (cfg_next_node_id c) = true /\ utf8_valid (cfg_fabric_label c) = true /\
  bt_wf (cfg_wifi_credentials c) /\ bt_wf (cfg_thread_datasets c) /\
  Forall (fun kv => utf8_valid kv.1 = true /\ utf8_valid (wc_ssid kv.2) = true /\
                    utf8_valid (wc_password kv.2) = true) (cfg_wifi_credentials c) /\
  Forall (fun kv => utf8_valid kv.1 = true /\ utf8_valid kv.2 = true) (cfg_thread_datasets c).

Definition node_ok (r : NodeRecord) : Prop :=
  in_u 64 (nr_node_id r) = true /\ in_u 8 (nr_device_fabric_index r) = true /\
  utf8_valid (nr_date_commissioned r) = true /\ utf8_valid (nr_last_interview r) = true /\
  Forall (fun a => utf8_valid a = true) (nr_addresses r) /\
  value_wf (VObject (nr_attributes r)) /\ value_utf8 (VObject (nr_attributes r)) = true /\
  float_free (VObject (nr_attributes r)) = true.

Lemma de_identity_document `{Base64} `{!Base64Laws} i :
  identity_ok i -> de_identity (canon (identity_document i)) = Ok i.
Proof.
  unfold identity_ok. rewrite !in_u_spec. intros (? & ? & ? & ? & ?). destruct i.
  unfold de_identity, identity_document, struct_document, ser_fields. simpl in *.
  unfold bt_from_iter. decode_fields. done.
Qed.

Lemma de_wifi_document c : de_wifi (canon (wifi_document c)) = Ok c.
Proof. by destruct c. Qed.

Lemma canon_strings (m : BTreeMap string string) :
  bt_wf m -> canon (VObject (map (fun kv => (kv.1, VString kv.2)) m)) = VObject (map (fun kv => (kv.1, VString kv.2)) m).
Proof.
  intros Hm. apply canon_wf, value_wf_object. split; [by apply bt_wf_map|].
  apply Forall_map, Forall_true. done.
Qed.

Lemma canon_objects {A} (f : A -> Value) (m : BTreeMap string A) :
  bt_wf m ->
  canon (VObject (map (fun kv => (kv.1, f kv.2)) m)) = VObject (map (fun kv => (kv.1, canon (f kv.2))) m).
Proof.
  intros Hm. simpl. rewrite map_map. simpl.
  by rewrite (bt_from_iter_id (map (fun kv => (kv.1, canon (f kv.2))) m)) by by apply (bt_wf_map (fun a => canon (f a))).
Qed.

Lemma de_config_document c : config_ok c -> de_config (canon (config_document c)) = Ok c.
Proof.
  unfold config_ok. rewrite in_u_spec. intros (? & _ & Hw & Ht & _). destruct c as [l n w t]. simpl in *.
  unfold config_document, struct_document, ser_fields. simpl.
  pose proof (canon_objects wifi_document w Hw) as Ew. pose proof (canon_strings t Ht) as Et.
  simpl in Ew, Et. injection Ew as Ew. injection Et as Et.
  unfold de_config. simpl. unfold bt_from_iter at 1. simpl. rewrite Ew, Et. decode_fields.
  rewrite (de_btree_map de_wifi (fun c => canon (wifi_document c)) (fun _ => True));
    [| intros; apply de_wifi_document | by apply Forall_true].
  simpl. rewrite (de_btree_map de_string VString (fun _ => True)); [done | done | by apply Forall_true].
Qed.

Lemma de_node_document r : node_ok r -> de_node (canon (node_document r)) = Ok r.
Proof.
  unfold node_ok. rewrite !in_u_spec. intros (? & ? & _ & _ & _ & Ha & _ & _). destruct r. simpl in *.
  unfold node_document, struct_document, ser_fields. simpl.
  pose proof (canon_wf (VObject nr_attributes0) Ha) as Ec. simpl in Ec. injection Ec as Ec.
  unfold de_node. unfold bt_from_iter at 1. simpl. rewrite Ec.
  rewrite (map_map VString canon). simpl. fold (map VString nr_addresses0). decode_fields. done.
Qed.

Lemma identity_document_utf8 `{Base64} `{!Base64Laws} i : value_utf8 (identity_document i) = true.
Proof. simpl. by rewrite !b64_utf8. Qed.

Lemma config_document_ok c :
  config_ok c -> value_utf8 (config_document c) = true /\ float_free (config_document c) = true.
Proof.
  intros (_ & Hl & _ & _ & Hw & Ht). simpl. rewrite Hl. simpl. split.
  - apply andb_true_iff; split; [|apply andb_true_iff; split; [|done]];
      apply forallb_forall; intros ? ([k x] & <- & Hin%list_elem_of_In)%in_map_iff; simpl.
    + rewrite Forall_forall in Hw. destruct (Hw _ Hin) as (H0 & H1 & H2). simpl in *. by rewrite H0, H1, H2.
    + rewrite Forall_forall in Ht. destruct (Ht _ Hin) as (H0 & H1). simpl in *. by rewrite H0, H1.
  - apply andb_true_iff; split; [|apply andb_true_iff; split; [|done]];
      apply forallb_forall; by intros ? ([k x] & <- & Hin)%in_map_iff.
Qed.

Lemma node_document_ok r :
  node_ok r -> value_utf8 (node_document r) = true /\ float_free (node_document r) = true.
Proof.
  intros (_ & _ & Hd & Hl & Ha & _ & Hu & Hf). simpl in *. rewrite Hd, Hl, Hu, Hf. simpl.
  rewrite !andb_true_r. split; apply forallb_forall; intros ? (a & <- & Hin%list_elem_of_In)%in_map_iff; simpl; [|done].
  rewrite Forall_forall in Ha. by apply Ha.
Qed.

(** What a reader of one file sees when no operation is made to fail. *)
Definition read_outcome `{SerdeJson} {A} (d : Decoder A) (p : Path) (fs : FS) : Result (option A) IoError :=
  match fs_files fs !! p with
  | None => Ok None
  | Some x =>
      if utf8_valid (f_data x) then
        map_err (fun e => io_error InvalidData (debug_path p +:+ ": " +:+ e))
          (result_map Some (parse_as d (f_data x)))
      else Err (io_error InvalidData "stream did not contain valid UTF-8")
  end.

Lemma run_read_to_string p fs :
  fs_faults fs = [] ->
  run_io (read_to_string p) fs =
  (match fs_files fs !! p with
   | None => Err (not_found p)
   | Some x => if utf8_valid (f_data x) then Ok (f_data x)
               else Err (io_error InvalidData "stream did not contain valid UTF-8")
   end, fs).
Proof.
  intros Hf. unfold run_io, read_to_string. rewrite run_try. unfold do_op. simpl. rewrite faulty_nil by done.
  unfold on_file. by destruct (fs_files fs !! p).
Qed.

Lemma run_read_json_strict `{SerdeJson} {A} (d : Decoder A) p fs :
  fs_faults fs = [] -> run_io (read_json_strict d p) fs = (read_outcome d p fs, fs).
Proof.
  intros Hf. unfold read_json_strict, run_io. rewrite run_bind.
  pose proof (run_read_to_string p fs Hf) as E. unfold run_io in E. rewrite E. unfold read_outcome.
  destruct (fs_files fs !! p) as [x|]; [|done]. by destruct (utf8_valid (f_data x)).
Qed.

Lemma run_read_json `{SerdeJson} {A} (d : Decoder A) p fs :
  fs_faults fs = [] ->
  run_io (read_json d p) fs = (match read_outcome d p fs with Ok o => o | Err _ => None end, fs).
Proof.
  intros Hf. unfold read_json, run_io. rewrite run_bind.
  pose proof (run_read_to_string p fs Hf) as E. unfold run_io in E. rewrite E. unfold read_outcome.
  destruct (fs_files fs !! p) as [x|]; [|done]. destruct (utf8_valid (f_data x)); [|done]. simpl.
  by destruct (parse_as d (f_data x)).
Qed.

Lemma read_outcome_complete `{SerdeJson} `{!SerdeJsonLaws} {A} (d : Decoder A) p fs x v secret a :
  fs_files fs !! p = Some x -> complete v secret x ->
  value_utf8 v = true -> float_free v = true -> d (canon v) = Ok a -> read_outcome d p fs = Ok (Some a).
Proof.
  intros Hx [Hd _] Hu Hf Ha. unfold read_outcome, parse_as. rewrite Hx, Hd, json_utf8, json_roundtrip by done.
  simpl. by rewrite Ha.
Qed.

(** Writing a document and decoding the file gives the value back, as long as
    nothing fails in between. *)
Lemma write_then_read `{SerdeJson} `{!SerdeJsonLaws} {A} (d : Decoder A) dir name v secret a fs :
  name <> ".." -> clean dir fs -> value_utf8 v = true -> float_free v = true -> d (canon v) = Ok a ->
  let (r, fs') := run_io (write_json_atomic (join dir name) v secret) fs in
  r = Ok tt /\ fs_faults fs' = [] /\ read_outcome d (join dir name) fs' = Ok (Some a).
Proof.
  intros Hn Hc Hu Hf Ha. pose proof (write_json_atomic_succeeds dir name v secret fs Hn Hc) as H1.
  destruct (run_io _ fs) as [r fs']. destruct H1 as (-> & [Hf' _] & (x & Hx & Hx') & _).
  split; [done|]. split; [done|]. by eapply read_outcome_complete.
Qed.

(** Without injected faults, [load_identity] answers "no identity yet"
    exactly when server.json does not exist; a file that is there is either
    decoded or an error. *)
Theorem load_identity_none_iff `{SerdeJson} `{Base64} (s : Storage) (fs : FS) :
  fs_faults fs = [] ->
  ((run_io (load_identity s) fs).1 = Ok None <-> fs_files fs !! join (st_root s) "server.json" = None).
Proof.
  intros Hf. unfold load_identity. rewrite run_read_json_strict by done. simpl. unfold read_outcome.
  destruct (fs_files fs !! _) as [x|]; [|done]. split; [|done].
  destruct (utf8_valid (f_data x)); [|done]. by destruct (parse_as de_identity (f_data x)).
Qed.

(** An identity saved is the identity loaded, whatever its key material. *)
Theorem identity_roundtrip `{SerdeJson} `{Base64} `{!SerdeJsonLaws} `{!Base64Laws}
    (s : Storage) (i : ServerIdentity) (fs : FS) :
  identity_ok i -> clean (st_root s) fs ->
  let (r, fs') := run_io (save_identity s i) fs in
  r = Ok tt /\ (run_io (load_identity s) fs').1 = Ok (Some i).
Proof.
  intros Hi Hc. unfold save_identity.
  pose proof (write_then_read de_identity (st_root s) "server.json" (identity_document i) true i fs
    ltac:(done) Hc (identity_document_utf8 i) eq_refl (de_identity_document i Hi)) as HW.
  destruct (run_io _ fs) as [r fs']. destruct HW as (-> & Hf & Hr). split; [done|].
  unfold load_identity. by rewrite run_read_json_strict, Hr.
Qed.

(** A configuration saved is the configuration loaded: label, next node id,
    every Wi-Fi credential and every Thread dataset. *)
Theorem config_roundtrip `{SerdeJson} `{!SerdeJsonLaws} (s : Storage) (c : ConfigData) (fs : FS) :
  config_ok c -> clean (st_root s) fs ->
  let (r, fs') := run_io (save_config s c) fs in
  r = Ok tt /\ (run_io (load_config s) fs').1 = c.
Proof.
  intros Hi Hc. unfold save_config. destruct (config_document_ok c Hi) as [Hu Hff].
  pose proof (write_then_read de_config (st_root s) "config.json" (config_document c) true c fs
    ltac:(done) Hc Hu Hff (de_config_document c Hi)) as HW.
  destruct (run_io _ fs) as [r fs']. destruct HW as (-> & Hf & Hr). split; [done|].
  unfold load_config, run_io. rewrite run_bind.
  pose proof (run_read_json de_config (join (st_root s) "config.json") fs' Hf) as E. unfold run_io in E.
  by rewrite E, Hr.
Qed.

(** [create_identity] never replaces an identity: when server.json exists,
    every state it goes through still has that file, and it returns an error;
    whatever operations fail. *)
Theorem create_identity_keeps_existing `{SerdeJson} `{Base64} (s : Storage) (i : ServerIdentity) (fs : FS) (x : File) :
  fs_files fs !! join (st_root s) "server.json" = Some x ->
  let p := create_identity s i in
  Forall (fun fs' => fs_files fs' !! join (st_root s) "server.json" = Some x) (states fs_step p fs) /\
  exists e, run_io p fs = (Err e, (run_io p fs).2) /\ fs_files (run_io p fs).2 = fs_files fs.
Proof.
  intros Hx. set (path := join (st_root s) "server.json") in *. cbv zeta. unfold create_identity, run_io. fold path.
  unfold try_bind. rewrite states_bind, run_bind. unfold do_op. simpl. unfold faulty.
  pose proof (pop_fault_files fs) as E. destruct (pop_fault fs) as [[e|] fs1]; simpl in *.
  - split; [repeat constructor; congruence | by exists e].
  - rewrite E, Hx. simpl. split; [repeat constructor; congruence | by eexists].
Qed.

Lemma create_identity_keeps_existing_witness :
  let fs := {| fs_files := {[ ["d"; "server.json"] := {| f_data := "old"; f_mode := 420 |} ]};
               fs_dirs := {[ ["d"] ]}; fs_faults := []; fs_seq := 7; fs_pid := 42; fs_create_mode := 420 |} in
  let i := {| id_version := 1; id_fabric_id := 1; id_vendor_id := 65521; id_controller_node_id := 112233;
              id_compressed_fabric_id := 9; id_ca_private_key := "k"; id_rcac_tlv := "r";
              id_controller_private_key := "c"; id_controller_noc_tlv := "n"; id_ipk := "i" |} in
  exists e, (run_io (create_identity (H := TreeJson) (H0 := HexBase64) {| st_root := ["d"] |} i) fs).1 = Err e.
Proof.
  intros fs i.
  destruct (create_identity_keeps_existing (H := TreeJson) (H0 := HexBase64) {| st_root := ["d"] |} i fs
    {| f_data := "old"; f_mode := 420 |} eq_refl) as [_ (e & HE & _)].
  exists e. by rewrite HE.
Defined.

Lemma load_identity_none_iff_witness :
  let fs := {| fs_files := {[ ["d"; "server.json"] := {| f_data := "{"; f_mode := 420 |} ]};
               fs_dirs := {[ ["d"] ]}; fs_faults := []; fs_seq := 7; fs_pid := 42; fs_create_mode := 420 |} in
  (run_io (load_identity (H := TreeJson) (H0 := HexBase64) {| st_root := ["d"] |}) fs).1 <> Ok None.
Proof.
  intros fs E.
  by apply (load_identity_none_iff (H := TreeJson) (H0 := HexBase64) {| st_root := ["d"] |} fs eq_refl) in E.
Defined.

Lemma identity_roundtrip_witness :
  let fs := {| fs_files := ∅; fs_dirs := {[ ["d"] ]}; fs_faults := []; fs_seq := 7; fs_pid := 42;
               fs_create_mode := 420 |} in
  let i := {| id_version := 1; id_fabric_id := 1; id_vendor_id := 65521; id_controller_node_id := 112233;
              id_compressed_fabric_id := 9; id_ca_private_key := "k"; id_rcac_tlv := "r";
              id_controller_private_key := "c"; id_controller_noc_tlv := "n"; id_ipk := "i" |} in
  (run_io (save_identity (H := TreeJson) (H0 := HexBase64) {| st_root := ["d"] |} i) fs).1 = Ok tt.
Proof.
  intros fs i.
  pose proof (identity_roundtrip (H := TreeJson) (H0 := HexBase64) {| st_root := ["d"] |} i fs) as HW.
  destruct (run_io _ fs) as [r fs']. apply HW; [by vm_compute|]. split; [done|]. by vm_compute.
Defined.

Lemma config_roundtrip_witness :
  let fs := {| fs_files := ∅; fs_dirs := {[ ["d"] ]}; fs_faults := []; fs_seq := 7; fs_pid := 42;
               fs_create_mode := 420 |} in
  let c := {| cfg_fabric_label := "Home"; cfg_next_node_id := 17;
              cfg_wifi_credentials := [("default", {| wc_ssid := "net"; wc_password := "pw" |})];
              cfg_thread_datasets := [("a", "0e08"); ("b", "ff")] |} in
  (run_io (save_config (H := TreeJson) {| st_root := ["d"] |} c) fs).1 = Ok tt.
Proof.
  intros fs c.
  pose proof (config_roundtrip (H := TreeJson) {| st_root := ["d"] |} c fs) as HW.
  destruct (run_io _ fs) as [r fs']. apply HW.
  - repeat first [split | constructor]; try reflexivity; by vm_compute.
  - split; [done|]. by vm_compute.
Defined.

(** ** Node records *)

Definition node_of_entry `{SerdeJson} (dir : Path) (fs : FS) (e : string) : option NodeRecord :=
  if decide (extension e = Some "json") then
    match read_outcome de_node (join dir e) fs with Ok o => o | Err _ => None end
  else None.

Lemma run_load_node_files `{SerdeJson} dir entries fs :
  fs_faults fs = [] -> run_io (load_node_files dir entries) fs = (omap (node_of_entry dir fs) entries, fs).
Proof.
  intros Hf. induction entries as [|e entries IH]; [done|]. cbn [load_node_files omap list_omap].
  unfold node_of_entry at 1. case_decide; [|done]. unfold run_io in *. rewrite run_bind.
  pose proof (run_read_json de_node (join dir e) fs Hf) as E. unfold run_io in E. rewrite E. cbv iota beta. rewrite run_bind, IH. simpl.
  by destruct (read_outcome de_node (join dir e) fs) as [[]|].
Qed.

Lemma run_load_nodes `{SerdeJson} s fs :
  fs_faults fs = [] -> nodes_dir s ∈ fs_dirs fs ->
  run_io (load_nodes s) fs =
  (sort_by_key nr_node_id (omap (node_of_entry (nodes_dir s) fs) (children (nodes_dir s) fs)), fs).
Proof.
  intros Hf Hd. unfold load_nodes, run_io. rewrite run_bind. unfold do_op. simpl. rewrite faulty_nil by done.
  rewrite decide_True by done. cbv iota beta. rewrite run_bind.
  pose proof (run_load_node_files (nodes_dir s) (children (nodes_dir s) fs) fs Hf) as E. unfold run_io in E.
  by rewrite E.
Qed.

Lemma elem_children dir e fs :
  e ∈ children dir fs <-> is_Some (fs_files fs !! join dir e).
Proof.
  unfold children. rewrite list_elem_of_omap. split.
  - intros (q & Hq & He). case_decide as Hp; [|done].
    apply list_elem_of_fmap in Hq as ([q' x] & -> & Hq%elem_of_map_to_list). simpl in *.
    exists x. unfold parent in Hp. destruct q' as [|c q2] eqn:E; [done|]. rewrite <- E in *. clear E.
    apply last_Some in He as [l ->]. rewrite removelast_last in Hp. simplify_eq. done.
  - intros [x Hx]. exists (join dir e). split.
    + apply list_elem_of_fmap. exists (join dir e, x). by rewrite elem_of_map_to_list.
    + rewrite decide_True by apply parent_join. unfold join. apply last_snoc.
Qed.

(** The records [load_nodes] returns are in ascending node-id order, and are
    exactly the node files (named *.json) that decode: a file that does not is
    skipped without affecting the others. *)
Theorem load_nodes_spec `{SerdeJson} (s : Storage) (fs : FS) :
  fs_faults fs = [] -> nodes_dir s ∈ fs_dirs fs ->
  let nodes := (run_io (load_nodes s) fs).1 in
  StronglySorted (key_le nr_node_id) nodes /\
  forall r, r ∈ nodes <-> exists e x, extension e = Some "json" /\ fs_files fs !! join (nodes_dir s) e = Some x /\
                               utf8_valid (f_data x) = true /\ parse_as de_node (f_data x) = Ok r.
Proof.
  intros Hf Hd. rewrite run_load_nodes by done. cbn [fst]. split; [apply sort_by_key_sorted|].
  intros r. rewrite sort_by_key_perm, list_elem_of_omap. unfold node_of_entry, read_outcome.
  split.
  - intros (e & [x Hx]%elem_children & He). case_decide; [|done]. rewrite Hx in He.
    destruct (utf8_valid (f_data x)) eqn:Hu; [|done].
    destruct (parse_as de_node (f_data x)) eqn:Hp; simplify_eq/=. by exists e, x.
  - intros (e & x & He & Hx & Hu & Hp). exists e. rewrite elem_children, decide_True, Hx, Hu, Hp by done.
    by split.
Qed.

Lemma load_nodes_spec_witness :
  let r := {| nr_node_id := 5; nr_date_commissioned := "d"; nr_last_interview := "l";
              nr_device_fabric_index := 1; nr_addresses := []; nr_attributes := [] |} in
  let fs := {| fs_files := {[ ["d"; "nodes"; "5.json"] :=
                  {| f_data := tree_text (node_document r); f_mode := 420 |};
                              ["d"; "nodes"; "6.json"] := {| f_data := "{"; f_mode := 420 |} ]};
               fs_dirs := {[ ["d"; "nodes"] ]}; fs_faults := []; fs_seq := 7; fs_pid := 42; fs_create_mode := 420 |} in
  r ∈ (run_io (load_nodes (H := TreeJson) {| st_root := ["d"] |}) fs).1.
Proof.
  intros r fs.
  apply (load_nodes_spec (H := TreeJson) {| st_root := ["d"] |} fs); [done | by vm_compute |].
  exists "5.json", {| f_data := tree_text (node_document r); f_mode := 420 |}.
  repeat split; by vm_compute.
Defined.

(** ** Node ids *)

(** The search finds the first free id at or after [start]; the number of steps
    it needs is bounded by the ids in use. *)
Lemma skip_in_use_spec (f : Z -> bool) (n : nat) (start c : Z) :
  0 <= start -> start + Z.of_nat n <= 2 ^ 64 ->
  c = start + Z.of_nat n - 1 -> (0 < n)%nat ->
  f c = false -> (forall i, start <= i < c -> f i = true) ->
  skip_in_use n f start = Some c.
Proof.
  revert start. induction n as [|n IH]; intros start Hs Hn Hc Hpos Hf Hused; [lia|]. simpl.
  destruct n as [|n].
  - replace c with start in * by lia. by rewrite Hf.
  - rewrite Hused by lia. unfold as_u. rewrite Z.mod_small by lia.
    apply IH; try lia; [done|]. intros i ?. apply Hused. lia.
Qed.

Lemma skip_in_use_mono f n k start c :
  skip_in_use n f start = Some c -> skip_in_use (n + k) f start = Some c.
Proof.
  revert start. induction n as [|n IH]; intros start; simpl; [done|]. destruct (f start); auto.
Qed.

(** Among [k + 1] consecutive ids, one is not in a list of [k]. *)
Lemma free_id_exists (used : list Z) (start : Z) :
  exists c, start <= c <= start + Z.of_nat (length used) /\ (c ∉ used) /\
            forall i, start <= i < c -> i ∈ used.
Proof.
  remember (length used) as k eqn:Hk. revert used start Hk.
  induction k as [|k IH]; intros used start Hk.
  - destruct used; [|done]. exists start. split; [lia|]. split; [apply not_elem_of_nil|]. intros; lia.
  - destruct (decide (start ∈ used)) as [Hin|Hout].
    2: { exists start. split; [lia|]. split; [done|]. intros; lia. }
    apply list_elem_of_split in Hin as (l1 & l2 & ->). rewrite length_app in Hk. simpl in Hk.
    destruct (IH (l1 ++ l2) (start + 1)) as (c & Hc & Hn & Hall); [rewrite length_app; lia|].
    exists c. split; [lia|]. split.
    + rewrite elem_of_app, elem_of_cons in *. intros [?|[->|?]]; [tauto | lia | tauto].
    + intros i Hi. destruct (decide (i = start)) as [->|]; [set_solver|].
      specialize (Hall i ltac:(lia)). set_solver.
Qed.

Lemma allocate_node_id_used (cfg : ConfigData) (used : list Z) :
  0 <= cfg_next_node_id cfg -> Z.max (cfg_next_node_id cfg) 1 + Z.of_nat (length used) + 1 < 2 ^ 64 ->
  exists id cfg',
    allocate_node_id (S (length used)) cfg (fun n => bool_decide (n ∈ used)) = Some (id, cfg') /\
    (id ∉ used) /\ 1 <= id /\ cfg_next_node_id cfg <= id /\
    (forall i, Z.max (cfg_next_node_id cfg) 1 <= i < id -> i ∈ used) /\
    cfg_next_node_id cfg' = id + 1 /\
    cfg_fabric_label cfg' = cfg_fabric_label cfg /\
    cfg_wifi_credentials cfg' = cfg_wifi_credentials cfg /\
    cfg_thread_datasets cfg' = cfg_thread_datasets cfg.
Proof.
  intros H0 Hmax. set (start := Z.max (cfg_next_node_id cfg) 1) in *.
  destruct (free_id_exists used start) as (c & Hc & Hn & Hall).
  assert (E : skip_in_use (S (length used)) (fun n => bool_decide (n ∈ used)) start = Some c).
  { replace (S (length used)) with (Z.to_nat (c - start + 1) + (S (length used) - Z.to_nat (c - start + 1)))%nat by lia.
    apply skip_in_use_mono, skip_in_use_spec; try lia.
    - by apply bool_decide_eq_false.
    - intros i Hi. apply bool_decide_eq_true. by apply Hall. }
  unfold allocate_node_id. fold start. rewrite E. eexists c, _. split; [done|]. simpl.
  unfold as_u. rewrite Z.mod_small by lia. repeat split; try done; lia.
Qed.

(** Allocation depends on the predicate only through its values. *)
Lemma allocate_node_id_ext fuel cfg f g :
  (forall n, f n = g n) -> allocate_node_id fuel cfg f = allocate_node_id fuel cfg g.
Proof.
  intros Hfg. unfold allocate_node_id.
  assert (E : forall start, skip_in_use fuel f start = skip_in_use fuel g start); [|by rewrite E].
  induction fuel as [|fuel IH]; intros start; simpl; [done|]. by rewrite Hfg, IH.
Qed.

(** With [used] the ids taken on the fabric, allocation terminates within
    [length used + 1] probes and returns the least free id from the configured
    one (at least 1), and the next allocation starts right after it; nothing
    else of the configuration changes. *)
Theorem allocate_node_id_least (cfg : ConfigData) (used : list Z) :
  0 <= cfg_next_node_id cfg -> Z.max (cfg_next_node_id cfg) 1 + Z.of_nat (length used) + 1 < 2 ^ 64 ->
  exists id cfg',
    allocate_node_id (S (length used)) cfg (fun n => bool_decide (n ∈ used)) = Some (id, cfg') /\
    (id ∉ used) /\ 1 <= id /\ cfg_next_node_id cfg <= id /\
    (forall i, Z.max (cfg_next_node_id cfg) 1 <= i < id -> i ∈ used) /\
    cfg_next_node_id cfg' = id + 1 /\
    cfg_fabric_label cfg' = cfg_fabric_label cfg /\
    cfg_wifi_credentials cfg' = cfg_wifi_credentials cfg /\
    cfg_thread_datasets cfg' = cfg_thread_datasets cfg.
Proof. apply allocate_node_id_used. Qed.

Lemma allocate_node_id_least_witness :
  exists id cfg', allocate_node_id 3 ConfigData_default (fun n => bool_decide (n ∈ [1; 2])) = Some (id, cfg') /\ 1 <= id.
Proof.
  destruct (allocate_node_id_least ConfigData_default [1; 2]) as (id & cfg' & E & _ & H1 & _); [done | done |].
  by exists id, cfg'.
Defined.

(** ** Labels *)

(** The name without the white space around it. *)
Definition effective_label (label : option string) : string :=
  let trimmed := match label with Some l => trim l | None => "" end in
  if str_is_empty trimmed then "HomeAssistant" else trimmed.

(** A fabric label is never empty and never longer than 32 characters; it
    consists of the first 32 characters of the trimmed input, or of the default
    name when there is none; multi-byte characters are never cut. *)
Theorem normalize_fabric_label_chars (label : option string) :
  let out := normalize_fabric_label label in
  chars out = take 32 (chars (effective_label label)) /\
  (1 <= length (chars out) <= 32)%nat /\
  (forall l, label = Some l -> str_is_empty (trim l) = true -> out = "HomeAssistant").
Proof.
  intros out. assert (E : chars out = take 32 (chars (effective_label label))) by apply chars_take.
  split; [done|]. split.
  - rewrite E, length_take. assert (Hn : effective_label label <> "").
    { unfold effective_label. by destruct (match label with Some l => trim l | None => "" end). }
    apply chars_nonempty in Hn. destruct (chars (effective_label label)); [done|]. cbn [length]. lia.
  - intros l -> Ht. unfold out, normalize_fabric_label. by rewrite Ht.
Qed.

Lemma normalize_fabric_label_chars_witness :
  normalize_fabric_label (Some "   ") = "HomeAssistant".
Proof. apply (normalize_fabric_label_chars (Some "   ")) with "   "; reflexivity. Defined.

(** ** Credential ids and Thread datasets *)

Lemma find_None_iff {A} (f : A -> bool) l : List.find f l = None <-> forall a, a ∈ l -> f a = false.
Proof.
  split.
  - intros Hf a Ha%list_elem_of_In. by apply (find_none _ _ Hf).
  - intros Hf. destruct (List.find f l) eqn:E; [|done]. apply find_some in E as [Hin%list_elem_of_In E].
    rewrite Hf in E; done.
Qed.

(** An id is accepted exactly when it is "default", or is non-empty, is in no
    case a reserved word, and differs from every other stored id by more than
    case. *)
Theorem validate_credential_id_iff (id : string) (existing : list string) :
  validate_credential_id id existing = Ok tt <->
  id = "default" \/
  (id <> "" /\ to_ascii_lowercase id <> "delete" /\ to_ascii_lowercase id <> "default" /\
   forall other, other ∈ existing -> to_ascii_lowercase other = to_ascii_lowercase id -> other = id).
Proof.
  unfold validate_credential_id. destruct (str_is_empty id) eqn:He.
  { split; [done|]. destruct id; [|done]. by intros [|(? & _)]. }
  assert (Hne : id <> "") by by destruct id. cbv zeta.
  assert (Hd : to_ascii_lowercase "default" = "default") by reflexivity.
  destruct (String.eqb_spec (to_ascii_lowercase id) "delete") as [Ed|Ed]; simpl.
  { split; [done|]. intros [->|(_ & ? & _)]; [by rewrite Hd in Ed | done]. }
  destruct (String.eqb_spec (to_ascii_lowercase id) "default") as [Ef|Ef]; simpl.
  { destruct (String.eqb_spec id "default") as [E|E]; simpl.
    - split; [by left | done].
    - split; [done|]. intros [|(_ & _ & ? & _)]; done. }
  destruct (List.find _ existing) as [other|] eqn:Hf.
  - split; [done|]. apply find_some in Hf as [Hin%list_elem_of_In Hf].
    apply andb_true_iff in Hf as [Ho%String.eqb_eq Hne'%negb_true_iff%String.eqb_neq].
    intros [->|(_ & _ & _ & Hall)]; [by destruct (Ef Hd) | destruct (Hne' (Hall other Hin Ho))].
  - split; [|done]. intros _. right. split; [done|]. split; [done|]. split; [done|].
    intros other Hin Ho. apply (proj1 (find_None_iff _ _) Hf) in Hin.
    apply andb_false_iff in Hin as [H1|H1]; [by apply String.eqb_neq in H1|].
    by apply negb_false_iff, String.eqb_eq in H1.
Qed.

(** A Thread dataset is accepted exactly when it is a non-empty string of
    hexadecimal digits of even length. *)
Theorem validate_thread_dataset_iff (hex : string) :
  validate_thread_dataset hex = Ok tt <->
  exists n, String.length hex = (2 * S n)%nat /\ str_forall is_ascii_hexdigit hex = true.
Proof.
  unfold validate_thread_dataset, str_len.
  destruct (str_is_empty hex) eqn:He; simpl.
  { destruct hex; [|done]. split; [done|]. by intros (n & ? & _). }
  destruct (Z.of_nat (String.length hex) mod 2 =? 0) eqn:Hm; z_bools; simpl.
  - assert (Hn : String.length hex <> O) by by destruct hex.
    apply Z.div_exact in Hm; [|done].
    destruct (str_forall is_ascii_hexdigit hex); simpl; split; try done.
    + intros _. exists (Z.to_nat (Z.of_nat (String.length hex) / 2) - 1)%nat. split; [lia|done].
    + by intros (n & _ & ?).
  - split; [done|]. intros (n & E & _). rewrite E in Hm. clear He E. exfalso. apply Hm.
    apply Z.mod_divide; [lia|]. exists (Z.of_nat (S n)). lia.
Qed.

(** ** Debug output *)

(** The debug output of an identity depends on its secrets through their
    lengths only: two identities that agree on the public fields and on the
    lengths of the keys print the same text. *)
Theorem identity_debug_redacted (i j : ServerIdentity) :
  id_version i = id_version j -> id_fabric_id i = id_fabric_id j -> id_vendor_id i = id_vendor_id j ->
  id_controller_node_id i = id_controller_node_id j ->
  id_compressed_fabric_id i = id_compressed_fabric_id j ->
  str_len (id_ca_private_key i) = str_len (id_ca_private_key j) ->
  str_len (id_rcac_tlv i) = str_len (id_rcac_tlv j) ->
  str_len (id_controller_private_key i) = str_len (id_controller_private_key j) ->
  str_len (id_controller_noc_tlv i) = str_len (id_controller_noc_tlv j) ->
  str_len (id_ipk i) = str_len (id_ipk j) ->
  identity_debug i = identity_debug j.
Proof. unfold identity_debug. by intros -> -> -> -> -> -> -> -> -> ->. Qed.
