(* ===== verification/Registry.v ===== *)
(** * The node registry

    [crates/controller/src/registry.rs]: the attribute cache and the cached
    availability of every node, behind one mutex; each method is one critical
    section, so one function on the map. *)

From S2P Require Import Prelude Json Wire Storage.

Record NodeEntry : Type := { ne_record : NodeRecord; ne_available : bool }.

Definition Registry : Type := BTreeMap Z NodeEntry.

Definition new_entry (record : NodeRecord) : NodeEntry := {| ne_record := record; ne_available := false |}.

Module Registry.
Definition new (records : list NodeRecord) : Registry :=
  bt_from_iter (map (fun record => (nr_node_id record, new_entry record)) records).

Definition contains (r : Registry) (node_id : Z) : bool := bt_contains r node_id.
Definition node_ids (r : Registry) : list Z := bt_keys r.
Definition len (r : Registry) : nat := length r.

Definition insert (record : NodeRecord) (r : Registry) : Registry :=
  bt_insert (nr_node_id record) (new_entry record) r.

Definition remove (node_id : Z) (r : Registry) : bool * Registry :=
  (contains r node_id, bt_remove node_id r).

(** [f] may change the entry and answers a value. *)
Definition with_entry {R} (node_id : Z) (f : NodeEntry -> R * NodeEntry) (r : Registry) : option R * Registry :=
  match bt_get r node_id with
  | Some e => let '(x, e) := f e in (Some x, bt_insert node_id e r)
  | None => (None, r)
  end.

(** [Some changed], or [None] when the node is unknown. *)
Definition set_available (node_id : Z) (available : bool) (r : Registry) : option bool * Registry :=
  with_entry node_id (fun e =>
    (negb (eqb (ne_available e) available), {| ne_record := ne_record e; ne_available := available |})) r.

Definition snapshot_record (r : Registry) (node_id : Z) : option NodeRecord :=
  ne_record <$> bt_get r node_id.
End Registry.

(** The Aggregator device type (14) in endpoint 1's DeviceTypeList. *)
Definition is_bridge (attributes : Map) : bool :=
  match and_then (bt_get attributes "1/29/0") as_array with
  | Some l => existsb (fun e => match and_then (value_get e "0") as_u64 with
                                | Some n => n =? 14 | None => false end) l
  | None => false
  end.

Definition matter_version (attributes : Map) : option string :=
  match and_then (bt_get attributes "0/40/21") as_u64 with
  | Some v =>
      Some (show (Z.land (Z.shiftr v 24) 255) +:+ "." +:+ show (Z.land (Z.shiftr v 16) 255) +:+ "."
            +:+ show (Z.land (Z.shiftr v 8) 255))
  | None =>
      match and_then (bt_get attributes "0/40/0") as_u64 with
      | Some r => if r <=? 16 then Some "<1.2.0" else if r =? 17 then Some "1.2.0" else None
      | None => None
      end
  end.

Definition build_node_data (record : NodeRecord) (available : bool) : MatterNodeData :=
  {| nd_node_id := nr_node_id record;
     nd_date_commissioned := nr_date_commissioned record;
     nd_last_interview := nr_last_interview record;
     nd_interview_version := 6;
     nd_available := available;
     nd_is_bridge := is_bridge (nr_attributes record);
     nd_attributes := nr_attributes record;
     nd_attribute_subscriptions := [];
     nd_matter_version := matter_version (nr_attributes record) |}.

Definition entry_data (e : NodeEntry) : MatterNodeData := build_node_data (ne_record e) (ne_available e).

Definition node_data (r : Registry) (node_id : Z) : option MatterNodeData := entry_data <$> bt_get r node_id.

Definition all_node_data (r : Registry) (only_available : bool) : list MatterNodeData :=
  map entry_data (List.filter (fun e => negb only_available || ne_available e) (bt_values r)).

(** ** The invariant

    The map is ordered and every record is stored under its own node id. *)

Definition registry_wf (r : Registry) : Prop :=
  bt_wf r /\ forall k e, bt_get r k = Some e -> nr_node_id (ne_record e) = k.

Lemma registry_wf_insert r id e :
  registry_wf r -> nr_node_id (ne_record e) = id -> registry_wf (bt_insert id e r).
Proof.
  intros [Hw Hk] He. split; [by apply bt_wf_insert|]. intros k e'.
  rewrite bt_get_insert. case_decide; [by intros [= <-]; subst | by apply Hk].
Qed.

Lemma registry_wf_remove r id : registry_wf r -> registry_wf (Registry.remove id r).2.
Proof.
  intros [Hw Hk]. split; [by apply bt_wf_remove|]. simpl. intros k e. destruct (decide (id = k)) as [->|].
  - by rewrite bt_get_remove_eq.
  - rewrite bt_get_remove_ne by done. apply Hk.
Qed.

Lemma registry_wf_new records : registry_wf (Registry.new records).
Proof.
  unfold Registry.new, bt_from_iter. assert (H : registry_wf []) by (split; [apply bt_wf_nil | done]).
  revert H. generalize (@nil (Z * NodeEntry)). induction records as [|rec records IH]; intros r Hr; simpl; [done|].
  apply IH. by apply registry_wf_insert.
Qed.

Lemma registry_wf_with_entry {R} r id (f : NodeEntry -> R * NodeEntry) :
  registry_wf r -> (forall e, nr_node_id (ne_record (f e).2) = nr_node_id (ne_record e)) ->
  registry_wf (Registry.with_entry id f r).2.
Proof.
  intros Hr Hf. unfold Registry.with_entry. destruct (bt_get r id) as [e|] eqn:E; [|done].
  specialize (Hf e). destruct (f e) as [x e']. simpl in *. apply registry_wf_insert; [done|].
  rewrite Hf. by apply Hr.
Qed.

Lemma registry_wf_set_available r id a : registry_wf r -> registry_wf (Registry.set_available id a r).2.
Proof. intros. by apply registry_wf_with_entry. Qed.

#[export] Hint Resolve registry_wf_insert registry_wf_remove registry_wf_new registry_wf_set_available : matter.

Lemma contains_spec r id : Registry.contains r id = true <-> is_Some (bt_get r id).
Proof. unfold Registry.contains, bt_contains. destruct (bt_get r id); [done|]. split; [done | by intros []]. Qed.

(** What changes and what does not when availability is set. *)
Lemma set_available_get r id a k :
  bt_get (Registry.set_available id a r).2 k =
  if decide (k = id) then (fun e => {| ne_record := ne_record e; ne_available := a |}) <$> bt_get r id
  else bt_get r k.
Proof.
  unfold Registry.set_available, Registry.with_entry. destruct (bt_get r id) as [e|] eqn:E; simpl.
  - rewrite bt_get_insert. repeat case_decide; congruence.
  - case_decide; congruence.
Qed.

Lemma set_available_reply r id a :
  (Registry.set_available id a r).1 = (fun e => negb (eqb (ne_available e) a)) <$> bt_get r id.
Proof. unfold Registry.set_available, Registry.with_entry. by destruct (bt_get r id). Qed.

(** The node list is in ascending id order and has an entry for exactly the
    nodes of the registry (for exactly the available ones when filtered), each
    with its own id, its cached availability and its attributes. *)
Theorem all_node_data_spec (r : Registry) (only_available : bool) :
  registry_wf r ->
  StronglySorted Z.lt (map nd_node_id (all_node_data r only_available)) /\
  forall d, d ∈ all_node_data r only_available <->
       exists k, node_data r k = Some d /\ nd_node_id d = k /\ (only_available = true -> nd_available d = true).
Proof.
  intros [Hw Hk]. unfold all_node_data, bt_values. rewrite filter_of_map, (map_map snd entry_data). split.
  - rewrite map_map. eapply StronglySorted_map; [|apply StronglySorted_filter, Hw].
    intros [k1 e1] [k2 e2] H1 H2 Hlt. simpl.
    apply list_elem_of_In, filter_In in H1 as [H1%list_elem_of_In _].
    apply list_elem_of_In, filter_In in H2 as [H2%list_elem_of_In _].
    rewrite (Hk k1 e1), (Hk k2 e2) by by apply bt_elem_get. by apply Z.compare_lt_iff.
  - intros d. rewrite list_elem_of_fmap. split.
    + intros ([k e] & -> & [Hin%list_elem_of_In Hav]%list_elem_of_In%filter_In). simpl in *.
      apply bt_elem_get in Hin; [|done]. exists k. unfold node_data. rewrite Hin.
      split; [done|]. split; [by apply Hk|]. intros ->. done.
    + intros (k & Hd & _ & Hav). unfold node_data in Hd. destruct (bt_get r k) as [e|] eqn:E; simplify_eq/=.
      exists (k, e). split; [done|]. rewrite list_elem_of_In, filter_In, <- list_elem_of_In.
      split; [by apply bt_get_elem|]. simpl. destruct only_available; [|done]. simpl. by apply Hav.
Qed.

Definition demo_record (n : Z) : NodeRecord :=
  {| nr_node_id := n; nr_date_commissioned := ""; nr_last_interview := ""; nr_device_fabric_index := 1;
     nr_addresses := []; nr_attributes := [("0/40/21", json_u 16973824)] |}.

Lemma all_node_data_spec_witness :
  let r := (Registry.set_available 3 true (Registry.new [demo_record 7; demo_record 3])).2 in
  StronglySorted Z.lt (map nd_node_id (all_node_data r true)) /\ length (all_node_data r true) = 1%nat.
Proof.
  intros r. split; [|reflexivity]. apply (all_node_data_spec r true). unfold r. auto with matter.
Defined.
