(* ===== verification/StackApi.v ===== *)
(** * The boundary to the Matter stack

    [crates/controller/src/stack_api.rs]: the data exchanged with the stack
    thread, the operations of the [Stack] trait as an operation type, an
    implementation of them as a class, and the scriptable [FakeStack]. *)

From S2P Require Import Prelude Json.

Inductive StackErrorKind : Type := NodeUnreachable | Busy | Timeout | StackInvalidArguments | Sdk.

#[export] Instance StackErrorKind_eq_dec : EqDecision StackErrorKind.
Proof. solve_decision. Defined.

Record StackError : Type := { se_kind : StackErrorKind; se_message : string }.

Definition StackError_new (kind : StackErrorKind) (message : string) : StackError :=
  {| se_kind := kind; se_message := message |}.

Inductive NodeConnState : Type :=
| Connected (max_interval_secs : Z)
| Reconnecting.

Record NodeEventData : Type := {
  ev_endpoint_id : Z;
  ev_cluster_id : Z;
  ev_event_id : Z;
  ev_event_number : Z;
  ev_priority : Z;
  ev_timestamp : Z;
  ev_timestamp_type : Z;
  ev_data : Value;
}.

Inductive StackEvent : Type :=
| NodeState (node_id : Z) (state : NodeConnState)
| PrimingSnapshot (node_id : Z) (attributes : Map)
| AttributesChanged (node_id : Z) (changes : list (string * Value))
| NodeEvent (node_id : Z) (event : NodeEventData).

Inductive PaseTarget : Type :=
| Code (code : string)
| OnNetwork (passcode : Z) (long_discriminator : option Z) (short_discriminator : option Z) (vendor_id : option Z)
| Address (passcode : Z) (addr : string).

Record CommissionRequest : Type := {
  cr_node_id : Z;
  cr_target : PaseTarget;
  cr_fabric_label : string;
}.

Record CommissionOutcome : Type := { co_device_fabric_index : Z; co_address : string }.

Record WindowInfo : Type := {
  wi_setup_pin_code : Z;
  wi_setup_manual_code : string;
  wi_setup_qr_code : string;
}.

Record DeviceFabric : Type := {
  df_fabric_id : Z;
  df_vendor_id : Z;
  df_fabric_index : Z;
  df_fabric_label : string;
}.

Record DiscoveredDevice : Type := { dd_instance_name : string; dd_address : string }.

(** [None] is a wildcard. *)
Record AttributePathSpec : Type := {
  ap_endpoint : option Z;
  ap_cluster : option Z;
  ap_attribute : option Z;
}.

Abbreviation StackResult A := (Result A StackError).

(** The methods of the [Stack] trait. *)
Inductive StackOp : Type -> Type :=
| Commission (req : CommissionRequest) : StackOp (StackResult CommissionOutcome)
| ReadAttributes (node_id : Z) (paths : list AttributePathSpec) (fabric_filtered : bool) :
    StackOp (StackResult (list (string * Value)))
| WriteAttribute (node_id endpoint cluster attribute : Z) (value : Value) : StackOp (StackResult Z)
| Invoke (node_id endpoint cluster : Z) (command_name : string) (payload : Value) (timed_ms : option Z) :
    StackOp (StackResult Value)
| Interview (node_id : Z) : StackOp (StackResult Map)
| OpenCommissioningWindow (node_id timeout_secs : Z) : StackOp (StackResult WindowInfo)
| DeviceFabrics (node_id : Z) : StackOp (StackResult (list DeviceFabric))
| RemoveDeviceFabric (node_id fabric_index : Z) : StackOp (StackResult unit)
| UpdateFabricLabel (label : string) : StackOp (StackResult unit)
| StartSupervisor (node_id : Z) : StackOp unit
| StopSupervisor (node_id : Z) : StackOp unit
| NodeAddresses (node_id : Z) : StackOp (StackResult (list string))
| BrowseCommissionable (timeout_ms : Z) : StackOp (StackResult (list DiscoveredDevice))
| Shutdown : StackOp unit.

(** An implementation of the trait: a state and how each call changes it. *)
Class Stack (S : Type) : Type := { stack_call : forall B, StackOp B -> S -> B * S }.

(** ** FakeStack *)

Record FakeStack : Type := {
  fk_calls : list string;
  fk_read : option (StackResult (list (string * Value)));
  fk_invoke : option (StackResult Value);
  fk_write : option (StackResult Z);
  fk_commission : option (StackResult CommissionOutcome);
  fk_interview : option (StackResult Map);
  fk_window : option (StackResult WindowInfo);
  fk_fabrics : option (StackResult (list DeviceFabric));
  fk_addresses : option (StackResult (list string));
  fk_browse : option (StackResult (list DiscoveredDevice));
  fk_label : option (StackResult unit);
}.

Definition FakeStack_new : FakeStack :=
  {| fk_calls := []; fk_read := None; fk_invoke := None; fk_write := None; fk_commission := None;
     fk_interview := None; fk_window := None; fk_fabrics := None; fk_addresses := None;
     fk_browse := None; fk_label := None |}.

Definition sdk_err : StackError := StackError_new Sdk "fake: no scripted response".

(** [{:?}] of an [Option<uN>] and a [bool]. *)
Definition debug_opt (o : option Z) : string :=
  match o with Some n => "Some(" +:+ show n +:+ ")" | None => "None" end.
Definition debug_bool (b : bool) : string := if b then "true" else "false".

Definition describe_target (t : PaseTarget) : string :=
  match t with
  | Code code => "code=" +:+ code
  | OnNetwork passcode long short vendor =>
      "onnetwork passcode=" +:+ show passcode +:+ " long=" +:+ debug_opt long +:+ " short="
      +:+ debug_opt short +:+ " vendor=" +:+ debug_opt vendor
  | Address passcode addr => "address passcode=" +:+ show passcode +:+ " addr=" +:+ addr
  end.

Definition describe_call {B} (op : StackOp B) : string :=
  match op with
  | Commission req => "commission node_id=" +:+ show (cr_node_id req) +:+ " " +:+ describe_target (cr_target req)
  | ReadAttributes n paths ff =>
      "read node=" +:+ show n +:+ " paths=" +:+ show (Z.of_nat (length paths)) +:+ " ff=" +:+ debug_bool ff
  | WriteAttribute n e c a _ => "write node=" +:+ show n +:+ " " +:+ show e +:+ "/" +:+ show c +:+ "/" +:+ show a
  | Invoke n e c name _ timed =>
      "invoke node=" +:+ show n +:+ " " +:+ show e +:+ "/" +:+ show c +:+ " " +:+ name +:+ " timed=" +:+ debug_opt timed
  | Interview n => "interview node=" +:+ show n
  | OpenCommissioningWindow n t => "ocw node=" +:+ show n +:+ " timeout=" +:+ show t
  | DeviceFabrics n => "device_fabrics node=" +:+ show n
  | RemoveDeviceFabric n i => "remove_device_fabric node=" +:+ show n +:+ " idx=" +:+ show i
  | UpdateFabricLabel l => "update_fabric_label " +:+ l
  | StartSupervisor n => "start_supervisor " +:+ show n
  | StopSupervisor n => "stop_supervisor " +:+ show n
  | NodeAddresses n => "node_addresses " +:+ show n
  | BrowseCommissionable t => "browse " +:+ show t
  | Shutdown => "shutdown"
  end.

(** The fake with its log and its scripted responses replaced. *)
Definition fk_with (calls : list string)
    (read : option (StackResult (list (string * Value)))) (invoke : option (StackResult Value))
    (write : option (StackResult Z)) (commission : option (StackResult CommissionOutcome))
    (interview : option (StackResult Map)) (window : option (StackResult WindowInfo))
    (fabrics : option (StackResult (list DeviceFabric))) (addresses : option (StackResult (list string)))
    (browse : option (StackResult (list DiscoveredDevice))) (label : option (StackResult unit)) : FakeStack :=
  {| fk_calls := calls; fk_read := read; fk_invoke := invoke; fk_write := write; fk_commission := commission;
     fk_interview := interview; fk_window := window; fk_fabrics := fabrics; fk_addresses := addresses;
     fk_browse := browse; fk_label := label |}.

(** Each call is logged and takes its scripted response, or the default one. *)
Definition fake_call (B : Type) (op : StackOp B) (f : FakeStack) : B * FakeStack :=
  let '{| fk_calls := cs; fk_read := r; fk_invoke := i; fk_write := w; fk_commission := c; fk_interview := n;
          fk_window := wi; fk_fabrics := fa; fk_addresses := a; fk_browse := b; fk_label := l |} := f in
  let calls := cs ++ [describe_call op] in
  match op with
  | Commission _ => (unwrap_or (Err sdk_err) c, fk_with calls r i w None n wi fa a b l)
  | ReadAttributes _ _ _ => (unwrap_or (Err sdk_err) r, fk_with calls None i w c n wi fa a b l)
  | WriteAttribute _ _ _ _ _ => (unwrap_or (Ok 0) w, fk_with calls r i None c n wi fa a b l)
  | Invoke _ _ _ _ _ _ => (unwrap_or (Ok VNull) i, fk_with calls r None w c n wi fa a b l)
  | Interview _ => (unwrap_or (Ok []) n, fk_with calls r i w c None wi fa a b l)
  | OpenCommissioningWindow _ _ => (unwrap_or (Err sdk_err) wi, fk_with calls r i w c n None fa a b l)
  | DeviceFabrics _ => (unwrap_or (Ok []) fa, fk_with calls r i w c n wi None a b l)
  | RemoveDeviceFabric _ _ => (Ok tt, fk_with calls r i w c n wi fa a b l)
  | UpdateFabricLabel _ => (unwrap_or (Ok tt) l, fk_with calls r i w c n wi fa a b None)
  | StartSupervisor _ => (tt, fk_with calls r i w c n wi fa a b l)
  | StopSupervisor _ => (tt, fk_with calls r i w c n wi fa a b l)
  | NodeAddresses _ => (unwrap_or (Ok []) a, fk_with calls r i w c n wi fa None b l)
  | BrowseCommissionable _ => (unwrap_or (Ok []) b, fk_with calls r i w c n wi fa a None l)
  | Shutdown => (tt, fk_with calls r i w c n wi fa a b l)
  end.

#[export] Instance FakeStack_stack : Stack FakeStack := {| stack_call := fake_call |}.

(** Every call is logged, whatever is scripted. *)
Lemma fake_call_logged B (op : StackOp B) f : fk_calls (fake_call B op f).2 = fk_calls f ++ [describe_call op].
Proof. destruct f. by destruct op. Qed.
