(* ===== verification/NodeManager.v ===== *)
(** * The node manager

    [crates/controller/src/node_manager.rs]: the task that applies the stack's
    events to the registry and to storage, fans out wire events, keeps the last
    node events, and gives a node that lost its subscription a grace period
    before it is reported unavailable. *)

From S2P Require Import Prelude Json Wire Prog Fs Storage Registry StackApi.

Definition RECONNECT_GRACE : Z := 180.   (* seconds *)
Definition EVENT_HISTORY_SIZE : nat := 25.

(** ** State shared with the command handlers

    The registry, the files, the broadcast channel (every message sent, oldest
    first) and the event history; [sh_now] is the clock [SystemTime::now] reads. *)
Record Shared : Type := {
  sh_registry : Registry;
  sh_fs : FS;
  sh_events : list EventMessage;
  sh_history : list Value;
  sh_now : Z;
}.

Definition set_registry (r : Registry) (s : Shared) : Shared :=
  {| sh_registry := r; sh_fs := sh_fs s; sh_events := sh_events s; sh_history := sh_history s; sh_now := sh_now s |}.
Definition set_fs (fs : FS) (s : Shared) : Shared :=
  {| sh_registry := sh_registry s; sh_fs := fs; sh_events := sh_events s; sh_history := sh_history s; sh_now := sh_now s |}.
Definition set_history (h : list Value) (s : Shared) : Shared :=
  {| sh_registry := sh_registry s; sh_fs := sh_fs s; sh_events := sh_events s; sh_history := h; sh_now := sh_now s |}.
(** [let _ = events.send(..)]: a message nobody listens to is not an error. *)
Definition send_event (event : string) (data : Value) (s : Shared) : Shared :=
  {| sh_registry := sh_registry s; sh_fs := sh_fs s;
     sh_events := sh_events s ++ [{| em_event := event; em_data := data |}];
     sh_history := sh_history s; sh_now := sh_now s |}.

Definition build_node_event (node_id : Z) (event : NodeEventData) : MatterNodeEvent :=
  {| ne_node_id := node_id;
     ne_endpoint_id := ev_endpoint_id event;
     ne_cluster_id := ev_cluster_id event;
     ne_event_id := ev_event_id event;
     ne_event_number := ev_event_number event;
     ne_priority := ev_priority event;
     ne_timestamp := ev_timestamp event;
     ne_timestamp_type := ev_timestamp_type event;
     ne_data := ev_data event |}.

Definition emit_node_updated (node_id : Z) (s : Shared) : Shared :=
  match node_data (sh_registry s) node_id with
  | Some nd => send_event "node_updated" (node_data_value nd) s
  | None => s
  end.

Definition push_history (data : Value) (h : list Value) : list Value :=
  (if (EVENT_HISTORY_SIZE <=? length h)%nat then drop 1 h else h) ++ [data].

(** ** Grace timers

    A timer is a spawned task that sleeps and then sends its node id; [abort]
    has no effect on a task that already ran. *)
Inductive Task : Type := Sleeping (node_id : Z) | Finished | Aborted.

Record Timers : Type := {
  tm_grace : gmap Z nat;        (* grace_timers: node id to task *)
  tm_tasks : gmap nat Task;
  tm_next : nat;
}.

Definition abort_task (t : nat) (tm : gmap nat Task) : gmap nat Task :=
  match tm !! t with Some (Sleeping _) => <[t := Aborted]> tm | _ => tm end.

Definition remove_timer (node_id : Z) (tm : Timers) : Timers :=
  {| tm_grace := delete node_id (tm_grace tm); tm_tasks := tm_tasks tm; tm_next := tm_next tm |}.

Definition cancel_timer (node_id : Z) (tm : Timers) : Timers :=
  match tm_grace tm !! node_id with
  | Some t => {| tm_grace := delete node_id (tm_grace tm); tm_tasks := abort_task t (tm_tasks tm); tm_next := tm_next tm |}
  | None => tm
  end.

Definition spawn_timer (node_id : Z) (tm : Timers) : Timers :=
  {| tm_grace := <[node_id := tm_next tm]> (tm_grace tm);
     tm_tasks := <[tm_next tm := Sleeping node_id]> (tm_tasks tm);
     tm_next := S (tm_next tm) |}.

Section manager.
Context `{SerdeJson} `{NodeDate} (storage : Storage).

Definition persist (node_id : Z) (s : Shared) : Shared :=
  match Registry.snapshot_record (sh_registry s) node_id with
  | Some rec => set_fs (run_io (save_node storage rec) (sh_fs s)).2 s
  | None => s
  end.

(** Replace the cached attributes after a full read. *)
Definition refresh_record (attributes : Map) (now : Z) (e : NodeEntry) : unit * NodeEntry :=
  let r := ne_record e in
  (tt, {| ne_record := {| nr_node_id := nr_node_id r; nr_date_commissioned := nr_date_commissioned r;
                          nr_last_interview := format_node_date now;
                          nr_device_fabric_index := nr_device_fabric_index r;
                          nr_addresses := nr_addresses r; nr_attributes := attributes |};
          ne_available := ne_available e |}).

Definition insert_attribute (path : string) (value : Value) (e : NodeEntry) : unit * NodeEntry :=
  let r := ne_record e in
  (tt, {| ne_record := {| nr_node_id := nr_node_id r; nr_date_commissioned := nr_date_commissioned r;
                          nr_last_interview := nr_last_interview r;
                          nr_device_fabric_index := nr_device_fabric_index r;
                          nr_addresses := nr_addresses r;
                          nr_attributes := bt_insert path value (nr_attributes r) |};
          ne_available := ne_available e |}).

Definition apply_change (node_id : Z) (s : Shared) (change : string * Value) : Shared :=
  let '(path, value) := change in
  send_event "attribute_updated" (VArray [json_u node_id; VString path; value])
    (set_registry (Registry.with_entry node_id (insert_attribute path value) (sh_registry s)).2 s).

Definition handle_node_state (node_id : Z) (state : NodeConnState) (s : Shared) (tm : Timers) : Shared * Timers :=
  match state with
  | Connected _ =>
      let tm := cancel_timer node_id tm in
      let '(changed, r) := Registry.set_available node_id true (sh_registry s) in
      let s := set_registry r s in
      (match changed with Some true => emit_node_updated node_id s | _ => s end, tm)
  | Reconnecting =>
      let available := match node_data (sh_registry s) node_id with Some n => nd_available n | None => false end in
      match tm_grace tm !! node_id with
      | None => (s, if (available : bool) then spawn_timer node_id tm else tm)
      | Some _ => (s, tm)
      end
  end.

Definition handle_event (ev : StackEvent) (s : Shared) (tm : Timers) : Shared * Timers :=
  match ev with
  | NodeState node_id state =>
      if Registry.contains (sh_registry s) node_id then handle_node_state node_id state s tm else (s, tm)
  | PrimingSnapshot node_id attributes =>
      if Registry.contains (sh_registry s) node_id then
        let s := set_registry (Registry.with_entry node_id (refresh_record attributes (sh_now s)) (sh_registry s)).2 s in
        (emit_node_updated node_id (persist node_id s), tm)
      else (s, tm)
  | AttributesChanged node_id changes =>
      if Registry.contains (sh_registry s) node_id then
        (persist node_id (fold_left (apply_change node_id) changes s), tm)
      else (s, tm)
  | NodeEvent node_id event =>
      if Registry.contains (sh_registry s) node_id then
        let data := node_event_value (build_node_event node_id event) in
        (send_event "node_event" data (set_history (push_history data (sh_history s)) s), tm)
      else (s, tm)
  end.

Definition handle_grace_expiry (node_id : Z) (s : Shared) (tm : Timers) : Shared * Timers :=
  match tm_grace tm !! node_id with
  | None => (s, tm)
  | Some _ =>
      let tm := remove_timer node_id tm in
      let '(changed, r) := Registry.set_available node_id false (sh_registry s) in
      let s := set_registry r s in
      (match changed with Some true => emit_node_updated node_id s | _ => s end, tm)
  end.

(** ** The consumer loop

    [run]'s [select!] takes an event or an expired id, whichever is ready;
    the environment queues events and lets timers run out. *)
Record Manager : Type := {
  mg_shared : Shared;
  mg_timers : Timers;
  mg_rx : list StackEvent;
  mg_grace_rx : list Z;
}.

Inductive Label : Type :=
| Push (ev : StackEvent)      (* the stack sends an event *)
| Fire (t : nat)              (* a timer's sleep ends *)
| RecvEvent                   (* the loop takes an event *)
| RecvExpiry.                 (* the loop takes an expired id *)

Definition manager_step (l : Label) (m : Manager) : option Manager :=
  match l with
  | Push ev =>
      Some {| mg_shared := mg_shared m; mg_timers := mg_timers m; mg_rx := mg_rx m ++ [ev];
              mg_grace_rx := mg_grace_rx m |}
  | Fire t =>
      match tm_tasks (mg_timers m) !! t with
      | Some (Sleeping n) =>
          Some {| mg_shared := mg_shared m;
                  mg_timers := {| tm_grace := tm_grace (mg_timers m);
                                  tm_tasks := <[t := Finished]> (tm_tasks (mg_timers m));
                                  tm_next := tm_next (mg_timers m) |};
                  mg_rx := mg_rx m; mg_grace_rx := mg_grace_rx m ++ [n] |}
      | _ => None
      end
  | RecvEvent =>
      match mg_rx m with
      | ev :: rest =>
          let '(s, tm) := handle_event ev (mg_shared m) (mg_timers m) in
          Some {| mg_shared := s; mg_timers := tm; mg_rx := rest; mg_grace_rx := mg_grace_rx m |}
      | [] => None
      end
  | RecvExpiry =>
      match mg_grace_rx m with
      | n :: rest =>
          let '(s, tm) := handle_grace_expiry n (mg_shared m) (mg_timers m) in
          Some {| mg_shared := s; mg_timers := tm; mg_rx := mg_rx m; mg_grace_rx := rest |}
      | [] => None
      end
  end.

Fixpoint manager_run (ls : list Label) (m : Manager) : option Manager :=
  match ls with
  | [] => Some m
  | l :: ls => match manager_step l m with Some m => manager_run ls m | None => None end
  end.

Definition spawn (s : Shared) : Manager :=
  {| mg_shared := s; mg_timers := {| tm_grace := ∅; tm_tasks := ∅; tm_next := 0 |};
     mg_rx := []; mg_grace_rx := [] |}.

Inductive reachable (s : Shared) : Manager -> Prop :=
| reach_start : reachable s (spawn s)
| reach_step m l m' : reachable s m -> manager_step l m = Some m' -> reachable s m'.
End manager.

(** ** Availability and the event stream *)

(** The availability clients last heard of a node. *)
Definition reports (n : Z) (e : EventMessage) : option bool :=
  if String.eqb (em_event e) "node_updated" && bool_decide (value_get (em_data e) "node_id" = Some (json_u n))
  then and_then (value_get (em_data e) "available") as_bool
  else None.

Fixpoint last_report (n : Z) (evs : list EventMessage) : option bool :=
  match evs with
  | [] => None
  | e :: evs => match last_report n evs with Some b => Some b | None => reports n e end
  end.

Lemma last_report_app n a b :
  last_report n (a ++ b) = match last_report n b with Some x => Some x | None => last_report n a end.
Proof.
  induction a as [|e a IH]; simpl; [by destruct (last_report n b)|]. rewrite IH.
  by destruct (last_report n b).
Qed.

Lemma reports_node_updated n d :
  reports n {| em_event := "node_updated"; em_data := node_data_value d |} =
  if decide (nd_node_id d = n) then Some (nd_available d) else None.
Proof.
  unfold reports. cbn [em_event em_data]. rewrite String.eqb_refl. cbn [andb].
  assert (E1 : value_get (node_data_value d) "node_id" = Some (json_u (nd_node_id d))).
  { unfold node_data_value. by destruct (nd_matter_version d). }
  assert (E2 : value_get (node_data_value d) "available" = Some (VBool (nd_available d))).
  { unfold node_data_value. by destruct (nd_matter_version d). }
  rewrite E1, E2. case_decide; case_bool_decide; simplify_eq; done.
Qed.

Definition agrees (s : Shared) : Prop :=
  registry_wf (sh_registry s) /\
  forall n e, bt_get (sh_registry s) n = Some e ->
    ne_available e = unwrap_or false (last_report n (sh_events s)).

(** A message that is not a node update tells nothing about availability. *)
Lemma agrees_send s event data : event <> "node_updated" -> agrees s -> agrees (send_event event data s).
Proof.
  intros Hne [Hw Ha]. split; [done|]. intros n e He. simpl in *. rewrite last_report_app. simpl.
  unfold reports. apply String.eqb_neq in Hne. simpl. rewrite Hne. simpl. by apply Ha.
Qed.

(** Emitting the current data of a node makes the stream agree about it. *)
Lemma agrees_emit s id :
  registry_wf (sh_registry s) ->
  (forall n e, n <> id -> bt_get (sh_registry s) n = Some e ->
     ne_available e = unwrap_or false (last_report n (sh_events s))) ->
  agrees (emit_node_updated id s).
Proof.
  intros Hw Ha. unfold emit_node_updated, node_data. destruct (bt_get (sh_registry s) id) as [e|] eqn:E; simpl.
  - split; [done|]. intros n e' He'. simpl in *. rewrite last_report_app. simpl.
    rewrite reports_node_updated. simpl. destruct Hw as [_ Hk]. rewrite (Hk id e E).
    case_decide; subst; [by simplify_eq | apply Ha; congruence].
  - split; [done|]. intros n e He. apply Ha; [intros ->; congruence | done].
Qed.

Lemma agrees_emit_weak s id : agrees s -> agrees (emit_node_updated id s).
Proof. intros [Hw Ha]. apply agrees_emit; [done|]. intros. by apply Ha. Qed.

(** Setting availability and reporting a change keeps the agreement. *)
Lemma agrees_set_available s id a :
  agrees s ->
  agrees (let '(changed, r) := Registry.set_available id a (sh_registry s) in
          match changed with Some true => emit_node_updated id (set_registry r s) | _ => set_registry r s end).
Proof.
  intros [Hw Ha]. pose proof (set_available_reply (sh_registry s) id a) as Hr.
  pose proof (set_available_get (sh_registry s) id a) as Hg.
  pose proof (registry_wf_set_available (sh_registry s) id a Hw) as Hw'.
  destruct (Registry.set_available id a (sh_registry s)) as [changed r]. simpl in *. subst changed.
  assert (Hothers : forall n e, n <> id -> bt_get r n = Some e ->
            ne_available e = unwrap_or false (last_report n (sh_events s))).
  { intros n e Hn He. rewrite Hg, decide_False in He by done. by apply Ha. }
  destruct (bt_get (sh_registry s) id) as [e0|] eqn:E0; simpl.
  - destruct (negb (eqb (ne_available e0) a)) eqn:Hc; [by apply agrees_emit|].
    apply negb_false_iff, eqb_prop in Hc. split; [done|]. intros n e He. simpl in *.
    destruct (decide (n = id)) as [->|]; [|by apply Hothers].
    rewrite Hg, decide_True in He by done. simplify_eq/=. by apply Ha.
  - split; [done|]. intros n e He. apply Hothers; [|done]. intros ->. simpl in He. by rewrite Hg, decide_True in He.
Qed.

Lemma agrees_update s id (f : NodeEntry -> unit * NodeEntry) :
  (forall e, nr_node_id (ne_record (f e).2) = nr_node_id (ne_record e)) ->
  (forall e, ne_available (f e).2 = ne_available e) ->
  agrees s -> agrees (set_registry (Registry.with_entry id f (sh_registry s)).2 s).
Proof.
  intros Hid Hav [Hw Ha]. split; [by apply registry_wf_with_entry|]. intros n e He. simpl in *.
  unfold Registry.with_entry in He. destruct (bt_get (sh_registry s) id) as [e0|] eqn:E0; [|by apply Ha].
  specialize (Hav e0). destruct (f e0) as [x e1]. simpl in *. rewrite bt_get_insert in He.
  case_decide; [|by apply Ha]. simplify_eq. rewrite Hav. by apply Ha.
Qed.

Section manager_facts.
Context `{SerdeJson} `{NodeDate} (storage : Storage).

Lemma agrees_persist id s : agrees s -> agrees (persist storage id s).
Proof. unfold persist. by destruct (Registry.snapshot_record (sh_registry s) id). Qed.

Lemma agrees_changes id changes s : agrees s -> agrees (fold_left (apply_change id) changes s).
Proof.
  revert s. induction changes as [|[path value] changes IH]; intros s Hs; simpl; [done|].
  apply IH, agrees_send; [done|]. by apply agrees_update.
Qed.

Lemma agrees_handle_event ev s tm : agrees s -> agrees (handle_event storage ev s tm).1.
Proof.
  intros Hs. destruct ev as [id st|id attrs|id changes|id e]; simpl;
    (destruct (Registry.contains (sh_registry s) id); [|done]).
  - destruct st; simpl.
    + pose proof (agrees_set_available s id true Hs) as Ha.
      destruct (Registry.set_available id true (sh_registry s)) as [[[]|] r]; done.
    + by destruct (tm_grace tm !! id).
  - apply agrees_emit_weak, agrees_persist. by apply agrees_update.
  - by apply agrees_persist, agrees_changes.
  - by apply agrees_send.
Qed.

Lemma agrees_handle_grace_expiry id s tm : agrees s -> agrees (handle_grace_expiry id s tm).1.
Proof.
  intros Hs. unfold handle_grace_expiry. destruct (tm_grace tm !! id); [|done].
  pose proof (agrees_set_available s id false Hs) as Ha.
  destruct (Registry.set_available id false (sh_registry s)) as [[[]|] r]; done.
Qed.

Lemma manager_step_inv (I : Shared -> Prop) :
  (forall ev s tm, I s -> I (handle_event storage ev s tm).1) ->
  (forall id s tm, I s -> I (handle_grace_expiry id s tm).1) ->
  forall l m m', I (mg_shared m) -> manager_step storage l m = Some m' -> I (mg_shared m').
Proof.
  intros He Hg l m m' HI Hm. destruct l as [ev|t| |]; simpl in Hm.
  - by simplify_eq.
  - destruct (tm_tasks (mg_timers m) !! t) as [[]|]; by simplify_eq.
  - destruct (mg_rx m) as [|ev rest]; [done|]. pose proof (He ev _ (mg_timers m) HI) as Hs.
    destruct (handle_event storage ev (mg_shared m) (mg_timers m)). by simplify_eq.
  - destruct (mg_grace_rx m) as [|n rest]; [done|]. pose proof (Hg n _ (mg_timers m) HI) as Hs.
    destruct (handle_grace_expiry n (mg_shared m) (mg_timers m)). by simplify_eq.
Qed.

Lemma reachable_inv (I : Shared -> Prop) s :
  (forall ev s tm, I s -> I (handle_event storage ev s tm).1) ->
  (forall id s tm, I s -> I (handle_grace_expiry id s tm).1) ->
  I s -> forall m, reachable storage s m -> I (mg_shared m).
Proof. intros He Hg Hs m. induction 1; [done | by eapply manager_step_inv]. Qed.

(** C13: whatever the stack reports and however timers and events interleave,
    the availability the server would serialize for a node is the one its
    clients were last told: the [available] of the latest node_updated event
    for that node, or [false] before any. *)
Theorem availability_matches_events (records : list NodeRecord) (fs : FS) (now : Z) (m : Manager) :
  reachable storage {| sh_registry := Registry.new records; sh_fs := fs; sh_events := [];
                       sh_history := []; sh_now := now |} m ->
  forall n d, node_data (sh_registry (mg_shared m)) n = Some d ->
    nd_available d = unwrap_or false (last_report n (sh_events (mg_shared m))).
Proof.
  intros Hm n d Hd.
  assert (Ha : agrees (mg_shared m)).
  { eapply reachable_inv; [apply agrees_handle_event | apply agrees_handle_grace_expiry | | exact Hm].
    split; [apply registry_wf_new|]. simpl. clear.
    assert (G : forall l (r : Registry), (forall n e, bt_get r n = Some e -> ne_available e = false) ->
              forall n e, bt_get (fold_left (fun m kv => bt_insert kv.1 kv.2 m)
                (map (fun record => (nr_node_id record, new_entry record)) l) r) n = Some e -> ne_available e = false).
    { induction l as [|x l IH]; intros r Hr; simpl; [done|]. apply IH. intros n e.
      rewrite bt_get_insert. case_decide; [by intros [= <-] | apply Hr]. }
    intros n e. by apply G. }
  unfold node_data in Hd. destruct (bt_get (sh_registry (mg_shared m)) n) as [e|] eqn:E; simplify_eq/=.
  by apply Ha.
Qed.
End manager_facts.

(** ** The event history *)

Definition last_n {A} (n : nat) (l : list A) : list A := drop (length l - n) l.

Lemma last_n_push {A} (n : nat) (l : list A) a :
  (0 < n)%nat -> (if (n <=? length (last_n n l))%nat then drop 1 (last_n n l) else last_n n l) ++ [a] = last_n n (l ++ [a]).
Proof.
  intros Hn. unfold last_n. rewrite length_app, length_drop. simpl.
  destruct (Nat.leb_spec n (length l - (length l - n))) as [H|H].
  - rewrite drop_drop, drop_app_le by lia. f_equal. f_equal. lia.
  - rewrite drop_app_le by lia. f_equal. f_equal. lia.
Qed.

(** The payloads of the node events sent. *)
Definition node_events (evs : list EventMessage) : list Value :=
  map em_data (List.filter (fun e => String.eqb (em_event e) "node_event") evs).

Definition history_ok (s : Shared) : Prop :=
  sh_history s = last_n EVENT_HISTORY_SIZE (node_events (sh_events s)).

Lemma node_events_app a b : node_events (a ++ b) = node_events a ++ node_events b.
Proof. unfold node_events. by rewrite List.filter_app, map_app. Qed.

Lemma history_ok_send s event data : event <> "node_event" -> history_ok s -> history_ok (send_event event data s).
Proof.
  intros Hne%String.eqb_neq Hs. unfold history_ok in *. simpl. rewrite node_events_app. unfold node_events at 2. simpl.
  by rewrite Hne, app_nil_r.
Qed.

Lemma history_ok_emit id s : history_ok s -> history_ok (emit_node_updated id s).
Proof. intros. unfold emit_node_updated. destruct (node_data (sh_registry s) id); [by apply history_ok_send | done]. Qed.

Section history.
Context `{SerdeJson} `{NodeDate} (storage : Storage).

Lemma history_ok_changes id changes s : history_ok s -> history_ok (fold_left (apply_change id) changes s).
Proof.
  revert s. induction changes as [|[path value] changes IH]; intros s Hs; simpl; [done|].
  by apply IH, history_ok_send.
Qed.

Lemma history_ok_persist id s : history_ok s -> history_ok (persist storage id s).
Proof. unfold persist. by destruct (Registry.snapshot_record (sh_registry s) id). Qed.

Lemma history_ok_handle_event ev s tm : history_ok s -> history_ok (handle_event storage ev s tm).1.
Proof.
  intros Hs. destruct ev as [id st|id attrs|id changes|id e]; simpl;
    (destruct (Registry.contains (sh_registry s) id); [|done]).
  - destruct st; simpl; [|by destruct (tm_grace tm !! id)].
    destruct (Registry.set_available id true (sh_registry s)) as [[[]|] r]; [by apply history_ok_emit | done | done].
  - by apply history_ok_emit, history_ok_persist.
  - by apply history_ok_persist, history_ok_changes.
  - unfold history_ok in *. cbn [fst send_event set_history sh_history sh_events]. rewrite node_events_app.
    unfold push_history. rewrite Hs. change (node_events [_]) with [node_event_value (build_node_event id e)].
    apply last_n_push. unfold EVENT_HISTORY_SIZE. lia.
Qed.

Lemma history_ok_grace id s tm : history_ok s -> history_ok (handle_grace_expiry id s tm).1.
Proof.
  intros Hs. unfold handle_grace_expiry. destruct (tm_grace tm !! id); [|done].
  destruct (Registry.set_available id false (sh_registry s)) as [[[]|] r]; [by apply history_ok_emit | done | done].
Qed.

(** The history the diagnostics command serves holds at most 25 entries
    and is always the payloads of the last node events broadcast, oldest
    first. *)
Theorem history_is_last_events (s : Shared) (m : Manager) :
  sh_history s = [] -> sh_events s = [] -> reachable storage s m ->
  sh_history (mg_shared m) = last_n 25 (node_events (sh_events (mg_shared m))) /\
  (length (sh_history (mg_shared m)) <= 25)%nat.
Proof.
  intros Hh He Hm.
  assert (Ho : history_ok (mg_shared m)).
  { eapply reachable_inv; [apply history_ok_handle_event | apply history_ok_grace | | exact Hm].
    unfold history_ok. by rewrite Hh, He. }
  unfold history_ok in Ho. split; [done|]. rewrite Ho. unfold last_n. rewrite length_drop. unfold EVENT_HISTORY_SIZE. lia.
Qed.
End history.

(** ** The grace period *)

Section grace.
Context `{SerdeJson} `{NodeDate} (storage : Storage).

Definition available (s : Shared) (n : Z) : option bool := ne_available <$> bt_get (sh_registry s) n.

Lemma available_send event data s n : available (send_event event data s) n = available s n.
Proof. done. Qed.

Lemma available_emit id s n : available (emit_node_updated id s) n = available s n.
Proof. unfold emit_node_updated. by destruct (node_data (sh_registry s) id). Qed.

Lemma available_persist id s n : available (persist storage id s) n = available s n.
Proof. unfold persist. by destruct (Registry.snapshot_record (sh_registry s) id). Qed.

Lemma available_update id (f : NodeEntry -> unit * NodeEntry) s n :
  (forall e, ne_available (f e).2 = ne_available e) ->
  available (set_registry (Registry.with_entry id f (sh_registry s)).2 s) n = available s n.
Proof.
  intros Hf. unfold available, Registry.with_entry. simpl. destruct (bt_get (sh_registry s) id) as [e|] eqn:E; [|done].
  specialize (Hf e). destruct (f e) as [x e']. simpl in *. rewrite bt_get_insert. case_decide; subst; [|done].
  rewrite E. simpl. by rewrite Hf.
Qed.

Lemma available_changes id changes s n : available (fold_left (apply_change id) changes s) n = available s n.
Proof.
  revert s. induction changes as [|[path value] changes IH]; intros s; simpl; [done|].
  rewrite IH, available_send. by apply available_update.
Qed.

Lemma available_set id a s n :
  available (let '(changed, r) := Registry.set_available id a (sh_registry s) in
             match changed with Some true => emit_node_updated id (set_registry r s) | _ => set_registry r s end) n =
  if decide (n = id) then (fun _ => a) <$> available s id else available s n.
Proof.
  pose proof (set_available_get (sh_registry s) id a n) as Hg.
  destruct (Registry.set_available id a (sh_registry s)) as [changed r]. simpl in *.
  transitivity (ne_available <$> bt_get r n).
  { destruct changed as [[]|]; [by rewrite available_emit | done | done]. }
  rewrite Hg. unfold available. case_decide; [|done]. by destruct (bt_get (sh_registry s) id).
Qed.

(** Events never make a node unavailable. *)
Lemma available_handle_event ev s tm n :
  available s n = Some true -> available (handle_event storage ev s tm).1 n = Some true.
Proof.
  intros Hs. destruct ev as [id st|id attrs|id changes|id e]; cbn [handle_event];
    (destruct (Registry.contains (sh_registry s) id); [|done]).
  - destruct st; simpl; [|by destruct (tm_grace tm !! id)].
    pose proof (available_set id true s n) as Ha. rewrite Hs in Ha.
    destruct (Registry.set_available id true (sh_registry s)) as [[[]|] r]; simpl in *; rewrite Ha;
      (case_decide; [subst; by rewrite Hs | done]).
  - cbv zeta. cbn [fst]. rewrite available_emit, available_persist, available_update by done. done.
  - cbn [fst]. rewrite available_persist, available_changes. done.
  - done.
Qed.

(** The only step that makes a node unavailable is the expiry of a grace
    timer recorded for that node; losing the subscription alone never does. *)
Theorem unavailable_only_by_grace (l : Label) (m m' : Manager) (n : Z) :
  manager_step storage l m = Some m' ->
  available (mg_shared m) n = Some true -> available (mg_shared m') n <> Some true ->
  l = RecvExpiry /\ (exists rest, mg_grace_rx m = n :: rest) /\
  is_Some (tm_grace (mg_timers m) !! n) /\ available (mg_shared m') n = Some false.
Proof.
  intros Hm Ha Hn. destruct l as [ev|t| |]; simpl in Hm.
  - by simplify_eq.
  - destruct (tm_tasks (mg_timers m) !! t) as [[]|]; by simplify_eq.
  - destruct (mg_rx m) as [|ev rest]; [done|].
    pose proof (available_handle_event ev (mg_shared m) (mg_timers m) n Ha) as Hs.
    destruct (handle_event storage ev (mg_shared m) (mg_timers m)). by simplify_eq.
  - destruct (mg_grace_rx m) as [|id rest]; [done|]. unfold handle_grace_expiry in Hm.
    destruct (tm_grace (mg_timers m) !! id) as [t|] eqn:Et; [|by simplify_eq].
    pose proof (available_set id false (mg_shared m) n) as Hs.
    destruct (Registry.set_available id false (sh_registry (mg_shared m))) as [changed r].
    simplify_eq/=. rewrite Ha in Hs. destruct (decide (n = id)) as [->|]; [|by rewrite Hs in Hn].
    rewrite Ha in Hs. rewrite Hs, Et. eauto.
Qed.

(** A node whose subscription is lost while it is available gets a timer;
    when that timer fires and the loop takes the expiry with nothing in
    between, the node is unavailable, its clients are told, and the timer is
    gone. *)
Theorem grace_expires (m : Manager) (n : Z) :
  available (mg_shared m) n = Some true -> tm_grace (mg_timers m) !! n = None ->
  mg_rx m = [] -> mg_grace_rx m = [] ->
  exists m', manager_run storage [Push (NodeState n Reconnecting); RecvEvent; Fire (tm_next (mg_timers m)); RecvExpiry] m = Some m' /\
    available (mg_shared m') n = Some false /\ tm_grace (mg_timers m') !! n = None /\
    exists d, nd_available d = false /\
      sh_events (mg_shared m') = sh_events (mg_shared m) ++ [{| em_event := "node_updated"; em_data := node_data_value d |}].
Proof.
  intros Ha Ht Hrx Hg. destruct m as [s tm rx grx]. simpl in *. subst rx grx.
  unfold available in Ha. destruct (bt_get (sh_registry s) n) as [e|] eqn:E; [|done].
  assert (Hc : Registry.contains (sh_registry s) n = true) by by apply contains_spec; rewrite E.
  assert (Hnd : node_data (sh_registry s) n = Some (entry_data e)) by by unfold node_data; rewrite E.
  simpl in Ha. assert (Hav : ne_available e = true) by congruence.
  simpl. rewrite Hc. unfold handle_node_state. rewrite Ht, Hnd. simpl. rewrite Hav.
  simpl. rewrite lookup_insert_eq. simpl. unfold handle_grace_expiry. simpl. rewrite lookup_insert_eq.
  unfold Registry.set_available, Registry.with_entry. rewrite E. simpl. rewrite Hav. simpl.
  eexists. split; [done|]. unfold emit_node_updated, node_data. simpl. rewrite bt_get_insert_eq. simpl.
  unfold available. simpl. rewrite bt_get_insert_eq, lookup_delete_eq. split; [done|]. split; [done|].
  eexists (build_node_data _ false). split; reflexivity.
Qed.
End grace.

(** ** Witnesses, and the stale expiry *)

Definition demo_storage : Storage := {| st_root := ["d"] |}.
Definition demo_fs : FS :=
  {| fs_files := ∅; fs_dirs := {[ ["d"]; ["d"; "nodes"] ]}; fs_faults := []; fs_seq := 0; fs_pid := 1; fs_create_mode := 420 |}.
Definition demo_shared : Shared :=
  {| sh_registry := Registry.new [demo_record 7; demo_record 3]; sh_fs := demo_fs; sh_events := []; sh_history := []; sh_now := 0 |}.
Definition demo_date : NodeDate := {| format_node_date _ := "2025-01-01T00:00:00.000000" |}.

(** The trace that loses the second grace period of a flapping node: the first
    timer runs out, the queued expiry is still waiting when the node reconnects
    and drops again, and it is then taken for the second timer's. *)
Definition stale_trace : list Label :=
  [Push (NodeState 7 (Connected 60)); RecvEvent; Push (NodeState 7 Reconnecting); RecvEvent; Fire 0;
   Push (NodeState 7 (Connected 60)); Push (NodeState 7 Reconnecting); RecvEvent; RecvEvent; RecvExpiry].

(** The absence of a map entry does not tell every stale expiry from a real
    one: there is a run in which a node that just reconnected and dropped again
    is marked unavailable by the expiry of its earlier timer, while the timer of
    its current grace period is still sleeping. *)
Theorem stale_expiry_ends_new_grace :
  let m := manager_run (H := TreeJson) (H0 := demo_date) demo_storage stale_trace (spawn demo_shared) in
  exists m', m = Some m' /\ available (mg_shared m') 7 = Some false /\
    tm_tasks (mg_timers m') !! 1%nat = Some (Sleeping 7) /\ tm_grace (mg_timers m') !! 7 = None.
Proof. vm_compute. eexists. repeat split. Qed.

Lemma manager_run_reachable `{SerdeJson} `{NodeDate} storage ls s m m' :
  reachable storage s m -> manager_run storage ls m = Some m' -> reachable storage s m'.
Proof.
  revert m. induction ls as [|l ls IH]; intros m Hm; simpl; [by intros [= <-]|].
  destruct (manager_step storage l m) as [m1|] eqn:E; [|done]. intros Hr. eapply IH; [|exact Hr].
  by eapply reach_step.
Qed.

Definition after_stale : Manager :=
  match manager_run (H := TreeJson) (H0 := demo_date) demo_storage stale_trace (spawn demo_shared) with
  | Some m => m | None => spawn demo_shared end.

Lemma after_stale_reachable : reachable (H := TreeJson) (H0 := demo_date) demo_storage demo_shared after_stale.
Proof. eapply (manager_run_reachable _ stale_trace); [apply reach_start | by vm_compute]. Qed.

Lemma availability_matches_events_witness :
  exists d, node_data (sh_registry (mg_shared after_stale)) 7 = Some d /\
    nd_available d = unwrap_or false (last_report 7 (sh_events (mg_shared after_stale))).
Proof.
  exists (build_node_data (demo_record 7) false). assert (E : node_data (sh_registry (mg_shared after_stale)) 7 = Some (build_node_data (demo_record 7) false)) by by vm_compute.
  split; [exact E|].
  apply (availability_matches_events (H := TreeJson) (H0 := demo_date) demo_storage
           [demo_record 7; demo_record 3] demo_fs 0 after_stale after_stale_reachable 7 _ E).
Defined.

Lemma history_is_last_events_witness :
  (length (sh_history (mg_shared after_stale)) <= 25)%nat.
Proof.
  apply (history_is_last_events (H := TreeJson) (H0 := demo_date) demo_storage demo_shared after_stale
           eq_refl eq_refl after_stale_reachable).
Defined.

Definition demo_connected : Manager :=
  match manager_run (H := TreeJson) (H0 := demo_date) demo_storage
          [Push (NodeState 7 (Connected 60)); RecvEvent] (spawn demo_shared) with
  | Some m => m | None => spawn demo_shared end.

Lemma grace_expires_witness :
  exists m', manager_run (H := TreeJson) (H0 := demo_date) demo_storage
    [Push (NodeState 7 Reconnecting); RecvEvent; Fire 0; RecvExpiry] demo_connected = Some m' /\
    available (mg_shared m') 7 = Some false.
Proof.
  destruct (grace_expires (H := TreeJson) (H0 := demo_date) demo_storage demo_connected 7) as (m' & E & Hf & _);
    [by vm_compute .. |].
  exists m'. split; [exact E | exact Hf].
Defined.

Definition before_expiry : Manager :=
  match manager_run (H := TreeJson) (H0 := demo_date) demo_storage
          [Push (NodeState 7 Reconnecting); RecvEvent; Fire 0] demo_connected with
  | Some m => m | None => spawn demo_shared end.
Definition after_expiry : Manager :=
  match manager_step (H := TreeJson) (H0 := demo_date) demo_storage RecvExpiry before_expiry with
  | Some m => m | None => spawn demo_shared end.

Lemma unavailable_only_by_grace_witness : is_Some (tm_grace (mg_timers before_expiry) !! 7).
Proof.
  refine (proj1 (proj2 (proj2 (unavailable_only_by_grace (H := TreeJson) (H0 := demo_date) demo_storage RecvExpiry
    before_expiry after_expiry 7 _ _ _)))); by vm_compute.
Defined.
