(* ===== verification/ManagerOps.v ===== *)
(** * The node manager, one operation at a time

    [handle_event] and [handle_grace_expiry] of
    [crates/controller/src/node_manager.rs] as programs.  The code locks the
    registry for each access, releases it, and sends and saves in between, on
    its own task: commands of other threads run between any two operations.
    [NodeManager] has the same handlers as functions; a handler that nothing
    interrupts is that function. *)

From S2P Require Import Prelude Json Wire Prog Fs Storage Registry StackApi NodeManager.

(** One access to what is shared with the commands, or to the manager's own
    timers. *)
Inductive MgOp : Type -> Type :=
| OnShared {A} (f : Shared -> A * Shared) : MgOp A
| OnTimers {A} (f : Timers -> A * Timers) : MgOp A.

Abbreviation MgProg := (Prog MgOp).

Definition mg_step (B : Type) (op : MgOp B) (st : Shared * Timers) : B * (Shared * Timers) :=
  match op with
  | OnShared f => let '(b, s) := f st.1 in (b, (s, st.2))
  | OnTimers f => let '(b, tm) := f st.2 in (b, (st.1, tm))
  end.

Definition mg_read {A} (f : Shared -> A) : MgProg A := do_op (OnShared (fun s => (f s, s))).
Definition mg_modify (f : Shared -> Shared) : MgProg unit := do_op (OnShared (fun s => (tt, f s))).

Section ops.
Context `{SerdeJson} `{NodeDate} (storage : Storage).

(** [emit_node_updated]: the data is read, then sent. *)
Definition emit_ops (node_id : Z) : MgProg unit :=
  do! nd := mg_read (fun s => node_data (sh_registry s) node_id) in
  match nd with
  | Some nd => mg_modify (send_event "node_updated" (node_data_value nd))
  | None => Ret tt
  end.

(** [persist]: the record is copied, then saved. *)
Definition persist_ops (node_id : Z) : MgProg unit :=
  do! rec := mg_read (fun s => Registry.snapshot_record (sh_registry s) node_id) in
  match rec with
  | Some rec => mg_modify (fun s => set_fs (run_io (save_node storage rec) (sh_fs s)).2 s)
  | None => Ret tt
  end.

Definition set_available_op (node_id : Z) (available : bool) : MgProg (option bool) :=
  do_op (OnShared (fun s =>
    let '(changed, r) := Registry.set_available node_id available (sh_registry s) in (changed, set_registry r s))).

Definition availability_ops (node_id : Z) (available : bool) : MgProg unit :=
  do! changed := set_available_op node_id available in
  match changed with Some true => emit_ops node_id | _ => Ret tt end.

Definition state_ops (node_id : Z) (state : NodeConnState) : MgProg unit :=
  match state with
  | Connected _ =>
      do! _ := do_op (OnTimers (fun tm => (tt, cancel_timer node_id tm))) in
      availability_ops node_id true
  | Reconnecting =>
      do! available := mg_read (fun s => match node_data (sh_registry s) node_id with Some n => nd_available n | None => false end) in
      do_op (OnTimers (fun tm =>
        (tt, match tm_grace tm !! node_id with
             | None => if (available : bool) then spawn_timer node_id tm else tm
             | Some _ => tm
             end)))
  end.

Fixpoint changes_ops (node_id : Z) (changes : list (string * Value)) : MgProg unit :=
  match changes with
  | [] => Ret tt
  | (path, value) :: changes =>
      do! _ := mg_modify (fun s => set_registry (Registry.with_entry node_id (insert_attribute path value) (sh_registry s)).2 s) in
      do! _ := mg_modify (send_event "attribute_updated" (VArray [json_u node_id; VString path; value])) in
      changes_ops node_id changes
  end.

Definition known_node (ev : StackEvent) : Z :=
  match ev with NodeState n _ | PrimingSnapshot n _ | AttributesChanged n _ | NodeEvent n _ => n end.

Definition known_ops (ev : StackEvent) : MgProg unit :=
  match ev with
  | NodeState node_id state => state_ops node_id state
  | PrimingSnapshot node_id attributes =>
      do! _ := mg_modify (fun s => set_registry (Registry.with_entry node_id (refresh_record attributes (sh_now s)) (sh_registry s)).2 s) in
      do! _ := persist_ops node_id in
      emit_ops node_id
  | AttributesChanged node_id changes =>
      do! _ := changes_ops node_id changes in
      persist_ops node_id
  | NodeEvent node_id event =>
      let data := node_event_value (build_node_event node_id event) in
      do! _ := mg_modify (fun s => set_history (push_history data (sh_history s)) s) in
      mg_modify (send_event "node_event" data)
  end.

(** [handle_event]: an event about an unknown node is dropped. *)
Definition event_ops (ev : StackEvent) : MgProg unit :=
  do! known := mg_read (fun s => Registry.contains (sh_registry s) (known_node ev)) in
  if (known : bool) then known_ops ev else Ret tt.

(** [handle_grace_expiry] *)
Definition expiry_ops (node_id : Z) : MgProg unit :=
  do! armed := do_op (OnTimers (fun tm =>
    match tm_grace tm !! node_id with Some _ => (true, remove_timer node_id tm) | None => (false, tm) end)) in
  if (armed : bool) then availability_ops node_id false else Ret tt.

(** ** A handler that nothing interrupts *)

Definition mg_run {A} (p : MgProg A) (st : Shared * Timers) : A * (Shared * Timers) := run mg_step p st.

Lemma mg_run_bind {A B} (p : MgProg A) (f : A -> MgProg B) st :
  mg_run (prog_bind p f) st = let '(a, st) := mg_run p st in mg_run (f a) st.
Proof. apply run_bind. Qed.

Lemma mg_run_op {B} (op : MgOp B) st : mg_run (do_op op) st = mg_step B op st.
Proof. unfold mg_run, do_op. cbn [run]. by destruct (mg_step B op st). Qed.

Lemma mg_run_read {A} (f : Shared -> A) st : mg_run (mg_read f) st = (f st.1, st).
Proof. by destruct st. Qed.

Lemma mg_run_modify (f : Shared -> Shared) st : mg_run (mg_modify f) st = (tt, (f st.1, st.2)).
Proof. done. Qed.

Lemma mg_run_emit n st : mg_run (emit_ops n) st = (tt, (emit_node_updated n st.1, st.2)).
Proof.
  unfold emit_ops, emit_node_updated. rewrite mg_run_bind, mg_run_read. destruct st as [s tm]. cbn [fst snd].
  by destruct (node_data (sh_registry s) n).
Qed.

Lemma mg_run_persist n st : mg_run (persist_ops n) st = (tt, (persist storage n st.1, st.2)).
Proof.
  unfold persist_ops, persist. rewrite mg_run_bind, mg_run_read. destruct st as [s tm]. cbn [fst snd].
  by destruct (Registry.snapshot_record (sh_registry s) n).
Qed.

Lemma mg_run_available n a st :
  mg_run (availability_ops n a) st =
  (tt, (let '(changed, r) := Registry.set_available n a (sh_registry st.1) in
        match changed with Some true => emit_node_updated n (set_registry r st.1) | _ => set_registry r st.1 end, st.2)).
Proof.
  unfold availability_ops, set_available_op. rewrite mg_run_bind, mg_run_op. cbn [mg_step].
  destruct (Registry.set_available n a (sh_registry st.1)) as [[[]|] r]; [|done..]. by rewrite mg_run_emit.
Qed.

Lemma mg_run_changes n changes st :
  mg_run (changes_ops n changes) st = (tt, (fold_left (apply_change n) changes st.1, st.2)).
Proof.
  revert st. induction changes as [|[path value] changes IH]; intros st; cbn [changes_ops]; [by destruct st|].
  rewrite !mg_run_bind, mg_run_modify. rewrite mg_run_bind, mg_run_modify. by rewrite IH.
Qed.

(** Each handler in [NodeManager] is its operations in one go: one after the
    other, with nothing in between, they give the same registry, files,
    messages, history and timers. *)
Theorem event_ops_at_once ev s tm : mg_run (event_ops ev) (s, tm) = (tt, handle_event storage ev s tm).
Proof.
  unfold event_ops. rewrite mg_run_bind, mg_run_read. cbn [fst]. destruct ev as [n st|n attrs|n changes|n e]; cbn [known_node known_ops handle_event];
    (destruct (Registry.contains (sh_registry s) n); [|done]).
  - destruct st as [i|]; cbn [state_ops handle_node_state].
    + rewrite mg_run_bind, mg_run_op. cbn [mg_step fst snd]. rewrite mg_run_available. cbn [fst snd].
      by destruct (Registry.set_available n true (sh_registry s)) as [[[]|] r].
    + rewrite mg_run_bind, mg_run_read, mg_run_op. cbn. by destruct (tm_grace tm !! n).
  - rewrite mg_run_bind, mg_run_modify, mg_run_bind, mg_run_persist, mg_run_emit. done.
  - by rewrite mg_run_bind, mg_run_changes, mg_run_persist.
  - by rewrite mg_run_bind, mg_run_modify, mg_run_modify.
Qed.

Theorem expiry_ops_at_once n s tm : mg_run (expiry_ops n) (s, tm) = (tt, handle_grace_expiry n s tm).
Proof.
  unfold expiry_ops, handle_grace_expiry. rewrite mg_run_bind, mg_run_op. cbn [mg_step fst snd].
  destruct (tm_grace tm !! n); [|done]. rewrite mg_run_available. cbn [fst snd].
  by destruct (Registry.set_available n false (sh_registry s)) as [[[]|] r].
Qed.

(** ** What one operation can do *)

Inductive mg_change (s : Shared) : Shared -> Prop :=
| mc_none : mg_change s s
| mc_available n a : mg_change s (set_registry (Registry.set_available n a (sh_registry s)).2 s)
| mc_refresh n attrs now : mg_change s (set_registry (Registry.with_entry n (refresh_record attrs now) (sh_registry s)).2 s)
| mc_insert n path value : mg_change s (set_registry (Registry.with_entry n (insert_attribute path value) (sh_registry s)).2 s)
| mc_send event data : mg_change s (send_event event data s)
| mc_save rec : mg_change s (set_fs (run_io (save_node storage rec) (sh_fs s)).2 s)
| mc_history data : mg_change s (set_history (push_history data (sh_history s)) s).

Definition mg_ok (B : Type) (op : MgOp B) : Prop :=
  match op with OnShared f => forall s, mg_change s (f s).2 | OnTimers _ => True end.

Definition handler_ok (p : MgProg unit) : Prop := all_ops mg_ok p.

Lemma ok_read {A} (f : Shared -> A) : all_ops mg_ok (mg_read f).
Proof. apply all_ops_op. intros s. constructor. Qed.

Lemma ok_modify f : (forall s, mg_change s (f s)) -> all_ops mg_ok (mg_modify f).
Proof. intros Hf. by apply all_ops_op. Qed.

Lemma ok_timers {A} (f : Timers -> A * Timers) : all_ops mg_ok (do_op (OnTimers f)).
Proof. by apply all_ops_op. Qed.

Lemma ok_emit n : all_ops mg_ok (emit_ops n).
Proof. apply all_ops_bind; [apply ok_read|]. intros [nd|]; [|constructor]. apply ok_modify. constructor. Qed.

Lemma ok_persist n : all_ops mg_ok (persist_ops n).
Proof. apply all_ops_bind; [apply ok_read|]. intros [rec|]; [|constructor]. apply ok_modify. constructor. Qed.

Lemma ok_available n a : all_ops mg_ok (availability_ops n a).
Proof.
  apply all_ops_bind; [|intros [[]|]; [apply ok_emit | constructor ..]]. apply all_ops_op. intros s.
  pose proof (mc_available s n a) as Hc. by destruct (Registry.set_available n a (sh_registry s)).
Qed.

Lemma ok_changes n changes : all_ops mg_ok (changes_ops n changes).
Proof.
  induction changes as [|[path value] changes IH]; [constructor|]. cbn [changes_ops].
  do 2 (apply all_ops_bind; [apply ok_modify; constructor | intros _]). exact IH.
Qed.

Lemma event_ops_ok ev : handler_ok (event_ops ev).
Proof.
  apply all_ops_bind; [apply ok_read|]. intros []; [|constructor]. destruct ev as [n [i|]|n attrs|n changes|n e]; cbn [known_ops state_ops].
  - apply all_ops_bind; [apply ok_timers | intros _; apply ok_available].
  - apply all_ops_bind; [apply ok_read | intros available; apply ok_timers].
  - apply all_ops_bind; [apply ok_modify; constructor|]. intros _. apply all_ops_bind; [apply ok_persist | intros _; apply ok_emit].
  - apply all_ops_bind; [apply ok_changes | intros _; apply ok_persist].
  - apply all_ops_bind; [apply ok_modify; constructor | intros _; apply ok_modify; constructor].
Qed.

Lemma expiry_ops_ok n : handler_ok (expiry_ops n).
Proof. apply all_ops_bind; [apply ok_timers|]. intros []; [apply ok_available | constructor]. Qed.
End ops.
