(* ===== verification/Controller.v ===== *)
(** * The controller's state and its shared operations

    [crates/controller/src/real.rs] ([MatterController] up to the dispatch),
    [api.rs], [lock.rs] and the argument helpers of [commands/mod.rs].

    A handler is a program over the operations below: a critical section on the
    controller's own data ([Atom], one [std::sync::Mutex] guard or one piece of
    code without an await), the two asynchronous locks, and the awaited calls
    (the stack, a ping process).  Other tasks can run between any two of them. *)

From S2P Require Import Prelude Json Wire Prog Fs Storage Registry StackApi NodeManager.

(** ** api.rs *)

Abbreviation ConnId := Z (only parsing).

Record CommandError : Type := { ce_code : ServerErrorCode; ce_details : string }.

(** A handler answers a value or a [CommandError], or panics. *)
Inductive Failure : Type :=
| Failed (e : CommandError)
| Panicked.

Abbreviation CommandResult := (Result Value Failure).

Definition err (code : ServerErrorCode) (msg : string) : Failure := Failed {| ce_code := code; ce_details := msg |}.
Definition invalid (msg : string) : Failure := err InvalidArguments msg.

(** ** commands/mod.rs *)

Definition narrow (bits : Z) (value : Z) (what : string) : Result Z Failure :=
  ok_or (try_from_u bits value) (invalid (what +:+ " out of range: " +:+ show value)).

Definition missing (key : string) : Failure := invalid ("missing or invalid required argument: " +:+ key).

Definition require_u64 (args : Map) (key : string) : Result Z Failure :=
  ok_or (and_then (bt_get args key) as_u64) (missing key).

Definition opt_u64 (args : Map) (key : string) : option Z := and_then (bt_get args key) as_u64.

Definition opt_u64_strict `{SerdeJson} (args : Map) (key : string) : Result (option Z) Failure :=
  match bt_get args key with
  | None | Some VNull => Ok None
  | Some v =>
      ok_or (Some <$> as_u64 v) (invalid ("invalid value for " +:+ key +:+ ": " +:+ json_to_string v))
  end.

Definition opt_bool (args : Map) (key : string) : option bool := and_then (bt_get args key) as_bool.
Definition opt_str (args : Map) (key : string) : option string := and_then (bt_get args key) as_str.
Definition require_str (args : Map) (key : string) : Result string Failure := ok_or (opt_str args key) (missing key).

Definition stack_err_code (default_code : ServerErrorCode) (k : StackErrorKind) : ServerErrorCode :=
  match k with
  | StackInvalidArguments => InvalidArguments
  | NodeUnreachable => NodeNotResolving
  | Busy | Timeout | Sdk => default_code
  end.

Definition stack_err (default_code : ServerErrorCode) (e : StackError) : CommandError :=
  {| ce_code := stack_err_code default_code (se_kind e); ce_details := se_message e |}.

Definition stack_failure (default_code : ServerErrorCode) (e : StackError) : Failure :=
  Failed (stack_err default_code e).

(** ** The controller *)

Class LogLevels (L : Type) : Type := {
  log_get : L -> string * option string;
  log_set : option string -> option string -> L -> L;
}.

(** What never changes after construction. *)
Record Ctrl : Type := {
  c_storage : Storage;
  c_identity : ServerIdentity;
  c_fabric_index : Z;
  c_sdk_version : string;
  c_label_locked : bool;
}.

Inductive LockName : Type := ConfigWrite | AllocLock.
#[export] Instance LockName_eq_dec : EqDecision LockName.
Proof. solve_decision. Defined.

Record World (S L : Type) : Type := {
  w_shared : Shared;                 (* registry, files, events, history *)
  w_config : ConfigData;
  w_label_owner : option ConnId;
  w_log : L;
  w_stack : S;
  w_held : list LockName;            (* the asynchronous locks taken *)
}.
Arguments w_shared {S L}. Arguments w_config {S L}. Arguments w_label_owner {S L}.
Arguments w_log {S L}. Arguments w_stack {S L}. Arguments w_held {S L}.

Section world.
Context {S L : Type}.
Definition with_shared (sh : Shared) (w : World S L) : World S L :=
  {| w_shared := sh; w_config := w_config w; w_label_owner := w_label_owner w; w_log := w_log w;
     w_stack := w_stack w; w_held := w_held w |}.
Definition with_config (c : ConfigData) (w : World S L) : World S L :=
  {| w_shared := w_shared w; w_config := c; w_label_owner := w_label_owner w; w_log := w_log w;
     w_stack := w_stack w; w_held := w_held w |}.
Definition with_owner (o : option ConnId) (w : World S L) : World S L :=
  {| w_shared := w_shared w; w_config := w_config w; w_label_owner := o; w_log := w_log w;
     w_stack := w_stack w; w_held := w_held w |}.
Definition with_log (l : L) (w : World S L) : World S L :=
  {| w_shared := w_shared w; w_config := w_config w; w_label_owner := w_label_owner w; w_log := l;
     w_stack := w_stack w; w_held := w_held w |}.
Definition with_stack (s : S) (w : World S L) : World S L :=
  {| w_shared := w_shared w; w_config := w_config w; w_label_owner := w_label_owner w; w_log := w_log w;
     w_stack := s; w_held := w_held w |}.
Definition with_held (h : list LockName) (w : World S L) : World S L :=
  {| w_shared := w_shared w; w_config := w_config w; w_label_owner := w_label_owner w; w_log := w_log w;
     w_stack := w_stack w; w_held := h |}.
Definition on_shared (f : Shared -> Shared) (w : World S L) : World S L := with_shared (f (w_shared w)) w.
Definition w_registry (w : World S L) : Registry := sh_registry (w_shared w).
End world.

(** [ping] as the operating system runs it: the exit status of a command line. *)
Class Processes : Type := { run_status : list string -> bool }.

(** The operations of a handler. *)
Inductive COp (S L : Type) : Type -> Type :=
| Atom {B : Type} (f : World S L -> B * World S L) : COp S L B
| Acquire (l : LockName) : COp S L unit
| Release (l : LockName) : COp S L unit
| CallStack {B : Type} (op : StackOp B) : COp S L B
| Command (argv : list string) : COp S L bool.
Arguments Atom {S L B} f. Arguments Acquire {S L} l. Arguments Release {S L} l.
Arguments CallStack {S L B} op. Arguments Command {S L} argv.

Section controller.
Context {S L : Type} `{SerdeJson} `{NodeDate} `{Processes} `{!Stack S} `{!LogLevels L}.

Abbreviation CProg A := (Prog (COp S L) A).

(** One task running alone: a lock is free when it is acquired. *)
Definition ctrl_step (B : Type) (op : COp S L B) (w : World S L) : B * World S L :=
  match op with
  | Atom f => f w
  | Acquire l => (tt, with_held (l :: w_held w) w)
  | Release l => (tt, with_held (List.remove (fun a b => decide (a = b)) l (w_held w)) w)
  | CallStack op => let '(b, s) := stack_call _ op (w_stack w) in (b, with_stack s w)
  | Command argv => (run_status argv, w)
  end.

Definition run_ctrl {A} (p : CProg A) (w : World S L) : A * World S L := run ctrl_step p w.

Definition read_world {A} (f : World S L -> A) : CProg A := do_op (Atom (fun w => (f w, w))).
Definition modify_world (f : World S L -> World S L) : CProg unit := do_op (Atom (fun w => (tt, f w))).
Definition stack {B} (op : StackOp B) : CProg B := do_op (CallStack op).
Definition emit (event : string) (data : Value) : CProg unit :=
  modify_world (on_shared (send_event event data)).

Definition new (c : Ctrl) (fs : FS) (now : Z) (log : L) (st : S) : World S L :=
  let '(records, fs) := run_io (load_nodes (c_storage c)) fs in
  let '(config, fs) := run_io (load_config (c_storage c)) fs in
  {| w_shared := {| sh_registry := Registry.new records; sh_fs := fs; sh_events := []; sh_history := []; sh_now := now |};
     w_config := config; w_label_owner := None; w_log := log; w_stack := st; w_held := [] |}.

(** The task [new] spawns: a supervisor for every known node. *)
Definition start_supervisors : CProg unit :=
  do! ids := read_world (fun w => Registry.node_ids (w_registry w)) in
  prog_for ids (fun node_id => stack (StartSupervisor node_id)).

Definition config_snapshot : CProg ConfigData := read_world w_config.

(** The closure may read the registry (node-id allocation does); it is one
    step here. *)
Definition update_config {R} (c : Ctrl) (f : World S L -> ConfigData -> R * ConfigData) :
    CProg (R * Result unit IoError) :=
  do! _ := do_op (Acquire ConfigWrite) in
  do! cfg := config_snapshot in
  do! applied := read_world (fun w => f w cfg) in
  let result := applied.1 in
  let cfg := applied.2 in
  do! persisted := do_op (Atom (fun w =>
    let '(r, fs) := run_io (save_config (c_storage c) cfg) (sh_fs (w_shared w)) in
    (r, on_shared (set_fs fs) w))) in
  do! _ := modify_world (with_config cfg) in
  do! _ := do_op (Release ConfigWrite) in
  Ret (result, persisted).

Definition node_not_exists (node_id : Z) : Failure :=
  err NodeNotExists ("Node " +:+ show node_id +:+ " does not exist").

Definition ensure_node (node_id : Z) : CProg (Result unit Failure) :=
  do! known := read_world (fun w => Registry.contains (w_registry w) node_id) in
  Ret (if (known : bool) then Ok tt else Err (node_not_exists node_id)).

Definition server_info (c : Ctrl) (cfg : ConfigData) : ServerInfoMessage :=
  let wifi := match bt_get (cfg_wifi_credentials cfg) "default" with
              | Some cr => if str_is_empty (wc_password cr) then None else Some cr
              | None => None
              end in
  {| si_fabric_id := id_fabric_id (c_identity c);
     si_compressed_fabric_id := id_compressed_fabric_id (c_identity c);
     si_fabric_index := Some (c_fabric_index c);
     si_schema_version := SCHEMA_VERSION;
     si_min_supported_schema_version := MIN_SUPPORTED_SCHEMA_VERSION;
     si_sdk_version := c_sdk_version c;
     si_wifi_credentials_set := bool_decide (is_Some wifi);
     si_wifi_ssid := wc_ssid <$> wifi;
     si_thread_credentials_set := bt_contains (cfg_thread_datasets cfg) "default";
     si_bluetooth_enabled := false;
     si_ble_proxy_enabled := Some false;
     si_controller_node_id := Some (id_controller_node_id (c_identity c)) |}.

Definition build_server_info (c : Ctrl) : CProg ServerInfoMessage :=
  do! cfg := config_snapshot in Ret (server_info c cfg).

Definition broadcast_server_info_updated (c : Ctrl) : CProg unit :=
  do! info := build_server_info c in emit "server_info_updated" (server_info_value info).

(** ** Node-record effects shared by the handlers *)

Definition persist_record (c : Ctrl) (rec : NodeRecord) : CProg (Result unit IoError) :=
  do_op (Atom (fun w =>
    let '(r, fs) := run_io (save_node (c_storage c) rec) (sh_fs (w_shared w)) in
    (r, on_shared (set_fs fs) w))).

Definition snapshot_record (node_id : Z) : CProg (option NodeRecord) :=
  read_world (fun w => Registry.snapshot_record (w_registry w) node_id).

Definition get_node_data (node_id : Z) : CProg (option MatterNodeData) :=
  read_world (fun w => node_data (w_registry w) node_id).
End controller.

(** ** Running a task alone *)

Section facts.
Context {S L : Type} `{SerdeJson} `{NodeDate} `{Processes} `{!Stack S} `{!LogLevels L}.
Abbreviation CProg A := (Prog (COp S L) A).

Lemma run_ctrl_bind {A B} (p : CProg A) (f : A -> CProg B) w :
  run_ctrl (prog_bind p f) w = let '(a, w) := run_ctrl p w in run_ctrl (f a) w.
Proof. apply run_bind. Qed.

Lemma run_ctrl_try {A B E} (p : CProg (Result A E)) (f : A -> CProg (Result B E)) w :
  run_ctrl (try_bind p f) w = match run_ctrl p w with (Ok a, w) => run_ctrl (f a) w | (Err e, w) => (Err e, w) end.
Proof. apply run_try. Qed.

Lemma run_ctrl_ret {A} (a : A) (w : World S L) : run_ctrl (Ret a : CProg A) w = (a, w).
Proof. done. Qed.

Lemma run_ctrl_lift {A E} (r : Result A E) (w : World S L) :
  run_ctrl (lift_result r : CProg (Result A E)) w = (r, w).
Proof. done. Qed.

Lemma run_read_world {A} (f : World S L -> A) w : run_ctrl (read_world f) w = (f w, w).
Proof. done. Qed.

Lemma run_modify_world (f : World S L -> World S L) w : run_ctrl (modify_world f) w = (tt, f w).
Proof. done. Qed.

Lemma run_stack {B} (op : StackOp B) (w : World S L) :
  run_ctrl (stack op) w = ((stack_call _ op (w_stack w)).1, with_stack (stack_call _ op (w_stack w)).2 w).
Proof. unfold run_ctrl, stack, do_op. simpl. by destruct (stack_call B op (w_stack w)). Qed.

Lemma run_atom {B} (f : World S L -> B * World S L) w : run_ctrl (do_op (Atom f)) w = f w.
Proof. unfold run_ctrl, do_op. simpl. by destruct (f w). Qed.

Lemma run_emit event data (w : World S L) :
  run_ctrl (emit event data) w = (tt, on_shared (send_event event data) w).
Proof. done. Qed.

Lemma run_ensure_node n (w : World S L) :
  run_ctrl (ensure_node n) w = (if Registry.contains (w_registry w) n then Ok tt else Err (node_not_exists n), w).
Proof. unfold ensure_node. by rewrite run_ctrl_bind. Qed.

Lemma remove_held l (h : list LockName) :
  l ∉ h -> List.remove (fun a b => decide (a = b)) l (l :: h) = h.
Proof.
  intros Hl. simpl. case_decide; [|done]. apply notin_remove. by rewrite <- list_elem_of_In.
Qed.

(** The whole read-modify-write, when nothing else runs. *)
Lemma run_update_config {R} c (f : World S L -> ConfigData -> R * ConfigData) w :
  ConfigWrite ∉ w_held w ->
  run_ctrl (update_config c f) w =
  let '(x, cfg) := f (with_held (ConfigWrite :: w_held w) w) (w_config w) in
  let '(r, fs) := run_io (save_config (c_storage c) cfg) (sh_fs (w_shared w)) in
  ((x, r), with_config cfg (on_shared (set_fs fs) w)).
Proof.
  intros Hl. unfold run_ctrl, update_config, config_snapshot, read_world, modify_world, do_op. simpl.
  destruct (f _ (w_config w)) as [x cfg]. simpl.
  destruct (run_io (save_config (c_storage c) cfg) (sh_fs (w_shared w))) as [r fs]. simpl.
  f_equal. destruct w as [sh cf ow lg st held]. simpl in *.
  pose proof (remove_held ConfigWrite held Hl) as E. simpl in E. unfold with_config, on_shared, with_held, with_shared. simpl.
  by rewrite E.
Qed.

(** ** Locks

    A task must release what it acquires, and acquire in this order. *)
Definition lock_rank (l : LockName) : nat := match l with AllocLock => 0 | ConfigWrite => 1 end.

Definition remove_lock : LockName -> list LockName -> list LockName := List.remove (fun a b => decide (a = b)).

(** The locks a task that holds [h] holds after an operation, and what the
    operation needs. *)
Definition held_after {B} (op : COp S L B) (h : list LockName) : list LockName :=
  match op with Acquire l => l :: h | Release l => remove_lock l h | Atom _ | CallStack _ | Command _ => h end.

Definition op_ok {B} (op : COp S L B) (h : list LockName) : Prop :=
  match op with
  | Atom f => forall w, w_held (f w).2 = w_held w
  | Acquire l => forall l', l' ∈ h -> (lock_rank l' < lock_rank l)%nat
  | Release l => l ∈ h
  | CallStack _ | Command _ => True
  end.

(** Started holding [h], the program is disciplined and ends holding [h']. *)
Fixpoint disciplined (h h' : list LockName) {A} (p : CProg A) : Prop :=
  match p with
  | Ret _ => h = h'
  | Do op k => op_ok op h /\ forall b, disciplined (held_after op h) h' (k b)
  end.

Definition keeps (h : list LockName) {A} (p : CProg A) : Prop := disciplined h h p.

Lemma disciplined_bind h1 h2 h3 {A B} (p : CProg A) (f : A -> CProg B) :
  disciplined h1 h2 p -> (forall a, disciplined h2 h3 (f a)) -> disciplined h1 h3 (prog_bind p f).
Proof.
  revert h1. induction p as [a|X op k IH]; intros h1; simpl; [by intros ->|].
  intros [Hop Hk] Hf. split; [done|]. intros b. by apply IH.
Qed.

(** Running alone, a disciplined program leaves exactly the locks it says. *)
Lemma disciplined_run h h' {A} (p : CProg A) w :
  disciplined h h' p -> w_held w = h -> w_held (run_ctrl p w).2 = h'.
Proof.
  unfold run_ctrl. revert h w. induction p as [a|X op k IH]; intros h w; simpl; [by intros -> ->|].
  intros [Hop Hk] Hw. destruct (ctrl_step X op w) as [b w'] eqn:E. apply (IH b (held_after op h)); [done|]. rewrite <- Hw.
  clear IH Hk Hw. destruct op as [X f|l|l|X op|argv]; simpl in *.
  - specialize (Hop w). rewrite E in Hop. exact Hop.
  - by injection E as _ <-.
  - by injection E as _ <-.
  - destruct (stack_call X op (w_stack w)). by injection E as _ <-.
  - by injection E as _ <-.
Qed.

Lemma keeps_ret h {A} (a : A) : keeps h (Ret a).
Proof. done. Qed.
Lemma keeps_lift h {A E} (r : Result A E) : keeps h (lift_result r).
Proof. done. Qed.
Lemma keeps_bind h {A B} (p : CProg A) (f : A -> CProg B) :
  keeps h p -> (forall a, keeps h (f a)) -> keeps h (prog_bind p f).
Proof. apply disciplined_bind. Qed.
Lemma keeps_try h {A B E} (p : CProg (Result A E)) (f : A -> CProg (Result B E)) :
  keeps h p -> (forall a, keeps h (f a)) -> keeps h (try_bind p f).
Proof. intros Hp Hf. apply keeps_bind; [done|]. intros []; [apply Hf | apply keeps_ret]. Qed.
Lemma keeps_atom h {B} (f : World S L -> B * World S L) :
  (forall w, w_held (f w).2 = w_held w) -> keeps h (do_op (Atom f)).
Proof. done. Qed.
Lemma keeps_read h {A} (f : World S L -> A) : keeps h (read_world f).
Proof. done. Qed.
Lemma keeps_modify h (f : World S L -> World S L) : (forall w, w_held (f w) = w_held w) -> keeps h (modify_world f).
Proof. intros Hf. by apply keeps_atom. Qed.
Lemma keeps_stack h {B} (op : StackOp B) : keeps h (stack op).
Proof. done. Qed.
Lemma keeps_command h argv : keeps h (do_op (Command argv)).
Proof. done. Qed.
Lemma keeps_emit h event data : keeps h (emit event data).
Proof. by apply keeps_modify. Qed.
Lemma keeps_ensure h n : keeps h (ensure_node n).
Proof. apply keeps_bind; [apply keeps_read | intros; apply keeps_ret]. Qed.
Lemma keeps_snapshot h n : keeps h (snapshot_record n).
Proof. apply keeps_read. Qed.
Lemma keeps_node_data h n : keeps h (get_node_data n).
Proof. apply keeps_read. Qed.
Lemma keeps_persist h c rec : keeps h (persist_record c rec).
Proof. apply keeps_atom. intros w. by destruct (run_io (save_node (c_storage c) rec) (sh_fs (w_shared w))). Qed.
Lemma keeps_server_info h c : keeps h (build_server_info c).
Proof. apply keeps_bind; [apply keeps_read | intros; apply keeps_ret]. Qed.
Lemma keeps_broadcast h c : keeps h (broadcast_server_info_updated c).
Proof. apply keeps_bind; [apply keeps_server_info | intros; apply keeps_emit]. Qed.

(** A lock taken and released around a program. *)
Lemma keeps_locked h l {A B} (p : CProg A) (k : A -> CProg B) :
  (forall l', l' ∈ h -> (lock_rank l' < lock_rank l)%nat) -> keeps (l :: h) p -> (forall a, keeps h (k a)) ->
  keeps h (prog_bind (do_op (Acquire l)) (fun _ => prog_bind p (fun a => prog_bind (do_op (Release l)) (fun _ => k a)))).
Proof.
  intros Hl Hp Hk. split; [done|]. intros []. cbn. apply (disciplined_bind _ (l :: h)); [done|]. intros a.
  cbn [prog_bind do_op disciplined held_after op_ok]. split; [by left|]. intros []. unfold remove_lock. rewrite remove_held; [apply Hk|].
  intros Hin%Hl. lia.
Qed.

Lemma keeps_update h {R} c (f : World S L -> ConfigData -> R * ConfigData) :
  ConfigWrite ∉ h -> keeps h (update_config c f).
Proof.
  intros Hh. split; [intros l' Hin; destruct l'; simpl; [by destruct Hh | lia]|]. intros ?.
  do 2 (split; [done|]; intros ?).
  split; [intros w; by destruct (run_io (save_config _ _) (sh_fs (w_shared w)))|]. intros persisted. split; [done|]. intros ?.
  split; [by left|]. intros ?. cbn [held_after]. unfold remove_lock. by rewrite remove_held.
Qed.
End facts.

Create HintDb keeps.
#[export] Hint Constants Opaque : keeps.
#[export] Hint Resolve keeps_ret keeps_lift keeps_read keeps_modify keeps_stack keeps_command
  keeps_emit keeps_ensure keeps_snapshot keeps_node_data keeps_persist keeps_server_info keeps_broadcast : keeps.

(** Evaluate a handler run up to its next choice. *)
Ltac ctrl_run :=
  repeat first
    [ rewrite run_ctrl_try | rewrite run_ctrl_bind | rewrite run_ctrl_lift | rewrite run_ctrl_ret
    | rewrite run_read_world | rewrite run_modify_world | rewrite run_stack | rewrite run_ensure_node
    | rewrite run_emit ].

(** Prove [keeps] by following the program. *)
Ltac keeps_step :=
  lazymatch goal with
  | |- keeps _ (prog_bind _ _) => apply keeps_bind
  | |- keeps _ (try_bind _ _) => apply keeps_try
  | |- keeps _ (update_config _ _) => apply keeps_update; set_solver
  | |- keeps _ (do_op (Atom _)) => apply keeps_atom; intros; repeat case_match; done
  | |- keeps _ (match ?x with _ => _ end) => destruct x
  | |- keeps _ _ => solve [eauto 3 with keeps]
  end.
Ltac keeps_auto := repeat (intros; cbv beta zeta; keeps_step).
