(* ===== verification/Vendors.v ===== *)
(** * Vendor names

    [crates/controller/src/vendors.rs]: the static vendor table and its lookup.
    The table is the source's, entry for entry. *)

From S2P Require Import Prelude.

Definition VENDORS : list (Z * string) := [
  (0, "[Matter Standard]");
  (1, "Panasonic");
  (2, "Sony");
  (3, "Samsung");
  (4, "Philips (RF4CE)");
  (5, "Freescale (RF4CE)");
  (6, "Oki Semiconductors (RF4CE)");
  (7, "Texas Instruments");
  (411, "Pioneer Corp");
  (4096, "Cirronet");
  (4097, "Chipcon");
  (4098, "Ember");
  (4099, "NTS");
  (4100, "Freescale");
  (4101, "IP Com");
  (4102, "San Juan Software");
  (4103, "TUV");
  (4104, "Integration");
  (4105, "BM SpA");
  (4106, "AwarePoint");
  (4107, "Signify Netherlands B.V.");
  (4108, "Luxoft");
  (4109, "Korwin");
  (4110, "One RF Technology");
  (4111, "Software Technologies Group");
  (4112, "Telegesis");
  (4113, "Visonic");
  (4114, "Insta");
  (4115, "Atalum");
  (4116, "Microchip Technology");
  (4117, "Develco");
  (4118, "Honeywell");
  (4119, "RadioPulse");
  (4120, "Renesas");
  (4121, "Xanadu Wireless");
  (4122, "NEC Engineering");
  (4123, "Yamatake Corporation");
  (4124, "Tendril Networks");
  (4125, "Fortune Brands Innovations, Inc.");
  (4126, "MaxStream");
  (4127, "Neurocom");
  (4128, "Institute for Information Industry");
  (4129, "Legrand Group");
  (4130, "iControl");
  (4131, "Raymarine");
  (4132, "LS Research");
  (4133, "Onity Inc.");
  (4134, "Mono Products");
  (4135, "RF Technologies");
  (4136, "Itron");
  (4137, "Tritech");
  (4138, "Embedit A/S");
  (4139, "S3C");
  (4140, "Siemens");
  (4141, "Mindtech");
  (4142, "LG Electronics");
  (4143, "Mitsubishi Electric Corporation");
  (4144, "Johnson Controls, Inc.");
  (4145, "Secure Meters (UK) Ltd");
  (4146, "Knick");
  (4147, "Viconics");
  (4148, "Flexipanel");
  (4149, "Piasim Corporation Pte., Ltd.");
  (4150, "Trane");
  (4151, "NXP Semiconductors");
  (4152, "Living Independently Group");
  (4153, "AlertMe.com");
  (4154, "Daintree");
  (4155, "Aiji System");
  (4156, "Telecom Italia");
  (4157, "Mikrokrets AS");
  (4158, "Oki Semiconductor");
  (4159, "Newport Electonics");
  (4160, "Control 4");
  (4161, "STMicroelectronics");
  (4162, "Ad-Sol Nissin Corp");
  (4163, "DCSI");
  (4164, "France Telecom");
  (4165, "muNet");
  (4166, "Autani Corporation");
  (4167, "Colorado vNet");
  (4168, "Aerocomm, Inc.");
  (4169, "Silicon Laboratories");
  (4170, "Inncom International Inc.");
  (4171, "Cooper Power Systems");
  (4172, "Synapse");
  (4173, "Fisher Pierce/Sunrise");
  (4174, "CentraLite Systems, Inc.");
  (4175, "Crane Wireless Monitoring Solutions");
  (4176, "Mobilarm Limited");
  (4177, "iMonitor Research Ltd.");
  (4178, "Bartech");
  (4179, "MeshNetics");
  (4180, "LS Industrial Systems Co. Ltd.");
  (4181, "Cason Engineering plc");
  (4182, "Wireless Glue Networks Inc.");
  (4183, "Elster");
  (4184, "SMS Tecnologia Eletronica");
  (4185, "Onset Computer Corporation");
  (4186, "Riga Development");
  (4187, "Energate");
  (4188, "ConMed Linvatec");
  (4189, "PowerMand");
  (4190, "Schneider Electric");
  (4191, "Eaton Corporation");
  (4192, "Telular Corporation");
  (4193, "Delphi Medical Systems");
  (4194, "EpiSensor Limited");
  (4195, "Landis+Gyr");
  (4196, "Kaba Group");
  (4197, "Shure Incorporated");
  (4198, "Comverge");
  (4199, "DBS Lodging Technologies");
  (4200, "Energy Aware Technology Inc.");
  (4201, "Hidalgo Limited");
  (4202, "Air2App");
  (4203, "AMX");
  (4204, "EDMI Pty Ltd");
  (4205, "Cyan Ltd");
  (4206, "System SPA");
  (4207, "Telit");
  (4208, "Kaga Electronics");
  (4209, "Astrel Group SRL");
  (4210, "Certicom");
  (4211, "Gridpoint");
  (4212, "Profile Systems LLC");
  (4213, "Compacta International Ltd");
  (4214, "Freestyle Technology Pty Ltd.");
  (4215, "Alektrona");
  (4216, "Computime");
  (4217, "Remote Technologies");
  (4218, "Wavecom S.A.");
  (4219, "Energy Optimizers Ltd.");
  (4220, "GE");
  (4221, "Jetlun");
  (4222, "Cipher Systems");
  (4223, "Corporate Systems Engineering");
  (4224, "ecobee");
  (4225, "SMK");
  (4226, "Meshworks Wireless Oy");
  (4227, "Ellips B.V.");
  (4228, "Secure electrans");
  (4229, "CEDO");
  (4230, "Toshiba");
  (4231, "Digi International");
  (4232, "Ubilogix");
  (4233, "Echelon");
  (4240, "Green Energy Options");
  (4241, "Silver Spring Networks");
  (4242, "Black & Decker");
  (4243, "Aztech Associates Inc.");
  (4244, "A&D Co.");
  (4245, "Rainforest Automation");
  (4246, "Carrier Electronics");
  (4247, "SyChip/Murata");
  (4248, "OpenPeak");
  (4249, "PassiveSystems");
  (4250, "MMB Research");
  (4251, "Leviton Manufacturing Company");
  (4252, "Korea Electric Power Data Network Co.");
  (4253, "Comcast");
  (4254, "NEC Electronics");
  (4255, "Netvox");
  (4256, "U-Control");
  (4257, "Embedia Technologies Corp");
  (4258, "Sensus");
  (4259, "Sunrise Technologies");
  (4260, "Memtech Corp");
  (4261, "Freebox");
  (4262, "M2 Labs Ltd.");
  (4263, "British Gas");
  (4264, "Sentec Ltd.");
  (4265, "Navetas");
  (4266, "Lightspeed Technologies");
  (4267, "Oki Electric Industry Co.");
  (4268, "S I - Sistemas Inteligentes Eletronicos Ltda");
  (4269, "Dometic");
  (4270, "Alps");
  (4271, "EnergyHub");
  (4272, "Kamstrup");
  (4273, "EchoStar");
  (4274, "EnerNOC");
  (4275, "Eltav");
  (4276, "Belkin");
  (4277, "XStreamHD - Wireless Ventures");
  (4278, "Saturn South Pty Ltd");
  (4279, "GreenTrapOnline A/S");
  (4280, "SmartSynch");
  (4281, "Nyce Control");
  (4282, "ICM Controls Corp");
  (4283, "Millennium Electronics");
  (4284, "Motorola");
  (4285, "Emerson White-Rodgers");
  (4286, "Radio Thermostat Company of America");
  (4287, "OMRON Corporation");
  (4288, "GiiNii Global Limited");
  (4289, "Fujitsu General Limited");
  (4290, "Peel Technologies");
  (4291, "Accent S.p.A.");
  (4292, "ByteSnap Design Ltd.");
  (4293, "NEC TOKIN Corporation");
  (4294, "G4S Justice Services");
  (4295, "Trilliant Networks");
  (4296, "Electrolux Italia S.p.A");
  (4297, "Onzo Ltd");
  (4298, "EnTek Systems");
  (4299, "Philips");
  (4300, "Mainstream Engineering");
  (4301, "Indesit Company");
  (4302, "THINKECO");
  (4303, "2D2C");
  (4304, "Qorvo");
  (4305, "InterCEL");
  (4306, "LG Electronics");
  (4307, "Mitsumi Electric Co.");
  (4308, "Mitsumi Electric Co.");
  (4309, "Zentrum Mikroelektronik Dresden AG (ZMDI)");
  (4310, "Nest Labs");
  (4311, "Exegin Technologies");
  (4312, "Honeywell");
  (4313, "Takahata Precision Co. Ltd.");
  (4314, "SUMITOMO ELECTRIC NETWORKS");
  (4315, "GE Energy");
  (4316, "GE Appliances");
  (4317, "Radiocrafts AS");
  (4318, "Ceiva");
  (4319, "TEC&CO Co.");
  (4320, "Chameleon Technology (UK) Ltd");
  (4321, "Samsung");
  (4322, "ruwido austria gmbh");
  (4323, "Huawei Technologies Co.");
  (4324, "Huawei Technologies Co.");
  (4325, "Greenwave Reality");
  (4326, "BGlobal Metering Ltd");
  (4327, "Mindteck");
  (4328, "Ingersoll-Rand");
  (4329, "Dius Computing Pty Ltd");
  (4330, "Embedded Automation");
  (4331, "ABB");
  (4332, "Sony");
  (4333, "Genus Power Infrastructures Limited");
  (4334, "Universal Electronics");
  (4335, "Universal Electronics");
  (4336, "Metrum Technologies");
  (4337, "Cisco");
  (4338, "Ubisys technologies GmbH");
  (4339, "Consert");
  (4340, "Crestron Electronics");
  (4341, "Enphase Energy");
  (4342, "Invensys Controls");
  (4343, "Mueller Systems");
  (4344, "AAC Technologies Holding");
  (4345, "U-NEXT Co.");
  (4346, "Steelcase Inc.");
  (4347, "Telematics Wireless");
  (4348, "Samil Power Co.");
  (4349, "Pace Plc");
  (4350, "Osborne Coinage Co.");
  (4351, "Powerwatch");
  (4352, "CANDELED GmbH");
  (4353, "FlexGrid S.R.L");
  (4354, "Humax");
  (4355, "Universal Devices");
  (4356, "Advanced Energy");
  (4357, "BEGA Gantenbrink-Leuchten");
  (4358, "Brunel University");
  (4359, "Panasonic R&D Center Singapore");
  (4360, "eSystems Research");
  (4361, "Panamax");
  (4362, "SmartThings");
  (4363, "EM-Lite Ltd.");
  (4364, "Osram Sylvania");
  (4365, "2 Save Energy Ltd.");
  (4366, "Planet Innovation Products Pty Ltd");
  (4367, "Ambient Devices");
  (4368, "Profalux");
  (4369, "Billion Electric Company (BEC)");
  (4370, "Embertec Pty Ltd");
  (4371, "IT Watchdogs");
  (4372, "Reloc");
  (4373, "Intel Corporation");
  (4374, "Trend Electronics Limited");
  (4375, "Moxa");
  (4376, "QEES");
  (4377, "SAYME Wireless Sensor Networks");
  (4378, "Pentair Aquatic Systems");
  (4379, "Orbit Irrigation");
  (4380, "California Eastern Laboratories");
  (4381, "Comcast");
  (4382, "IDT Technology Limited");
  (4383, "Pixela Corporation");
  (4384, "TiVo");
  (4385, "Fidure Corp.");
  (4386, "Marvell Semiconductor");
  (4387, "Wasion Group Limited");
  (4388, "Jasco Products Company");
  (4389, "Shenzhen Kaifa Technology (Chengdu) Co.");
  (4390, "Netcomm Wireless Limited");
  (4391, "Define Instruments Limited");
  (4392, "In Home Displays Ltd.");
  (4393, "Miele & Cie. KG");
  (4394, "Televes S.A.");
  (4395, "Labelec");
  (4396, "China Electronics Standardization Institute");
  (4397, "Vectorform");
  (4398, "Busch-Jaeger Elektro");
  (4399, "Redpine Signals");
  (4400, "Bridges Electronic Technology Pty Ltd.");
  (4401, "Sercomm");
  (4402, "WSH GmbH wirsindheller");
  (4403, "Bosch Security Systems");
  (4404, "eZEX Corporation");
  (4405, "Dresden Elektronik Ingenieurtechnik GmbH");
  (4406, "MEAZON S.A.");
  (4407, "Crow Electronic Engineering Ltd.");
  (4408, "Harvard Engineering Plc");
  (4409, "Andson(Beijing) Technology CO.");
  (4410, "Adhoco AG");
  (4411, "Waxman Consumer Products Group");
  (4412, "Owon Technology");
  (4413, "Hitron Technologies");
  (4414, "Scemtec Hard - und Software fur Mess - und Steuerungstechnik GmbH");
  (4415, "Webee LLC");
  (4416, "Grid2Home Inc");
  (4417, "Telink Micro");
  (4418, "Jasmine Systems");
  (4419, "Bidgely");
  (4420, "Lutron");
  (4421, "IJENKO");
  (4422, "Starfield Electronic Ltd.");
  (4423, "TCP");
  (4424, "Rogers Communications Partnership");
  (4425, "Cree");
  (4426, "Robert Bosch LLC");
  (4427, "Ibis Networks");
  (4428, "Quirky");
  (4429, "Efergy Technologies Limited");
  (4430, "SmartLabs");
  (4431, "Everspring Industry Co.");
  (4432, "Swann Communications Ptl Ltd.");
  (4433, "Soneter");
  (4434, "Samsung SDS");
  (4435, "Uniband Electronic Corporation");
  (4436, "Accton Technology Corporation");
  (4437, "Bosch Thermotechnik GmbH");
  (4438, "Wincor Nixdorf Inc.");
  (4439, "Ohsung Electronics");
  (4440, "Zen Within");
  (4441, "Tech4home");
  (4442, "Nanoleaf");
  (4443, "Keen Home");
  (4444, "Poly-Control APS");
  (4445, "Eastfield Lighting Co.");
  (4446, "IP Datatel");
  (4447, "Aqara Lumi United Technology Co. Ltd");
  (4448, "Sengled Co.");
  (4449, "Remote Solution Co.");
  (4450, "ABB Genway Xiamen Electrical Equipment Co.");
  (4451, "Zhejiang Rexense Tech");
  (4452, "ForEE Technology");
  (4453, "Open Access Technology Int'l.");
  (4454, "INNR Lighting BV");
  (4455, "Techworld Industries");
  (4456, "Leedarson Lighting Co.");
  (4457, "Arzel Zoning");
  (4458, "Holley Technology");
  (4459, "Beldon Technologies");
  (4460, "Flextronics");
  (4461, "Shenzhen Meian");
  (4462, "Lowe's");
  (4463, "Sigma Connectivity");
  (4465, "Wulian");
  (4466, "Plugwise B.V.");
  (4467, "Titan Products");
  (4468, "Ecospectral");
  (4469, "D-Link");
  (4470, "Technicolor Home USA");
  (4471, "Opple Lighting");
  (4472, "WNC Corporation");
  (4473, "QMotion Shades");
  (4474, "Insta GmbH");
  (4475, "Shanghai Vancount");
  (4476, "IKEA of Sweden");
  (4477, "RT-RK");
  (4478, "Shenzhen Feibit");
  (4479, "EuControls");
  (4480, "Telkonet");
  (4481, "Thermal Solution Resources");
  (4482, "PomCube");
  (4483, "Ei Electronics");
  (4484, "Optoga");
  (4485, "Stelpro");
  (4486, "Lynxus Technologies Corp.");
  (4487, "Semiconductor Components");
  (4488, "Big Field Global PTE. Ltd. (TP-Link)");
  (4489, "Ledvance GmbH");
  (4490, "Nortek");
  (4491, "iRevo/Assa Abbloy Korea");
  (4492, "Midea");
  (4493, "ZF Friedrichshafen");
  (4494, "Checkit");
  (4495, "Aclara");
  (4496, "Nokia");
  (4497, "Goldcard High-tech Co.");
  (4498, "George Wilson Industries Ltd.");
  (4499, "EASY SAVER CO.");
  (4500, "ZTE Corporation");
  (4501, "ARRIS");
  (4502, "Reliance BIG TV");
  (4503, "Insight Energy Ventures/Powerley");
  (4504, "Thomas Research Products (Hubbell Lighting Inc.)");
  (4505, "Li Seng Technology");
  (4506, "System Level Solutions Inc.");
  (4507, "Matrix Labs");
  (4508, "Sinope Technologies");
  (4509, "Jiuzhou Greeble");
  (4510, "Guangzhou Lanvee Tech. Co. Ltd.");
  (4511, "Venstar");
  (4608, "SLV");
  (4609, "Halo Smart Labs");
  (4610, "Scout Security Inc.");
  (4611, "Alibaba (China) Co.");
  (4612, "Resolution Products");
  (4613, "Smartlok Inc.");
  (4614, "EME Delaware Inc./Lux Products Corp.");
  (4615, "Vimar SpA");
  (4616, "Universal Lighting Technologies");
  (4617, "Robert Bosch");
  (4618, "Accenture");
  (4619, "Heiman Technology Co.");
  (4620, "Shenzhen HOMA Technology Co.");
  (4621, "Vision-Electronics Technology");
  (4622, "Lenovo");
  (4623, "Presciense R&D");
  (4624, "Shenzhen Seastar Intelligence Co.");
  (4625, "Sensative AB");
  (4626, "SolarEdge");
  (4627, "Zipato");
  (4628, "China Fire & Security Sensing Manufacturing (iHorn)");
  (4629, "Quby BV");
  (4630, "Hangzhou Roombanker Technology Co.");
  (4631, "Amazon Lab126");
  (4632, "Paulmann Licht GmbH");
  (4633, "Shenzhen Orvibo Electronics Co. Ltd.");
  (4634, "TCI Telecommunications");
  (4635, "Mueller-Licht International Inc.");
  (4636, "Aurora Limited");
  (4637, "SmartDCC");
  (4638, "Shanghai UMEinfo Co. Ltd.");
  (4639, "carbonTRACK");
  (4640, "Somfy");
  (4641, "Viessmann Elektronik GmbH");
  (4642, "Hildebrand Technology Ltd");
  (4643, "Onkyo Technology Corporation");
  (4644, "Shenzhen Sunricher Technology Ltd.");
  (4645, "Xiu Xiu Technology Co.");
  (4646, "Zumtobel Group");
  (4647, "Shenzhen Kaadas Intelligent Technology Co. Ltd");
  (4648, "Shanghai Xiaoyan Technology Co. Ltd");
  (4649, "Cypress Semiconductor");
  (4650, "XAL GmbH");
  (4651, "Inergy Systems LLC");
  (4652, "Alfred Karcher GmbH & Co KG");
  (4653, "Adurolight Manufacturing");
  (4654, "Groupe Muller");
  (4655, "V-Mark Enterprises Inc.");
  (4656, "Lead Energy AG");
  (4657, "Ultimate IOT (Henan) Technology Ltd.");
  (4658, "Axxess Industries Inc.");
  (4659, "Third Reality Inc.");
  (4660, "DSR Corporation");
  (4661, "Guangzhou Vensi Intelligent Technology Co. Ltd.");
  (4662, "Schlage Lock (Allegion)");
  (4663, "Net2Grid");
  (4664, "Airam Electric Oy Ab");
  (4665, "IMMAX WPB CZ");
  (4666, "ZIV Automation");
  (4667, "HangZhou iMagicTechnology Co.");
  (4668, "Xiamen Leelen Technology Co. Ltd.");
  (4669, "Overkiz SAS");
  (4670, "Flonidan A/S");
  (4671, "HDL Automation Co.");
  (4672, "Ardomus Networks Corporation");
  (4673, "Samjin Co.");
  (4674, "FireAngel Safety Technology plc");
  (4675, "Indra Sistemas");
  (4676, "Shenzhen JBT Smart Lighting Co.");
  (4677, "GE Lighting & Current");
  (4678, "Danfoss A/S");
  (4679, "NIVISS PHP Sp. z o.o. Sp.k.");
  (4680, "Shenzhen Fengliyuan Energy Conservating Technology Co. Ltd");
  (4681, "NEXELEC");
  (4682, "Sichuan Behome Prominent Technology Co.");
  (4683, "Fujian Star-net Communication Co.");
  (4684, "Toshiba Visual Solutions Corporation");
  (4685, "Latchable");
  (4686, "L&S Deutschland GmbH");
  (4687, "Gledopto Co.");
  (4688, "The Home Depot");
  (4689, "Neonlite Distribution Limited");
  (4690, "Arlo Technologies");
  (4691, "Xingluo Technology Co.");
  (4692, "Simon Electric (China) Co.");
  (4693, "Hangzhou Greatstar Industrial Co.");
  (4694, "Sequentric Energy Systems");
  (4695, "Solum Co.");
  (4696, "Eaglerise Electric & Electronic (China) Co.");
  (4697, "Fantem Technologies (Shenzhen) Co.");
  (4698, "Yunding Network Technology (Beijing) Co.");
  (4699, "Atlantic Group");
  (4700, "Xiamen Intretech");
  (4701, "Tuya Global Inc.");
  (4702, "Dnake (Xiamen) Intelligent Technology Co.");
  (4703, "Niko nv");
  (4704, "Emporia Energy");
  (4705, "Sikom AS");
  (4706, "AXIS Labs");
  (4707, "Current Products Corporation");
  (4708, "MeteRSit SRL");
  (4709, "HORNBACH Baumarkt AG");
  (4710, "DiCEworld s.r.l. a socio unico");
  (4711, "ARC Technology Co.");
  (4712, "Hangzhou Konke Information Technology Co.");
  (4713, "SALTO Systems S.L.");
  (4714, "Shenzhen Shyugj Technology Co.");
  (4715, "Brayden Automation Corporation");
  (4716, "Environexus Pty. Ltd.");
  (4717, "Eltra nv/sa");
  (4718, "Xiaomi Communications Co.");
  (4719, "Shanghai Shuncom Electronic Technology Co.");
  (4720, "Voltalis S.A");
  (4721, "FEELUX Co.");
  (4722, "SmartPlus Inc.");
  (4723, "Halemeier GmbH");
  (4724, "Trust International BV");
  (4725, "Duke Energy Business Services LLC");
  (4726, "Calix");
  (4727, "ADEO");
  (4728, "Connected Response Limited");
  (4729, "StroyEnergoKom");
  (4730, "Lumitech Lighting Solution GmbH");
  (4731, "Verdant Environmental Technologies");
  (4732, "Alfred International Inc.");
  (4733, "Sansi LED Lighting co.");
  (4734, "Mindtree Limited");
  (4735, "Nordic Semiconductor ASA");
  (4736, "Siterwell Electronics Co.");
  (4737, "Briloner Leuchten GmbH & Co. KG");
  (4738, "Shenzhen SEI Robotics Co.");
  (4739, "Copper Labs");
  (4740, "Delta Dore");
  (4741, "Hager Group");
  (4742, "Shenzhen CoolKit Technology Co.");
  (4743, "Hangzhou Sky-Lighting Co.");
  (4744, "E.ON SE");
  (4745, "Lidl Stiftung & Co. KG");
  (4746, "Sichuan Changhong Network Technologies Co.");
  (4747, "NodOn");
  (4748, "NanChang Innotech International Co.");
  (4749, "Mercator Pty Ltd");
  (4750, "Beijing Ruying Tech Limited");
  (4751, "EGLO Leuchten GmbH");
  (4752, "Pietro Fiorentini S.p.A");
  (4753, "Zehnder Group Vaux-Andigny");
  (4754, "BRK Brands");
  (4755, "Askey Computer Corp.");
  (4756, "PassiveBolt");
  (4757, "AVM Audiovisuelles Marketing und Computersysteme Berlin");
  (4758, "Ningbo Suntech Lighting Technology Co.");
  (4759, "Societe en Commandite Stello");
  (4760, "Vivint Smart Home");
  (4761, "Namron AS");
  (4762, "Delta Dore Rademacher GmbH");
  (4763, "OMO Systems LTD");
  (4764, "Siglis AG");
  (4765, "IMHOTEP CREATION");
  (4766, "icasa");
  (4767, "Assa Abloy AB");
  (4864, "TIS Control Limited");
  (4865, "Radisys India Pvt. Ltd.");
  (4866, "Veea Inc.");
  (4867, "FELL Technology AS");
  (4868, "Sowilo Design Services");
  (4869, "Lexi Devices");
  (4870, "Lifi Labs INC. dba LIFX");
  (4871, "GRUNDFOS Holding A/S");
  (4872, "SOURCING & CREATION");
  (4873, "Kraken Technologies Ltd");
  (4874, "EVE SYSTEMS");
  (4875, "LITE-ON TECHNOLOGY CORPORATION");
  (4876, "Evvr ApS (Focalcrest Limited)");
  (4877, "Bouffalo Lab (Nanjing) Co.");
  (4878, "Wyze Labs");
  (4879, "Z-Wave Europe GmbH");
  (4880, "AEOTEC LIMITED");
  (4881, "NGSTB Company Limited");
  (4882, "Qingdao Yeelink Information Technology Co.");
  (4883, "E-Smart Home Automation Systems Limited");
  (4884, "Fibar Group S.A.");
  (4885, "Prolitech GmbH");
  (4886, "Realtek Semiconductor");
  (4887, "Logitech");
  (4888, "Piaro");
  (4889, "Mitsubishi Electric US");
  (4890, "Resideo Technologies");
  (4891, "Espressif Systems (Shanghai) Co.");
  (4892, "HELLA Sonnen- und Wetterschutztechnik GmbH");
  (4893, "Geberit International AG");
  (4894, "CAME S.p.A.");
  (4895, "Longan Link Tech Co.");
  (4896, "Phyplus Microelectronics Limited");
  (4897, "Shenzhen Sonoff Technologies Co.");
  (4898, "Safe4 Security Group");
  (4899, "Shanghai MXCHIP Information Technology Co.");
  (4900, "HDC I-Controls");
  (4901, "Zuma Array Limited");
  (4902, "DECELECT");
  (4903, "Mill International AS");
  (4904, "HomeWizard BV");
  (4905, "Shenzhen Topband Co.");
  (4906, "Pressac Communications Ltd");
  (4907, "Origin Wireless");
  (4908, "Connecte AS");
  (4909, "YOKIS");
  (4910, "Xiamen Yankon Energetic Lighting Co.");
  (4911, "Yandex LLC");
  (4912, "Critical Software S.A.");
  (4913, "Nortek Control");
  (4914, "BrightAI");
  (4915, "Becker-Antriebe GmbH");
  (4916, "Shenzhen TCL New Technology Company Limited");
  (4917, "Dexatek Technology Ltd");
  (4918, "Elelabs International Limited");
  (4919, "Datek Wireless AS");
  (4920, "ALDES");
  (4921, "Savant Company");
  (4922, "Ariston Thermo Group");
  (4923, "WAREMA Renkhoff SE");
  (4924, "VTech Holdings Limited");
  (4925, "Futurehome AS");
  (4926, "Cognitive Systems Corp.");
  (4927, "ASR Microelectronics (Shenzhen) Co.");
  (4928, "Airios");
  (4929, "Guangdong OPPO Mobile Telecommunications Corp.");
  (4930, "Beken Corporation");
  (4931, "Corsair");
  (4932, "Eltako GmbH");
  (4933, "Chengdu Meross Technology Co.");
  (4934, "Rafael Microelectronics");
  (4935, "Aug. Winkhaus GmbH & Co. KG");
  (4936, "Qingdao Haier Technology Co.");
  (4937, "Apple Home");
  (4938, "Rollease Acmeda");
  (4939, "Open Home Foundation");
  (4940, "Simon Holding");
  (4941, "KD Navien");
  (4942, "tado GmbH");
  (4943, "Mediola Connected Living AG");
  (4944, "Polynhome");
  (4945, "HooRii Technology Co.");
  (4946, "Hafele SE & Co KG");
  (4947, "KIMIN Electronics Co.");
  (4948, "Zyax AB");
  (4949, "Baracoda SA");
  (4950, "Lennox International");
  (4951, "Teledatics Incorporated");
  (4952, "Top Victory Investments Limited");
  (4953, "GOQUAL Inc.");
  (4954, "Siegenia Aubi KG");
  (4955, "Virtual Connected Controlling System (Singapore) Pte. Ltd.");
  (4956, "Gigaset Communications GmbH");
  (4957, "Nuki Home Solutions GmbH");
  (4958, "Devicebook");
  (4959, "Consumer 2.0 Inc. (Rently)");
  (4960, "Edison Labs");
  (4961, "Inovelli");
  (4962, "Last Mile Semiconductor GmbH");
  (4963, "Charter Communications");
  (4964, "Monolithic Power Systems");
  (4965, "Ningbo Dooya Mechanic & Electronic Technology Co.");
  (4966, "Shenzhen SDMC Technology Co.");
  (4967, "HP Inc.");
  (4968, "mui Lab");
  (4969, "BHtronics S.r.l.");
  (4970, "Akuvox (Xiamen) Networks Co.");
  (4971, "nami");
  (4972, "Kee Tat Manufactory Holdings Limited");
  (4973, "Iton Technology Corp.");
  (4974, "Ambi Labs Limited");
  (4975, "Corporacion Empresarial Altra S.L.");
  (4976, "Coway Co.");
  (4977, "Tridonic GmbH & Co KG");
  (4978, "innovation matters iot GmbH");
  (4979, "MediaTek Inc.");
  (4980, "Fresco");
  (4981, "Hangzhou Yaguan Technology Co.");
  (4982, "Guardian Glass");
  (4983, "Night Owl SP");
  (4984, "Je Woo Corporation Ltd.");
  (4985, "Earda Technologies Co.");
  (4986, "Amazon Lab126 [Alexa Connect Kit (ACK)]");
  (4987, "Amazon Lab126 [Amazon Basics]");
  (4988, "Morse Micro Inc.");
  (4989, "Shanghai Xiaodu Technology Limited");
  (4990, "Nubert electronic GmbH");
  (4991, "Shenzhen NEO Electronics Co. Ltd.");
  (4992, "Grimsholm Products AB");
  (4993, "Amazon Lab126 [Amazon Prime Video]");
  (4994, "ION INDUSTRIES B.V.");
  (4995, "Ayla Networks");
  (4996, "Apple Home [Apple Keychain]");
  (4997, "Lightning Semiconductor");
  (4998, "Skylux NV");
  (4999, "Shenzhen Qianyan Technology Ltd.");
  (5000, "Infineon Technologies AG");
  (5001, "Shenzhen Jingxun Technology Co.");
  (5002, "Nature Inc.");
  (5003, "UltronSMART Inc.");
  (5004, "Hisense Group Co. Ltd.");
  (5005, "Nanjing Easthouse Electrical Co.");
  (5006, "Ledworks SRL");
  (5007, "Shina System Co.");
  (5008, "Qualcomm Technologies Inc.");
  (5009, "Big Field Global PTE. Ltd. [Kasa]");
  (5010, "Big Field Global PTE. Ltd. [Tapo]");
  (5011, "Shanghai High-Flying Electronics Technology Co.");
  (5012, "SigmaStar Technology Ltd.");
  (5013, "HOOBS Inc.");
  (5014, "AiDot Inc.");
  (5015, "Woan Technology (Shenzhen) Co.");
  (5016, "Meizu Technology Co.");
  (5017, "Yukai Engineering Inc.");
  (5018, "Qrio");
  (5019, "TIUS GmbH");
  (5020, "Zemismart Technology Limited");
  (5021, "LED Linear GmbH");
  (5022, "Dyson Technology Limited");
  (5023, "Razer Inc.");
  (5120, "Uascent Technology Company Limited");
  (5121, "Bose Corporation");
  (5122, "GOLDTek Technology Co.");
  (5123, "Arlec Australia Pty. Ltd.");
  (5124, "Shenzhen Phaten Technology Co.");
  (5125, "Ecovacs Robotics Co.");
  (5126, "Luxshare-ICT Co.");
  (5127, "Jiangshu Shushi Technology Co.");
  (5128, "Velux A/S");
  (5129, "Shenzhen Hidin Technology Co.");
  (5130, "Intertech Services AG");
  (5131, "70mai Co.");
  (5132, "Beijing ESWIN Computing Technology CO.");
  (5133, "Photon Sail Technologies Pte. Ltd.");
  (5134, "WiDom SRL");
  (5135, "Sagemcom SAS");
  (5136, "Quectel Wireless Solutions Co.");
  (5137, "Freedompro S.r.l.");
  (5138, "Disign Incorporated");
  (5139, "1Home Solutions GmbH");
  (5140, "StreamUnlimited Engineering GmbH");
  (5141, "Nanoleaf [Caveman]");
  (5142, "Nanoleaf [Umbra]");
  (5143, "Konnected Inc.");
  (5144, "Signify [KLite]");
  (5145, "Lorex Technology Inc.");
  (5146, "RATOC Systems");
  (5147, "Rang Dong Light Source & Vacuum Flask Joint Stock Company");
  (5148, "Shenzhen Sibo Zhilian Technology Co.");
  (5149, "Secuyou APS");
  (5150, "Arre home LLC.");
  (5151, "DUCTECH Co.");
  (5152, "EcoFlow Inc.");
  (5153, "Kwikset");
  (5154, "Zhuhai HiVi Technology Co.");
  (5155, "Feit Electric Company");
  (5156, "Alarm.com Incorporated");
  (5157, "Hangzhou BroadLink Technology Co.");
  (5158, "ELE (Group) Co.");
  (5159, "Hama GmbH & Co. KG");
  (5160, "Shenzhen Aimore .Co .");
  (5161, "Albrecht Jung GmbH & Co. KG");
  (5162, "Hitachi Global Life Solutions");
  (5163, "Beijing Renhejia Technology Co.");
  (5164, "vivo Mobile Communication Co.");
  (5165, "Zhongshan QIHANG Electronic Technology Co.");
  (5166, "Shenzhen Sowye Technology CO.");
  (5167, "Shenzhen QIACHIP Wireless E-commerce Co.");
  (5168, "L-TRADE GROUP SP z.o.o.");
  (5169, "Daikin Industries");
  (5170, "ELKO EP");
  (5171, "MOMAX Technology (Hong Kong) Limited");
  (5172, "Hangzhou Ezviz Network Co.");
  (5173, "Granite River Labs");
  (5174, "SinuxSoft Inc.");
  (5175, "ACCEL LAB Ltd.");
  (5176, "Xiamen Topstar Lighting Co.");
  (5177, "Vaillant Group");
  (5178, "YoSmart Inc.");
  (5179, "Amina Charging AS");
  (5180, "Athom B.V.");
  (5181, "Shenzhen Champon Technology Co.");
  (5182, "Acer Inc.");
  (5183, "Vestel Elektronik Sanayi ve Ticaret A.S.");
  (5184, "VerLuce");
  (5185, "Shenzhen Snowball Technology Co.");
  (5186, "REHAU Group");
  (5187, "GoodsiQ");
  (5188, "Last lock Inc.");
  (5189, "Finesse Decor");
  (5190, "Take As Global");
  (5191, "Honor Device Co.");
  (5192, "LivingStyle Enterprises Limited");
  (5193, "ZUTTO TECHNOLOGIES");
  (5194, "Sensibo Ltd.");
  (5195, "Kohler Company");
  (5196, "TrustAsia Technologies");
  (5197, "Atios AG");
  (5198, "Sense Labs");
  (5199, "Assa Abloy AB");
  (5200, "GM Global Technology Operations LLC");
  (5201, "JetHome");
  (5202, "Big Ass Fans");
  (5203, "Gumax BV");
  (5204, "Yardi Systems Inc.");
  (5205, "Deutsche Telekom AG");
  (5206, "Sensirion AG");
  (5207, "Hangzhou Wistar Mechanical & Electric Technology Co.");
  (5208, "Wilhelm Koch GmbH");
  (5209, "Shenzhen iComm Semiconductor Co.");
  (5210, "British Telecommunications plc");
  (5211, "Remotec Technology Ltd.");
  (5212, "Pin Genie");
  (5213, "Hosiden Corporation");
  (5214, "Deako");
  (5215, "Good Way Technology Co.");
  (5216, "Zhuhai Ruran Intelligent Technology Co.");
  (5217, "Xinda Asset Management (Shenzhen) Co.");
  (5218, "Chengdu Energy Magic Cube Technology Co.");
  (5219, "Eberle Controls GmbH");
  (5220, "Opulinks Technology");
  (5221, "Hunter Douglas Group");
  (5222, "Hangzhou Hemos Lighting Company Limited");
  (5223, "OTODO SAS");
  (5224, "Anona Security Technology Limited");
  (5225, "Loxone Electronics GmbH");
  (5226, "Intecular LLC");
  (5227, "Aixlink Ltd.");
  (5228, "Shenzhen Jinjie Technology Co.");
  (5229, "Polyaire Pty Ltd");
  (5230, "Shenzhen PINXUAN Trading Co.");
  (5231, "SmartWing Home LLC");
  (5232, "Shenzhen Hope Microelectronics Co.");
  (5233, "Commax");
  (5234, "Zhejiang Jiecang Linear Motion Technology Co.");
  (5235, "Shenzhen Lelight technology Co.lt");
  (5236, "Shenzhen Ruomu Zhilian Technology Co.");
  (5237, "Cable Television Laboratories");
  (5238, "Harman International");
  (5239, "Shenzhen Multi IR Technology Co.");
  (5240, "APYNOV");
  (5241, "Browan Communications Inc.");
  (5242, "Shenzhen Realwe Innovation Technology Co.");
  (5243, "Lumiflow INC");
  (5244, "SHENZHEN SHENAN YANGGUANG ELECTRONICS CO.");
  (5245, "Wenzhou Morning Electronics Co.");
  (5246, "MIWA Lock Co.");
  (5247, "U-tec Group Inc.");
  (5248, "Beijing Roborock Technology Co.");
  (5249, "Shenzhen Xenon Industrial Ltd");
  (5250, "Guangzhou Lingqu Electronic Technology Co.");
  (5251, "Shenzhen Jijia Intelligent Technology Co.");
  (5252, "CANDY HOUSE");
  (5253, "ELIT Scandinavia ApS");
  (5254, "Infibrite Inc");
  (5255, "Whirlpool Corp.");
  (5256, "Shortcut Labs (Flic)");
  (5257, "INTEREL BUILDING AUTOMATION");
  (5258, "Occhio GmbH");
  (5259, "Samraj Technologies Limited");
  (5260, "Glen Dimplex Heating & Ventilation");
  (5261, "Edwin McAuley Electronics Limited");
  (5262, "Hangzhou Binthen intelligence technology Co.");
  (5263, "Heatmiser UK Ltd");
  (5264, "Shelly Europe Ltd.");
  (5265, "Cyber Shields");
  (5266, "xxter bv");
  (5267, "NIE-TECH Co.");
  (5268, "Martin Renz GmbH");
  (5269, "PACIFIC HOGAR");
  (5270, "InnoPhase IoT");
  (5271, "DMA Inc.");
  (5272, "Siteworx Software USA LLC");
  (5273, "CLIO Co.");
  (5274, "Guangdong A-OK Technology");
  (5275, "Agzzx Optoelectronics Technology Co.");
  (5276, "Hong Kong Launray Industry Limited");
  (5277, "PuzL Labs");
  (5278, "Delta Electronics");
  (5279, "Deyi SmartHome Co.");
  (5280, "Transsion");
  (5281, "Dream Security Co.");
  (5282, "Hugo Brennenstuhl GmbH & Co. KG");
  (5293, "Guangdong RAEX Intelligent Technology Co.");
  (5376, "Smartwave Technology");
  (5377, "Airthings AS");
  (5379, "Qingdao Ronco Mechanic Electronic Technology Co.");
  (5380, "Hangzhou Mango Network Technology Co");
  (5381, "Arris Group");
  (5382, "SAFEMO PTE. LTD.");
  (5383, "Bweetech Electronics Technology (Shanghai) Co.");
  (5384, "Rui Teng Opto Technology Co.");
  (5385, "SmartSetup");
  (5386, "Blindsmart Technology Limited");
  (5387, "Nexus SBS AB");
  (5388, "Nexxt Solutions LLC");
  (5389, "Shenzhen Huayu Lian Technology Co.");
  (5390, "GigaDevice Semiconductor Inc.");
  (5391, "in-lite Design BV");
  (5392, "Seitec Elektronik GmbH");
  (5393, "Hangzhou Saishigao Intelligent Technology Co.");
  (5394, "Ningbo Yourlite Imp. & Exp. Co.");
  (5395, "Alpha Tubular Motors");
  (5396, "Zhongshan Chuan Dian electronic Technology Co.");
  (5397, "Arduino");
  (5398, "iRobot Corporation");
  (5399, "Hangzhou Huacheng Network Technology Co.");
  (5400, "Trilux GmbH & Co. KG");
  (5401, "I3 Engineering");
  (5402, "Leviosa Motor Shades");
  (5403, "Ningbo Sunfree Motor");
  (5404, "Schoenberger");
  (5405, "Dendo Systems Pty Ltd");
  (5406, "Nagravision SARL");
  (5407, "Apporo Union Inc.");
  (5408, "Rachio");
  (5409, "Newlab S.R.L.");
  (5410, "Zimi Technology Pty Ltd.");
  (5411, "Changzhou Yooksmart Innovation Co.");
  (5412, "Shenzhen BOFU Smart Co.");
  (5413, "Guangzhou Geeklink Intelligent Co.");
  (5414, "SOMEF TUNISIE");
  (5415, "Computime [habi]");
  (5416, "Computime [ntve home]");
  (5417, "Atmosic Technologies");
  (5418, "Robert Bosch GmbH [BSH Hausgerate GmbH]");
  (5419, "Kumho Electric");
  (5420, "Dreame Trading (Tianjin) Co.");
  (5421, "Neo Materials and Consulting Inc.");
  (5422, "YAMAGIWA Corporation");
  (5423, "SberDevices Ltd.");
  (5424, "Taiwan Fu Hsing Industrial Co.");
  (5425, "SOLITY Co.");
  (5426, "Arpobot Pty Ltd");
  (5427, "Anker Innovations Technology Co.");
  (5428, "WAGO Kontakttechnik GmbH & Co. KG");
  (5429, "GUANGZHOU SKYDANCE CO.");
  (5430, "EXOI TECHNOLOGY CORP");
  (5431, "Pearl GmbH");
  (5432, "Xiamen Beca Energysaving Technology Co.");
  (5433, "WISeKey SA");
  (5434, "VOTRE ARTISAN VERT");
  (5435, "Griesser Electronic AG");
  (5436, "ALRE-IT Regeltechnik GmbH");
  (5437, "Amlogic (Shanghai) Co.");
  (5438, "ART-DOM sp. z o.o.");
  (5439, "Brel Nederland bv");
  (5440, "Reliance Jio Infocomm Limited");
  (5441, "Alfred Karcher SE & Co KG");
  (5442, "Shenzhen Lanbon Hi-Tech Co.");
  (5443, "Wellang.Co.");
  (5444, "DALCNET SRL");
  (5445, "SmartphoneKey Systems Inc");
  (5446, "SOMMER Antriebes - und Funktechnik GmbH");
  (5447, "Mayer & Co Beschlage GmbH");
  (5448, "Doazon Pty Ltd");
  (5449, "Safiery Pty Ltd");
  (5450, "Hangzhou Sciener Smart Technology Co.");
  (5451, "Fujian Tianyu Xinchuang Information Technology Co.");
  (5452, "VIZO Technology Corp.");
  (5453, "E. Mishan & Sons");
  (5454, "Realtek Semiconductor");
  (5455, "DINUY");
  (5456, "Shenzhen AvatarControls Co.");
  (5457, "KaiJet Technology International Corporation");
  (5458, "ZHENGZHOU DEWENWILS NETWORK TECHNOLOGY CO.");
  (5459, "Super Bright LEDs");
  (5460, "A. Steffen AG");
  (5461, "MIUC Technology (Shenzhen) Co.");
  (5462, "Ford Motor Company");
  (5463, "Guangxi Bailianbo Intelligent Technology Co.");
  (5464, "Shenzhen Ai-Thinker Technology Co.");
  (5465, "tink GmbH");
  (5466, "ALIF SEMICONDUCTOR");
  (5467, "Minebeamitsumi Inc.");
  (5468, "Ningbo Feierge Mechanic & Electronic Technology Co.");
  (5469, "EcoDim");
  (5470, "Currys Sourcing Ltd.");
  (5471, "Orange S.A.");
  (5472, "Shenzhen Wenhui Technology Development Co.");
  (5473, "BOBY");
  (5474, "Renesas Electronics Corporation");
  (5475, "StrongAuth");
  (5476, "NEXTY Electronics Corporation");
  (5477, "Eran Industrial");
  (5478, "ODELIC CO.");
  (5479, "Qingdao Haier Technology Co.");
  (5480, "Econet Controls Inc");
  (5481, "Schneider Electric (FELLER)");
  (5482, "Qierling (Beijing) Health Technology Co.");
  (5483, "Shin Dong-A ES Co.");
  (5484, "Coulisse B.V.");
  (5485, "SHENZHEN POWEROAK NEWENER CO.");
  (5486, "Shenzhen Linktop IOT Co.");
  (5487, "Blaze Automation Pvt Ltd");
  (5488, "TridentIoT");
  (5489, "EUROtronic Technology GmbH");
  (5490, "Guangzhou Babai Information Technology Co.");
  (5491, "SELVE GmbH & Co. KG");
  (5492, "Adaptiv LTD");
  (5493, "Changsha Xizhen Electronics Technology Co.");
  (5494, "Enlight International Ltd.");
  (5495, "Amazon Lab126 (AWS)");
  (5496, "WINTEC KOREA INC");
  (5497, "Hinkley Lighting Inc.");
  (5498, "Hispec Electrical");
  (5499, "Mercury Corporation");
  (5500, "L&S Lighting Equipment (Shanghai) Co.");
  (5501, "Zhuhai Jie Li Technology Co.");
  (5502, "Shenzhen Apical Technology Co.");
  (5503, "Hengdian Group Tospo Lighting co.");
  (5504, "BUBENDORFF SAS");
  (5505, "Zhongshan Elink Smart Technology Co.Ltd");
  (5506, "KEGU Intelligent Technology Co.");
  (5507, "Songjung Smart Co.");
  (5508, "Hangzhou Juyingguang Technology Co.");
  (5509, "Yasmina Labs Trading FZE");
  (5510, "Megaman");
  (5511, "Mighton Products Ltd.");
  (5512, "Atouch Winwel Lda");
  (5513, "Warmup Plc");
  (5514, "Flipper Devices Inc");
  (5515, "Shenzhen Deasino Technology Co.Ltd");
  (5516, "ZHONGSHAN FANWANG LIGHTING CO.");
  (5517, "iKeyless (Car Keys Express)");
  (5518, "A solution Co.");
  (5519, "Bold Security Technology BV");
  (5520, "GL Technologies (Hong Kong) Limited");
  (5521, "SHENZHEN ZHIHUANG TECHNOLOGY CO.");
  (5522, "Mean Well Enterprises Co.");
  (5523, "JIG-SAW US");
  (5524, "What's Matter Inc.");
  (5525, "Kotonic Overseas Corporation");
  (5526, "Sensereo Limited");
  (5527, "Arcadyan Technology Corporation");
  (5528, "Mixtiles Limited");
  (5529, "Guangdong Huarui Lock Industry Co.");
  (5530, "Shenzhen Haojai Lianchuang Technology Co.");
  (5531, "Softfreak Co.");
  (5532, "Cox Communications");
  (5533, "DBT Digital Building Technology GmbH & Co.KG");
  (5534, "Ultimate IOT (Shanghai) Technology Ltd.");
  (5535, "Zhuhai LTECH Technology Co.");
  (5536, "CTM Lyng AS");
  (5537, "DELTA DORE Rademacher GmbH");
  (5538, "rainX PTE. LTD.");
  (5539, "Intermatic");
  (5540, "Mikrotikls SIA");
  (5541, "Lacticrete International");
  (5542, "DigiCert");
  (5543, "Hunter Fan Company");
  (5544, "LOCKIN (U.S.) INC.");
  (5545, "Paulo Chainho");
  (5546, "Gledopto Co.");
  (5547, "Accurate Lock & Hardware");
  (5548, "Swan Lite Manufacturing Co.");
  (5549, "Steadfast Technology LLC");
  (5550, "CDN Lighting");
  (5551, "Corston Ltd");
  (5552, "justplus CO.");
  (5553, "INSIIDA ELECTRICAL TECHNOLOGY CO.");
  (5554, "Tejwani Industries Private Limited");
  (5555, "FUTLIGHT OPTOELECTRONICS CO.");
  (5556, "Bitel Co.");
  (5557, "Brighter Lighting Inc.");
  (5558, "Hyundai HT");
  (5559, "Seiko Epson Corporation");
  (5560, "PERGOLUX International GmbH");
  (5561, "Elemedia Tech of America");
  (5562, "Lingying (Shanghai) Internet of Things Co.");
  (5563, "Things Of A Feather LLC (DBA Zunzunbee)");
  (5564, "AIDA CORPORATION");
  (5565, "TBS Pty Ltd");
  (5566, "EASFINA");
  (5567, "Korrus");
  (5568, "HUNAN DIANXIAOKU TECHNOLOGY CO.");
  (5569, "Nobily GmbH");
  (5570, "Shenzhen Kaadas Intelligent Technology Co.");
  (5571, "HUMINGBIRD TECHNOLOGY CO.");
  (5572, "FAST CR");
  (5573, "DAB PUMPS SPA");
  (5574, "Wozart Technologies Private Limited");
  (5575, "Homewell Technology Co.");
  (5576, "Maktar Inc.");
  (5577, "Connected Innovations Limited");
  (5578, "Vodafone Group Services Limited");
  (5579, "ReZ-TI");
  (5580, "Schueco Polymer Technologies KG");
  (5581, "MAKEX GLOBAL GROUP PTE. LTD.");
  (5582, "MAKEGOOD INDUSTRIAL CO.");
  (5583, "Globe Electric Company Inc.");
  (5584, "VANTIVA");
  (5585, "Nanoleaf [BRAND: Fantaqi]");
  (5586, "PISCINES DESJOYAUX");
  (5587, "Ubiquiti Inc.");
  (5588, "JSW Pacific Corp.");
  (5589, "Tubi");
  (5590, "Shenzhen Furrykid Technology Co.");
  (5591, "Baldr Group LTD");
  (5592, "Chengdu Jing Kuang Jin Ke Intelligent Technology Co.");
  (5593, "Global Link Distribution");
  (5594, "JEM ACCESSORIES INC");
  (5595, "Ofoq");
  (5596, "ABUS (ABUS August Bremicker Sohne KG)");
  (5597, "SG Armaturen AS");
  (5598, "VoxAura GmbH");
  (5599, "Vitrumshade LLC");
  (5600, "Leaguer (Shenzhen) MicroElectronics Corp.");
  (5601, "NOVO (GUANGDONG) HIGH-TECH CO.");
  (5602, "WEINKLING AUTOVITY PVT LTD");
  (5603, "YCZNWL");
  (5604, "YKK AP Inc.");
  (5605, "Verizon");
  (5606, "Empowered Homes Inc. (Mysa)");
  (5607, "Fresh Electric");
  (5608, "Huzhou Doorma intelligence Technology Co.");
  (5609, "Sukces Technology Group - Dziemianczuk sp.j.");
  (5610, "Shenzhen Fugetek Technologies LTD");
  (5611, "HiDew S.r.l");
  (5612, "HUIZHOU LI'AN Lighting Co.");
  (5613, "Sun Wealth Technology");
  (5614, "Zhejiang Moorgen Intelligent Technology Co.");
  (5615, "KASTA TECHNOLOGIES (AU) PTY LTD");
  (5616, "NETGEAR");
  (5617, "Burg-Wachter GmbH & Co. KG");
  (5618, "OLD NAME: Foshan Yunmi Electrical Technology Co.");
  (5619, "Hypnotik LLC");
  (5620, "Tedee Sp. z o.o.");
  (5621, "Bouygues Telecom");
  (5622, "Guangzhou MCOHome Technology Co.");
  (5623, "AC Infinity");
  (5624, "SSL.com");
  (5625, "Yunjing Intelligence Innovation (Shenzhen) Co.");
  (5626, "LIXIL Corporation");
  (5627, "nomos system AG");
  (5628, "CHANGING Information Technology Inc");
  (5629, "Hosenso GmbH & Co. KG");
  (5630, "Senscomm Semiconductor Co.");
  (5631, "Shenzhen Wisdom Technology Limited Company");
  (5632, "Ad Hoc Electronics");
  (5633, "Owl Home Inc");
  (5634, "Levven Electronics Ltd.");
  (5635, "Procode Technology Limited");
  (5636, "Arista Electronic Systems Ltd");
  (5637, "GUANG DONG REMAC SMART TECHNOLOGY CO.");
  (5638, "ARKLYFE PTY LTD.");
  (5639, "Muthu");
  (5640, "Zhejiang Banvi Technology Co.");
  (5641, "TETNET OU");
  (5642, "Tethral LLC");
  (5643, "Guangdong Pingtouxiong Intelligent Technology Co..Ltd");
  (5644, "Zhejiang Samsens Technology Co.");
  (5645, "Zhongshan SUFN Lighting Technology Co.");
  (5646, "LLW Enterprise");
  (5647, "Zhejiang General light curtain Co.");
  (5648, "Zhuhai Shengchang Electronics Co.");
  (5649, "Centrica Hive Ltd");
  (5650, "Homy pvt ltd");
  (5651, "Electro Cirkel Retail B.V.");
  (5652, "Shanghai KEEY Group Co.");
  (5653, "Rayrun Technology Co.");
  (5654, "Kaiser Nienhaus GmbH");
  (5655, "Jianbian Lighting Technology (Zhongshan) Co.");
  (5656, "Matterize Labs");
  (5657, "Vizbee Inc");
  (5658, "Nanoleaf (Blacklyte)");
  (5659, "Havells India Limited");
  (5660, "Cybertrust Japan Co.");
  (5661, "ACME Resources Management Sdn Bhd");
  (5662, "erfal GmbH & Co. KG");
  (5663, "Fatboy the original b.v.");
  (5664, "Liftem");
  (5665, "Ellard Limited");
  (5666, "Brelag Schweiz AG");
  (5667, "Durin, Inc.");
  (5668, "Shenzhen Zhenghui Technology Co.");
  (5669, "UNITED ELECTRIC CO.");
  (5670, "NBT NA LLC");
  (5671, "GT-WORLD MACHINERIES INC.");
  (5672, "DREO PTE LTD.");
  (5673, "Taelek Oy");
  (5674, "ROBERT ALKE TRADING CORP.");
  (5675, "Avanca International B.V.");
  (5676, "HEC Lighting Factory");
  (5677, "Louver-Lite Limited");
  (5678, "Shenzhen Smart Links Technology.");
  (5679, "SZ DJI Technology Co.");
  (5680, "Gerhard Geiger GmbH & Co. KG");
  (5681, "Zhongshan Sanji Electronic Technology Co.");
  (5682, "Shenzhen Neewer Technology Co.");
  (5683, "Theta Tech Pty Ltd");
  (5684, "WenZhou Liwo Electric Limited");
  (5685, "LANCENS TECHNOLOGY INC.");
  (6548, "Gewiss S.p.A.");
  (10132, "Climax Technology Co.");
  (24582, "Google LLC");
  (50592, "Connectivity Standards Alliance");
  (50593, "Connectivity Standards Alliance");
  (50594, "Connectivity Standards Alliance");
  (50595, "Connectivity Standards Alliance");
  (50596, "Connectivity Standards Alliance");
  (50597, "Connectivity Standards Alliance");
  (50598, "Connectivity Standards Alliance");
  (50599, "Connectivity Standards Alliance");
  (50600, "Connectivity Standards Alliance");
  (50601, "Connectivity Standards Alliance");
  (50602, "Connectivity Standards Alliance");
  (50603, "Connectivity Standards Alliance");
  (50604, "Connectivity Standards Alliance");
  (50605, "Connectivity Standards Alliance");
  (50606, "Connectivity Standards Alliance");
  (50607, "Connectivity Standards Alliance");
  (65521, "[Test vendor #1]");
  (65522, "[Test vendor #2]");
  (65523, "[Test vendor #3]");
  (65524, "[Test vendor #4]");
  (65525, "[Reserved]");
  (65526, "[Reserved]");
  (65527, "[Reserved]");
  (65528, "[Reserved]");
  (65529, "[Reserved]");
  (65530, "[Reserved]");
  (65531, "[Reserved]");
  (65532, "[Reserved]");
  (65533, "[Reserved]");
  (65534, "[Reserved]");
  (65535, "[Reserved]")
].

Definition name (vendor_id : Z) : option string :=
  match binary_search fst VENDORS vendor_id with
  | Some i => snd <$> VENDORS !! i
  | None => None
  end.

Definition all : list (Z * string) := VENDORS.

Lemma VENDORS_ascending : ascending fst VENDORS.
Proof. apply (ascending_from_sorted (-1) (map fst VENDORS)). by vm_compute. Qed.

(** The table is strictly ascending, so the binary search finds a vendor's
    name exactly when the table has an entry for the id, and then that name. *)
Theorem vendor_name_iff (vendor_id : Z) (n : string) :
  name vendor_id = Some n <-> (vendor_id, n) ∈ all.
Proof.
  unfold name, all. split.
  - destruct (binary_search fst VENDORS vendor_id) as [i|] eqn:E; [|done].
    apply binary_search_spec in E as ([k m] & Hi & Hk); [|apply VENDORS_ascending]. rewrite Hi. simpl in *.
    intros [= <-]. subst. by eapply list_elem_of_lookup_2.
  - intros [i Hi]%list_elem_of_lookup.
    rewrite (proj2 (binary_search_spec fst VENDORS vendor_id i VENDORS_ascending)).
    + by rewrite Hi.
    + by exists (vendor_id, n).
Qed.
