(* ===== verification/Commands.v ===== *)
(** * The command handlers

    [crates/controller/src/commands]: one module per family.  Handlers are
    programs over the controller's operations; conversions without effects are
    plain functions. *)

From S2P Require Import Prelude Json Wire Addr Prog Fs Storage Registry StackApi NodeManager Controller Vendors.

(** Keep the first occurrence of each element ([seen.insert(..)]). *)
Fixpoint dedup (seen l : list string) : list string :=
  match l with
  | [] => []
  | a :: l => if existsb (String.eqb a) seen then dedup seen l else a :: dedup (a :: seen) l
  end.

(** [addr.split('%').next().unwrap_or(addr)] *)
Definition before_percent (addr : string) : string :=
  match split "%" addr with s :: _ => s | [] => addr end.

Definition json_strings (l : list string) : Value := VArray (map VString l).

(** ** nodes.rs *)
Module Nodes.
Definition MAX_PING_ATTEMPTS : Z := 10.

Definition ping_attempts `{SerdeJson} (args : Map) : Result Z Failure :=
  let? a := opt_u64_strict args "attempts" in
  Ok (Z.min (Z.max (unwrap_or 1 a) 1) MAX_PING_ATTEMPTS).

(** The command line of one ping, on the Linux target. *)
Definition ping_argv (addr : string) (attempts : Z) : list string :=
  let bare := before_percent addr in
  ["ping"] ++ (if str_contains ":"%char bare then ["-6"] else []) ++ ["-c"; show attempts; "-W"; "10"; bare].

Section nodes.
Context {S L : Type} `{SerdeJson} `{NodeDate} `{Processes} `{!Stack S} `{!LogLevels L} (c : Ctrl).
Abbreviation CProg A := (Prog (COp S L) A).

Definition get_nodes (args : Map) : CProg CommandResult :=
  let only_available := unwrap_or false (opt_bool args "only_available") in
  do! nodes := read_world (fun w => all_node_data (w_registry w) only_available) in
  Ret (Ok (VArray (map node_data_value nodes))).

Definition get_node (args : Map) : CProg CommandResult :=
  do? node_id := lift_result (require_u64 args "node_id") in
  do! nd := get_node_data node_id in
  Ret (ok_or (node_data_value <$> nd) (node_not_exists node_id)).

Definition diagnostics (args : Map) : CProg CommandResult :=
  do? nodes := get_nodes args in
  do! events := read_world (fun w => sh_history (w_shared w)) in
  do! info := build_server_info c in
  Ret (Ok (json_obj [("info", server_info_value info); ("nodes", nodes); ("events", VArray events)])).

Definition interview_node (args : Map) : CProg CommandResult :=
  do? node_id := lift_result (require_u64 args "node_id") in
  do? _ := ensure_node node_id in
  do! r := stack (Interview node_id) in
  do? attributes := lift_result (map_err (stack_failure NodeInterviewFailed) r) in
  do! _ := modify_world (fun w => on_shared (fun sh =>
    set_registry (Registry.with_entry node_id (refresh_record attributes (sh_now sh)) (sh_registry sh)).2 sh) w) in
  do! rec := snapshot_record node_id in
  do! _ := match rec with
           | Some rec => do! _ := persist_record c rec in Ret tt
           | None => Ret tt
           end in
  do! nd := get_node_data node_id in
  do! _ := match nd with Some nd => emit "node_updated" (node_data_value nd) | None => Ret tt end in
  Ret (Ok VNull).

Definition remove_node (args : Map) : CProg CommandResult :=
  do? node_id := lift_result (require_u64 args "node_id") in
  do? _ := ensure_node node_id in
  do! rec := snapshot_record node_id in
  let device_fab_idx := match rec with Some r => nr_device_fabric_index r | None => 0 end in
  do! _ := stack (StopSupervisor node_id) in
  do! _ := stack (RemoveDeviceFabric node_id device_fab_idx) in
  do! _ := modify_world (on_shared (fun sh => set_registry (Registry.remove node_id (sh_registry sh)).2 sh)) in
  do! _ := modify_world (on_shared (fun sh => set_fs (run_io (delete_node (c_storage c) node_id) (sh_fs sh)).2 sh)) in
  do! _ := emit "node_removed" (json_u node_id) in
  Ret (Ok VNull).

Definition merged_addresses (node_id : Z) : CProg (list string) :=
  do! live := stack (NodeAddresses node_id) in
  let live := match live with Ok l => l | Err _ => [] end in
  do! rec := snapshot_record node_id in
  Ret (dedup [] (live ++ match rec with Some r => nr_addresses r | None => [] end)).

Definition ping_one (addr : string) (attempts : Z) : CProg (string * bool) :=
  do! ok := do_op (Command (ping_argv addr attempts)) in Ret (addr, ok).

(** [join_all_concurrent]: the results in input order. *)
Fixpoint ping_all (addrs : list string) (attempts : Z) : CProg (list (string * bool)) :=
  match addrs with
  | [] => Ret []
  | a :: addrs =>
      do! r := ping_one a attempts in
      do! rest := ping_all addrs attempts in
      Ret (r :: rest)
  end.

Definition ping_node (args : Map) : CProg CommandResult :=
  do? node_id := lift_result (require_u64 args "node_id") in
  do? _ := ensure_node node_id in
  do? attempts := lift_result (ping_attempts args) in
  do! addrs := merged_addresses node_id in
  do! results := ping_all addrs attempts in
  Ret (Ok (VObject (bt_from_iter (map (fun r => (r.1, VBool r.2)) results)))).

Definition get_node_ip_addresses (args : Map) : CProg CommandResult :=
  do? node_id := lift_result (require_u64 args "node_id") in
  do? _ := ensure_node node_id in
  let scoped := unwrap_or false (opt_bool args "scoped") in
  do! addrs := merged_addresses node_id in
  let addrs := map (fun a => if (scoped : bool) then a else before_percent a) addrs in
  Ret (Ok (json_strings (dedup [] addrs))).
End nodes.
End Nodes.

(** ** interaction.rs *)
Module Interaction.
(** A segment: [None] (a wildcard) when it is not a decimal number or is the
    sentinel. *)
Definition seg (s : string) (sentinel : Z) : option Z :=
  match parse_u 64 s with
  | Some n => if n =? sentinel then None else Some n
  | None => None
  end.

Definition too_big (path what : string) (n : Z) : Failure :=
  invalid (what +:+ " in attribute path " +:+ debug_str path +:+ " out of range: " +:+ show n).

(** [.map(|n| uN::try_from(n).map_err(..)).transpose()] *)
Definition narrow_seg (bits : Z) (path what : string) (o : option Z) : Result (option Z) Failure :=
  match o with
  | None => Ok None
  | Some n => ok_or (Some <$> try_from_u bits n) (too_big path what n)
  end.

Definition parse_attribute_path (path : string) : Result AttributePathSpec Failure :=
  match split "/" path with
  | [e; cl; a] =>
      let? endpoint := narrow_seg 16 path "endpoint id" (seg e 0xFFFF) in
      let? cluster := narrow_seg 32 path "cluster id" (seg cl 0xFFFFFFFF) in
      let? attribute := narrow_seg 32 path "attribute id" (seg a 0xFFFFFFFF) in
      Ok {| ap_endpoint := endpoint; ap_cluster := cluster; ap_attribute := attribute |}
  | _ => Err (invalid ("Invalid attribute path: " +:+ path))
  end.

Section interaction.
Context {S L : Type} `{SerdeJson} `{NodeDate} `{Processes} `{!Stack S} `{!LogLevels L} (c : Ctrl).
Abbreviation CProg A := (Prog (COp S L) A).

Definition path_strings (args : Map) : Result (list string) Failure :=
  match bt_get args "attribute_path" with
  | None => Err (missing "attribute_path")
  | Some (VString s) => Ok [s]
  | Some (VArray a) =>
      collect_results (fun v => ok_or (as_str v) (invalid "attribute_path entries must be strings")) a
  | Some _ => Err (invalid "attribute_path must be a string or list of strings")
  end.

Definition read_attribute (args : Map) : CProg CommandResult :=
  do? node_id := lift_result (require_u64 args "node_id") in
  do? _ := ensure_node node_id in
  let fabric_filtered := unwrap_or false (opt_bool args "fabric_filtered") in
  do? strings := lift_result (path_strings args) in
  do? paths := lift_result (collect_results parse_attribute_path strings) in
  do! r := stack (ReadAttributes node_id paths fabric_filtered) in
  do? values := lift_result (map_err (stack_failure SdkStackError) r) in
  Ret (match values with
       | [] => Err (err SdkStackError "Failed to read attribute: no values returned")
       | _ => Ok (VObject (bt_from_iter values))
       end).

Definition write_attribute (args : Map) : CProg CommandResult :=
  do? node_id := lift_result (require_u64 args "node_id") in
  do? _ := ensure_node node_id in
  do? path := lift_result (require_str args "attribute_path") in
  do? spec := lift_result (parse_attribute_path path) in
  match ap_endpoint spec, ap_cluster spec, ap_attribute spec with
  | Some endpoint, Some cluster, Some attribute =>
      let value := unwrap_or VNull (bt_get args "value") in
      do! r := stack (WriteAttribute node_id endpoint cluster attribute value) in
      do? status := lift_result (map_err (stack_failure SdkStackError) r) in
      Ret (Ok (VArray [json_obj
        [("Path", json_obj [("EndpointId", json_u endpoint); ("ClusterId", json_u cluster);
                            ("AttributeId", json_u attribute)]);
         ("Status", json_u status)]]))
  | _, _, _ => Ret (Err (invalid "write_attribute does not support wildcards in attribute path"))
  end.

Definition device_command (args : Map) : CProg CommandResult :=
  do? node_id := lift_result (require_u64 args "node_id") in
  do? _ := ensure_node node_id in
  do? e := lift_result (require_u64 args "endpoint_id") in
  do? endpoint := lift_result (narrow 16 e "endpoint_id") in
  do? cl := lift_result (require_u64 args "cluster_id") in
  do? cluster := lift_result (narrow 32 cl "cluster_id") in
  do? command_name := lift_result (require_str args "command_name") in
  let payload := unwrap_or (VObject []) (bt_get args "payload") in
  do? timed_ms := lift_result (match opt_u64 args "timed_request_timeout_ms" with
                               | Some v => result_map Some (narrow 16 v "timed_request_timeout_ms")
                               | None => Ok None
                               end) in
  do! r := stack (Invoke node_id endpoint cluster command_name payload timed_ms) in
  Ret (map_err (stack_failure SdkStackError) r).
End interaction.
End Interaction.

(** ** misc.rs *)
Module Misc.
Section misc.
Context {S L : Type} `{SerdeJson} `{NodeDate} `{Processes} `{!Stack S} `{!LogLevels L} (c : Ctrl).
Abbreviation CProg A := (Prog (COp S L) A).

Definition vendor_names (args : Map) : Map :=
  let filter : option (list Z) :=
    match and_then (bt_get args "filter_vendors") as_array with
    | Some a => Some (filter_map as_u64 a)
    | None => None
    end in
  let keep (v : Z * string) := match filter with None => true | Some f => existsb (Z.eqb v.1) f end in
  bt_from_iter (map (fun v => (show v.1, VString v.2)) (List.filter keep Vendors.all)).

Definition get_vendor_names (args : Map) : CProg CommandResult := Ret (Ok (VObject (vendor_names args))).

Definition get_loglevel (args : Map) : CProg CommandResult :=
  do! l := read_world (fun w => log_get (w_log w)) in
  Ret (Ok (json_obj [("console_loglevel", VString l.1); ("file_loglevel", json_opt VString l.2)])).

Definition set_loglevel (args : Map) : CProg CommandResult :=
  do! _ := modify_world (fun w =>
    with_log (log_set (opt_str args "console_loglevel") (opt_str args "file_loglevel") (w_log w)) w) in
  get_loglevel args.

(** The handlers that only check the node. *)
Definition known_node (args : Map) (answer : CommandResult) : CProg CommandResult :=
  do? node_id := lift_result (require_u64 args "node_id") in
  do? _ := ensure_node node_id in
  Ret answer.

Definition icd_state (args : Map) : CProg CommandResult := known_node args (Ok (icd_value IcdState_not_registered)).
Definition resync_icd (args : Map) : CProg CommandResult := known_node args (Ok VNull).
Definition check_node_update (args : Map) : CProg CommandResult := known_node args (Ok VNull).
Definition update_node (args : Map) : CProg CommandResult :=
  known_node args (Err (err UpdateError "OTA is disabled")).
End misc.
End Misc.

(** ** credentials.rs *)
Module Credentials.
Section credentials.
Context {S L : Type} `{SerdeJson} `{NodeDate} `{Processes} `{!Stack S} `{!LogLevels L} (c : Ctrl).
Abbreviation CProg A := (Prog (COp S L) A).

Definition persist_err (e : IoError) : Failure :=
  err UnknownError ("could not persist config.json: " +:+ io_message e).

Definition set_wifi_credentials (wifi : BTreeMap string WifiCredential) (cfg : ConfigData) : ConfigData :=
  {| cfg_fabric_label := cfg_fabric_label cfg; cfg_next_node_id := cfg_next_node_id cfg;
     cfg_wifi_credentials := wifi; cfg_thread_datasets := cfg_thread_datasets cfg |}.
Definition set_thread_datasets (thread : BTreeMap string string) (cfg : ConfigData) : ConfigData :=
  {| cfg_fabric_label := cfg_fabric_label cfg; cfg_next_node_id := cfg_next_node_id cfg;
     cfg_wifi_credentials := cfg_wifi_credentials cfg; cfg_thread_datasets := thread |}.

(** A change of the configuration that is reported when it cannot be saved. *)
Definition mutate_config (f : ConfigData -> ConfigData) : CProg CommandResult :=
  do! r := update_config c (fun _ cfg => (tt, f cfg)) in
  do? _ := lift_result (map_err persist_err r.2) in
  do! _ := broadcast_server_info_updated c in
  Ret (Ok (VObject [])).

Definition password_required : Failure :=
  invalid "WiFi password is required (omit it only to keep the existing password for an unchanged SSID)".

(** The password to store: an empty one keeps the stored password of an
    unchanged SSID. *)
Definition choose_password (cfg : ConfigData) (id ssid credentials : string) : Result string Failure :=
  if str_is_empty credentials then
    match bt_get (cfg_wifi_credentials cfg) id with
    | Some existing => if String.eqb (wc_ssid existing) ssid then Ok (wc_password existing) else Err password_required
    | None => Err password_required
    end
  else Ok credentials.

Definition set_wifi (args : Map) : CProg CommandResult :=
  do? ssid := lift_result (require_str args "ssid") in
  let credentials := unwrap_or "" (opt_str args "credentials") in
  let id := unwrap_or "default" (opt_str args "id") in
  do! cfg := config_snapshot in
  do? _ := lift_result (map_err invalid (validate_credential_id id (bt_keys (cfg_wifi_credentials cfg)))) in
  do? password := lift_result (choose_password cfg id ssid credentials) in
  mutate_config (fun cfg => set_wifi_credentials
    (bt_insert id {| wc_ssid := ssid; wc_password := password |} (cfg_wifi_credentials cfg)) cfg).

Definition set_thread (args : Map) : CProg CommandResult :=
  do? dataset := lift_result (require_str args "dataset") in
  do? _ := lift_result (map_err invalid (validate_thread_dataset dataset)) in
  let id := unwrap_or "default" (opt_str args "id") in
  do! cfg := config_snapshot in
  do? _ := lift_result (map_err invalid (validate_credential_id id (bt_keys (cfg_thread_datasets cfg)))) in
  mutate_config (fun cfg => set_thread_datasets (bt_insert id dataset (cfg_thread_datasets cfg)) cfg).

Definition remove_wifi (args : Map) : CProg CommandResult :=
  let id := unwrap_or "default" (opt_str args "id") in
  mutate_config (fun cfg => set_wifi_credentials (bt_remove id (cfg_wifi_credentials cfg)) cfg).

Definition remove_thread (args : Map) : CProg CommandResult :=
  let id := unwrap_or "default" (opt_str args "id") in
  mutate_config (fun cfg => set_thread_datasets (bt_remove id (cfg_thread_datasets cfg)) cfg).

(** The hexadecimal pairs of a string: [None] when slicing panics (an odd
    length, or a pair cutting a character), [Some None] when a pair is not
    a number. *)
Fixpoint hex_pairs (s : string) : option (option (list Z)) :=
  match s with
  | EmptyString => Some (Some [])
  | String a (String b rest) =>
      if is_cont a || match rest with String d _ => is_cont d | EmptyString => false end then None
      else match from_str_radix 16 8 (String a (String b EmptyString)) with
           | None => Some None            (* [collect] stops at the first error *)
           | Some n => match hex_pairs rest with
                       | None => None
                       | Some None => Some None
                       | Some (Some l) => Some (Some (n :: l))
                       end
           end
  | String _ EmptyString => None
  end.

(** [format!("{b:02X}")] of each byte. *)
Definition hex_upper (l : list Z) : string := str_concat (map (hex_digits true 2) l).

(** The walk over (type, length, value) triples; a later triple of a type
    replaces the earlier one. [fuel] bounds the number of triples. *)
Fixpoint thread_tlvs (fuel : nat) (bytes : list Z) (name xpan : option string) : option string * option string :=
  match fuel, bytes with
  | Datatypes.S fuel, t :: l :: rest =>
      let n := Z.to_nat l in
      if (n <=? length rest)%nat then
        let v := take n rest in
        let name := if t =? 3 then (let s := bytes_str v in if utf8_valid s then Some s else None) else name in
        let xpan := if t =? 2 then Some (hex_upper v) else xpan in
        thread_tlvs fuel (drop n rest) name xpan
      else (name, xpan)
  | _, _ => (name, xpan)
  end.

Definition thread_dataset_info (hex : string) : option (option string * option string) :=
  match hex_pairs hex with
  | None => None
  | Some None => Some (None, None)
  | Some (Some bytes) => Some (thread_tlvs (length bytes) bytes None None)
  end.

Definition thread_entry (kv : string * string) : Result Value Failure :=
  match thread_dataset_info kv.2 with
  | None => Err Panicked
  | Some (name, xpan) =>
      Ok (struct_value [field "id" (VString kv.1); skip_none "networkName" VString name;
                        skip_none "extPanId" VString xpan])
  end.

Definition wifi_entry (kv : string * WifiCredential) : Value :=
  json_obj [("id", VString kv.1); ("ssid", VString (wc_ssid kv.2))].

Definition all_credentials (cfg : ConfigData) : CommandResult :=
  let wifi := map wifi_entry (cfg_wifi_credentials cfg) in
  let wifi := if bt_contains (cfg_wifi_credentials cfg) "default" then wifi
              else json_obj [("id", VString "default"); ("ssid", VString "")] :: wifi in
  let? thread := collect_results thread_entry (cfg_thread_datasets cfg) in
  let thread := if bt_contains (cfg_thread_datasets cfg) "default" then thread
                else json_obj [("id", VString "default")] :: thread in
  Ok (json_obj [("wifi", VArray wifi); ("thread", VArray thread)]).

Definition get_all (args : Map) : CProg CommandResult :=
  do! cfg := config_snapshot in Ret (all_credentials cfg).
End credentials.
End Credentials.

(** ** commissioning.rs *)
Module Commissioning.
Section commissioning.
Context {S L : Type} `{SerdeJson} `{NodeDate} `{Processes} `{!Stack S} `{!LogLevels L} (c : Ctrl).
Abbreviation CProg A := (Prog (COp S L) A).

Definition commission_failed (e : StackError) : Failure :=
  let mapped := stack_err NodeCommissionFailed e in
  Failed {| ce_code := ce_code mapped; ce_details := "Commission failed: " +:+ ce_details mapped |}.

(** The ids allocation must skip, and the closure of [update_config]. *)
Definition id_in_use (r : Registry) (id : Z) : bool :=
  Registry.contains r id || (id =? id_controller_node_id (c_identity c)).

(** The search probes at most every known node, the controller and one free
    id. *)
Definition allocate (w : World S L) (cfg : ConfigData) : option Z * ConfigData :=
  match allocate_node_id (length (w_registry w) + 2) cfg (id_in_use (w_registry w)) with
  | Some (id, cfg) => (Some id, cfg)
  | None => (None, cfg)
  end.

Definition finish_commission (node_id : Z) (outcome : CommissionOutcome) (attributes : Map) : CProg CommandResult :=
  do! now := read_world (fun w => format_node_date (sh_now (w_shared w))) in
  let record := {| nr_node_id := node_id; nr_date_commissioned := now; nr_last_interview := now;
                   nr_device_fabric_index := co_device_fabric_index outcome;
                   nr_addresses := [(split_ip_port (co_address outcome)).1];
                   nr_attributes := attributes |} in
  do! _ := modify_world (on_shared (fun sh => set_registry (Registry.insert record (sh_registry sh)) sh)) in
  do! _ := persist_record c record in
  do! nd := get_node_data node_id in
  do? nd := lift_result (ok_or nd (err SdkStackError "node vanished immediately after commissioning (internal error)")) in
  do! _ := emit "node_added" (node_data_value nd) in
  do! _ := stack (StartSupervisor node_id) in
  Ret (Ok (node_data_value nd)).

Definition commission_body (target : PaseTarget) : CProg CommandResult :=
  do! allocated := update_config c allocate in
  match allocated.1 with
  | None => Ret (Err Panicked)     (* unreachable: see allocate_some *)
  | Some node_id =>
      do! cfg := config_snapshot in
      do! r := stack (Commission {| cr_node_id := node_id; cr_target := target; cr_fabric_label := cfg_fabric_label cfg |}) in
      do? outcome := lift_result (map_err commission_failed r) in
      do! r := stack (Interview node_id) in
      match r with
      | Ok attributes => finish_commission node_id outcome attributes
      | Err e =>
          do! _ := stack (RemoveDeviceFabric node_id (co_device_fabric_index outcome)) in
          Ret (Err (commission_failed e))
      end
  end.

(** [alloc_lock] is held for the whole flow. *)
Definition do_commission (target : PaseTarget) : CProg CommandResult :=
  do! _ := do_op (Acquire AllocLock) in
  do! r := commission_body target in
  do! _ := do_op (Release AllocLock) in
  Ret r.

Definition commission_with_code (args : Map) : CProg CommandResult :=
  let code := unwrap_or "" (opt_str args "code") in
  if str_is_empty code then Ret (Err (invalid "No pairing code provided"))
  else do_commission (Code code).

(** The three filters, each narrowed to its own width. *)
Definition filters (filter_type filter : option Z) : Result (option Z * option Z * option Z) Failure :=
  match filter_type with
  | Some 1 =>
      let? f := ok_or filter (invalid "filter required for filter_type 1 (short discriminator)") in
      let? s := narrow 8 f "filter (short discriminator)" in Ok (Some s, None, None)
  | Some 2 =>
      let? f := ok_or filter (invalid "filter required for filter_type 2 (long discriminator)") in
      let? l := narrow 16 f "filter (long discriminator)" in Ok (None, Some l, None)
  | Some 3 =>
      let? f := ok_or filter (invalid "filter required for filter_type 3 (vendor ID)") in
      let? v := narrow 16 f "filter (vendor ID)" in Ok (None, None, Some v)
  | _ => Ok (None, None, None)
  end.

Definition commission_target (args : Map) : Result PaseTarget Failure :=
  let? pin := ok_or (opt_u64 args "setup_pin_code") (invalid "No passcode provided") in
  let? passcode := narrow 32 pin "setup_pin_code" in
  let? f := filters (opt_u64 args "filter_type") (opt_u64 args "filter") in
  let '(short, long, vendor) := f in
  let ip := match opt_str args "ip_addr" with
            | Some ip => if starts_with "fe80" ip then None else Some ip
            | None => None
            end in
  Ok (match ip with
      | Some ip_addr => Address passcode (ip_addr +:+ ":5540")
      | None => OnNetwork passcode long short vendor
      end).

Definition commission_on_network (args : Map) : CProg CommandResult :=
  do? target := lift_result (commission_target args) in do_commission target.

Definition open_commissioning_window (args : Map) : CProg CommandResult :=
  do? node_id := lift_result (require_u64 args "node_id") in
  do? _ := ensure_node node_id in
  do? t := lift_result (opt_u64_strict args "timeout") in
  do? timeout := lift_result (narrow 16 (unwrap_or 300 t) "timeout") in
  do! r := stack (OpenCommissioningWindow node_id timeout) in
  do? info := lift_result (map_err (stack_failure SdkStackError) r) in
  Ret (Ok (json_obj [("setup_pin_code", json_u (wi_setup_pin_code info));
                     ("setup_manual_code", VString (wi_setup_manual_code info));
                     ("setup_qr_code", VString (wi_setup_qr_code info))])).

Definition discovered_value (d : DiscoveredDevice) : Value :=
  let '(ip, port) := split_ip_port (dd_address d) in
  commissionable_value
    {| cn_instance_name := Some (dd_instance_name d); cn_host_name := "000000000000"; cn_port := port;
       cn_long_discriminator := None; cn_vendor_id := -1; cn_product_id := -1; cn_commissioning_mode := 1;
       cn_device_type := None; cn_device_name := None; cn_pairing_instruction := None; cn_pairing_hint := 0;
       cn_mrp_retry_interval_idle := None; cn_mrp_retry_interval_active := None; cn_supports_tcp := false;
       cn_addresses := [ip]; cn_rotating_id := None |}.

Definition discover (args : Map) : CProg CommandResult :=
  do! r := stack (BrowseCommissionable 3000) in
  do? devices := lift_result (map_err (stack_failure SdkStackError) r) in
  Ret (Ok (VArray (map discovered_value devices))).
End commissioning.
End Commissioning.

(** ** fabrics.rs *)
Module Fabrics.
(** What the claim on the label finds. *)
Inductive Claim : Type := ClaimedFresh | AlreadyOwner | OwnedByOther.

Definition claim_label (conn : ConnId) (owner : option ConnId) : Claim * option ConnId :=
  match owner with
  | None => (ClaimedFresh, Some conn)
  | Some other => if other =? conn then (AlreadyOwner, owner) else (OwnedByOther, owner)
  end.

Definition release_label (conn : ConnId) (owner : option ConnId) : option ConnId :=
  match owner with
  | Some o => if o =? conn then None else owner
  | None => None
  end.

(** [if let Some(v) = obj.get(key)]. *)
Definition copy_key (key tag : string) (obj out : Map) : Map :=
  match bt_get obj key with Some v => bt_insert tag v out | None => out end.

Definition map_acl_target (target : Value) : Value :=
  let get key := unwrap_or VNull (value_get target key) in
  json_obj [("0", get "cluster"); ("1", get "endpoint"); ("2", get "device_type")].

Definition map_acl_entry (entry : Value) (node_id : Z) : option Value :=
  match as_object entry with
  | None => None
  | Some obj =>
      let out := copy_key "auth_mode" "2" obj (copy_key "privilege" "1" obj []) in
      let with_targets (out : Map) : option Value :=
        Some (VObject (match bt_get obj "targets" with
                       | None | Some VNull => bt_insert "4" VNull out
                       | Some (VArray targets) => bt_insert "4" (VArray (map map_acl_target targets)) out
                       | Some other => bt_insert "4" other out
                       end)) in
      match bt_get obj "subjects" with
      | None | Some VNull => with_targets (bt_insert "3" VNull out)
      | Some (VArray subjects) =>
          let filtered := List.filter (fun s => negb (bool_decide (as_u64 s = Some node_id))) subjects in
          match filtered with
          | [] => None
          | _ => with_targets (bt_insert "3" (VArray filtered) out)
          end
      | Some other => with_targets (bt_insert "3" other out)
      end
  end.

Definition map_binding (binding : Value) : Value :=
  let put key tag (out : Map) : Map :=
    match value_get binding key with
    | Some v => if is_null v then out else bt_insert tag v out
    | None => out
    end in
  VObject (put "cluster" "4" (put "endpoint" "3" (put "group" "2" (put "node" "1" [])))).

Section fabrics.
Context {S L : Type} `{SerdeJson} `{NodeDate} `{Processes} `{!Stack S} `{!LogLevels L} (c : Ctrl).
Abbreviation CProg A := (Prog (COp S L) A).

Definition set_fabric_label (label : string) (cfg : ConfigData) : ConfigData :=
  {| cfg_fabric_label := label; cfg_next_node_id := cfg_next_node_id cfg;
     cfg_wifi_credentials := cfg_wifi_credentials cfg; cfg_thread_datasets := cfg_thread_datasets cfg |}.

Definition set_default_fabric_label (conn : ConnId) (args : Map) : CProg CommandResult :=
  if c_label_locked c then Ret (Ok VNull)
  else
    do! claim := do_op (Atom (fun w : World S L =>
      let '(cl, owner) := claim_label conn (w_label_owner w) in (cl, with_owner owner w))) in
    match claim with
    | OwnedByOther => Ret (Ok VNull)
    | _ =>
        let label := normalize_fabric_label (and_then (bt_get args "label") as_str) in
        do! r := stack (UpdateFabricLabel label) in
        match r with
        | Ok _ =>
            do! _ := update_config c (fun _ cfg => (tt, set_fabric_label label cfg)) in
            Ret (Ok VNull)
        | Err e =>
            do! _ := match claim with
                     | ClaimedFresh => modify_world (fun w => with_owner (release_label conn (w_label_owner w)) w)
                     | _ => Ret tt
                     end in
            Ret (Err (err SdkStackError (se_message e)))
        end
    end.

Definition get_fabric_label (args : Map) : CProg CommandResult :=
  do! cfg := config_snapshot in
  Ret (Ok (json_obj [("fabric_label", VString (cfg_fabric_label cfg))])).

Definition fabric_data (f : DeviceFabric) : MatterFabricData :=
  {| mf_fabric_id := df_fabric_id f; mf_vendor_id := df_vendor_id f; mf_fabric_index := df_fabric_index f;
     mf_fabric_label := Some (df_fabric_label f); mf_vendor_name := Vendors.name (df_vendor_id f) |}.

Definition get_matter_fabrics (args : Map) : CProg CommandResult :=
  do? node_id := lift_result (require_u64 args "node_id") in
  do? _ := ensure_node node_id in
  do! r := stack (DeviceFabrics node_id) in
  do? fabrics := lift_result (map_err (fun _ =>
    err SdkStackError "No or invalid response received while querying fabrics") r) in
  Ret (Ok (VArray (map (fun f => fabric_value (fabric_data f)) fabrics))).

Definition remove_matter_fabric (args : Map) : CProg CommandResult :=
  do? node_id := lift_result (require_u64 args "node_id") in
  do? _ := ensure_node node_id in
  do? i := lift_result (require_u64 args "fabric_index") in
  do? fabric_index := lift_result (narrow 8 i "fabric_index") in
  do! r := stack (RemoveDeviceFabric node_id fabric_index) in
  do? _ := lift_result (map_err (stack_failure SdkStackError) r) in
  Ret (Ok (VObject [])).

Definition write_status (endpoint cluster status : Z) : Value :=
  VArray [json_obj [("path", json_obj [("endpoint_id", json_u endpoint); ("cluster_id", json_u cluster);
                                       ("attribute_id", json_u 0)]);
                    ("status", json_u status)]].

Definition require_array (args : Map) (key : string) : Result (list Value) Failure :=
  ok_or (and_then (bt_get args key) as_array) (missing key).

Definition set_acl_entry (args : Map) : CProg CommandResult :=
  do? node_id := lift_result (require_u64 args "node_id") in
  do? _ := ensure_node node_id in
  do? entries := lift_result (require_array args "entry") in
  let mapped := filter_map (fun e => map_acl_entry e node_id) entries in
  do! r := stack (WriteAttribute node_id 0 31 0 (VArray mapped)) in
  do? status := lift_result (map_err (stack_failure SdkStackError) r) in
  Ret (Ok (write_status 0 31 status)).

Definition set_node_binding (args : Map) : CProg CommandResult :=
  do? node_id := lift_result (require_u64 args "node_id") in
  do? _ := ensure_node node_id in
  do? e := lift_result (require_u64 args "endpoint") in
  do? endpoint := lift_result (narrow 16 e "endpoint") in
  do? bindings := lift_result (require_array args "bindings") in
  do! r := stack (WriteAttribute node_id endpoint 30 0 (VArray (map map_binding bindings))) in
  do? status := lift_result (map_err (stack_failure SdkStackError) r) in
  Ret (Ok (write_status endpoint 30 status)).
End fabrics.
End Fabrics.
