(* ===== verification/Dispatch.v ===== *)
(** * Dispatch

    [Controller::handle_command] and [connection_closed] of [real.rs], and the
    stub controller of [stub.rs]. *)

From S2P Require Import Prelude Json Wire Prog Fs Storage Registry StackApi NodeManager Controller Commands.

(** The first entry with the command's name. *)
Fixpoint lookup_command {A} (table : list (string * A)) (command : string) : option A :=
  match table with
  | [] => None
  | (k, a) :: table => if String.eqb k command then Some a else lookup_command table command
  end.

Section dispatch.
Context {S L : Type} `{SerdeJson} `{NodeDate} `{Processes} `{!Stack S} `{!LogLevels L} (c : Ctrl).
Abbreviation CProg A := (Prog (COp S L) A).

(** The arms of the [match], in order. *)
Definition handlers (conn : ConnId) (args : Map) : list (string * CProg CommandResult) :=
  [("server_info", do! info := build_server_info c in Ret (Ok (server_info_value info)));
   ("start_listening", Nodes.get_nodes []);
   ("get_nodes", Nodes.get_nodes args);
   ("get_node", Nodes.get_node args);
   ("diagnostics", Nodes.diagnostics c args);
   ("interview_node", Nodes.interview_node c args);
   ("remove_node", Nodes.remove_node c args);
   ("ping_node", Nodes.ping_node args);
   ("get_node_ip_addresses", Nodes.get_node_ip_addresses args);
   ("read_attribute", Interaction.read_attribute args);
   ("write_attribute", Interaction.write_attribute args);
   ("device_command", Interaction.device_command args);
   ("commission_with_code", Commissioning.commission_with_code c args);
   ("commission_on_network", Commissioning.commission_on_network c args);
   ("open_commissioning_window", Commissioning.open_commissioning_window args);
   ("discover", Commissioning.discover args);
   ("discover_commissionable_nodes", Commissioning.discover args);
   ("set_wifi_credentials", Credentials.set_wifi c args);
   ("set_thread_dataset", Credentials.set_thread c args);
   ("remove_wifi_credentials", Credentials.remove_wifi c args);
   ("remove_thread_dataset", Credentials.remove_thread c args);
   ("get_all_credentials", Credentials.get_all args);
   ("set_default_fabric_label", Fabrics.set_default_fabric_label c conn args);
   ("get_fabric_label", Fabrics.get_fabric_label args);
   ("get_matter_fabrics", Fabrics.get_matter_fabrics args);
   ("remove_matter_fabric", Fabrics.remove_matter_fabric args);
   ("set_acl_entry", Fabrics.set_acl_entry args);
   ("set_node_binding", Fabrics.set_node_binding args);
   ("get_vendor_names", Misc.get_vendor_names args);
   ("get_loglevel", Misc.get_loglevel args);
   ("set_loglevel", Misc.set_loglevel args);
   ("get_icd_state", Misc.icd_state args);
   ("register_icd", Misc.icd_state args);
   ("unregister_icd", Misc.icd_state args);
   ("resync_icd", Misc.resync_icd args);
   ("check_node_update", Misc.check_node_update args);
   ("update_node", Misc.update_node args)].

Definition handle_command (conn : ConnId) (cmd : CommandMessage) : CProg CommandResult :=
  match lookup_command (handlers conn (cm_args cmd)) (cm_command cmd) with
  | Some p => p
  | None => Ret (Err (err InvalidCommand ("Unknown command: " +:+ cm_command cmd)))
  end.

Definition connection_closed (conn : ConnId) : CProg unit :=
  modify_world (fun w => with_owner (Fabrics.release_label conn (w_label_owner w)) w).

Definition node_count : CProg nat := read_world (fun w => Registry.len (w_registry w)).
End dispatch.

(** ** stub.rs *)

Definition stub_handlers (info : ServerInfoMessage) : list (string * CommandResult) :=
  let no_nodes : CommandResult := Err (err NodeNotExists "stub controller has no nodes") in
  [("server_info", Ok (server_info_value info));
   ("start_listening", Ok (VArray []));
   ("get_nodes", Ok (VArray []));
   ("diagnostics", Ok (json_obj [("info", server_info_value info); ("nodes", VArray []); ("events", VArray [])]));
   ("get_node", no_nodes); ("interview_node", no_nodes); ("remove_node", no_nodes); ("ping_node", no_nodes);
   ("get_node_ip_addresses", no_nodes); ("read_attribute", no_nodes); ("write_attribute", no_nodes);
   ("device_command", no_nodes)].

Definition stub_handle_command (info : ServerInfoMessage) (cmd : CommandMessage) : CommandResult :=
  match lookup_command (stub_handlers info) (cm_command cmd) with
  | Some r => r
  | None => Err (err InvalidCommand ("unknown command: " +:+ cm_command cmd))
  end.

(** ** Locks are released

    Whatever the command, its arguments and the answers of the stack. *)

Section locks.
Context {S L : Type} `{SerdeJson} `{NodeDate} `{Processes} `{!Stack S} `{!LogLevels L} (c : Ctrl).

Lemma keeps_merged_addresses h n : keeps (S := S) (L := L) h (Nodes.merged_addresses n).
Proof. unfold Nodes.merged_addresses. keeps_auto. Qed.

Lemma keeps_ping_all h addrs n : keeps (S := S) (L := L) h (Nodes.ping_all addrs n).
Proof. induction addrs as [|a addrs IH]; cbn [Nodes.ping_all]; [apply keeps_ret|]. unfold Nodes.ping_one. keeps_auto. Qed.

Lemma keeps_mutate_config f : keeps (S := S) (L := L) [] (Credentials.mutate_config c f).
Proof. unfold Credentials.mutate_config. keeps_auto. Qed.

Lemma keeps_get_nodes h args : keeps (S := S) (L := L) h (Nodes.get_nodes args).
Proof. unfold Nodes.get_nodes. keeps_auto. Qed.

Lemma keeps_known_node h args r : keeps (S := S) (L := L) h (Misc.known_node args r).
Proof. unfold Misc.known_node. keeps_auto. Qed.

Lemma keeps_get_loglevel h args : keeps (S := S) (L := L) h (Misc.get_loglevel args).
Proof. unfold Misc.get_loglevel. keeps_auto. Qed.

Lemma keeps_finish h n o a : keeps (S := S) (L := L) h (Commissioning.finish_commission c n o a).
Proof. unfold Commissioning.finish_commission. keeps_auto. Qed.
#[local] Hint Resolve keeps_merged_addresses keeps_ping_all keeps_mutate_config keeps_get_nodes keeps_known_node
  keeps_get_loglevel keeps_finish : keeps.

Lemma keeps_do_commission t : keeps (S := S) (L := L) [] (Commissioning.do_commission c t).
Proof.
  apply keeps_locked; [set_solver | | intros; apply keeps_ret].
  unfold Commissioning.commission_body, config_snapshot. keeps_auto.
Qed.
#[local] Hint Resolve keeps_do_commission : keeps.

Lemma lookup_command_In {A} (table : list (string * A)) k a : lookup_command table k = Some a -> (k, a) ∈ table.
Proof.
  induction table as [|[k' a'] table IH]; simpl; [done|].
  destruct (String.eqb_spec k' k) as [->|]; [intros [= ->]; left | right; auto].
Qed.

Lemma keeps_handlers conn args :
  Forall (fun h => keeps (S := S) (L := L) [] h.2) (handlers c conn args).
Proof.
  unfold handlers. repeat first [apply Forall_nil_2 | apply Forall_cons_2]; cbn [snd];
    unfold Nodes.get_node, Nodes.diagnostics, Nodes.interview_node, Nodes.remove_node, Nodes.ping_node,
      Nodes.get_node_ip_addresses, Interaction.read_attribute, Interaction.write_attribute,
      Interaction.device_command, Commissioning.commission_with_code, Commissioning.commission_on_network,
      Commissioning.open_commissioning_window, Commissioning.discover, Credentials.set_wifi,
      Credentials.set_thread, Credentials.remove_wifi, Credentials.remove_thread, Credentials.get_all,
      Fabrics.set_default_fabric_label, Fabrics.get_fabric_label, Fabrics.get_matter_fabrics,
      Fabrics.remove_matter_fabric, Fabrics.set_acl_entry, Fabrics.set_node_binding, Misc.get_vendor_names,
      Misc.set_loglevel, Misc.icd_state, Misc.resync_icd, Misc.check_node_update, Misc.update_node, config_snapshot;
    keeps_auto.
Qed.

Lemma keeps_handle_command conn cmd : keeps (S := S) (L := L) [] (handle_command c conn cmd).
Proof.
  unfold handle_command. destruct (lookup_command _ _) as [p|] eqn:E; [|apply keeps_ret].
  apply lookup_command_In in E. pose proof (keeps_handlers conn (cm_args cmd)) as Hk.
  rewrite Forall_forall in Hk. apply (Hk _ E).
Qed.

(** No command leaves a lock behind: whatever its name and arguments, and
    whatever the stack and the disk answer, a command started with no lock
    held ends with none held, on success and on every error path. *)
Theorem handle_command_releases_locks (conn : ConnId) (cmd : CommandMessage) (w : World S L) :
  w_held w = [] -> w_held (run_ctrl (handle_command c conn cmd) w).2 = [].
Proof. apply disciplined_run, keeps_handle_command. Qed.
End locks.

(** ** Commands about a node *)

(** The commands that act on an existing node. *)
Definition node_commands : list string :=
  ["get_node"; "interview_node"; "remove_node"; "ping_node"; "get_node_ip_addresses"; "read_attribute";
   "write_attribute"; "device_command"; "open_commissioning_window"; "get_matter_fabrics";
   "remove_matter_fabric"; "set_acl_entry"; "set_node_binding"; "get_icd_state"; "register_icd";
   "unregister_icd"; "resync_icd"; "check_node_update"; "update_node"].

Section unknown.
Context {S L : Type} `{SerdeJson} `{NodeDate} `{Processes} `{!Stack S} `{!LogLevels L} (c : Ctrl).

Lemma run_require_node args n (k : Z -> Prog (COp S L) CommandResult) w :
  require_u64 args "node_id" = Ok n -> Registry.contains (w_registry w) n = false ->
  (forall n, exists k', k n = try_bind (ensure_node n) k') ->
  run_ctrl (try_bind (lift_result (require_u64 args "node_id")) k) w = (Err (node_not_exists n), w).
Proof.
  intros Hn Hc Hk. rewrite run_ctrl_try, run_ctrl_lift, Hn. cbv beta iota.
  destruct (Hk n) as [k' ->]. by rewrite run_ctrl_try, run_ensure_node, Hc.
Qed.

(** A command about a node the registry does not hold is answered with
    NodeNotExists and has no effect: the stack is not called, nothing is
    written, no event is sent, no log level, label or configuration changes. *)
Theorem unknown_node_rejected (conn : ConnId) (cmd : CommandMessage) (n : Z) (w : World S L) :
  cm_command cmd ∈ node_commands -> require_u64 (cm_args cmd) "node_id" = Ok n ->
  bt_get (w_registry w) n = None ->
  run_ctrl (handle_command c conn cmd) w = (Err (node_not_exists n), w).
Proof.
  intros Hin Hn Hr.
  assert (Hc : Registry.contains (w_registry w) n = false) by (unfold Registry.contains, bt_contains; by rewrite Hr).
  destruct cmd as [mid name args]. simpl in *. unfold handle_command. simpl.
  unfold node_commands in Hin. repeat (apply elem_of_cons in Hin as [->|Hin]); [..| by apply elem_of_nil in Hin];
    cbn [handlers lookup_command String.eqb Ascii.eqb Bool.eqb];
    try (apply run_require_node; [done | done | intros; eexists; reflexivity]).
  unfold Nodes.get_node. rewrite run_ctrl_try, run_ctrl_lift, Hn. cbv beta iota.
  rewrite run_ctrl_bind. unfold get_node_data. rewrite run_read_world. unfold node_data. by rewrite Hr.
Qed.
End unknown.
