(* ===== verification/Sched.v ===== *)
(** * Interleaving tasks

    Commands of different connections run as independent tasks.  A pool of
    tasks takes steps one operation at a time, in any order; an asynchronous
    lock blocks its task while another holds it. *)

From S2P Require Import Prelude Json Wire Prog Fs Storage Registry StackApi NodeManager Controller Commands.

Section sched.
Context {S L : Type} `{SerdeJson} `{NodeDate} `{Processes} `{!Stack S} `{!LogLevels L} {A : Type}.
Abbreviation Pool := (list (Prog (COp S L) A)).

Definition enabled {B} (op : COp S L B) (w : World S L) : bool :=
  match op with Acquire l => negb (bool_decide (l ∈ w_held w)) | _ => true end.

Definition task_step (p : Prog (COp S L) A) (w : World S L) : option (Prog (COp S L) A * World S L) :=
  match p with
  | Ret _ => None
  | Do op k => if enabled op w then let '(b, w) := ctrl_step _ op w in Some (k b, w) else None
  end.

Definition pool_step (i : nat) (pw : Pool * World S L) : option (Pool * World S L) :=
  match pw.1 !! i with
  | Some p => match task_step p pw.2 with Some (p, w) => Some (<[i := p]> pw.1, w) | None => None end
  | None => None
  end.

Fixpoint pool_run (schedule : list nat) (pw : Pool * World S L) : option (Pool * World S L) :=
  match schedule with
  | [] => Some pw
  | i :: rest => match pool_step i pw with Some pw => pool_run rest pw | None => None end
  end.

Definition finished (pool : Pool) : Prop := Forall (fun p => exists a, p = Ret a) pool.

Lemma pool_run_inv (I : Pool * World S L -> Prop) schedule pw pw' :
  (forall i pw pw', I pw -> pool_step i pw = Some pw' -> I pw') -> I pw ->
  pool_run schedule pw = Some pw' -> I pw'.
Proof.
  intros Hstep. revert pw. induction schedule as [|i rest IH]; intros pw HI; simpl; [by intros [= <-]|].
  destruct (pool_step i pw) as [pw1|] eqn:E; [|done]. apply IH. by eapply Hstep.
Qed.
End sched.

Lemma Forall_or {A} (P : A -> Prop) (Q : Prop) l : (forall a, a ∈ l -> P a \/ Q) -> Forall P l \/ Q.
Proof.
  induction l as [|a l IH]; intros Hl; [by left|].
  destruct (Hl a) as [Ha|?]; [left | | by right]. destruct IH as [?|?]; [| left; by constructor | by right].
  intros b Hb. apply Hl. by right.
Qed.

(** ** A concrete controller *)

#[export] Instance PlainLog : LogLevels (string * option string) :=
  {| log_get l := l; log_set c f l := (unwrap_or l.1 c, match f with Some f => Some f | None => l.2 end) |}.
Definition demo_processes : Processes := {| run_status _ := true |}.
#[local] Existing Instances TreeJson demo_processes.
Definition demo_identity : ServerIdentity :=
  {| id_version := 1; id_fabric_id := 1; id_vendor_id := 65521; id_controller_node_id := 112233;
     id_compressed_fabric_id := 9; id_ca_private_key := "k"; id_rcac_tlv := "r";
     id_controller_private_key := "c"; id_controller_noc_tlv := "n"; id_ipk := "i" |}.
Definition demo_ctrl : Ctrl :=
  {| c_storage := demo_storage; c_identity := demo_identity; c_fabric_index := 1; c_sdk_version := "rs";
     c_label_locked := false |}.
Abbreviation DemoWorld := (World FakeStack (string * option string)).
Definition demo_world : DemoWorld :=
  {| w_shared := demo_shared; w_config := ConfigData_default; w_label_owner := None; w_log := ("info", None);
     w_stack := FakeStack_new; w_held := [] |}.

Definition set_wifi_task (id : string) : Prog (COp FakeStack (string * option string)) CommandResult :=
  Credentials.set_wifi demo_ctrl
    [("credentials", VString "pw"); ("id", VString id); ("ssid", VString "net")].

(** Both tasks validate their id against the configuration before either has
    stored its own. *)
Definition race : list nat := [0; 1; 0; 0; 0; 0; 0; 0; 0; 0; 1; 1; 1; 1; 1; 1; 1; 1]%nat.

(** The credential-id rule is checked outside the lock that serializes the
    update: two connections that store ids differing only by case at the same
    time both succeed, and the configuration ends up with both, which the rule
    forbids. *)
Theorem set_wifi_race :
  exists w', pool_run race ([set_wifi_task "Home"; set_wifi_task "home"], demo_world) =
    Some ([Ret (Ok (VObject [])); Ret (Ok (VObject []))], w') /\
    bt_keys (cfg_wifi_credentials (w_config w')) = ["Home"; "home"] /\
    validate_credential_id "home" ["Home"] <> Ok tt.
Proof. vm_compute. eexists. split; [reflexivity|]. split; [reflexivity | discriminate]. Qed.
