(* ===== verification/CommandFacts.v ===== *)
(** * What the commands do

    Theorems about the handlers of [Commands] and [Dispatch], one task running
    alone: argument checking, node removal, commissioning, credentials, fabric
    labels, access-control entries. *)

From S2P Require Import Prelude Json Wire Addr Prog Fs Storage Registry StackApi NodeManager Controller Vendors Commands Dispatch Sched.

(** ** Attribute paths *)

Lemma split_app c a b : count_byte c a = O -> split c (a +:+ String c b) = a :: split c b.
Proof.
  induction a as [|x a IH]; simpl; [by rewrite Ascii.eqb_refl|].
  destruct (Ascii.eqb x c); [done|]. intros Ha. by rewrite IH.
Qed.

Lemma split_none c a : count_byte c a = O -> split c a = [a].
Proof.
  induction a as [|x a IH]; simpl; [done|]. destruct (Ascii.eqb x c); [done|]. intros Ha. by rewrite IH.
Qed.

(** What one segment selects: nothing (every id) unless it is a decimal number
    other than the sentinel, and then exactly that number, which fits. *)
Definition selects (bits sentinel : Z) (s : string) (o : option Z) : Prop :=
  match parse_u 64 s with
  | Some n => if n =? sentinel then o = None else o = Some n /\ n < 2 ^ bits
  | None => o = None
  end.

Lemma narrow_seg_iff bits sentinel path what s o :
  Interaction.narrow_seg bits path what (Interaction.seg s sentinel) = Ok o <-> selects bits sentinel s o.
Proof.
  unfold Interaction.seg, selects. destruct (parse_u 64 s) as [n|] eqn:E; simpl; [|split; congruence].
  destruct (n =? sentinel); simpl; [split; congruence|]. apply parse_u_range in E. unfold try_from_u.
  destruct (in_u bits n) eqn:Hr; simpl.
  - apply in_u_spec in Hr. split; [intros [= <-]; split; [done | lia] | by intros [-> _]].
  - split; [done|]. intros [_ Hn]. assert (in_u bits n = true) by (apply in_u_spec; lia). congruence.
Qed.

(** An attribute path is accepted exactly when it has three segments each
    of which selects an id of its width; a number that does not fit is an error,
    never another id. *)
Theorem parse_attribute_path_iff (path : string) (spec : AttributePathSpec) :
  Interaction.parse_attribute_path path = Ok spec <->
  exists e cl a, split "/" path = [e; cl; a] /\
    selects 16 0xFFFF e (ap_endpoint spec) /\ selects 32 0xFFFFFFFF cl (ap_cluster spec) /\
    selects 32 0xFFFFFFFF a (ap_attribute spec).
Proof.
  unfold Interaction.parse_attribute_path. split.
  - destruct (split "/" path) as [|e [|cl [|a [|]]]]; try done.
    destruct (Interaction.narrow_seg 16 _ _ _) as [oe|] eqn:E1; [|done].
    destruct (Interaction.narrow_seg 32 _ "cluster id" _) as [oc|] eqn:E2; [|done].
    destruct (Interaction.narrow_seg 32 _ "attribute id" _) as [oa|] eqn:E3; [|done].
    apply narrow_seg_iff in E1, E2, E3. intros [= <-]. by exists e, cl, a.
  - intros (e & cl & a & -> & H1 & H2 & H3). destruct spec as [oe oc oa]. simpl in *.
    rewrite (proj2 (narrow_seg_iff 16 0xFFFF path "endpoint id" e oe) H1).
    rewrite (proj2 (narrow_seg_iff 32 0xFFFFFFFF path "cluster id" cl oc) H2).
    by rewrite (proj2 (narrow_seg_iff 32 0xFFFFFFFF path "attribute id" a oa) H3).
Qed.

(** Printing a concrete path and parsing it gives back the three ids, for
    every id that is not a wildcard sentinel. *)
Theorem parse_attribute_path_show (e cl a : Z) :
  0 <= e < 0xFFFF -> 0 <= cl < 0xFFFFFFFF -> 0 <= a < 0xFFFFFFFF ->
  Interaction.parse_attribute_path (show e +:+ "/" +:+ show cl +:+ "/" +:+ show a) =
  Ok {| ap_endpoint := Some e; ap_cluster := Some cl; ap_attribute := Some a |}.
Proof.
  intros He Hc Ha.
  assert (Hs : split "/" (show e +:+ "/" +:+ show cl +:+ "/" +:+ show a) = [show e; show cl; show a]).
  { simpl. rewrite split_app by (apply count_byte_show; [lia | done]).
    rewrite split_app by (apply count_byte_show; [lia | done]).
    rewrite split_none by (apply count_byte_show; [lia | done]). done. }
  unfold Interaction.parse_attribute_path. rewrite Hs.
  assert (Hsel : forall bits sentinel n, 0 <= n < sentinel -> sentinel < 2 ^ bits -> bits <= 64 ->
            selects bits sentinel (show n) (Some n)).
  { intros bits sentinel n Hn Hsb Hb. unfold selects.
    assert (2 ^ bits <= 2 ^ 64) by (apply Z.pow_le_mono_r; lia).
    rewrite parse_u_show by lia. destruct (Z.eqb_spec n sentinel); [lia|]. split; [done | lia]. }
  rewrite (proj2 (narrow_seg_iff 16 0xFFFF _ "endpoint id" (show e) (Some e))) by (apply Hsel; lia).
  rewrite (proj2 (narrow_seg_iff 32 0xFFFFFFFF _ "cluster id" (show cl) (Some cl))) by (apply Hsel; lia).
  by rewrite (proj2 (narrow_seg_iff 32 0xFFFFFFFF _ "attribute id" (show a) (Some a))) by (apply Hsel; lia).
Qed.

Lemma parse_attribute_path_show_witness :
  Interaction.parse_attribute_path "1/6/0" =
  Ok {| ap_endpoint := Some 1; ap_cluster := Some 6; ap_attribute := Some 0 |}.
Proof. apply (parse_attribute_path_show 1 6 0); lia. Defined.

(** ** Lists of addresses *)

Lemma existsb_eqb s l : existsb (String.eqb s) l = bool_decide (s ∈ l).
Proof.
  induction l as [|x l IH]; simpl; [done|].
  rewrite IH. destruct (String.eqb_spec s x) as [->|Hne]; simpl.
  - symmetry. apply bool_decide_eq_true_2. left.
  - apply bool_decide_ext. rewrite elem_of_cons. tauto.
Qed.

Lemma dedup_spec seen l : NoDup (dedup seen l) /\ forall a, a ∈ dedup seen l <-> a ∈ l /\ a ∉ seen.
Proof.
  revert seen. induction l as [|x l IH]; intros seen; simpl.
  - split; [apply NoDup_nil_2|]. intros a. rewrite elem_of_nil. tauto.
  - rewrite existsb_eqb. case_bool_decide as Hx.
    + destruct (IH seen) as [Hn Hm]. split; [done|]. intros a. rewrite Hm, elem_of_cons. split; [tauto|].
      intros [[->|?] ?]; tauto.
    + destruct (IH (x :: seen)) as [Hn Hm]. split.
      * constructor; [|done]. rewrite Hm. set_solver.
      * intros a. rewrite elem_of_cons, Hm, !elem_of_cons. destruct (decide (a = x)) as [->|]; tauto.
Qed.

(** ** Pings *)

(** The number of echo requests a client can make the server send per
    address is between 1 and 10 whatever it asks for; a value that is not an
    unsigned integer is an error. *)
Theorem ping_attempts_bounded `{SerdeJson} (args : Map) :
  match Nodes.ping_attempts args with
  | Ok n => 1 <= n <= 10
  | Err _ => exists v, bt_get args "attempts" = Some v /\ as_u64 v = None /\ v <> VNull
  end.
Proof.
  unfold Nodes.ping_attempts, opt_u64_strict, Nodes.MAX_PING_ATTEMPTS.
  destruct (bt_get args "attempts") as [v|] eqn:E; [|simpl; lia].
  destruct (as_u64 v) as [n|] eqn:Ev.
  - assert (Hv : v = json_u n) by by apply as_u64_Some. subst. simpl. lia.
  - destruct v; simpl; first [lia | eexists; repeat split; done].
Qed.

(** ** Removing a node *)

Section remove.
Context {S L : Type} `{SerdeJson} `{NodeDate} `{Processes} `{!Stack S} `{!LogLevels L} (c : Ctrl).

(** Removing a known node always succeeds locally, even when the device
    cannot be told: its supervisor is stopped first, RemoveFabric is sent with
    the fabric index the device assigned, the node is gone from the registry
    and nothing else is, and one node_removed event is sent. *)
Theorem remove_node_spec (args : Map) (n : Z) (e : NodeEntry) (w : World S L) :
  require_u64 args "node_id" = Ok n -> bt_get (w_registry w) n = Some e ->
  let s1 := (stack_call _ (StopSupervisor n) (w_stack w)).2 in
  let s2 := (stack_call _ (RemoveDeviceFabric n (nr_device_fabric_index (ne_record e))) s1).2 in
  let (r, w') := run_ctrl (Nodes.remove_node c args) w in
  r = Ok VNull /\ w_stack w' = s2 /\ w_registry w' = bt_remove n (w_registry w) /\
  sh_events (w_shared w') = sh_events (w_shared w) ++ [{| em_event := "node_removed"; em_data := json_u n |}] /\
  sh_fs (w_shared w') = (run_io (delete_node (c_storage c) n) (sh_fs (w_shared w))).2 /\
  w_config w' = w_config w.
Proof.
  intros Hn He s1 s2. unfold Nodes.remove_node.
  rewrite run_ctrl_try, run_ctrl_lift, Hn. cbv beta iota. rewrite run_ctrl_try, run_ensure_node.
  assert (Hc : Registry.contains (w_registry w) n = true) by (apply contains_spec; by rewrite He).
  rewrite Hc. cbv beta iota. rewrite run_ctrl_bind. unfold snapshot_record. rewrite run_read_world. cbv beta iota.
  unfold Registry.snapshot_record. rewrite He. cbn [fmap option_fmap option_map].
  do 5 (rewrite run_ctrl_bind; rewrite ?run_stack, ?run_modify_world, ?run_emit; cbv beta iota).
  done.
Qed.
End remove.

(** ** Commissioning *)

Section commission.
Context {S L : Type} `{SerdeJson} `{NodeDate} `{Processes} `{!Stack S} `{!LogLevels L} (c : Ctrl).

(** Room for the ids still to be given out. *)
Definition ids_left (w : World S L) (cfg : ConfigData) : Prop :=
  0 <= cfg_next_node_id cfg /\ Z.max (cfg_next_node_id cfg) 1 + Z.of_nat (length (w_registry w)) + 2 < 2 ^ 64.

(** Within the fuel given, allocation finds an id that no known node and not
    the controller itself has. *)
Lemma allocate_some (w : World S L) (cfg : ConfigData) :
  bt_wf (w_registry w) -> ids_left w cfg ->
  exists id cfg', Commissioning.allocate c w cfg = (Some id, cfg') /\
    bt_get (w_registry w) id = None /\ id <> id_controller_node_id (c_identity c) /\
    1 <= id /\ cfg_next_node_id cfg <= id /\ cfg_next_node_id cfg' = id + 1 /\
    cfg_fabric_label cfg' = cfg_fabric_label cfg.
Proof.
  intros Hwf [Hmin Hmax]. set (used := bt_keys (w_registry w) ++ [id_controller_node_id (c_identity c)]).
  assert (Hlen : length used = (length (w_registry w) + 1)%nat).
  { unfold used, bt_keys. by rewrite length_app, length_map. }
  destruct (allocate_node_id_used cfg used) as (id & cfg' & E & Hn & ? & ? & _ & ? & ? & _ & _); [done | lia |].
  unfold Commissioning.allocate.
  rewrite (allocate_node_id_ext _ _ _ (fun n => bool_decide (n ∈ used))).
  - replace (length (w_registry w) + 2)%nat with (Datatypes.S (length used)) by lia. rewrite E.
    exists id, cfg'. split; [done|]. unfold used in Hn. rewrite elem_of_app, list_elem_of_singleton in Hn.
    split; [|split; [tauto | done]]. destruct (bt_get (w_registry w) id) as [e|] eqn:Eg; [|done].
    destruct Hn. left. apply bt_keys_elem; [done | by rewrite Eg].
  - intros n. unfold Commissioning.id_in_use, used, Registry.contains, bt_contains.
    destruct (bt_get (w_registry w) n) as [e|] eqn:Eg; simpl.
    + symmetry. apply bool_decide_eq_true_2. apply elem_of_app. left. apply bt_keys_elem; [done | by rewrite Eg].
    + destruct (Z.eqb_spec n (id_controller_node_id (c_identity c))) as [->|Hne]; symmetry.
      * apply bool_decide_eq_true_2. set_solver.
      * apply bool_decide_eq_false_2. rewrite elem_of_app, list_elem_of_singleton. intros [Hin|?]; [|done].
        apply bt_keys_elem in Hin as [e He]; [congruence | done].
Qed.

Definition new_record (now : string) (id : Z) (o : CommissionOutcome) (attributes : Map) : NodeRecord :=
  {| nr_node_id := id; nr_date_commissioned := now; nr_last_interview := now;
     nr_device_fabric_index := co_device_fabric_index o;
     nr_addresses := [ip_of (co_address o)]; nr_attributes := attributes |}.

(** The state right before the stack is asked to commission. *)
Lemma run_commission_prefix (w : World S L) :
  w_held w = [] -> bt_wf (w_registry w) -> ids_left w (w_config w) ->
  exists id cfg' p fs, run_ctrl (update_config c (Commissioning.allocate c)) (with_held [AllocLock] w) =
      ((Some id, p), with_config cfg' (on_shared (set_fs fs) (with_held [AllocLock] w))) /\
    bt_get (w_registry w) id = None /\ id <> id_controller_node_id (c_identity c) /\ 1 <= id /\
    cfg_next_node_id (w_config w) <= id /\ cfg_next_node_id cfg' = id + 1 /\
    cfg_fabric_label cfg' = cfg_fabric_label (w_config w).
Proof.
  intros Hh Hwf Hids.
  destruct (allocate_some w (w_config w)) as (id & cfg' & E & Hfacts); [done | done |].
  rewrite run_update_config by set_solver.
  change (Commissioning.allocate c _ _) with (Commissioning.allocate c w (w_config w)). rewrite E. cbv beta iota.
  destruct (run_io _ _) as [p fs]. exists id, cfg', p, fs. split; [done | exact Hfacts].
Qed.

Lemma run_persist_record rec (w : World S L) :
  run_ctrl (persist_record c rec) w =
  ((run_io (save_node (c_storage c) rec) (sh_fs (w_shared w))).1,
   on_shared (set_fs (run_io (save_node (c_storage c) rec) (sh_fs (w_shared w))).2) w).
Proof. unfold run_ctrl, persist_record, do_op. simpl. by destruct (run_io _ _). Qed.

Lemma run_finish_commission id o attributes (w : World S L) :
  let rec := new_record (format_node_date (sh_now (w_shared w))) id o attributes in
  let v := node_data_value (build_node_data rec false) in
  let (r, w') := run_ctrl (Commissioning.finish_commission c id o attributes) w in
  r = Ok v /\ w_registry w' = Registry.insert rec (w_registry w) /\
  sh_events (w_shared w') = sh_events (w_shared w) ++ [{| em_event := "node_added"; em_data := v |}] /\
  w_stack w' = (stack_call _ (StartSupervisor id) (w_stack w)).2 /\
  w_config w' = w_config w /\ w_held w' = w_held w.
Proof.
  intros rec v. unfold Commissioning.finish_commission.
  rewrite run_ctrl_bind, run_read_world. cbv beta iota.
  rewrite run_ctrl_bind, run_modify_world. cbv beta iota.
  rewrite run_ctrl_bind, run_persist_record. cbv beta iota.
  rewrite run_ctrl_bind. unfold get_node_data. rewrite run_read_world. cbv beta iota.
  rewrite run_ctrl_try, run_ctrl_lift.
  assert (Hnd : forall fs : FS, node_data (w_registry (on_shared (set_fs fs)
            (on_shared (fun sh => set_registry (Registry.insert rec (sh_registry sh)) sh) w))) id =
            Some (build_node_data rec false)).
  { intros fs. unfold node_data, w_registry, Registry.insert. simpl. by rewrite bt_get_insert_eq. }
  unfold rec, new_record, ip_of in Hnd. rewrite Hnd. cbn [ok_or].
  rewrite run_ctrl_bind, run_emit. cbv beta iota. rewrite run_ctrl_bind, run_stack. cbv beta iota.
  rewrite run_ctrl_ret. done.
Qed.

(** C16: commissioning gives the new node an id no node has and the controller
    does not have, moves the next id past it before the device is contacted,
    and whatever happens then keeps it moved.  On success the node is in the
    registry, unavailable, with the interview's attributes and its address
    without the port, node_added is sent, and a supervisor is started; when
    commissioning or the interview fails the registry is as before, no event
    is sent, and after a failed interview the device is told to drop the
    fabric. *)
Theorem do_commission_spec (target : PaseTarget) (w : World S L) :
  w_held w = [] -> bt_wf (w_registry w) -> ids_left w (w_config w) ->
  exists id, bt_get (w_registry w) id = None /\ id <> id_controller_node_id (c_identity c) /\
    1 <= id /\ cfg_next_node_id (w_config w) <= id /\
    let (r, w') := run_ctrl (Commissioning.do_commission c target) w in
    cfg_next_node_id (w_config w') = id + 1 /\
    let req := {| cr_node_id := id; cr_target := target; cr_fabric_label := cfg_fabric_label (w_config w) |} in
    let unchanged := w_registry w' = w_registry w /\ sh_events (w_shared w') = sh_events (w_shared w) in
    match stack_call _ (Commission req) (w_stack w) with
    | (Err e, s) => r = Err (Commissioning.commission_failed e) /\ unchanged /\ w_stack w' = s
    | (Ok o, s) =>
        match stack_call _ (Interview id) s with
        | (Err e, s) => r = Err (Commissioning.commission_failed e) /\ unchanged /\
                        w_stack w' = (stack_call _ (RemoveDeviceFabric id (co_device_fabric_index o)) s).2
        | (Ok attributes, s) =>
            let rec := new_record (format_node_date (sh_now (w_shared w))) id o attributes in
            let v := node_data_value (build_node_data rec false) in
            r = Ok v /\ w_registry w' = Registry.insert rec (w_registry w) /\
            sh_events (w_shared w') = sh_events (w_shared w) ++ [{| em_event := "node_added"; em_data := v |}] /\
            w_stack w' = (stack_call _ (StartSupervisor id) s).2
        end
    end.
Proof.
  intros Hh Hwf Hids.
  destruct (run_commission_prefix w Hh Hwf Hids) as (id & cfg' & p & fs & Hr & Hfree & Hctl & Hge & Hle & Hnext & Hlabel).
  exists id. do 4 (split; [done|]). unfold Commissioning.do_commission.
  rewrite run_ctrl_bind. change (run_ctrl (do_op (Acquire AllocLock)) w) with (tt, with_held (AllocLock :: w_held w) w).
  rewrite Hh. cbv beta iota. rewrite run_ctrl_bind. unfold Commissioning.commission_body.
  rewrite run_ctrl_bind, Hr. cbn [fst]. cbv beta iota. rewrite run_ctrl_bind. unfold config_snapshot.
  rewrite run_read_world. cbv beta iota. rewrite run_ctrl_bind, run_stack. cbv beta iota.
  cbn [w_config with_config w_stack on_shared with_shared with_held]. rewrite Hlabel.
  destruct (stack_call _ (Commission _) (w_stack w)) as [[o|e] s1]; cbn [fst snd];
    rewrite run_ctrl_try, run_ctrl_lift; cbn [map_err]; cbv beta iota; [|done].
  rewrite run_ctrl_bind, run_stack. cbv beta iota. cbn [w_stack with_stack].
  destruct (stack_call _ (Interview id) s1) as [[attributes|e] s2]; cbn [fst snd].
  2: { by rewrite run_ctrl_bind, run_stack. }
  match goal with |- context [run_ctrl (Commissioning.finish_commission c id o attributes) ?w1] =>
    pose proof (run_finish_commission id o attributes w1) as Hfin;
    destruct (run_ctrl (Commissioning.finish_commission c id o attributes) w1) as [r w2] end.
  cbn in Hfin. destruct Hfin as (-> & Hreg & Hev & Hst & Hcfg & Hheld). cbn.
  rewrite Hcfg. split; [done|]. done.
Qed.
End commission.

(** ** Credentials *)

Section credentials.
Context {S L : Type} `{SerdeJson} `{NodeDate} `{Processes} `{!Stack S} `{!LogLevels L} (c : Ctrl).

(** What a configuration change answers: the client learns when the change
    would not survive a restart, and only then. *)
Lemma run_mutate_config f (w : World S L) :
  ConfigWrite ∉ w_held w ->
  let (saved, fs) := run_io (save_config (c_storage c) (f (w_config w))) (sh_fs (w_shared w)) in
  let (r, w') := run_ctrl (Credentials.mutate_config c f) w in
  w_config w' = f (w_config w) /\ sh_fs (w_shared w') = fs /\
  match saved with
  | Ok _ => r = Ok (VObject []) /\ sh_events (w_shared w') = sh_events (w_shared w) ++
              [{| em_event := "server_info_updated"; em_data := server_info_value (server_info c (f (w_config w))) |}]
  | Err e => r = Err (Credentials.persist_err e) /\ sh_events (w_shared w') = sh_events (w_shared w)
  end.
Proof.
  intros Hh. unfold Credentials.mutate_config. rewrite run_ctrl_bind, run_update_config by done. cbv beta iota.
  destruct (run_io _ _) as [saved fs].
  rewrite run_ctrl_try, run_ctrl_lift. cbn [snd map_err]. destruct saved as [[]|e]; cbn [map_err]; cbv beta iota; done.
Qed.

(** Storing a Wi-Fi credential.  A missing SSID, an id the rule rejects or
    a missing password changes nothing.  Otherwise the credential is stored
    under its id in memory and written to disk; an empty password keeps the
    stored one, which requires the same SSID; the command reports success, and
    the new server info is broadcast, exactly when the configuration could be
    saved. *)
Theorem set_wifi_spec (args : Map) (w : World S L) :
  ConfigWrite ∉ w_held w ->
  let id := unwrap_or "default" (opt_str args "id") in
  let credentials := unwrap_or "" (opt_str args "credentials") in
  let cfg := w_config w in
  let (r, w') := run_ctrl (Credentials.set_wifi c args) w in
  match require_str args "ssid", validate_credential_id id (bt_keys (cfg_wifi_credentials cfg)) with
  | Ok ssid, Ok _ =>
      let keep := match bt_get (cfg_wifi_credentials cfg) id with
                  | Some old => if String.eqb (wc_ssid old) ssid then Some (wc_password old) else None
                  | None => None end in
      match (if str_is_empty credentials then keep else Some credentials) with
      | Some password =>
          let cfg' := Credentials.set_wifi_credentials
                        (bt_insert id {| wc_ssid := ssid; wc_password := password |} (cfg_wifi_credentials cfg)) cfg in
          w_config w' = cfg' /\
          match (run_io (save_config (c_storage c) cfg') (sh_fs (w_shared w))).1 with
          | Ok _ => r = Ok (VObject []) /\ sh_events (w_shared w') = sh_events (w_shared w) ++
                      [{| em_event := "server_info_updated"; em_data := server_info_value (server_info c cfg') |}]
          | Err e => r = Err (Credentials.persist_err e) /\ sh_events (w_shared w') = sh_events (w_shared w)
          end
      | None => r = Err Credentials.password_required /\ w' = w
      end
  | _, _ => w' = w /\ exists m, r = Err (invalid m)
  end.
Proof.
  intros Hh id credentials cfg. unfold Credentials.set_wifi. rewrite run_ctrl_try, run_ctrl_lift.
  unfold require_str. destruct (opt_str args "ssid") as [ssid|]; cbn [ok_or]; cbv beta iota zeta.
  2: { split; [done|]. by eexists. }
  rewrite run_ctrl_bind. unfold config_snapshot. rewrite run_read_world. cbv beta iota.
  rewrite run_ctrl_try, run_ctrl_lift. fold id cfg. destruct (validate_credential_id id _) as [[]|m]; cbn [map_err].
  2: { split; [done|]. by exists m. }
  cbv beta iota. rewrite run_ctrl_try, run_ctrl_lift. unfold Credentials.choose_password. fold credentials.
  assert (Hst : forall password, let cfg' := Credentials.set_wifi_credentials
      (bt_insert id {| wc_ssid := ssid; wc_password := password |} (cfg_wifi_credentials cfg)) cfg in
    let (r, w') := run_ctrl (Credentials.mutate_config c (fun cfg => Credentials.set_wifi_credentials
      (bt_insert id {| wc_ssid := ssid; wc_password := password |} (cfg_wifi_credentials cfg)) cfg)) w in
    w_config w' = cfg' /\ match (run_io (save_config (c_storage c) cfg') (sh_fs (w_shared w))).1 with
      | Ok _ => r = Ok (VObject []) /\ sh_events (w_shared w') = sh_events (w_shared w) ++
                  [{| em_event := "server_info_updated"; em_data := server_info_value (server_info c cfg') |}]
      | Err e => r = Err (Credentials.persist_err e) /\ sh_events (w_shared w') = sh_events (w_shared w) end).
  { intros password cfg'. pose proof (run_mutate_config (fun cfg => Credentials.set_wifi_credentials
      (bt_insert id {| wc_ssid := ssid; wc_password := password |} (cfg_wifi_credentials cfg)) cfg) w Hh) as Hm.
    cbv beta in Hm. fold cfg in Hm. fold cfg' in Hm. destruct (run_io _ _) as [saved fs].
    destruct (run_ctrl (Credentials.mutate_config c _) w) as [r w']. destruct Hm as (? & _ & ?). by split. }
  destruct (str_is_empty credentials); [|apply Hst].
  destruct (bt_get (cfg_wifi_credentials cfg) id) as [old|]; [|done].
  destruct (String.eqb (wc_ssid old) ssid); [apply Hst | done].
Qed.

(** The credential listing does not depend on any Wi-Fi password: two
    configurations with the same ids, SSIDs and Thread datasets are listed
    alike. *)
Theorem get_all_hides_passwords (cfg1 cfg2 : ConfigData) :
  map (fun kv => (kv.1, wc_ssid kv.2)) (cfg_wifi_credentials cfg1) =
  map (fun kv => (kv.1, wc_ssid kv.2)) (cfg_wifi_credentials cfg2) ->
  cfg_thread_datasets cfg1 = cfg_thread_datasets cfg2 ->
  Credentials.all_credentials cfg1 = Credentials.all_credentials cfg2.
Proof.
  intros Hw Ht. unfold Credentials.all_credentials. rewrite Ht.
  assert (E1 : map Credentials.wifi_entry (cfg_wifi_credentials cfg1) =
               map Credentials.wifi_entry (cfg_wifi_credentials cfg2)).
  { revert Hw. generalize (cfg_wifi_credentials cfg2) as m2.
    induction (cfg_wifi_credentials cfg1) as [|[k1 v1] m1 IH]; intros [|[k2 v2] m2] E; simplify_eq/=; [done|].
    f_equal; [|by apply IH]. unfold Credentials.wifi_entry. simpl. congruence. }
  assert (E2 : bt_contains (cfg_wifi_credentials cfg1) "default" = bt_contains (cfg_wifi_credentials cfg2) "default").
  { clear E1. revert Hw. generalize (cfg_wifi_credentials cfg2) as m2. unfold bt_contains.
    generalize "default" as k.
    induction (cfg_wifi_credentials cfg1) as [|[k1 v1] m1 IH]; intros k [|[k2 v2] m2] E; simplify_eq/=; [done|].
    destruct (String.compare k k2); [done | by apply IH | by apply IH]. }
  by rewrite E1, E2.
Qed.
End credentials.

(** A dataset that passed validation. *)
Lemma hex_digit_ascii a : is_ascii_hexdigit a = true -> is_cont a = false /\ exists d, digit_value 16 a = Some d /\ 0 <= d < 16.
Proof.
  destruct a as [[] [] [] [] [] [] [] []]; intros Ha; try (exfalso; vm_compute in Ha; congruence);
    (split; [reflexivity | eexists; split; [reflexivity | vm_compute; by split]]).
Qed.

Lemma hex_pair_value a b :
  is_ascii_hexdigit a = true -> is_ascii_hexdigit b = true ->
  exists n, from_str_radix 16 8 (String a (String b EmptyString)) = Some n /\ 0 <= n < 256.
Proof.
  intros Ha Hb. destruct (hex_digit_ascii a Ha) as (_ & x & Hx & Hxr). destruct (hex_digit_ascii b Hb) as (_ & y & Hy & Hyr).
  unfold from_str_radix. assert (Hp : Ascii.eqb a "+"%char = false) by (destruct (Ascii.eqb_spec a "+"%char); [by subst | done]).
  rewrite Hp. simpl. rewrite Hx, Hy. exists ((0 * 16 + x) * 16 + y). split; [|lia].
  unfold try_from_u. by rewrite (proj2 (in_u_spec 8 _)) by lia.
Qed.

Lemma hex_pairs_valid n s :
  String.length s = (2 * n)%nat -> str_forall is_ascii_hexdigit s = true ->
  exists l, Credentials.hex_pairs s = Some (Some l) /\ length l = n /\ Forall (fun b => 0 <= b < 256) l.
Proof.
  revert s. induction n as [|n IH]; intros s Hl Hs.
  - destruct s; [|done]. by exists [].
  - destruct s as [|a [|b s]]; simpl in Hl; try lia. simpl in Hs.
    apply andb_true_iff in Hs as [Ha Hs]. apply andb_true_iff in Hs as [Hb Hs].
    destruct (IH s) as (l & E & Hlen & Hf); [lia | done |].
    destruct (hex_pair_value a b Ha Hb) as (v & Hv & Hvr). destruct (hex_digit_ascii a Ha) as [Hc _].
    assert (Hd : match s with String d _ => is_cont d | EmptyString => false end = false).
    { destruct s as [|d s]; [done|]. simpl in Hs. apply andb_true_iff in Hs as [Hd _]. by apply hex_digit_ascii. }
    cbn [Credentials.hex_pairs]. rewrite Hc, Hd, Hv, E. simpl. exists (v :: l). split; [done|]. split; [simpl; lia | by constructor].
Qed.

(** Listing credentials cannot panic on a Thread dataset that was accepted:
    decoding a validated dataset always ends with an answer, whatever bytes it
    holds, and the bytes are those its digits spell. *)
Theorem thread_dataset_info_total (hex : string) :
  validate_thread_dataset hex = Ok tt ->
  exists bytes, Credentials.hex_pairs hex = Some (Some bytes) /\
    (2 * length bytes)%nat = String.length hex /\ Forall (fun b => 0 <= b < 256) bytes /\
    Credentials.thread_dataset_info hex = Some (Credentials.thread_tlvs (length bytes) bytes None None).
Proof.
  unfold validate_thread_dataset. intros Hv. destruct (str_is_empty hex); [done|]. simpl in Hv.
  destruct (Z.eqb_spec (str_len hex mod 2) 0) as [Hm|]; [|done]. simpl in Hv.
  destruct (str_forall is_ascii_hexdigit hex) eqn:Hs; [|done].
  destruct (hex_pairs_valid (Z.to_nat (str_len hex / 2)) hex) as (l & E & Hl & Hf); [|done|].
  { apply Z.div_exact in Hm; [|done]. unfold str_len in *. lia. }
  exists l. unfold Credentials.thread_dataset_info. rewrite E. split; [done|]. split; [|by split].
  apply Z.div_exact in Hm; [|done]. unfold str_len in *. lia.
Qed.

(** ** The fabric label *)

Section label.
Context {S L : Type} `{SerdeJson} `{NodeDate} `{Processes} `{!Stack S} `{!LogLevels L} (c : Ctrl).

(** Who may change the fabric label.  A pinned label and a label owned by
    another connection are left alone and the command answers null; otherwise
    the normalized label goes to the stack; when the stack accepts it the
    connection owns the label and the configuration has it, and when it
    refuses the error is reported, the configuration is as before, and the
    ownership is what it was. *)
Theorem set_default_fabric_label_spec (conn : ConnId) (args : Map) (w : World S L) :
  ConfigWrite ∉ w_held w ->
  let label := normalize_fabric_label (and_then (bt_get args "label") as_str) in
  let (r, w') := run_ctrl (Fabrics.set_default_fabric_label c conn args) w in
  if c_label_locked c then r = Ok VNull /\ w' = w
  else if bool_decide (w_label_owner w = None \/ w_label_owner w = Some conn) then
    match stack_call _ (UpdateFabricLabel label) (w_stack w) with
    | (Ok _, s) => r = Ok VNull /\ w_stack w' = s /\ w_label_owner w' = Some conn /\
                   w_config w' = Fabrics.set_fabric_label label (w_config w)
    | (Err e, s) => r = Err (err SdkStackError (se_message e)) /\ w_stack w' = s /\
                    w_label_owner w' = w_label_owner w /\ w_config w' = w_config w /\ w_shared w' = w_shared w
    end
  else r = Ok VNull /\ w' = w.
Proof.
  intros Hh label. unfold Fabrics.set_default_fabric_label. destruct (c_label_locked c); [by rewrite run_ctrl_ret|].
  rewrite run_ctrl_bind.
  rewrite run_atom.
  destruct w as [sh cf ow lg st held]. cbn [w_label_owner w_stack w_held w_config w_shared with_owner] in *.
  unfold Fabrics.claim_label. destruct ow as [o|].
  - destruct (Z.eqb_spec o conn) as [->|Hne].
    + rewrite bool_decide_eq_true_2 by by right. rewrite run_ctrl_bind, run_stack. fold label. cbn [w_stack with_stack with_owner].
      destruct (stack_call _ (UpdateFabricLabel label) st) as [[[]|e] s]; cbn [fst snd].
      * rewrite run_ctrl_bind. rewrite run_update_config by done. cbv beta iota. by destruct (run_io _ _).
      * done.
    + rewrite bool_decide_eq_false_2 by by intros [|[= ?]]. done.
  - rewrite bool_decide_eq_true_2 by by left. rewrite run_ctrl_bind, run_stack. fold label. cbn [w_stack with_stack with_owner].
    destruct (stack_call _ (UpdateFabricLabel label) st) as [[[]|e] s]; cbn [fst snd].
    + rewrite run_ctrl_bind. rewrite run_update_config by done. cbv beta iota. by destruct (run_io _ _).
    + rewrite run_ctrl_bind, run_modify_world. cbn. by rewrite Z.eqb_refl.
Qed.
End label.

(** ** Access-control entries *)

(** An access-control entry is dropped exactly when it is not an object or
      every one of its listed subjects is the target node itself (an empty list
      included); otherwise the written entry lists exactly the other subjects,
      in order, and keeps a null list null. *)
Theorem map_acl_entry_spec (entry : Value) (n : Z) :
  match Fabrics.map_acl_entry entry n with
  | None => as_object entry = None \/
            exists l, value_get entry "subjects" = Some (VArray l) /\ forall s, s ∈ l -> as_u64 s = Some n
  | Some v =>
      match value_get entry "subjects" with
      | Some (VArray l) =>
          exists kept, value_get v "3" = Some (VArray kept) /\ kept `sublist_of` l /\ kept <> [] /\
            forall s, s ∈ kept <-> s ∈ l /\ as_u64 s <> Some n
      | Some other => value_get v "3" = Some other
      | None => value_get v "3" = Some VNull
      end
  end.
Proof.
  unfold Fabrics.map_acl_entry. destruct entry as [| | | | |obj]; try (by left). cbn [as_object value_get].
  assert (Htag : forall out x, value_get (VObject (match bt_get obj "targets" with
           | None | Some VNull => bt_insert "4" VNull (bt_insert "3" x out)
           | Some (VArray targets) => bt_insert "4" (VArray (map Fabrics.map_acl_target targets)) (bt_insert "3" x out)
           | Some other => bt_insert "4" other (bt_insert "3" x out) end)) "3" = Some x).
  { intros out x. cbn [value_get]. destruct (bt_get obj "targets") as [[]|];
      rewrite bt_get_insert_ne by done; apply bt_get_insert_eq. }
  destruct (bt_get obj "subjects") as [[| | | |l|]|]; try apply Htag.
  destruct (List.filter (fun s => negb (bool_decide (as_u64 s = Some n))) l) as [|s0 kept] eqn:E.
  - right. exists l. split; [done|]. intros s Hs. destruct (decide (as_u64 s = Some n)) as [|Hne]; [done|].
    assert (Hin : In s (List.filter (fun s => negb (bool_decide (as_u64 s = Some n))) l)).
    { apply filter_In. split; [by apply list_elem_of_In|]. by rewrite bool_decide_eq_false_2. }
    by rewrite E in Hin.
  - exists (s0 :: kept). split; [apply Htag|]. rewrite <- E. split; [|split; [by rewrite E|]].
    + clear. induction l as [|a l IH]; simpl; [constructor|]. destruct (negb _); by constructor.
    + intros s. rewrite !list_elem_of_In, filter_In, negb_true_iff, bool_decide_eq_false. done.
Qed.

(** ** Witnesses *)

Section witnesses.
#[local] Existing Instances TreeJson demo_processes demo_date HexBase64.

Lemma handle_command_releases_locks_witness :
  w_held (run_ctrl (handle_command demo_ctrl 1
    {| cm_message_id := "1"; cm_command := "commission_with_code"; cm_args := [("code", VString "MT:X")] |}) demo_world).2 = [].
Proof. by apply (handle_command_releases_locks demo_ctrl 1). Defined.

Lemma unknown_node_rejected_witness :
  (run_ctrl (handle_command demo_ctrl 1
    {| cm_message_id := "1"; cm_command := "remove_node"; cm_args := [("node_id", json_u 99)] |}) demo_world).2 = demo_world.
Proof.
  rewrite (unknown_node_rejected demo_ctrl 1
    {| cm_message_id := "1"; cm_command := "remove_node"; cm_args := [("node_id", json_u 99)] |} 99 demo_world);
    [reflexivity | unfold node_commands; set_solver | reflexivity | reflexivity].
Defined.

Lemma remove_node_spec_witness :
  (run_ctrl (Nodes.remove_node demo_ctrl [("node_id", json_u 7)]) demo_world).1 = Ok VNull.
Proof.
  pose proof (remove_node_spec demo_ctrl [("node_id", json_u 7)] 7 (new_entry (demo_record 7)) demo_world eq_refl eq_refl) as HW.
  destruct (run_ctrl _ _) as [r w']. exact (proj1 HW).
Defined.

Lemma do_commission_spec_witness :
  exists id, id <> 112233 /\ 1 <= id /\
    cfg_next_node_id (w_config (run_ctrl (Commissioning.do_commission demo_ctrl (Code "MT:X")) demo_world).2) = id + 1.
Proof.
  destruct (do_commission_spec demo_ctrl (Code "MT:X") demo_world) as (id & _ & Hc & Hge & _ & HW).
  - reflexivity.
  - apply bt_wf_from_iter.
  - split; vm_compute; congruence.
  - exists id. split; [exact Hc|]. split; [exact Hge|]. destruct (run_ctrl _ _) as [r w']. exact (proj1 HW).
Defined.

Lemma set_wifi_spec_witness :
  (run_ctrl (Credentials.set_wifi demo_ctrl [("credentials", VString "pw"); ("ssid", VString "net")]) demo_world).1 = Ok (VObject []).
Proof.
  pose proof (set_wifi_spec demo_ctrl [("credentials", VString "pw"); ("ssid", VString "net")] demo_world
    (not_elem_of_nil _)) as HW.
  destruct (run_ctrl _ _) as [r w']. vm_compute in HW. exact (proj1 (proj2 HW)).
Defined.

Lemma get_all_hides_passwords_witness :
  let cfg pw := {| cfg_fabric_label := "H"; cfg_next_node_id := 1;
                   cfg_wifi_credentials := [("default", {| wc_ssid := "net"; wc_password := pw |})];
                   cfg_thread_datasets := [] |} in
  Credentials.all_credentials (cfg "secret") = Credentials.all_credentials (cfg "other").
Proof. intros cfg. by apply (get_all_hides_passwords (cfg "secret") (cfg "other")). Defined.

Lemma thread_dataset_info_total_witness :
  exists bytes, Credentials.thread_dataset_info "0302ABcd" = Some (Credentials.thread_tlvs 4 bytes None None).
Proof.
  destruct (thread_dataset_info_total "0302ABcd" eq_refl) as (bytes & Hb & Hl & _ & E). exists bytes.
  rewrite E. by replace (length bytes) with 4%nat by (simpl in Hl; lia).
Defined.

Lemma set_default_fabric_label_spec_witness :
  w_label_owner (run_ctrl (Fabrics.set_default_fabric_label demo_ctrl 5 [("label", VString "Home")]) demo_world).2 = Some 5.
Proof.
  pose proof (set_default_fabric_label_spec demo_ctrl 5 [("label", VString "Home")] demo_world (not_elem_of_nil _)) as HW.
  destruct (run_ctrl _ _) as [r w']. vm_compute in HW. apply HW.
Defined.
End witnesses.
