(* ===== verification/Progress.v ===== *)
(** * Commands finish

    Any number of commands, of any connections, run as tasks of one pool
    ([Sched]) and share the two asynchronous locks of the controller.  The
    discipline of [Controller] (a task acquires in one order and releases what
    it holds) is enough: no lock is ever leaked to nobody, some task can always
    go on, and no schedule goes on for ever. *)

From S2P Require Import Prelude Json Wire Prog Fs Storage Registry StackApi NodeManager Controller Commands Dispatch Sched.

(** Removing a lock, as a set operation. *)
Lemma elem_of_remove_lock l x h : x ∈ remove_lock l h <-> x ∈ h /\ x <> l.
Proof.
  unfold remove_lock. rewrite !list_elem_of_In. split.
  - intros Hx. apply in_remove in Hx. tauto.
  - intros [Hx Hl]. by apply in_in_remove.
Qed.

Lemma NoDup_remove_lock l h : NoDup h -> NoDup (remove_lock l h).
Proof.
  intros Hn. induction Hn as [|x h Hx Hn IH]; [apply NoDup_nil_2|].
  unfold remove_lock in *. simpl. case_decide; [done|]. constructor; [|done].
  intros Hin. destruct Hx. by apply elem_of_remove_lock in Hin as [? _].
Qed.

(** Replacing one element of a list, up to permutation. *)
Lemma concat_insert_Permutation {A} (ls : list (list A)) i l :
  ls !! i = Some l -> exists rest, concat ls ≡ₚ l ++ rest /\ forall l', concat (<[i := l']> ls) ≡ₚ l' ++ rest.
Proof.
  intros Hi. exists (concat (delete i ls)). pose proof (lookup_lt_Some _ _ _ Hi) as Hlt.
  assert (Hc : forall l', concat (<[i := l']> ls) ≡ₚ l' ++ concat (delete i ls)).
  { intros l'. revert i Hi Hlt. induction ls as [|m ls IH]; intros [|i] Hi Hlt; simpl in *; try lia; [done|].
    rewrite IH by (done || lia). rewrite !app_assoc. by rewrite (Permutation_app_comm m l'). }
  split; [|done]. rewrite <- (Hc l). by rewrite list_insert_id.
Qed.

Section pools.
Context {S L : Type} `{SerdeJson} `{NodeDate} `{Processes} `{!Stack S} `{!LogLevels L} {A : Type}.
Abbreviation Task := (Prog (COp S L) A).
Abbreviation State := (list Task * World S L)%type.

(** ** Every lock has one owner *)

(** The task holds [h], and will end holding nothing. *)
Definition task_owns (p : Task) (h : list LockName) : Prop := disciplined h [] p.

(** Each task owns some of the locks that are taken, and nobody else does. *)
Definition owned (pw : State) : Prop :=
  exists hs, Forall2 task_owns pw.1 hs /\ w_held pw.2 ≡ₚ concat hs /\ NoDup (w_held pw.2).

Lemma owned_start pool (w : World S L) : Forall (fun p => task_owns p []) pool -> w_held w = [] -> owned (pool, w).
Proof.
  intros Hp Hw. exists (replicate (length pool) []). simpl. rewrite Hw. split; [|split; [|apply NoDup_nil_2]].
  - induction Hp; simpl; by constructor.
  - clear Hp. by induction pool.
Qed.

(** The locks taken after an operation that was allowed to run. *)
Lemma step_held {B} (op : COp S L B) h rest (w w' : World S L) b :
  op_ok op h -> enabled op w = true -> ctrl_step B op w = (b, w') ->
  w_held w ≡ₚ h ++ rest -> NoDup (w_held w) ->
  w_held w' ≡ₚ held_after op h ++ rest /\ NoDup (w_held w').
Proof.
  intros Hop Hen Hs Hh Hn. destruct op as [X f|l|l|X op|argv]; simpl in *.
  - specialize (Hop w). rewrite Hs in Hop. simpl in Hop. by rewrite Hop.
  - injection Hs as _ <-. simpl. apply negb_true_iff, bool_decide_eq_false in Hen. rewrite Hh.
    split; [done|]. constructor; [by rewrite <- Hh | by rewrite <- Hh].
  - injection Hs as _ <-. simpl. fold (remove_lock l (w_held w)). split; [|by apply NoDup_remove_lock].
    assert (Hnd : NoDup (h ++ rest)) by by rewrite <- Hh.
    pose proof Hnd as (Hnh & Hdisj & Hnr)%NoDup_app.
    apply NoDup_Permutation; [by apply NoDup_remove_lock | |].
    + apply NoDup_app. split; [by apply NoDup_remove_lock|]. split; [|done].
      intros x [Hx _]%elem_of_remove_lock. by apply Hdisj.
    + intros x. rewrite elem_of_app, !elem_of_remove_lock, Hh, elem_of_app. split; [tauto|].
      intros [[? ?]|Hx]; [tauto|]. split; [tauto|]. intros ->. by apply (Hdisj l).
  - destruct (stack_call X op (w_stack w)). injection Hs as _ <-. done.
  - by injection Hs as _ <-.
Qed.

Lemma pool_step_inv i (pool pool' : list Task) (w w' : World S L) :
  pool_step i (pool, w) = Some (pool', w') ->
  exists B (op : COp S L B) k b, pool !! i = Some (Do op k) /\ enabled op w = true /\
    ctrl_step B op w = (b, w') /\ pool' = <[i := k b]> pool.
Proof.
  unfold pool_step. simpl. destruct (pool !! i) as [[a|B op k]|] eqn:Hp; try done. simpl.
  destruct (enabled op w) eqn:Hen; [|done]. destruct (ctrl_step B op w) as [b w1] eqn:Hs.
  intros [= <- <-]. by exists B, op, k, b.
Qed.

Lemma owned_step i (pw pw' : State) : owned pw -> pool_step i pw = Some pw' -> owned pw'.
Proof.
  destruct pw as [pool w], pw' as [pool' w']. intros (hs & Hall & Hh & Hn) Hs. simpl in *.
  apply pool_step_inv in Hs as (B & op & k & b & Hp & Hen & Hs & ->).
  destruct (Forall2_lookup_l _ _ _ _ _ Hall Hp) as (h & Hi & [Hop Hk]).
  destruct (concat_insert_Permutation hs i h Hi) as (rest & Hr & Hr').
  rewrite Hr in Hh. destruct (step_held op h rest w w' b Hop Hen Hs Hh Hn) as [Hh' Hn'].
  exists (<[i := held_after op h]> hs). simpl. split; [|split; [|done]].
  - apply Forall2_insert; [done | apply Hk].
  - by rewrite Hr'.
Qed.

Lemma owned_run schedule (pw pw' : State) : owned pw -> pool_run schedule pw = Some pw' -> owned pw'.
Proof. intros Ho. apply pool_run_inv; [intros i x y; apply owned_step | done]. Qed.

(** When all have finished, nothing is locked. *)
Lemma owned_finished (pw : State) : owned pw -> finished pw.1 -> w_held pw.2 = [].
Proof.
  intros (hs & Hall & Hh & _) Hf. apply Permutation_nil_r. rewrite Hh. clear Hh.
  induction Hall as [|p h pool hs Hp Hall IH]; simpl; [done|].
  apply Forall_cons in Hf as [[a ->] Hf]. simpl in Hp. rewrite Hp. by apply IH.
Qed.

(** The order of the tasks does not matter, and a task can come or, finished, go. *)
Lemma owned_Permutation (pool pool' : list Task) (w : World S L) : pool ≡ₚ pool' -> owned (pool, w) -> owned (pool', w).
Proof.
  intros Hp (hs & Hall & Hh & Hn). simpl in *. destruct (Permutation_Forall2 Hp Hall) as (hs' & Hp' & Hall').
  exists hs'. simpl. split; [done|]. split; [|done]. rewrite Hh. by rewrite Hp'.
Qed.

Lemma owned_cons (p : Task) (pool : list Task) (w : World S L) : keeps [] p -> owned (pool, w) -> owned (p :: pool, w).
Proof. intros Hp (hs & Hall & Hh & Hn). exists ([] :: hs). simpl. split; [by constructor | done]. Qed.

Lemma owned_uncons (a : A) (pool : list Task) (w : World S L) : owned (Ret a :: pool, w) -> owned (pool, w).
Proof.
  intros (hs & Hall & Hh & Hn). simpl in *. inversion Hall as [|? h ? hs' Ha Hall' E1 E2]; subst. exists hs'.
  split; [done|]. split; [|done]. unfold task_owns in Ha. simpl in Ha. by rewrite Ha in Hh.
Qed.

Lemma owned_head (p p' : Task) (pool : list Task) (w w' : World S L) :
  owned (p :: pool, w) -> task_step p w = Some (p', w') -> owned (p' :: pool, w').
Proof. intros Ho Hs. apply (owned_step 0 (p :: pool, w)); [done|]. unfold pool_step. simpl. by rewrite Hs. Qed.

(** The world matters only for its locks. *)
Lemma owned_world (pool : list Task) (w w' : World S L) : w_held w' = w_held w -> owned (pool, w) -> owned (pool, w').
Proof. intros E (hs & Hall & Hh & Hn). exists hs. simpl in *. by rewrite E. Qed.

(** ** Somebody can always go on *)

(** Whoever holds a lock waits at most for a later lock. *)
Lemma holder_steps n l (pw : State) :
  owned pw -> l ∈ w_held pw.2 -> (1 - lock_rank l <= n)%nat -> exists i pw', pool_step i pw = Some pw'.
Proof.
  intros (hs & Hall & Hh & Hn). revert l. induction n as [|n IH]; intros l Hl Hr.
  all: pose proof Hl as Hl'; rewrite Hh in Hl'; apply list_elem_of_In, in_concat in Hl' as (h & Hin & Hlh);
    rewrite <- list_elem_of_In in Hin; rewrite <- list_elem_of_In in Hlh; apply list_elem_of_lookup in Hin as [i Hi];
    destruct (Forall2_lookup_r _ _ _ _ _ Hall Hi) as (p & Hp & Ho);
    destruct p as [a|B op k]; [unfold task_owns in Ho; simpl in Ho; rewrite Ho in Hlh; by apply elem_of_nil in Hlh|];
    destruct Ho as [Hop _];
    destruct (enabled op pw.2) eqn:Hen;
      [exists i; unfold pool_step; rewrite Hp; simpl; rewrite Hen; destruct (ctrl_step B op pw.2); by eexists|];
    destruct op as [X f|l'|l'|X op|argv]; simpl in Hen; try done;
    apply negb_false_iff, bool_decide_eq_true in Hen; simpl in Hop; specialize (Hop l Hlh).
  - destruct l, l'; simpl in *; lia.
  - apply (IH l' Hen). lia.
Qed.

Lemma owned_progress (pw : State) : owned pw -> finished pw.1 \/ exists i pw', pool_step i pw = Some pw'.
Proof.
  intros Ho. apply Forall_or. intros p [i Hp]%list_elem_of_lookup. destruct p as [a|B op k]; [left; by exists a | right].
  destruct (enabled op pw.2) eqn:Hen.
  - exists i. unfold pool_step. rewrite Hp. simpl. rewrite Hen. destruct (ctrl_step B op pw.2). by eexists.
  - destruct op as [X f|l|l|X op|argv]; simpl in Hen; try done.
    apply negb_false_iff, bool_decide_eq_true in Hen. by apply (holder_steps 1 l pw Ho Hen); lia.
Qed.

(** ** Nobody goes on for ever *)

(** A task after one of its operations. *)
Definition continuation (p' p : Task) : Prop :=
  match p with Ret _ => False | Do op k => exists b, p' = k b end.

Lemma continuation_wf : well_founded continuation.
Proof. intros p. induction p as [a|B op k IH]; constructor; [done|]. intros p' [b ->]. apply IH. Qed.

Definition pool_continuation (pool' pool : list Task) : Prop :=
  exists i p p', pool !! i = Some p /\ continuation p' p /\ pool' = <[i := p']> pool.

Lemma pool_continuation_wf : well_founded pool_continuation.
Proof.
  intros pool. induction pool as [|p pool IH]; [constructor; by intros ? (i & ? & ? & ? & _)|].
  revert p. induction IH as [pool _ IHpool]. intros p. induction (continuation_wf p) as [p Hp IHp].
  constructor. intros pool' ([|i] & q & q' & Hq & Hc & ->); simplify_eq/=; [by apply IHp|].
  apply IHpool. by exists i, q, q'.
Qed.

Definition pool_steps (pw' pw : State) : Prop := exists i, pool_step i pw = Some pw'.

Lemma pool_steps_wf : well_founded pool_steps.
Proof.
  intros [pool w]. revert w. induction (pool_continuation_wf pool) as [pool _ IH]. intros w.
  constructor. intros [pool' w'] [i Hs]. apply IH.
  apply pool_step_inv in Hs as (B & op & k & b & Hp & _ & _ & ->). exists i, (Do op k), (k b). split; [done|].
  split; [by exists b | done].
Qed.

Lemma wf_no_infinite_sequence {X} (R : X -> X -> Prop) : well_founded R -> ~ exists f, forall n, R (f (Datatypes.S n)) (f n).
Proof.
  intros Hw [f Hf]. assert (G : forall x, forall n, f n = x -> False); [|by apply (G (f 0%nat) 0%nat)].
  intros x. induction (Hw x) as [x _ IH]. intros n <-. by apply (IH (f (Datatypes.S n)) (Hf n) (Datatypes.S n)).
Qed.

(** From an owned state some schedule finishes everything. *)
Lemma owned_finishes (pw : State) :
  owned pw -> exists rest pw', pool_run rest pw = Some pw' /\ finished pw'.1 /\ w_held pw'.2 = [].
Proof.
  induction (pool_steps_wf pw) as [pw _ IH]. intros Ho.
  destruct (owned_progress pw Ho) as [Hf|(i & pw' & Hs)].
  - exists [], pw. split; [done|]. split; [done | by apply owned_finished].
  - destruct (IH pw' (ex_intro _ i Hs) (owned_step i pw pw' Ho Hs)) as (rest & pw2 & Hr & Hd).
    exists (i :: rest), pw2. simpl. by rewrite Hs.
Qed.
End pools.

(** ** The commands of any number of connections *)

Section commands.
Context {S L : Type} `{SerdeJson} `{NodeDate} `{Processes} `{!Stack S} `{!LogLevels L} (c : Ctrl).

(** The requests being handled at a time: [ws.rs] handles those of one
    connection one after the other, those of different connections in parallel. *)
Definition request_tasks (reqs : list (ConnId * CommandMessage)) : list (Prog (COp S L) CommandResult) :=
  map (fun r => handle_command c r.1 r.2) reqs.

Lemma owned_requests reqs (w : World S L) : w_held w = [] -> owned (request_tasks reqs, w).
Proof.
  intros Hw. apply owned_start; [|done]. unfold request_tasks. apply Forall_map, Forall_true. intros r.
  apply keeps_handle_command.
Qed.

(** Commands cannot deadlock: however the operations of any number of
    requests interleave on the controller's two locks, in every state they can
    reach either every request has its answer and no lock is held, or some
    task can take its next step. *)
Theorem commands_never_deadlock (reqs : list (ConnId * CommandMessage)) (w : World S L) (schedule : list nat)
    (pool : list (Prog (COp S L) CommandResult)) (w' : World S L) :
  w_held w = [] -> pool_run schedule (request_tasks reqs, w) = Some (pool, w') ->
  (finished pool /\ w_held w' = []) \/ exists i pw, pool_step i (pool, w') = Some pw.
Proof.
  intros Hw Hr. pose proof (owned_run schedule _ _ (owned_requests reqs w Hw) Hr) as Ho.
  destruct (owned_progress _ Ho) as [Hf|?]; [left | by right]. split; [done | by apply (owned_finished _ Ho)].
Qed.

(** C20: every request is answered: no schedule of the requests is infinite,
    and from every state the requests can reach there is a schedule that
    answers all of them, leaving both locks free. *)
Theorem commands_finish (reqs : list (ConnId * CommandMessage)) (w : World S L) (schedule : list nat)
    (pool : list (Prog (COp S L) CommandResult)) (w' : World S L) :
  w_held w = [] -> pool_run schedule (request_tasks reqs, w) = Some (pool, w') ->
  (~ exists f : nat -> list (Prog (COp S L) CommandResult) * World S L,
       forall n, exists i, pool_step i (f n) = Some (f (Datatypes.S n))) /\
  exists rest pw, pool_run rest (pool, w') = Some pw /\ finished pw.1 /\ w_held pw.2 = [].
Proof.
  intros Hw Hr. split; [apply (wf_no_infinite_sequence pool_steps), pool_steps_wf|].
  apply owned_finishes, (owned_run schedule _ _ (owned_requests reqs w Hw) Hr).
Qed.
End commands.

(** ** Two commissionings and a credential *)

#[local] Existing Instances TreeJson demo_processes demo_date.
Definition demo_requests : list (ConnId * CommandMessage) :=
  [(1, {| cm_message_id := "a"; cm_command := "commission_with_code"; cm_args := [("code", VString "MT:X")] |});
   (2, {| cm_message_id := "b"; cm_command := "commission_with_code"; cm_args := [("code", VString "MT:Y")] |});
   (3, {| cm_message_id := "c"; cm_command := "remove_wifi_credentials"; cm_args := [] |})].
Abbreviation demo_pool := (request_tasks (S := FakeStack) (L := string * option string) demo_ctrl demo_requests).
(** The first holds both locks, the other two wait. *)
Definition demo_blocked : list nat := [0; 0; 0]%nat.
Definition demo_state : list (Prog (COp FakeStack (string * option string)) CommandResult) * DemoWorld :=
  default (demo_pool, demo_world) (pool_run demo_blocked (demo_pool, demo_world)).

Lemma demo_state_reached : pool_run demo_blocked (demo_pool, demo_world) = Some (demo_state.1, demo_state.2).
Proof.
  assert (E : match pool_run demo_blocked (demo_pool, demo_world) with Some _ => true | None => false end = true) by by lazy.
  unfold demo_state. destruct (pool_run demo_blocked (demo_pool, demo_world)) as [[pool w]|]; done.
Qed.

Lemma commands_never_deadlock_witness :
  w_held demo_state.2 = [ConfigWrite; AllocLock] /\
  ((finished demo_state.1 /\ w_held demo_state.2 = []) \/ exists i pw, pool_step i (demo_state.1, demo_state.2) = Some pw).
Proof.
  split; [by vm_compute|].
  exact (commands_never_deadlock demo_ctrl demo_requests demo_world demo_blocked _ _ eq_refl demo_state_reached).
Defined.

Lemma commands_finish_witness :
  exists rest pw, pool_run rest (demo_state.1, demo_state.2) = Some pw /\ finished pw.1 /\ w_held pw.2 = [].
Proof.
  exact (proj2 (commands_finish demo_ctrl demo_requests demo_world demo_blocked _ _ eq_refl demo_state_reached)).
Defined.
