(* ===== verification/ConfigLock.v ===== *)
(** * No update of the configuration is lost

    [update_config] of [crates/controller/src/controller.rs] is the only way a
    command changes the configuration: the credential commands, the fabric label
    and the allocation of node ids.  Here any commands run as tasks of one pool
    ([Sched]); the history of the configuration is the list of updates in the
    order in which they had the lock. *)

From S2P Require Import Prelude Json Wire Prog Fs Storage Registry StackApi NodeManager Controller Commands Dispatch Sched Progress.

Section updates.
Context {S L : Type} `{SerdeJson} `{NodeDate} `{Processes} `{!Stack S} `{!LogLevels L} (c : Ctrl).
Abbreviation CProg A := (Prog (COp S L) A).

(** What an update does to the configuration, given what else it reads. *)
Abbreviation Change := (World S L -> ConfigData -> ConfigData).

(** An update of task [up_task], applied in the world [up_world]. *)
Record Update : Type := { up_task : nat; up_world : World S L; up_change : Change }.

(** The updates lead from one configuration to another, each applied to the
    configuration the one before left. *)
Fixpoint chained (cfg : ConfigData) (us : list Update) (cfg' : ConfigData) : Prop :=
  match us with
  | [] => cfg' = cfg
  | u :: us => w_config (up_world u) = cfg /\ chained (up_change u (up_world u) cfg) us cfg'
  end.

Definition updates_of (i : nat) (us : list Update) : list (World S L * Change) :=
  omap (fun u => if (up_task u =? i)%nat then Some (up_world u, up_change u) else None) us.

(** An operation that has nothing to do with the configuration or its lock. *)
Definition quiet {B} (op : COp S L B) : Prop :=
  match op with
  | Atom f => forall w, w_config (f w).2 = w_config w /\ w_held (f w).2 = w_held w
  | Acquire l | Release l => l <> ConfigWrite
  | CallStack _ | Command _ => True
  end.

(** [p] gets to [q] with these updates, in this order: quiet operations apart, all
    it does is [update_config], which answers what its closure computed from the
    configuration it changed. *)
Inductive performed {A} : CProg A -> list (World S L * Change) -> CProg A -> Prop :=
| performed_nothing p : performed p [] p
| performed_quiet B (op : COp S L B) k b us q : quiet op -> performed (k b) us q -> performed (Do op k) us q
| performed_update R (f : World S L -> ConfigData -> R * ConfigData) k w r us q :
    performed (k ((f w (w_config w)).1, r)) us q ->
    performed (prog_bind (update_config c f) k) ((w, fun w cfg => (f w cfg).2) :: us) q.

(** The programs that change the configuration in no other way. *)
Inductive updater {A} : CProg A -> Prop :=
| updater_ret a : updater (Ret a)
| updater_do B (op : COp S L B) k : quiet op -> (forall b, updater (k b)) -> updater (Do op k)
| updater_then R (f : World S L -> ConfigData -> R * ConfigData) k :
    (forall x, updater (k x)) -> updater (prog_bind (update_config c f) k).

(** ** Inside an update *)

Section stages.
Context {R A : Type} (f : World S L -> ConfigData -> R * ConfigData) (k : R * Result unit IoError -> CProg A).

Definition at_release (x : R * ConfigData) (r : Result unit IoError) : CProg A :=
  Do (Release ConfigWrite) (fun _ => k (x.1, r)).
Definition at_write (x : R * ConfigData) (r : Result unit IoError) : CProg A :=
  Do (Atom (fun w => (tt, with_config x.2 w))) (fun _ => at_release x r).
Definition at_save (x : R * ConfigData) : CProg A :=
  Do (Atom (fun w : World S L =>
    let '(r, fs) := run_io (save_config (c_storage c) x.2) (sh_fs (w_shared w)) in (r, on_shared (set_fs fs) w))) (at_write x).
Definition at_apply (cfg : ConfigData) : CProg A := Do (Atom (fun w => (f w cfg, w))) at_save.
Definition at_snapshot : CProg A := Do (Atom (fun w => (w_config w, w))) at_apply.

Lemma update_stages : prog_bind (update_config c f) k = Do (Acquire ConfigWrite) (fun _ => at_snapshot).
Proof. reflexivity. Qed.
End stages.

(** A task in an update, the configuration being [cfg]: it has yet to apply it, or
    has applied it in a world with this very configuration, or has stored it. *)
Inductive inside {A} (p0 : CProg A) (us : list (World S L * Change)) (cfg : ConfigData) : CProg A -> Prop :=
| in_snapshot R (f : World S L -> ConfigData -> R * ConfigData) k :
    (forall x, updater (k x)) -> performed p0 us (prog_bind (update_config c f) k) -> inside p0 us cfg (at_snapshot f k)
| in_apply R (f : World S L -> ConfigData -> R * ConfigData) k :
    (forall x, updater (k x)) -> performed p0 us (prog_bind (update_config c f) k) -> inside p0 us cfg (at_apply f k cfg)
| in_save R (f : World S L -> ConfigData -> R * ConfigData) k w :
    (forall x, updater (k x)) -> performed p0 us (prog_bind (update_config c f) k) -> w_config w = cfg ->
    inside p0 us cfg (at_save k (f w cfg))
| in_write R (f : World S L -> ConfigData -> R * ConfigData) k w r :
    (forall x, updater (k x)) -> performed p0 us (prog_bind (update_config c f) k) -> w_config w = cfg ->
    inside p0 us cfg (at_write k (f w cfg) r)
| in_release R (k : R * Result unit IoError -> CProg A) x r :
    (forall x, updater (k x)) -> performed p0 us (k (x.1, r)) -> inside p0 us cfg (at_release k x r).

Definition outside {A} (p0 : CProg A) (us : list (World S L * Change)) (p : CProg A) : Prop :=
  updater p /\ performed p0 us p.

Lemma performed_trans {A} (p q r : CProg A) us1 us2 : performed p us1 q -> performed q us2 r -> performed p (us1 ++ us2) r.
Proof.
  induction 1 as [p|B op k b us q Hq _ IH|R f k w x us q _ IH]; intros Hr; [done | |].
  - apply (performed_quiet B op k b); auto.
  - apply (performed_update R f k w x). auto.
Qed.

Lemma performed_quiet_snoc {A} (p0 : CProg A) us B (op : COp S L B) k b :
  performed p0 us (Do op k) -> quiet op -> performed p0 us (k b).
Proof.
  intros Hp Hq. rewrite <- (app_nil_r us). eapply performed_trans; [exact Hp|]. eapply performed_quiet; [done | constructor].
Qed.

Lemma performed_update_snoc {A} (p0 : CProg A) us R (f : World S L -> ConfigData -> R * ConfigData) k w r :
  performed p0 us (prog_bind (update_config c f) k) ->
  performed p0 (us ++ [(w, fun w cfg => (f w cfg).2)]) (k ((f w (w_config w)).1, r)).
Proof.
  intros Hp. eapply performed_trans; [exact Hp|]. apply (performed_update R f k w r). constructor.
Qed.

Lemma chained_snoc cfg us cfg' u :
  chained cfg us cfg' -> w_config (up_world u) = cfg' -> chained cfg (us ++ [u]) (up_change u (up_world u) cfg').
Proof. revert cfg. induction us as [|v us IH]; intros cfg; simpl; [by intros -> | intros [Hv Hc] Hu; auto]. Qed.

Lemma updates_of_app i us1 us2 : updates_of i (us1 ++ us2) = updates_of i us1 ++ updates_of i us2.
Proof. apply omap_app. Qed.

(** One step of a task, outside an update or in one. *)
Lemma outside_step {A} (p0 p p' : CProg A) us (w w' : World S L) :
  outside p0 us p -> task_step p w = Some (p', w') ->
  (outside p0 us p' /\ w_config w' = w_config w /\ (ConfigWrite ∈ w_held w' <-> ConfigWrite ∈ w_held w)) \/
  (inside p0 us (w_config w') p' /\ w_config w' = w_config w /\ ConfigWrite ∉ w_held w /\ ConfigWrite ∈ w_held w').
Proof.
  intros [Hu Hp] Hs. destruct Hu as [a|B op k Hq Hk|R f k Hk]; [done| |].
  - left. simpl in Hs. destruct (enabled op w) eqn:Hen; [|done]. destruct (ctrl_step B op w) as [b w1] eqn:E. injection Hs as <- <-.
    split; [split; [apply Hk | by eapply performed_quiet_snoc]|]. clear Hen. destruct op as [X g|l|l|X op|argv]; simpl in *.
    + specialize (Hq w) as [Hc Hh]. rewrite E in Hc, Hh. simpl in *. by rewrite Hh.
    + injection E as _ <-. simpl. split; [done|]. rewrite elem_of_cons. split; [intros [E|]; [by destruct Hq | done] | by right].
    + injection E as _ <-. simpl. split; [done|]. fold (remove_lock l (w_held w)). rewrite elem_of_remove_lock. split; [tauto|]. intros Hin. split; [exact Hin|]. intros E. by apply Hq.
    + destruct (stack_call X op (w_stack w)). by injection E as _ <-.
    + by injection E as _ <-.
  - right. rewrite update_stages in Hs. simpl in Hs. case_bool_decide as Hl; [done|]. injection Hs as <- <-. simpl.
    split; [by constructor|]. split; [done|]. split; [done | by left].
Qed.

Lemma inside_step {A} (p0 p p' : CProg A) us (w w' : World S L) :
  inside p0 us (w_config w) p -> task_step p w = Some (p', w') ->
  (inside p0 us (w_config w') p' /\ w_config w' = w_config w /\ w_held w' = w_held w) \/
  (exists w1 f, inside p0 (us ++ [(w1, f)]) (w_config w') p' /\ w_config w1 = w_config w /\ w_config w' = f w1 (w_config w) /\
    w_held w' = w_held w) \/
  (outside p0 us p' /\ w_config w' = w_config w /\ ConfigWrite ∉ w_held w').
Proof.
  destruct 1 as [R f k Hk Hp|R f k Hk Hp|R f k w1 Hk Hp Hw1|R f k w1 r Hk Hp Hw1|R k x r Hk Hp]; simpl; intros Hs.
  - injection Hs as <- <-. left. split; [by constructor | done].
  - injection Hs as <- <-. left. split; [by constructor | done].
  - destruct (run_io _ _) as [r fs]. injection Hs as <- <-. left. split; [by constructor | done].
  - injection Hs as <- <-. right. left. exists w1, (fun w cfg => (f w cfg).2). rewrite <- Hw1. split; [|done].
    constructor; [done|]. by apply performed_update_snoc.
  - injection Hs as <- <-. right. right. split; [by split|]. split; [done|]. simpl.
    fold (remove_lock ConfigWrite (w_held w)). rewrite elem_of_remove_lock. tauto.
Qed.

(** ** The pool *)

(** [holder] is the task in an update, if any. *)
Record Serial {A} (cfg0 : ConfigData) (ps pool : list (CProg A)) (holder : option nat) (us : list Update) (w : World S L) : Prop := {
  sr_length : length pool = length ps;
  sr_tasks : forall i p0 p, ps !! i = Some p0 -> pool !! i = Some p ->
    if decide (holder = Some i) then inside p0 (updates_of i us) (w_config w) p else outside p0 (updates_of i us) p;
  sr_holder : forall i, holder = Some i -> (i < length ps)%nat;
  sr_lock : ConfigWrite ∈ w_held w <-> holder <> None;
  sr_chain : chained cfg0 us (w_config w);
}.

(** A step of task [i]. *)
Lemma serial_update {A} cfg0 (ps pool : list (CProg A)) holder holder' us more w w' i p0 p p' :
  Serial cfg0 ps pool holder us w -> ps !! i = Some p0 -> pool !! i = Some p ->
  Forall (fun u => up_task u = i) more ->
  (if decide (holder' = Some i) then inside p0 (updates_of i (us ++ more)) (w_config w') p'
   else outside p0 (updates_of i (us ++ more)) p') ->
  (forall j, j <> i -> holder' = Some j <-> holder = Some j) -> (w_config w' = w_config w \/ holder = Some i) ->
  (ConfigWrite ∈ w_held w' <-> holder' <> None) -> chained cfg0 (us ++ more) (w_config w') ->
  Serial cfg0 ps (<[i := p']> pool) holder' (us ++ more) w'.
Proof.
  intros [Hlen Ht Hh Hl Hc] Hp0 Hp Hmore Hi Hj Hcfg Hl' Hc'. split; [by rewrite length_insert | | | done | done].
  - intros j q0 q Hq0 Hq. destruct (decide (j = i)) as [->|Hne].
    + rewrite list_lookup_insert_eq in Hq by (eapply lookup_lt_Some; exact Hp). simplify_eq. exact Hi.
    + rewrite list_lookup_insert_ne in Hq by done. pose proof (Ht j q0 q Hq0 Hq) as Hq'.
      assert (Hsame : updates_of j (us ++ more) = updates_of j us).
      { rewrite updates_of_app. replace (updates_of j more) with (@nil (World S L * Change)); [by rewrite app_nil_r|]. clear -Hmore Hne.
        induction Hmore as [|u more Hu _ IH]; [done|]. unfold updates_of in *. simpl. destruct (Nat.eqb_spec (up_task u) j); [congruence | done]. }
      rewrite Hsame. specialize (Hj j Hne). destruct (decide (holder' = Some j)) as [E|E], (decide (holder = Some j)) as [E'|E']; try tauto.
      destruct Hcfg as [->|?]; [done | congruence].
  - intros j E. destruct (decide (j = i)) as [->|Hne]; [by eapply lookup_lt_Some | by apply Hh, Hj].
Qed.

Lemma serial_step {A} cfg0 (ps pool pool' : list (CProg A)) holder us w w' i :
  Serial cfg0 ps pool holder us w -> pool_step i (pool, w) = Some (pool', w') ->
  exists holder' us', Serial cfg0 ps pool' holder' us' w'.
Proof.
  intros HS Hs. pose proof HS as [Hlen Ht Hh Hl Hc]. unfold pool_step in Hs. simpl in Hs.
  destruct (pool !! i) as [p|] eqn:Hp; [|done]. destruct (task_step p w) as [[p' w1]|] eqn:Hstep; [|done]. injection Hs as <- <-.
  destruct (lookup_lt_is_Some_2 ps i) as [p0 Hp0]; [apply lookup_lt_Some in Hp; lia|]. specialize (Ht i p0 p Hp0 Hp).
  destruct (decide (holder = Some i)) as [->|Hne].
  - apply (inside_step _ _ _ _ _ _ Ht) in Hstep as [(Hi & Hcfg & Hheld)|[(wa & f & Hi & Hwa & Hcfg & Hheld)|(Ho & Hcfg & Hout)]].
    + exists (Some i), (us ++ []). eapply serial_update; try done; rewrite ?app_nil_r.
      * by rewrite decide_True.
      * by left.
      * by rewrite Hheld.
      * by rewrite Hcfg.
    + exists (Some i), (us ++ [{| up_task := i; up_world := wa; up_change := f |}]). eapply serial_update; try done.
      * by repeat constructor.
      * rewrite decide_True by done. rewrite updates_of_app. unfold updates_of at 2. simpl. by rewrite Nat.eqb_refl.
      * by right.
      * by rewrite Hheld.
      * rewrite Hcfg. exact (chained_snoc _ _ _ {| up_task := i; up_world := wa; up_change := f |} Hc Hwa).
    + exists None, (us ++ []). eapply serial_update; try done; rewrite ?app_nil_r; [by rewrite decide_False | | by right | by rewrite Hcfg].
      intros j Hj. split; [done | congruence].
  - apply (outside_step _ _ _ _ _ _ Ht) in Hstep as [(Ho & Hcfg & Hheld)|(Hi & Hcfg & Hfree & Hheld)].
    + exists holder, (us ++ []). eapply serial_update; try done; rewrite ?app_nil_r.
      * by rewrite decide_False.
      * by left.
      * by rewrite Hheld.
      * by rewrite Hcfg.
    + assert (holder = None) as -> by (destruct holder; [by destruct Hfree; apply Hl | done]).
      exists (Some i), (us ++ []). eapply serial_update; try done; rewrite ?app_nil_r; [by rewrite decide_True | | by left | by rewrite Hcfg].
      intros j Hj. split; [congruence | done].
Qed.

Lemma serial_start {A} (ps : list (CProg A)) w :
  Forall updater ps -> ConfigWrite ∉ w_held w -> Serial (w_config w) ps ps None [] w.
Proof.
  intros Hu Hfree. split; try done.
  - intros i p0 p E1 E2. simplify_eq. rewrite decide_False by done. rewrite Forall_lookup in Hu. split; [by eapply Hu | constructor].
Qed.

Lemma serial_run {A} cfg0 (ps : list (CProg A)) schedule pool w pool' w' :
  (exists holder us, Serial cfg0 ps pool holder us w) -> pool_run schedule (pool, w) = Some (pool', w') ->
  exists holder us, Serial cfg0 ps pool' holder us w'.
Proof.
  intros HS Hr. apply (pool_run_inv (fun pw => exists holder us, Serial cfg0 ps pw.1 holder us pw.2)) in Hr; [done | | done].
  intros i [p1 w1] [p2 w2] (holder & us & Hsr) Hs. by eapply serial_step.
Qed.

(** Whatever the programs: once all tasks are finished, the configuration is where
    one history of whole updates leads, and each task did its own part of it. *)
Lemma serial_finished {A} cfg0 (ps pool : list (CProg A)) holder us w :
  Serial cfg0 ps pool holder us w -> finished pool ->
  chained cfg0 us (w_config w) /\
  forall i p0, ps !! i = Some p0 -> exists a, pool !! i = Some (Ret a) /\ performed p0 (updates_of i us) (Ret a).
Proof.
  intros [Hlen Ht Hh Hl Hc] Hfin. split; [done|]. intros i p0 Hp0.
  destruct (lookup_lt_is_Some_2 pool i) as [p Hp]; [apply lookup_lt_Some in Hp0; lia|].
  destruct (Forall_lookup_1 _ _ _ _ Hfin Hp) as [a ->]. exists a. split; [done|]. specialize (Ht i p0 _ Hp0 Hp).
  destruct (decide _); [inversion Ht | apply Ht].
Qed.

(** ** Every command is such a program *)

Lemma updater_bind {A B} (p : CProg A) (f : A -> CProg B) : updater p -> (forall a, updater (f a)) -> updater (prog_bind p f).
Proof.
  intros Hp Hf. induction Hp as [a|X op k Hq Hk IH|R g k Hk IH]; [apply Hf | by constructor|].
  exact (updater_then R g (fun x => prog_bind (k x) f) IH).
Qed.
Lemma updater_lift {A E} (r : Result A E) : updater (lift_result r).
Proof. constructor. Qed.
Lemma updater_try {A B E} (p : CProg (Result A E)) (f : A -> CProg (Result B E)) :
  updater p -> (forall a, updater (f a)) -> updater (try_bind p f).
Proof. intros Hp Hf. apply updater_bind; [done|]. intros []; [apply Hf | constructor]. Qed.
Lemma updater_op {B} (op : COp S L B) : quiet op -> updater (do_op op).
Proof. intros Hq. constructor; [done|]. constructor. Qed.
Lemma updater_read {A} (f : World S L -> A) : updater (read_world f).
Proof. by apply updater_op. Qed.
Lemma updater_modify (f : World S L -> World S L) :
  (forall w, w_config (f w) = w_config w /\ w_held (f w) = w_held w) -> updater (modify_world f).
Proof. intros Hf. by apply updater_op. Qed.
Lemma updater_stack {B} (op : StackOp B) : updater (stack op).
Proof. by apply updater_op. Qed.
Lemma updater_emit event data : updater (emit event data).
Proof. by apply updater_modify. Qed.
Lemma updater_persist rec : updater (persist_record c rec).
Proof. apply updater_op. intros w. by destruct (run_io (save_node (c_storage c) rec) (sh_fs (w_shared w))). Qed.
Lemma updater_update {R} (f : World S L -> ConfigData -> R * ConfigData) : updater (update_config c f).
Proof. exact (updater_then R f Ret (fun x => updater_ret x)). Qed.
End updates.

Create HintDb updater.
#[export] Hint Constants Opaque : updater.
#[export] Hint Resolve updater_ret updater_lift updater_read updater_modify updater_stack updater_emit updater_persist
  updater_update : updater.

(** Prove [updater] by following the program. *)
Ltac updater_step :=
  lazymatch goal with
  | |- updater _ (prog_bind _ _) => apply updater_bind
  | |- updater _ (try_bind _ _) => apply updater_try
  | |- updater _ (do_op _) => apply updater_op; first [done | let w := fresh in intros w; repeat case_match; done]
  | |- updater _ (modify_world _) => apply updater_modify; intros; repeat case_match; done
  | |- updater _ (match ?x with _ => _ end) => destruct x
  | |- updater _ _ => solve [eauto 3 with updater]
  end.
Ltac updater_auto := repeat (intros; cbv beta zeta; updater_step).

Section commands.
Context {S L : Type} `{SerdeJson} `{NodeDate} `{Processes} `{!Stack S} `{!LogLevels L} (c : Ctrl).
Abbreviation updating := (updater (S := S) (L := L) c).

Lemma updater_ping_all addrs n : updating (Nodes.ping_all addrs n).
Proof. induction addrs as [|a addrs IH]; cbn [Nodes.ping_all]; [constructor|]. unfold Nodes.ping_one. updater_auto. Qed.

Lemma updater_get_nodes args : updating (Nodes.get_nodes args).
Proof. unfold Nodes.get_nodes. updater_auto. Qed.

Lemma updater_known_node args r : updating (Misc.known_node args r).
Proof. unfold Misc.known_node, ensure_node. updater_auto. Qed.

Lemma updater_server_info : updating (build_server_info c).
Proof. unfold build_server_info, config_snapshot. updater_auto. Qed.
#[local] Hint Resolve updater_ping_all updater_get_nodes updater_known_node updater_server_info : updater.

Lemma updater_handlers conn args : Forall (fun h => updating h.2) (handlers c conn args).
Proof.
  unfold handlers. repeat first [apply Forall_nil_2 | apply Forall_cons_2]; cbn [snd];
    unfold Nodes.get_node, Nodes.diagnostics, Nodes.interview_node, Nodes.remove_node, Nodes.ping_node,
      Nodes.get_node_ip_addresses, Nodes.merged_addresses, Interaction.read_attribute, Interaction.write_attribute,
      Interaction.device_command, Commissioning.commission_with_code, Commissioning.commission_on_network,
      Commissioning.do_commission, Commissioning.commission_body, Commissioning.finish_commission,
      Commissioning.open_commissioning_window, Commissioning.discover, Credentials.set_wifi,
      Credentials.set_thread, Credentials.remove_wifi, Credentials.remove_thread, Credentials.get_all, Credentials.mutate_config,
      Fabrics.set_default_fabric_label, Fabrics.get_fabric_label, Fabrics.get_matter_fabrics,
      Fabrics.remove_matter_fabric, Fabrics.set_acl_entry, Fabrics.set_node_binding, Misc.get_vendor_names,
      Misc.set_loglevel, Misc.get_loglevel, Misc.icd_state, Misc.resync_icd, Misc.check_node_update,
      Misc.update_node, ensure_node, snapshot_record, get_node_data, broadcast_server_info_updated,
      config_snapshot;
    updater_auto.
Qed.

Lemma updater_handle_command conn cmd : updating (handle_command c conn cmd).
Proof.
  unfold handle_command. destruct (lookup_command _ _) as [p|] eqn:E; [|constructor].
  apply lookup_command_In in E. pose proof (updater_handlers conn (cm_args cmd)) as Hk.
  rewrite Forall_forall in Hk. apply (Hk _ E).
Qed.

(** C7: no update of the configuration is lost.  Commands of any kind, of any
    number of connections - credentials, the fabric label, commissionings that
    allocate a node id, or commands that only read -, run side by side, each step
    of each at any time: when all have been answered there is one history of
    updates, each the whole of a closure applied to the configuration the one
    before it left, that leads from the configuration before to the one after; and
    every command did exactly the updates in it that are its own, in their order,
    and went on with what they answered. *)
Theorem config_updates_serialize (reqs : list (ConnId * CommandMessage)) (w : World S L) (schedule : list nat)
    (pool : list (Prog (COp S L) CommandResult)) (w' : World S L) :
  ConfigWrite ∉ w_held w -> pool_run schedule (request_tasks c reqs, w) = Some (pool, w') -> finished pool ->
  exists history : list (Update (S := S) (L := L)),
    chained (w_config w) history (w_config w') /\
    forall i conn cmd, reqs !! i = Some (conn, cmd) ->
      exists r, pool !! i = Some (Ret r) /\ performed (S := S) (L := L) c (handle_command c conn cmd) (updates_of i history) (Ret r).
Proof.
  intros Hfree Hr Hfin. assert (Hu : Forall updating (request_tasks c reqs)).
  { unfold request_tasks. apply Forall_map, Forall_true. intros []. apply updater_handle_command. }
  destruct (serial_run c (w_config w) _ schedule _ w pool w' (ex_intro _ None (ex_intro _ [] (serial_start c _ w Hu Hfree))) Hr)
    as (holder & us & HS).
  destruct (serial_finished c _ _ _ _ _ _ HS Hfin) as [Hc Ht]. exists us. split; [done|]. intros i conn cmd Hi.
  apply (Ht i). unfold request_tasks. by rewrite list_lookup_fmap, Hi.
Qed.
End commands.

(** ** A label, a credential and a commissioning at the same time *)

#[local] Existing Instances TreeJson demo_processes demo_date.
Definition update_requests : list (ConnId * CommandMessage) :=
  [(1, {| cm_message_id := "a"; cm_command := "set_default_fabric_label"; cm_args := [("label", VString "Home")] |});
   (2, {| cm_message_id := "b"; cm_command := "set_thread_dataset"; cm_args := [("dataset", VString "0e08"); ("id", VString "t")] |});
   (3, {| cm_message_id := "c"; cm_command := "commission_with_code"; cm_args := [("code", VString "MT:X")] |})].
Abbreviation update_pool := (request_tasks (S := FakeStack) (L := string * option string) demo_ctrl update_requests).

(** The tasks take turns, and one that cannot go on is passed over. *)
Fixpoint turns (fuel : nat) (pw : list (Prog (COp FakeStack (string * option string)) CommandResult) * DemoWorld) : list nat :=
  match fuel with
  | O => []
  | Datatypes.S fuel =>
      let i := (fuel mod 3)%nat in
      match pool_step i pw with Some pw => i :: turns fuel pw | None => turns fuel pw end
  end.
Definition update_schedule : list nat := Eval vm_compute in turns 200 (update_pool, demo_world).
Definition update_result : list (Prog (COp FakeStack (string * option string)) CommandResult) * DemoWorld :=
  default (update_pool, demo_world) (pool_run update_schedule (update_pool, demo_world)).

Lemma update_result_reached : pool_run update_schedule (update_pool, demo_world) = Some (update_result.1, update_result.2).
Proof.
  assert (E : match pool_run update_schedule (update_pool, demo_world) with Some _ => true | None => false end = true)
    by (vm_compute; reflexivity).
  unfold update_result. destruct (pool_run update_schedule (update_pool, demo_world)) as [[pool w]|]; done.
Qed.

Definition is_ret {Op A} (p : Prog Op A) : bool := match p with Ret _ => true | Do _ _ => false end.

Lemma finished_ret {S L A} (pool : list (Prog (COp S L) A)) : forallb is_ret pool = true -> finished pool.
Proof.
  intros Hp. apply Forall_forall. intros p Hin. rewrite forallb_forall in Hp. specialize (Hp p (proj1 (list_elem_of_In _ _) Hin)).
  destruct p as [a|]; [by exists a | done].
Qed.

(** The label, the dataset and the number of the node are all in. *)
Lemma config_updates_serialize_witness :
  exists history : list (Update (S := FakeStack) (L := string * option string)),
    chained ConfigData_default history
      {| cfg_fabric_label := "Home"; cfg_next_node_id := 2; cfg_wifi_credentials := []; cfg_thread_datasets := [("t", "0e08")] |}.
Proof.
  destruct (config_updates_serialize demo_ctrl update_requests demo_world update_schedule update_result.1 update_result.2)
    as (history & Hc & _); [apply not_elem_of_nil | exact update_result_reached | apply finished_ret; vm_compute; reflexivity|].
  exists history. assert (E : w_config update_result.2 = {| cfg_fabric_label := "Home"; cfg_next_node_id := 2;
    cfg_wifi_credentials := []; cfg_thread_datasets := [("t", "0e08")] |}) by (vm_compute; reflexivity).
  rewrite E in Hc. exact Hc.
Defined.
