(* ===== verification/Mirror.v ===== *)
(** * What a client knows

    A client asks for the nodes once and then lives on events.  This file says
    what it makes of them ([View], [apply_event]) and shows that the events the
    server sends are enough: when the node manager has handled a stack event, or
    a command has run, the messages sent lead a client that had the nodes right
    to having them right again.  [is_bridge] and [matter_version] are left out
    of the view: the server computes them from the attributes, and so can the
    client. *)

From S2P Require Import Prelude Json Wire Prog Fs Storage Registry StackApi NodeManager Controller Commands Dispatch Sched CommandFacts.

(** ** The client *)

Record NodeView : Type := {
  nv_date_commissioned : string;
  nv_last_interview : string;
  nv_available : bool;
  nv_attributes : gmap string Value;
}.

Abbreviation View := (gmap Z NodeView).

(** A node as an event or a reply describes it. *)
Definition read_node (v : Value) : option (Z * NodeView) :=
  match and_then (value_get v "node_id") as_u64, and_then (value_get v "date_commissioned") as_str,
        and_then (value_get v "last_interview") as_str, and_then (value_get v "available") as_bool,
        and_then (value_get v "attributes") as_object with
  | Some id, Some dc, Some li, Some av, Some at' =>
      Some (id, {| nv_date_commissioned := dc; nv_last_interview := li; nv_available := av; nv_attributes := list_to_map at' |})
  | _, _, _, _, _ => None
  end.

(** The reply to [start_listening] and [get_nodes]. *)
Definition read_nodes (v : Value) : View :=
  match v with VArray l => list_to_map (omap read_node l) | _ => ∅ end.

Definition put_attribute (path : string) (value : Value) (n : NodeView) : NodeView :=
  {| nv_date_commissioned := nv_date_commissioned n; nv_last_interview := nv_last_interview n;
     nv_available := nv_available n; nv_attributes := <[path := value]> (nv_attributes n) |}.

Definition put_node (data : Value) (v : View) : View :=
  match read_node data with Some (id, n) => <[id := n]> v | None => v end.

Definition put_change (data : Value) (v : View) : View :=
  match data with
  | VArray [id; VString path; value] =>
      match as_u64 id with Some id => alter (put_attribute path value) id v | None => v end
  | _ => v
  end.

Definition drop_node (data : Value) (v : View) : View :=
  match as_u64 data with Some id => delete id v | None => v end.

Definition apply_event (v : View) (e : EventMessage) : View :=
  if String.eqb (em_event e) "node_added" || String.eqb (em_event e) "node_updated" then put_node (em_data e) v
  else if String.eqb (em_event e) "attribute_updated" then put_change (em_data e) v
  else if String.eqb (em_event e) "node_removed" then drop_node (em_data e) v
  else v.

(** ** The server's side *)

Definition entry_view (e : NodeEntry) : NodeView :=
  {| nv_date_commissioned := nr_date_commissioned (ne_record e); nv_last_interview := nr_last_interview (ne_record e);
     nv_available := ne_available e; nv_attributes := list_to_map (nr_attributes (ne_record e)) |}.

Definition served (r : Registry) : View := list_to_map (map (fun kv => (kv.1, entry_view kv.2)) r).

Lemma lookup_list_to_map `{Ord K, Countable K} {V} (m : BTreeMap K V) k : (list_to_map m : gmap K V) !! k = bt_get m k.
Proof.
  induction m as [|[k' v] m IH]; simpl; [apply lookup_empty|]. destruct (decide (k = k')) as [->|Hk].
  - by rewrite lookup_insert_eq, cmp_refl.
  - rewrite lookup_insert_ne, IH by done. destruct (cmp k k') eqn:E; [|done..]. by apply cmp_eq in E.
Qed.

Lemma list_to_map_insert `{Ord K, Countable K} {V} (m : BTreeMap K V) k v :
  (list_to_map (bt_insert k v m) : gmap K V) = <[k := v]> (list_to_map m).
Proof.
  apply map_eq. intros j. rewrite lookup_list_to_map, bt_get_insert. case_decide as Hk.
  - subst. by rewrite lookup_insert_eq.
  - by rewrite lookup_insert_ne, lookup_list_to_map.
Qed.

Lemma lookup_served (r : Registry) n : served r !! n = entry_view <$> bt_get r n.
Proof.
  unfold served. induction r as [|[k e] r IH]; simpl; [apply lookup_empty|].
  destruct (Z.compare_spec n k) as [->|?|?]; [by rewrite lookup_insert_eq | |]; by rewrite lookup_insert_ne by lia.
Qed.

Lemma served_insert r n e : served (bt_insert n e r) = <[n := entry_view e]> (served r).
Proof.
  apply map_eq. intros k. rewrite lookup_served, bt_get_insert. case_decide as Hk.
  - subst. by rewrite lookup_insert_eq.
  - by rewrite lookup_insert_ne, lookup_served.
Qed.

Lemma served_remove r n : served (bt_remove n r) = delete n (served r).
Proof.
  apply map_eq. intros k. rewrite lookup_served. destruct (decide (n = k)) as [->|Hk].
  - by rewrite bt_get_remove_eq, lookup_delete_eq.
  - by rewrite bt_get_remove_ne, lookup_delete_ne, lookup_served.
Qed.

(** What the server says about a node is read back. *)
Lemma read_node_data d :
  read_node (node_data_value d) =
  Some (nd_node_id d, {| nv_date_commissioned := nd_date_commissioned d; nv_last_interview := nd_last_interview d;
                         nv_available := nd_available d; nv_attributes := list_to_map (nd_attributes d) |}).
Proof. unfold read_node, node_data_value. by destruct (nd_matter_version d). Qed.

Lemma read_entry_data e : read_node (node_data_value (entry_data e)) = Some (nr_node_id (ne_record e), entry_view e).
Proof. by rewrite read_node_data. Qed.

Lemma put_entry r n e v :
  registry_wf r -> bt_get r n = Some e -> put_node (node_data_value (entry_data e)) v = <[n := entry_view e]> v.
Proof. intros [_ Hk] He. unfold put_node. rewrite read_entry_data. by rewrite (Hk n e He). Qed.

(** The reply lists exactly what is served. *)
Lemma read_all_nodes r : registry_wf r -> read_nodes (VArray (map node_data_value (all_node_data r false))) = served r.
Proof.
  intros [Hwf Hk]. unfold read_nodes, served, all_node_data. f_equal.
  assert (Hf : forall l, List.filter (fun e => negb false || ne_available e) l = l).
  { induction l as [|e l IH]; simpl; [done|]. by f_equal. }
  rewrite Hf. clear Hf. unfold bt_values. rewrite !map_map.
  assert (Hid : Forall (fun kv => nr_node_id (ne_record kv.2) = kv.1) r).
  { apply Forall_forall. intros [k e] Hin. apply Hk. by apply bt_elem_get. }
  clear Hwf Hk. induction Hid as [|[k e] r Hid Hall IH]; [done|].
  cbn [map omap list_omap fst snd]. rewrite read_entry_data. simpl in Hid. by rewrite Hid, IH.
Qed.

(** ** Hearing the same twice

    A client that asks for the nodes again while older messages are still on
    their way applies them to a list that already includes them. *)

Definition patch (m : gmap string Value) (n : NodeView) : NodeView :=
  {| nv_date_commissioned := nv_date_commissioned n; nv_last_interview := nv_last_interview n;
     nv_available := nv_available n; nv_attributes := m ∪ nv_attributes n |}.

Lemma patch_patch m1 m2 n : patch m1 (patch m2 n) = patch (m1 ∪ m2) n.
Proof. unfold patch. cbn. by rewrite map_union_assoc. Qed.

Lemma patch_empty n : patch ∅ n = n.
Proof. unfold patch. rewrite map_empty_union. by destruct n. Qed.

(** All a list of messages does to one node: it settles it, or it overwrites
    some attributes. *)
Inductive NodeEffect : Type :=
| Settles (o : option NodeView)
| Patches (m : gmap string Value).

Definition apply_effect (x : NodeEffect) (o : option NodeView) : option NodeView :=
  match x with Settles o' => o' | Patches m => patch m <$> o end.

Lemma apply_effect_twice x o : apply_effect x (apply_effect x o) = apply_effect x o.
Proof. destruct x as [o'|m]; [done|]. destruct o as [n|]; simpl; [|done]. by rewrite patch_patch, map_union_idemp. Qed.

Lemma event_effect n e : exists x, forall v, apply_event v e !! n = apply_effect x (v !! n).
Proof.
  assert (Hid : exists x, forall v : View, v !! n = apply_effect x (v !! n)).
  { exists (Patches ∅). intros v. simpl. destruct (v !! n); simpl; [by rewrite patch_empty | done]. }
  unfold apply_event. destruct (_ || _); [|destruct (String.eqb (em_event e) "attribute_updated"); [|destruct (String.eqb _ _); [|done]]].
  - unfold put_node. destruct (read_node (em_data e)) as [[k nv]|]; [|done]. destruct (decide (k = n)) as [->|Hk].
    + exists (Settles (Some nv)). intros v. by rewrite lookup_insert_eq.
    + destruct Hid as [x Hx]. exists x. intros v. by rewrite lookup_insert_ne.
  - unfold put_change. destruct (em_data e) as [| | | |[|i [|[| | |path| |] [|value [|]]]]|]; try done.
    destruct (as_u64 i) as [k|]; [|done]. destruct (decide (k = n)) as [->|Hk].
    + exists (Patches {[path := value]}). intros v. rewrite lookup_alter_eq. destruct (v !! n) as [nv|]; [|done]. simpl. f_equal.
      unfold put_attribute, patch. f_equal. by rewrite insert_union_singleton_l.
    + destruct Hid as [x Hx]. exists x. intros v. by rewrite lookup_alter_ne.
  - unfold drop_node. destruct (as_u64 (em_data e)) as [k|]; [|done]. destruct (decide (k = n)) as [->|Hk].
    + exists (Settles None). intros v. by rewrite lookup_delete_eq.
    + destruct Hid as [x Hx]. exists x. intros v. by rewrite lookup_delete_ne.
Qed.

Lemma events_effect n evs : exists x, forall v, fold_left apply_event evs v !! n = apply_effect x (v !! n).
Proof.
  induction evs as [|e evs [x Hx]].
  - exists (Patches ∅). intros v. simpl. destruct (v !! n); simpl; [by rewrite patch_empty | done].
  - destruct (event_effect n e) as [y Hy]. simpl.
    exists (match x with Settles o => Settles o | Patches m =>
              match y with Settles o => Settles (patch m <$> o) | Patches m' => Patches (m ∪ m') end end).
    intros v. rewrite Hx, Hy. destruct x as [o|m]; [done|]. destruct y as [o|m']; [done|].
    destruct (v !! n) as [nv|]; simpl; [by rewrite patch_patch | done].
Qed.

Lemma replay_idempotent evs v : fold_left apply_event evs (fold_left apply_event evs v) = fold_left apply_event evs v.
Proof.
  apply map_eq. intros n. destruct (events_effect n evs) as [x Hx]. rewrite !Hx. apply apply_effect_twice.
Qed.

(** ** Steps that keep the clients right *)

(** From [s] to [s'], the messages sent are enough for a client. *)
Definition mirrors (s s' : Shared) : Prop :=
  registry_wf (sh_registry s) ->
  registry_wf (sh_registry s') /\
  exists evs, sh_events s' = sh_events s ++ evs /\
    fold_left apply_event evs (served (sh_registry s)) = served (sh_registry s').

Lemma mirrors_refl s : mirrors s s.
Proof. intros Hw. split; [done|]. exists []. by rewrite app_nil_r. Qed.

Lemma mirrors_trans s1 s2 s3 : mirrors s1 s2 -> mirrors s2 s3 -> mirrors s1 s3.
Proof.
  intros H1 H2 Hw. destruct (H1 Hw) as (Hw2 & evs1 & E1 & F1). destruct (H2 Hw2) as (Hw3 & evs2 & E2 & F2).
  split; [done|]. exists (evs1 ++ evs2). by rewrite E2, E1, app_assoc, fold_left_app, F1, F2.
Qed.

(** Neither a node nor a message. *)
Definition silent (s s' : Shared) : Prop := sh_registry s' = sh_registry s /\ sh_events s' = sh_events s.

Lemma mirrors_silent s s' : silent s s' -> mirrors s s'.
Proof. intros [Hr He] Hw. rewrite Hr. split; [done|]. exists []. by rewrite He, app_nil_r. Qed.

(** A message that is not about the nodes. *)
Lemma mirrors_other s event data :
  bool_decide (event ∈ ["node_added"; "node_updated"; "attribute_updated"; "node_removed"]) = false ->
  mirrors s (send_event event data s).
Proof.
  intros Hn%bool_decide_eq_false Hw. split; [done|]. eexists. split; [reflexivity|]. simpl. unfold apply_event. cbn [em_event].
  rewrite !not_elem_of_cons in Hn. destruct Hn as (H1 & H2 & H3 & H4 & _).
  by rewrite (proj2 (String.eqb_neq _ _) H1), (proj2 (String.eqb_neq _ _) H2),
    (proj2 (String.eqb_neq _ _) H3), (proj2 (String.eqb_neq _ _) H4).
Qed.

(** A new or changed node, and what is said of it. *)
Lemma mirrors_put s event n e :
  event ∈ ["node_added"; "node_updated"] -> nr_node_id (ne_record e) = n ->
  mirrors s (send_event event (node_data_value (entry_data e)) (set_registry (bt_insert n e (sh_registry s)) s)).
Proof.
  intros Hev Hid Hw. split; [by apply registry_wf_insert|]. eexists. split; [reflexivity|]. simpl.
  rewrite served_insert. unfold apply_event. cbn [em_event em_data].
  assert (E : (String.eqb event "node_added" || String.eqb event "node_updated") = true).
  { rewrite !elem_of_cons in Hev. destruct Hev as [->|[->|Hev]]; [done | done | by apply elem_of_nil in Hev]. }
  rewrite E. unfold put_node. by rewrite read_entry_data, Hid.
Qed.

Lemma emit_node_updated_some n e s :
  bt_get (sh_registry s) n = Some e -> emit_node_updated n s = send_event "node_updated" (node_data_value (entry_data e)) s.
Proof. intros He. unfold emit_node_updated, node_data. by rewrite He. Qed.

Lemma with_entry_some {R} n (f : NodeEntry -> R * NodeEntry) r e :
  bt_get r n = Some e -> Registry.with_entry n f r = (Some (f e).1, bt_insert n (f e).2 r).
Proof. intros He. unfold Registry.with_entry. rewrite He. by destruct (f e). Qed.

(** Change an entry, do something silent, and tell. *)
Lemma mirrors_update s n (f : NodeEntry -> unit * NodeEntry) (g : Shared -> Shared) :
  (forall e, nr_node_id (ne_record (f e).2) = nr_node_id (ne_record e)) -> (forall s, silent s (g s)) ->
  mirrors s (emit_node_updated n (g (set_registry (Registry.with_entry n f (sh_registry s)).2 s))).
Proof.
  intros Hf Hg Hw. destruct (bt_get (sh_registry s) n) as [e|] eqn:He.
  - rewrite (with_entry_some _ _ _ _ He). cbn [snd].
    destruct (Hg (set_registry (bt_insert n (f e).2 (sh_registry s)) s)) as [Hr Hev].
    rewrite (emit_node_updated_some n (f e).2) by (rewrite Hr; apply bt_get_insert_eq).
    destruct (mirrors_put s "node_updated" n (f e).2) as [Hw' (evs & E & F)]; [by right; left | | done |].
    { rewrite Hf. by apply Hw. }
    simpl in *. rewrite Hr, Hev. split; [done|]. by exists evs.
  - assert (Hno : (Registry.with_entry n f (sh_registry s)).2 = sh_registry s) by (unfold Registry.with_entry; by rewrite He).
    rewrite Hno. destruct (Hg (set_registry (sh_registry s) s)) as [Hr Hev]. unfold emit_node_updated, node_data.
    rewrite Hr. simpl. rewrite He. simpl. rewrite Hr, Hev. split; [done|]. exists []. by rewrite app_nil_r.
Qed.

Lemma mirrors_set_available s n a :
  mirrors s (let '(changed, r) := Registry.set_available n a (sh_registry s) in
             match changed with Some true => emit_node_updated n (set_registry r s) | _ => set_registry r s end).
Proof.
  intros Hw. unfold Registry.set_available.
  destruct (bt_get (sh_registry s) n) as [e|] eqn:He.
  - rewrite (with_entry_some _ _ _ _ He). cbn [fst snd].
    set (e' := {| ne_record := ne_record e; ne_available := a |}).
    destruct (eqb (ne_available e) a) eqn:Ea; cbn [negb].
    + apply eqb_prop in Ea. split; [apply registry_wf_insert; [done | exact (proj2 Hw n e He)]|]. exists []. split; [by rewrite app_nil_r|].
      cbn [fold_left set_registry sh_registry]. rewrite served_insert. symmetry. apply insert_id. rewrite lookup_served, He. simpl. f_equal.
      unfold entry_view, e'. cbn [ne_record ne_available]. by rewrite Ea.
    + rewrite (emit_node_updated_some n e') by apply bt_get_insert_eq. apply mirrors_put; [by right; left | exact (proj2 Hw n e He) | done].
  - unfold Registry.with_entry. rewrite He. by apply mirrors_silent.
Qed.

Lemma served_with_entry {R} n (f : NodeEntry -> R * NodeEntry) (g : NodeView -> NodeView) r :
  (forall e, entry_view (f e).2 = g (entry_view e)) -> served (Registry.with_entry n f r).2 = alter g n (served r).
Proof.
  intros Hf. apply map_eq. intros k. unfold Registry.with_entry. destruct (bt_get r n) as [e|] eqn:He.
  - specialize (Hf e). destruct (f e) as [x e']. simpl in *. rewrite served_insert. destruct (decide (n = k)) as [<-|Hk].
    + by rewrite lookup_alter_eq, lookup_insert_eq, lookup_served, He, Hf.
    + by rewrite lookup_alter_ne, lookup_insert_ne.
  - simpl. destruct (decide (n = k)) as [<-|Hk]; [by rewrite lookup_alter_eq, lookup_served, He | by rewrite lookup_alter_ne].
Qed.

Lemma mirrors_change n s change : mirrors s (apply_change n s change).
Proof.
  intros Hw. destruct change as [path value]. split.
  - apply registry_wf_with_entry; [done|]. by intros [].
  - eexists. split; [reflexivity|]. cbn [apply_change sh_registry send_event set_registry].
    rewrite (served_with_entry n _ (put_attribute path value)); [done|]. intros e.
    unfold entry_view, put_attribute. cbn. by rewrite list_to_map_insert.
Qed.

Lemma mirrors_changes n changes s : mirrors s (fold_left (apply_change n) changes s).
Proof.
  revert s. induction changes as [|ch changes IH]; intros s; simpl; [apply mirrors_refl|].
  eapply mirrors_trans; [apply mirrors_change | apply IH].
Qed.

(** ** The node manager *)

Section manager.
Context `{SerdeJson} `{NodeDate} (storage : Storage).

Lemma silent_persist n s : silent s (persist storage n s).
Proof. unfold persist. by destruct (Registry.snapshot_record (sh_registry s) n). Qed.

Lemma mirrors_handle_event ev s tm : mirrors s (handle_event storage ev s tm).1.
Proof.
  destruct ev as [n st|n attrs|n changes|n e]; simpl; (destruct (Registry.contains (sh_registry s) n); [|apply mirrors_refl]).
  - destruct st as [?|]; simpl.
    + pose proof (mirrors_set_available s n true) as Hm.
      by destruct (Registry.set_available n true (sh_registry s)) as [[[]|] r].
    + destruct (tm_grace tm !! n); apply mirrors_refl.
  - apply (mirrors_update s n _ (persist storage n)); [done | apply silent_persist].
  - eapply mirrors_trans; [apply mirrors_changes | apply mirrors_silent, silent_persist].
  - refine (mirrors_trans _ (set_history _ s) _ _ _); [apply mirrors_silent; by split | by apply mirrors_other].
Qed.

Lemma mirrors_grace_expiry n s tm : mirrors s (handle_grace_expiry n s tm).1.
Proof.
  unfold handle_grace_expiry. destruct (tm_grace tm !! n); [|apply mirrors_refl].
  pose proof (mirrors_set_available s n false) as Hm.
  by destruct (Registry.set_available n false (sh_registry s)) as [[[]|] r].
Qed.

Lemma mirrors_manager_step l m m' : manager_step storage l m = Some m' -> mirrors (mg_shared m) (mg_shared m').
Proof.
  destruct l as [ev|t| |]; simpl.
  - intros [= <-]. apply mirrors_refl.
  - destruct (tm_tasks (mg_timers m) !! t) as [[]|]; intros [= <-]. apply mirrors_refl.
  - destruct (mg_rx m) as [|ev rest]; [done|]. pose proof (mirrors_handle_event ev (mg_shared m) (mg_timers m)) as Hm.
    destruct (handle_event storage ev (mg_shared m) (mg_timers m)). by intros [= <-].
  - destruct (mg_grace_rx m) as [|n rest]; [done|]. pose proof (mirrors_grace_expiry n (mg_shared m) (mg_timers m)) as Hm.
    destruct (handle_grace_expiry n (mg_shared m) (mg_timers m)). by intros [= <-].
Qed.
End manager.

(** ** Commands that leave the nodes alone *)

Definition unrelated (e : EventMessage) : Prop :=
  bool_decide (em_event e ∈ ["node_added"; "node_updated"; "attribute_updated"; "node_removed"]) = false.

(** Of the files at most the configuration is written. *)
Definition files_aside `{SerdeJson} (c : Ctrl) (fs fs' : FS) : Prop :=
  fs' = fs \/ exists cfg, fs' = (run_io (save_config (c_storage c) cfg) fs).2.

Definition aloof_shared `{SerdeJson} (c : Ctrl) (s s' : Shared) : Prop :=
  sh_registry s' = sh_registry s /\ (exists evs, sh_events s' = sh_events s ++ evs /\ Forall unrelated evs) /\
  files_aside c (sh_fs s) (sh_fs s').

Lemma aloof_silent `{SerdeJson} c s s' : silent s s' -> sh_fs s' = sh_fs s -> aloof_shared c s s'.
Proof. intros [Hr He] Hf. split; [done|]. split; [exists []; by rewrite app_nil_r | by left]. Qed.

Lemma mirrors_unrelated evs v : Forall unrelated evs -> fold_left apply_event evs v = v.
Proof.
  induction 1 as [|e evs He _ IH]; simpl; [done|]. rewrite <- IH at 2. f_equal.
  apply bool_decide_eq_false in He. rewrite !not_elem_of_cons in He. destruct He as (H1 & H2 & H3 & H4 & _). unfold apply_event.
  by rewrite (proj2 (String.eqb_neq _ _) H1), (proj2 (String.eqb_neq _ _) H2),
    (proj2 (String.eqb_neq _ _) H3), (proj2 (String.eqb_neq _ _) H4).
Qed.

Lemma mirrors_aloof `{SerdeJson} c s s' : aloof_shared c s s' -> mirrors s s'.
Proof.
  intros (Hr & (evs & He & Hu) & _) Hw. rewrite Hr. split; [done|]. exists evs. split; [done|]. by apply mirrors_unrelated.
Qed.

Section aloof.
Context {S L : Type} `{SerdeJson} `{NodeDate} `{Processes} `{!Stack S} `{!LogLevels L} (c : Ctrl).
Abbreviation CProg A := (Prog (COp S L) A).

Definition is_commission {B} (op : StackOp B) : bool := match op with Commission _ => true | _ => false end.

Definition aloof_op (B : Type) (op : COp S L B) : Prop :=
  match op with
  | Atom f => forall w, aloof_shared c (w_shared w) (w_shared (f w).2)
  | CallStack op => is_commission op = false
  | _ => True
  end.

(** Whatever the replies, no operation touches the registry or a node's file,
    sends a message about a node, or asks the stack to commission one. *)
Definition aloof {A} (p : CProg A) : Prop := all_ops aloof_op p.

Lemma aloof_ret {A} (a : A) : aloof (Ret a).
Proof. apply all_ops_ret. Qed.
Lemma aloof_bind {A B} (p : CProg A) (f : A -> CProg B) : aloof p -> (forall a, aloof (f a)) -> aloof (prog_bind p f).
Proof. apply all_ops_bind. Qed.
Lemma aloof_try {A B E} (p : CProg (Result A E)) (f : A -> CProg (Result B E)) :
  aloof p -> (forall a, aloof (f a)) -> aloof (try_bind p f).
Proof. apply all_ops_try. Qed.
Lemma aloof_atom {B} (f : World S L -> B * World S L) :
  (forall w, aloof_shared c (w_shared w) (w_shared (f w).2)) -> aloof (do_op (Atom f)).
Proof. intros Hf. by apply all_ops_op. Qed.
Lemma aloof_lift {A E} (r : Result A E) : aloof (lift_result r).
Proof. apply aloof_ret. Qed.
Lemma aloof_lock l : aloof (do_op (Acquire l)) /\ aloof (do_op (Release l)).
Proof. split; by apply all_ops_op. Qed.
Lemma aloof_stack {B} (op : StackOp B) : is_commission op = false -> aloof (stack op).
Proof. intros Hop. by apply all_ops_op. Qed.
Lemma aloof_command argv : aloof (do_op (Command argv)).
Proof. by apply all_ops_op. Qed.
Lemma aloof_modify (f : World S L -> World S L) : (forall w, w_shared (f w) = w_shared w) -> aloof (modify_world f).
Proof. intros Hf. apply aloof_atom. intros w. simpl. rewrite Hf. by apply aloof_silent. Qed.
Lemma aloof_read {A} (f : World S L -> A) : aloof (read_world f).
Proof. apply aloof_atom. intros w. by apply aloof_silent. Qed.
Lemma aloof_ensure n : aloof (ensure_node n).
Proof. apply aloof_bind; [apply aloof_read | intros; apply aloof_ret]. Qed.
Lemma aloof_server_info : aloof (build_server_info c).
Proof. apply aloof_bind; [apply aloof_read | intros; apply aloof_ret]. Qed.
Lemma aloof_broadcast : aloof (broadcast_server_info_updated c).
Proof.
  apply aloof_bind; [apply aloof_server_info|]. intros info. apply aloof_atom. intros w. split; [done|].
  split; [|by left]. eexists. split; [reflexivity|]. by repeat constructor.
Qed.
Lemma aloof_update {R} (f : World S L -> ConfigData -> R * ConfigData) : aloof (update_config c f).
Proof.
  apply aloof_bind; [apply aloof_lock|]. intros _. apply aloof_bind; [apply aloof_read|]. intros cfg.
  apply aloof_bind; [apply aloof_read|]. intros x. apply aloof_bind.
  { apply aloof_atom. intros w. assert (Hf : files_aside c (sh_fs (w_shared w)) (run_io (save_config (c_storage c) x.2) (sh_fs (w_shared w))).2)
      by (right; by eexists).
    destruct (run_io (save_config (c_storage c) x.2) (sh_fs (w_shared w))). split; [done|]. split; [exists []; by rewrite app_nil_r | exact Hf]. }
  intros r. apply aloof_bind; [by apply aloof_modify|]. intros _. apply aloof_bind; [apply aloof_lock | intros; apply aloof_ret].
Qed.
End aloof.

Create HintDb aloof.
#[export] Hint Constants Opaque : aloof.
#[export] Hint Extern 1 (is_commission _ = false) => reflexivity : aloof.
#[export] Hint Resolve aloof_ret aloof_lift aloof_stack aloof_command aloof_modify aloof_read aloof_ensure
  aloof_server_info aloof_broadcast aloof_update : aloof.

Ltac aloof_step :=
  lazymatch goal with
  | |- aloof _ (prog_bind _ _) => apply aloof_bind
  | |- aloof _ (try_bind _ _) => apply aloof_try
  | |- aloof _ (match ?x with _ => _ end) => destruct x
  | |- aloof _ (do_op (Atom _)) => apply aloof_atom; intros; apply aloof_silent; repeat case_match; done
  | |- aloof _ _ => solve [eauto 3 with aloof]
  end.
Ltac aloof_auto := repeat (intros; cbv beta zeta; aloof_step).

Section aloof_handlers.
Context {S L : Type} `{SerdeJson} `{NodeDate} `{Processes} `{!Stack S} `{!LogLevels L} (c : Ctrl).

Lemma aloof_merged_addresses n : aloof (S := S) (L := L) c (Nodes.merged_addresses n).
Proof. unfold Nodes.merged_addresses, snapshot_record. aloof_auto. Qed.

Lemma aloof_ping_all addrs n : aloof (S := S) (L := L) c (Nodes.ping_all addrs n).
Proof. induction addrs as [|a addrs IH]; cbn [Nodes.ping_all]; [apply aloof_ret|]. unfold Nodes.ping_one. aloof_auto. Qed.

Lemma aloof_mutate_config f : aloof (S := S) (L := L) c (Credentials.mutate_config c f).
Proof. unfold Credentials.mutate_config. aloof_auto. Qed.

Lemma aloof_get_nodes args : aloof (S := S) (L := L) c (Nodes.get_nodes args).
Proof. unfold Nodes.get_nodes. aloof_auto. Qed.

Lemma aloof_known_node args r : aloof (S := S) (L := L) c (Misc.known_node args r).
Proof. unfold Misc.known_node. aloof_auto. Qed.

Lemma aloof_get_loglevel args : aloof (S := S) (L := L) c (Misc.get_loglevel args).
Proof. unfold Misc.get_loglevel. aloof_auto. Qed.
#[local] Hint Resolve aloof_merged_addresses aloof_ping_all aloof_mutate_config aloof_get_nodes aloof_known_node
  aloof_get_loglevel : aloof.

(** The commands that change nodes. *)
Definition node_changing : list string := ["interview_node"; "remove_node"; "commission_with_code"; "commission_on_network"].

Lemma aloof_handlers conn args :
  Forall (fun h => h.1 ∈ node_changing \/ aloof (S := S) (L := L) c h.2) (handlers c conn args).
Proof.
  unfold handlers. repeat first [apply Forall_nil_2 | apply Forall_cons_2]; cbn [fst snd];
    try (left; unfold node_changing; set_solver); right;
    unfold Nodes.get_node, Nodes.diagnostics, Nodes.ping_node, Nodes.get_node_ip_addresses, get_node_data,
      Interaction.read_attribute, Interaction.write_attribute, Interaction.device_command,
      Commissioning.open_commissioning_window, Commissioning.discover, Credentials.set_wifi,
      Credentials.set_thread, Credentials.remove_wifi, Credentials.remove_thread, Credentials.get_all,
      Fabrics.set_default_fabric_label, Fabrics.get_fabric_label, Fabrics.get_matter_fabrics,
      Fabrics.remove_matter_fabric, Fabrics.set_acl_entry, Fabrics.set_node_binding, Misc.get_vendor_names,
      Misc.set_loglevel, Misc.icd_state, Misc.resync_icd, Misc.check_node_update, Misc.update_node, config_snapshot;
    aloof_auto.
Qed.

Lemma aloof_handle_command conn cmd :
  cm_command cmd ∈ node_changing \/ aloof (S := S) (L := L) c (handle_command c conn cmd).
Proof.
  unfold handle_command. destruct (lookup_command _ _) as [p|] eqn:E; [|right; apply aloof_ret].
  apply lookup_command_In in E. pose proof (aloof_handlers conn (cm_args cmd)) as Hk.
  rewrite Forall_forall in Hk. apply (Hk _ E).
Qed.
End aloof_handlers.

(** ** Whole commands *)

Section commands.
Context {S L : Type} `{SerdeJson} `{NodeDate} `{Processes} `{!Stack S} `{!LogLevels L} (c : Ctrl).
Abbreviation CProg A := (Prog (COp S L) A).

(** Run to its end without another task in between, the program keeps the
    clients right. *)
Definition tracks {A} (p : CProg A) : Prop := forall w, mirrors (w_shared w) (w_shared (run_ctrl p w).2).

Lemma tracks_ret {A} (a : A) : tracks (Ret a).
Proof. intros w. apply mirrors_refl. Qed.

Lemma tracks_bind {A B} (p : CProg A) (f : A -> CProg B) : tracks p -> (forall a, tracks (f a)) -> tracks (prog_bind p f).
Proof.
  intros Hp Hf w. rewrite run_ctrl_bind. specialize (Hp w). destruct (run_ctrl p w) as [a w1].
  eapply mirrors_trans; [exact Hp | apply Hf].
Qed.

Lemma tracks_try {A B E} (p : CProg (Result A E)) (f : A -> CProg (Result B E)) :
  tracks p -> (forall a, tracks (f a)) -> tracks (try_bind p f).
Proof. intros Hp Hf. apply tracks_bind; [done|]. intros []; [apply Hf | apply tracks_ret]. Qed.

Lemma tracks_aloof {A} (p : CProg A) : aloof c p -> tracks p.
Proof.
  intros Hp. induction Hp as [a|B op k Hop _ IH]; [apply tracks_ret|]. intros w. unfold run_ctrl. simpl.
  destruct (ctrl_step B op w) as [b w1] eqn:E. eapply mirrors_trans; [|apply IH].
  destruct op as [X f|l|l|X op|argv]; simpl in *.
  - specialize (Hop w). rewrite E in Hop. by apply (mirrors_aloof c).
  - injection E as _ <-. apply mirrors_refl.
  - injection E as _ <-. apply mirrors_refl.
  - destruct (stack_call X op (w_stack w)). injection E as _ <-. apply mirrors_refl.
  - injection E as _ <-. apply mirrors_refl.
Qed.

Lemma tracks_stack {B} (op : StackOp B) : tracks (stack op).
Proof. intros w. rewrite run_stack. apply mirrors_refl. Qed.

(** What [interview_node] does with the attributes it read is what the node
    manager does with a priming snapshot. *)
Definition interview_tail (n : Z) (attributes : Map) : CProg CommandResult :=
  do! _ := modify_world (fun w => on_shared (fun sh =>
    set_registry (Registry.with_entry n (refresh_record attributes (sh_now sh)) (sh_registry sh)).2 sh) w) in
  do! rec := snapshot_record n in
  do! _ := match rec with
           | Some rec => do! _ := persist_record c rec in Ret tt
           | None => Ret tt
           end in
  do! nd := get_node_data n in
  do! _ := match nd with Some nd => emit "node_updated" (node_data_value nd) | None => Ret tt end in
  Ret (Ok VNull).

Lemma run_interview_tail n attributes w :
  run_ctrl (interview_tail n attributes) w =
  (Ok VNull, on_shared (fun sh => emit_node_updated n (persist (c_storage c) n
     (set_registry (Registry.with_entry n (refresh_record attributes (sh_now sh)) (sh_registry sh)).2 sh))) w).
Proof.
  destruct w as [sh cf ow lg st hd]. unfold run_ctrl, interview_tail, snapshot_record, get_node_data, persist_record.
  unfold persist, emit_node_updated, emit, modify_world, read_world, on_shared, with_shared, w_registry.
  cbn -[run_io save_node node_data Registry.snapshot_record].
  set (r := (Registry.with_entry n _ _).2).
  destruct (Registry.snapshot_record r n) as [rec|]; cbn -[run_io save_node node_data].
  - destruct (run_io (save_node (c_storage c) rec) (sh_fs sh)) as [x fs]; cbn -[node_data]. by destruct (node_data r n).
  - by destruct (node_data r n).
Qed.

Lemma tracks_interview_tail n attributes : tracks (interview_tail n attributes).
Proof.
  intros w. rewrite run_interview_tail. cbn [snd on_shared with_shared w_shared].
  apply (mirrors_update _ n _ (persist (c_storage c) n)); [done | apply silent_persist].
Qed.

(** The node goes, and the clients are told. *)
Definition remove_tail (n : Z) : CProg CommandResult :=
  do! _ := modify_world (on_shared (fun sh => set_registry (Registry.remove n (sh_registry sh)).2 sh)) in
  do! _ := modify_world (on_shared (fun sh => set_fs (run_io (delete_node (c_storage c) n) (sh_fs sh)).2 sh)) in
  do! _ := emit "node_removed" (json_u n) in
  Ret (Ok VNull).

Lemma tracks_remove_tail n : tracks (remove_tail n).
Proof.
  intros w Hw. unfold remove_tail. ctrl_run. cbn. split; [by apply registry_wf_remove|].
  eexists. split; [reflexivity|]. cbn. unfold apply_event, drop_node. cbn. symmetry. apply served_remove.
Qed.

Lemma tracks_finish_commission n o attributes : tracks (Commissioning.finish_commission c n o attributes).
Proof.
  unfold Commissioning.finish_commission. apply tracks_bind; [apply tracks_aloof, aloof_read|]. intros now.
  set (rec := {| nr_node_id := n |}). intros w.
  rewrite run_ctrl_bind, run_modify_world. cbv beta iota. rewrite run_ctrl_bind.
  unfold persist_record at 1. rewrite run_atom. cbn [w_shared on_shared with_shared].
  destruct (run_io (save_node (c_storage c) rec) _) as [x fs]. cbv beta iota. rewrite run_ctrl_bind.
  unfold get_node_data at 1. rewrite run_read_world. cbv beta iota.
  unfold node_data.
  assert (Hg : forall r, bt_get (Registry.insert rec r) n = Some (new_entry rec)) by (intros r; apply (bt_get_insert_eq n)).
  cbn [w_registry on_shared w_shared with_shared sh_registry set_fs set_registry].
  unfold w_registry, on_shared. cbn [w_shared with_shared sh_registry set_fs set_registry]. rewrite Hg.
  cbn [fmap option_fmap option_map ok_or].
  rewrite run_ctrl_try, run_ctrl_lift. cbv beta iota.
  rewrite run_ctrl_bind, run_emit. cbv beta iota. rewrite run_ctrl_bind, run_stack. cbn [snd].
  rewrite run_ctrl_ret. cbn [snd w_shared with_stack on_shared with_shared].
  refine (mirrors_trans _ (set_fs fs (w_shared w)) _ _ _); [by apply mirrors_silent|].
  apply (mirrors_put (set_fs fs (w_shared w)) "node_added" n (new_entry rec)); [by left | done].
Qed.

Lemma tracks_do_commission target : tracks (Commissioning.do_commission c target).
Proof.
  unfold Commissioning.do_commission, Commissioning.commission_body, config_snapshot.
  apply tracks_bind; [apply tracks_aloof, aloof_lock|]. intros _.
  apply tracks_bind; [|intros r; apply tracks_bind; [apply tracks_aloof, aloof_lock | intros; apply tracks_ret]].
  apply tracks_bind; [apply tracks_aloof, aloof_update|]. intros [[id|] x]; [|apply tracks_ret]. cbn [fst].
  apply tracks_bind; [apply tracks_aloof, aloof_read|]. intros cfg.
  apply tracks_bind; [apply tracks_stack|]. intros r.
  apply tracks_try; [apply tracks_aloof, aloof_lift|]. intros o.
  apply tracks_bind; [apply tracks_stack|]. intros [attributes|e]; [apply tracks_finish_commission|].
  apply tracks_bind; [apply tracks_stack | intros; apply tracks_ret].
Qed.

Lemma tracks_handle_command conn cmd : tracks (handle_command c conn cmd).
Proof.
  destruct (aloof_handle_command (S := S) (L := L) c conn cmd) as [Hin|Ha]; [|by apply tracks_aloof].
  destruct cmd as [mid name args]. unfold handle_command. simpl in *.
  unfold node_changing in Hin. repeat (apply elem_of_cons in Hin as [->|Hin]); [..| by apply elem_of_nil in Hin];
    cbn [handlers lookup_command String.eqb Ascii.eqb Bool.eqb].
  - apply tracks_try; [apply tracks_aloof, aloof_lift|]. intros n. apply tracks_try; [apply tracks_aloof, aloof_ensure|]. intros _.
    apply tracks_bind; [apply tracks_stack|]. intros r.
    apply tracks_try; [apply tracks_aloof, aloof_lift|]. intros attributes. apply tracks_interview_tail.
  - apply tracks_try; [apply tracks_aloof, aloof_lift|]. intros n. apply tracks_try; [apply tracks_aloof, aloof_ensure|]. intros _.
    apply tracks_bind; [apply tracks_aloof, aloof_read|]. intros rec.
    do 2 (apply tracks_bind; [apply tracks_stack|]; intros ?). apply tracks_remove_tail.
  - unfold Commissioning.commission_with_code. case_match; [apply tracks_ret | apply tracks_do_commission].
  - apply tracks_try; [apply tracks_aloof, aloof_lift | apply tracks_do_commission].
Qed.

(** C11: the events are enough.  Whatever command a client sends, and however
    it ends, the messages the server sends while it runs alone turn the nodes
    as a client knew them before into the nodes the server serves after: a
    client that replaces a node on node_added and node_updated, sets one
    attribute on attribute_updated and drops a node on node_removed is never
    wrong about the dates, the availability or an attribute of any node. *)
Theorem command_events_suffice (conn : ConnId) (cmd : CommandMessage) (w w' : World S L) (r : CommandResult) :
  registry_wf (w_registry w) -> run_ctrl (handle_command c conn cmd) w = (r, w') ->
  registry_wf (w_registry w') /\
  exists evs, sh_events (w_shared w') = sh_events (w_shared w) ++ evs /\
    fold_left apply_event evs (served (w_registry w)) = served (w_registry w').
Proof. intros Hw Hr. pose proof (tracks_handle_command conn cmd w Hw) as Ht. by rewrite Hr in Ht. Qed.
End commands.

(** The same for the node manager: however stack events and grace timers
    interleave from start-up on, the messages sent since turn the nodes of
    start-up into the nodes served now. *)
Theorem manager_events_suffice `{SerdeJson} `{NodeDate} (storage : Storage) (s : Shared) (m : Manager) :
  registry_wf (sh_registry s) -> reachable storage s m ->
  exists evs, sh_events (mg_shared m) = sh_events s ++ evs /\
    fold_left apply_event evs (served (sh_registry s)) = served (sh_registry (mg_shared m)).
Proof.
  intros Hw Hm. assert (G : mirrors s (mg_shared m)); [|by apply G in Hw as [_ ?]].
  induction Hm as [|m l m' Hm IH Hs]; [apply mirrors_refl|].
  eapply mirrors_trans; [exact IH | by eapply mirrors_manager_step].
Qed.

(** ** A node, an interview and a report *)

#[local] Existing Instances TreeJson demo_processes demo_date.
Definition interview_command : CommandMessage :=
  {| cm_message_id := "1"; cm_command := "interview_node"; cm_args := [("node_id", json_u 7)] |}.
Definition remove_command : CommandMessage :=
  {| cm_message_id := "1"; cm_command := "remove_node"; cm_args := [("node_id", json_u 7)] |}.

Lemma command_events_suffice_witness :
  let w' := (run_ctrl (handle_command demo_ctrl 1 remove_command) demo_world).2 in
  served (w_registry demo_world) !! 7 <> None /\ served (w_registry w') !! 7 = None /\
  exists evs, sh_events (w_shared w') = evs /\
    fold_left apply_event evs (served (w_registry demo_world)) = served (w_registry w').
Proof.
  intros w'. split; [by vm_compute|]. split; [by vm_compute|].
  destruct (command_events_suffice demo_ctrl 1 remove_command demo_world w'
              (run_ctrl (handle_command demo_ctrl 1 remove_command) demo_world).1) as [_ (evs & E & F)].
  - apply registry_wf_new.
  - unfold w'. by destruct (run_ctrl _ _).
  - by exists evs.
Defined.

Lemma manager_events_suffice_witness :
  sh_events (mg_shared after_stale) <> [] /\
  exists evs, sh_events (mg_shared after_stale) = [] ++ evs /\
    fold_left apply_event evs (served (sh_registry demo_shared)) = served (sh_registry (mg_shared after_stale)).
Proof.
  split; [by vm_compute|].
  apply (manager_events_suffice (H := TreeJson) (H0 := demo_date) demo_storage demo_shared after_stale);
    [apply registry_wf_new | apply after_stale_reachable].
Defined.

Abbreviation DemoProg := (Prog (COp FakeStack (string * option string)) CommandResult).

Definition results (pool : list DemoProg) : list (option CommandResult) :=
  map (fun p => match p with Ret r => Some r | Do _ _ => None end) pool.

(** The node manager handles a report. *)
Definition report (path : string) (value : Value) (w : DemoWorld) : DemoWorld :=
  on_shared (fun sh => (handle_event demo_storage (AttributesChanged 7 [(path, value)]) sh
    {| tm_grace := ∅; tm_tasks := ∅; tm_next := 0 |}).1) w.

(** Six operations of the interview (the last takes the node's data), a report
    of the node handled by the node manager, and the interview's last
    operation (the message with the data taken before). *)
Definition interview_race : option (list DemoProg * DemoWorld) :=
  match pool_run (replicate 6 0%nat) ([handle_command demo_ctrl 1 interview_command], demo_world) with
  | Some (pool, w) => pool_run [0%nat] (pool, report "1/6/0" (VBool true) w)
  | None => None
  end.

(** Run side by side, an interview and a report leave the clients wrong.
    [interview_node] takes the node's data and then sends it; a report handled
    in between is sent first, so the stale data overwrites the reported value
    in every client, and nothing corrects it until the attribute changes
    again: the server serves the value, the clients do not have it. *)
Theorem interview_overwrites_report :
  exists pool w, interview_race = Some (pool, w) /\ results pool = [Some (Ok VNull)] /\
    (served (w_registry w) !! 7) ≫= (fun n => nv_attributes n !! "1/6/0") = Some (VBool true) /\
    (fold_left apply_event (sh_events (w_shared w)) (served (w_registry demo_world)) !! 7)
      ≫= (fun n => nv_attributes n !! "1/6/0") = None.
Proof.
  assert (E : (fun pw => (results pw.1, (served (w_registry pw.2) !! 7) ≫= (fun n => nv_attributes n !! "1/6/0"),
      (fold_left apply_event (sh_events (w_shared pw.2)) (served (w_registry demo_world)) !! 7) ≫= (fun n => nv_attributes n !! "1/6/0")))
    <$> interview_race = Some ([Some (Ok VNull)], Some (VBool true), None)) by by vm_compute.
  apply fmap_Some in E as ([pool w] & Hr & E). injection E as E1 E2 E3. exists pool, w.
  split; [exact Hr|]. by repeat split.
Qed.

(** Four operations of the interview (the last takes the record), the whole
    removal by another client, and the rest of the interview (which writes the
    record). *)
Definition removal_race : option (list DemoProg * DemoWorld) :=
  pool_run (replicate 4 0%nat ++ replicate 7 1%nat ++ replicate 2 0%nat)
    ([handle_command demo_ctrl 1 interview_command; handle_command demo_ctrl 2 remove_command], demo_world).

(** An interview can bring a removed node back.  [interview_node] takes the
    node's record and then writes it to disk; when another client's
    [remove_node] deletes node and file in between, the file is written anew.
    Both commands succeed, the clients are told that the node is gone and the
    server does not know it any more, until it is restarted: then the node is
    loaded again. *)
Theorem interview_revives_removed_node :
  exists pool w, removal_race = Some (pool, w) /\ results pool = [Some (Ok VNull); Some (Ok VNull)] /\
    Registry.contains (w_registry demo_world) 7 = true /\ Registry.contains (w_registry w) 7 = false /\
    Registry.contains (w_registry (new demo_ctrl (sh_fs (w_shared w)) 0 ("info", None) FakeStack_new : DemoWorld)) 7 = true.
Proof.
  assert (E : (fun pw => (results pw.1, Registry.contains (w_registry pw.2) 7,
      Registry.contains (w_registry (new demo_ctrl (sh_fs (w_shared pw.2)) 0 ("info", None) FakeStack_new : DemoWorld)) 7))
    <$> removal_race = Some ([Some (Ok VNull); Some (Ok VNull)], false, true)) by by vm_compute.
  apply fmap_Some in E as ([pool w] & Hr & E). injection E as E1 E2 E3. exists pool, w.
  split; [exact Hr|]. split; [by symmetry|]. split; [reflexivity|]. by split.
Qed.
