(* ===== verification/Text.v ===== *)
(** * Lenient text and number parsing

    The parts of [std] only the migration tool uses:
    [String::from_utf8_lossy], [str::parse::<u64>] with its error text, and the
    file-system queries it makes about a store it only reads. *)

From S2P Require Import Prelude Prog Fs.

(** ** [String::from_utf8_lossy]

    A maximal ill-formed prefix of a character becomes one U+FFFD. *)

Definition replacement : string := bytes_str [0xEF; 0xBF; 0xBD].

Fixpoint lossy_scan (buffered : string) (pending : nat) (lo hi : Z) (s : string) : string :=
  let fresh c s :=
    match utf8_lead c with
    | Some (O, _, _) => String c (lossy_scan "" 0 0 0 s)
    | Some (n, lo, hi) => lossy_scan (String c EmptyString) n lo hi s
    | None => replacement +:+ lossy_scan "" 0 0 0 s
    end in
  match s with
  | EmptyString => match pending with O => EmptyString | _ => replacement end
  | String c s =>
      match pending with
      | O => fresh c s
      | S n =>
          if in_range lo hi c then
            let buffered := buffered +:+ String c EmptyString in
            match n with
            | O => buffered +:+ lossy_scan "" 0 0 0 s
            | _ => lossy_scan buffered n 0x80 0xBF s
            end
          else replacement +:+ fresh c s
      end
  end.

Definition utf8_lossy (s : string) : string := lossy_scan "" 0 0 0 s.

Lemma lossy_scan_valid s buffered pending lo hi :
  utf8_scan pending lo hi s = true ->
  lossy_scan buffered pending lo hi s = (match pending with O => s | _ => buffered +:+ s end).
Proof.
  revert buffered pending lo hi. induction s as [|c s IH]; intros b p lo hi; simpl.
  { by destruct p. }
  destruct p as [|p].
  - destruct (utf8_lead c) as [[[n l] h]|]; [|done]. intros Hs. destruct n as [|n].
    + rewrite (IH "" O 0 0); [done|]. by destruct s.
    + by rewrite (IH _ (S n)).
  - destruct (in_range lo hi c); [|done]. simpl. intros Hs. destruct p as [|p].
    + rewrite (IH "" O 0 0); [by rewrite str_app_assoc|]. by destruct s.
    + rewrite (IH _ (S p)) by done. by rewrite str_app_assoc.
Qed.

(** Valid text is kept as it is. *)
Lemma utf8_lossy_valid s : utf8_valid s = true -> utf8_lossy s = s.
Proof. intros Hs. unfold utf8_lossy. by rewrite (lossy_scan_valid s "" O 0 0). Qed.

(** ** [str::parse::<u64>] with its error *)

Inductive IntErrorKind : Type := IntEmpty | IntInvalidDigit | IntPosOverflow.

Definition int_error (k : IntErrorKind) : string :=
  match k with
  | IntEmpty => "cannot parse integer from empty string"
  | IntInvalidDigit => "invalid digit found in string"
  | IntPosOverflow => "number too large to fit in target type"
  end.

(** One checked step per digit: a bad digit is reported before an overflow at
    the same place. *)
Fixpoint parse_digits (bits acc : Z) (s : string) : Result Z IntErrorKind :=
  match s with
  | EmptyString => Ok acc
  | String c s =>
      let mul := try_from_u bits (acc * 10) in
      match digit_value 10 c with
      | None => Err IntInvalidDigit
      | Some d =>
          match mul with
          | None => Err IntPosOverflow
          | Some m => match try_from_u bits (m + d) with
                      | None => Err IntPosOverflow
                      | Some acc => parse_digits bits acc s
                      end
          end
      end
  end.

Definition parse_int (bits : Z) (s : string) : Result Z IntErrorKind :=
  match s with
  | EmptyString => Err IntEmpty
  | String c EmptyString =>
      if Ascii.eqb c "+"%char || Ascii.eqb c "-"%char then Err IntInvalidDigit else parse_digits bits 0 s
  | String c s' => if Ascii.eqb c "+"%char then parse_digits bits 0 s' else parse_digits bits 0 s
  end.

Lemma digit_value_10 c d : digit_value 10 c = Some d -> 0 <= d < 10.
Proof.
  unfold digit_value. set (n := byte_of c). intros Hd.
  set (v := if (48 <=? n) && (n <=? 57) then n - 48 else _) in Hd.
  destruct (v <? 10) eqn:E; [|done]. injection Hd as <-. z_bools. split; [|done].
  unfold v. repeat (case_match; z_bools; try lia).
Qed.

Lemma digits_value_mono s acc n : 0 <= acc -> digits_value 10 acc s = Some n -> acc <= n.
Proof.
  revert acc. induction s as [|c s IH]; intros acc Ha; simpl; [intros [= <-]; lia|].
  destruct (digit_value 10 c) as [d|] eqn:E; [|done]. apply digit_value_10 in E.
  intros Hd. apply IH in Hd; lia.
Qed.

(** The step-by-step parser accepts exactly what fits. *)
Lemma parse_digits_ok bits s acc n :
  0 <= acc < 2 ^ bits ->
  parse_digits bits acc s = Ok n <-> digits_value 10 acc s = Some n /\ n < 2 ^ bits.
Proof.
  revert acc. induction s as [|c s IH]; intros acc Ha; simpl; [intuition congruence|].
  destruct (digit_value 10 c) as [d|] eqn:E; [|naive_solver]. apply digit_value_10 in E.
  destruct (try_from_u bits (acc * 10)) as [m|] eqn:Em.
  - apply try_from_u_Some in Em as [-> Hm].
    destruct (try_from_u bits (acc * 10 + d)) as [m|] eqn:Ed.
    + apply try_from_u_Some in Ed as [-> Hd]. by apply IH.
    + split; [done|]. intros [Hv Hn]. apply digits_value_mono in Hv; [|lia].
      assert (try_from_u bits (acc * 10 + d) = Some (acc * 10 + d)) by (apply try_from_u_Some; lia). congruence.
  - split; [done|]. intros [Hv Hn]. apply digits_value_mono in Hv; [|lia].
    assert (try_from_u bits (acc * 10) = Some (acc * 10)) by (apply try_from_u_Some; lia). congruence.
Qed.

(** Parsing a printed number gives it back. *)
Lemma parse_int_show bits n : 0 <= n < 2 ^ bits -> parse_int bits (show n) = Ok n.
Proof.
  intros Hn. destruct (show_digits n) as [Hv Hd]; [lia|]. pose proof (show_nonempty n) as Hne.
  assert (Hp : parse_digits bits 0 (show n) = Ok n).
  { apply parse_digits_ok; [|split; [done | lia]]. lia. }
  unfold parse_int. destruct (show n) as [|c s] eqn:E; [done|]. simpl in Hd.
  apply andb_true_iff in Hd as [Hc _].
  assert (Ascii.eqb c "+"%char = false /\ Ascii.eqb c "-"%char = false) as [-> ->].
  { split; destruct (Ascii.eqb_spec c "+"%char), (Ascii.eqb_spec c "-"%char); subst; done. }
  by destruct s.
Qed.

(** ** Loops that stop at the first error, and [slice::sort] *)

Fixpoint try_fold {A B E} (f : A -> B -> Result B E) (l : list A) (b : B) : Result B E :=
  match l with [] => Ok b | a :: l => let? b := f a b in try_fold f l b end.

Lemma try_fold_app {A B E} (f : A -> B -> Result B E) l1 l2 b :
  try_fold f (l1 ++ l2) b = (let? b := try_fold f l1 b in try_fold f l2 b).
Proof. revert b. induction l1 as [|a l1 IH]; intros b; simpl; [done|]. destruct (f a b); simpl; [apply IH | done]. Qed.

Section sort.
Context {K : Type} {HO : Ord K}.

Fixpoint insert_ord (a : K) (l : list K) : list K :=
  match l with
  | [] => [a]
  | b :: l' => match cmp a b with Gt => b :: insert_ord a l' | _ => a :: l end
  end.

Definition sort_ord (l : list K) : list K := foldr insert_ord [] l.

Lemma insert_ord_perm a l : insert_ord a l ≡ₚ a :: l.
Proof.
  induction l as [|b l IH]; simpl; [done|]. destruct (cmp a b); try done. rewrite IH. apply Permutation_swap.
Qed.

Lemma sort_ord_perm l : sort_ord l ≡ₚ l.
Proof. induction l as [|a l IH]; simpl; [done|]. by rewrite insert_ord_perm, IH. Qed.
End sort.

(** ** A store that is only read

    The answers of the operating system about one directory tree, which does
    not change while the tool runs. *)

Inductive FileType : Type := IsDir | IsFile | IsOther.

Record DirEntry : Type := {
  de_file_name : string;
  de_file_type : option FileType;   (* [entry.file_type().ok()] *)
}.

Record SourceFs : Type := {
  src_read : Path -> Result string IoError;                                   (* fs::read *)
  src_read_dir : Path -> Result (list (Result DirEntry IoError)) IoError;     (* fs::read_dir *)
  src_modified : Path -> option (option Z);      (* fs::metadata(p).ok(), its modified().ok() *)
  src_exists : Path -> bool;                                                  (* Path::exists *)
  src_canonicalize : Path -> option Path;                                     (* canonicalize().ok() *)
}.
