(* ===== verification/Jsdb.v ===== *)
(** * Reading a matter.js store

    [crates/migrate/src/jsdb.rs]: the snapshot of a WAL key-value namespace and
    the replay of the commits after it.  The decompressor ([flate2]) is a
    parameter. *)

From S2P Require Import Prelude Json Prog Fs Storage Text.

(** Context name to field map. *)
Abbreviation Data := (BTreeMap string Map).

Record JsDb : Type := { jd_data : Data }.

Inductive JsdbError : Type :=
| JsIo (path : Path) (source : IoError)
| NoNamespace (root : Path) (found : list string)
| MultipleNamespaces (root : Path) (count : nat) (found : list string)
| NotWalKv (path : Path) (found : string)
| BadSnapshot (path : Path) (reason : string)
| BadWalLine (path : Path) (line_number : nat) (reason : string).

Record CommitId : Type := { segment : Z; offset : Z }.

(** The derived order: segment first. *)
Definition commit_le (a b : CommitId) : bool :=
  match segment a ?= segment b with
  | Lt => true
  | Eq => offset a <=? offset b
  | Gt => false
  end.

Record SnapshotFile : Type := { sf_commit_id : CommitId; sf_data : Data }.

Definition de_commit_id : Decoder CommitId := fun v =>
  let? m := de_fields ["segment"; "offset"] v in
  let? segment := de_req m "segment" (de_u 64) in
  let? offset := de_req m "offset" (de_u 64) in
  Ok {| segment := segment; offset := offset |}.

Definition de_snapshot : Decoder SnapshotFile := fun v =>
  let? m := de_fields ["commitId"; "data"] v in
  let? commit_id := de_req m "commitId" de_commit_id in
  let? data := de_req m "data" (de_btree de_map) in
  Ok {| sf_commit_id := commit_id; sf_data := data |}.

(** ** Operations on the data *)

Definition from_data (data : Data) : JsDb := {| jd_data := data |}.
Definition get (db : JsDb) (context : string) : option Map := bt_get (jd_data db) context.
Definition field (db : JsDb) (context field : string) : option Value :=
  and_then (bt_get (jd_data db) context) (fun ctx => bt_get ctx field).
Definition context_keys (db : JsDb) : list string := bt_keys (jd_data db).

(** [ctx.insert] and [ctx.remove] over all the values of an operation. *)
Definition merge_fields (values ctx : Map) : Map :=
  fold_left (fun ctx kv => bt_insert kv.1 kv.2 ctx) values ctx.
Definition remove_fields (names : list string) (ctx : Map) : Map :=
  fold_left (fun ctx f => bt_remove f ctx) names ctx.

(** [retain]. *)
Definition retain {V} (p : string -> bool) (m : BTreeMap string V) : BTreeMap string V :=
  List.filter (fun kv => p kv.1) m.

Definition string_names (l : list Value) : option (list string) := mapM as_str l.

Definition apply_op (path : Path) (line_number : nat) (op : Value) (data : Data) : Result Data JsdbError :=
  let bad reason := BadWalLine path line_number reason in
  let? obj := ok_or (as_object op) (bad "op is not an object") in
  let? kind := ok_or (and_then (bt_get obj "op") as_str) (bad ("op missing " +:+ dquote +:+ "op" +:+ dquote +:+ " kind")) in
  let? key := ok_or (and_then (bt_get obj "key") as_str) (bad ("op missing " +:+ dquote +:+ "key" +:+ dquote)) in
  if String.eqb kind "upd" then
    let? values := ok_or (and_then (bt_get obj "values") as_object)
                     (bad ("upd op's " +:+ dquote +:+ "values" +:+ dquote +:+ " is not an object")) in
    Ok (bt_insert key (merge_fields values (unwrap_or [] (bt_get data key))) data)
  else if String.eqb kind "del" then
    let not_strings := bad ("del op's " +:+ dquote +:+ "values" +:+ dquote +:+ " is not an array of strings") in
    match bt_get obj "values" with
    | Some (VArray fields) =>
        let? field_names := ok_or (string_names fields) not_strings in
        Ok (match bt_get data key with
            | Some ctx => bt_insert key (remove_fields field_names ctx) data
            | None => data
            end)
    | Some _ => Err not_strings
    | None =>
        if str_is_empty key then Ok []
        else
          let prefix := key +:+ "." in
          Ok (retain (fun k => negb (starts_with prefix k)) (bt_remove key data))
    end
  else Err (bad "unknown op kind").

Section reader.
Context `{SerdeJson} (fs : SourceFs) (gunzip : string -> Result string IoError).

Definition apply_line (path : Path) (line_number : nat) (line : string) (data : Data) : Result Data JsdbError :=
  let bad reason := BadWalLine path line_number reason in
  let? value := map_err bad (json_from_str line) in
  let? ops := match value with
              | VArray ops => Ok ops
              | VObject obj =>
                  match bt_get obj "ops" with
                  | Some (VArray ops) => Ok ops
                  | _ => Err (bad ("commit object missing an " +:+ dquote +:+ "ops" +:+ dquote +:+ " array"))
                  end
              | _ => Err (bad "WAL line is neither an array nor an object")
              end in
  try_fold (apply_op path line_number) ops data.

Definition read_bytes (path : Path) : Result string JsdbError := map_err (JsIo path) (src_read fs path).

Definition gunzip_to_string (bytes : string) (path : Path) : Result string JsdbError :=
  map_err (JsIo path) (gunzip bytes).

(** The text of a file, decompressed when [is_gz]. *)
Definition read_text (path : Path) (is_gz : bool) : Result string JsdbError :=
  let? bytes := read_bytes path in
  if is_gz then gunzip_to_string bytes path else Ok (utf8_lossy bytes).

Definition path_is_gz (path : Path) : bool :=
  match and_then (file_name path) extension with
  | Some ext => eq_ignore_ascii_case ext "gz"
  | None => false
  end.

(** The lines of one segment from position [offset]; a blank line is skipped
    but keeps its number. *)
Fixpoint replay_lines (path : Path) (segment_number : Z) (after : option CommitId)
    (offset : nat) (lines : list string) (data : Data) : Result Data JsdbError :=
  match lines with
  | [] => Ok data
  | line :: lines =>
      let continue data := replay_lines path segment_number after (S offset) lines data in
      let commit_id := {| segment := segment_number; offset := Z.of_nat offset |} in
      if str_is_empty (trim line) then continue data
      else if match after with Some after => commit_le commit_id after | None => false end then continue data
      else let? data := apply_line path (offset + 1) line data in continue data
  end.

Definition replay_segment (path : Path) (segment_number : Z) (data : Data) (after : option CommitId) :
    Result Data JsdbError :=
  let? text := read_text path (path_is_gz path) in
  replay_lines path segment_number after 0 (split (byte_at 10) text) data.

Definition parse_segment_filename (name : string) : option Z :=
  let lower := to_ascii_lowercase name in
  let hex_part := match strip_suffix ".jsonl.gz" lower with
                  | Some h => Some h
                  | None => strip_suffix ".jsonl" lower
                  end in
  match hex_part with
  | None => None
  | Some h =>
      if negb (str_len h =? 8) || negb (str_forall is_ascii_hexdigit h) then None
      else from_str_radix 16 64 h
  end.

(** One directory entry: a [.gz] file replaces, a plain file only fills a gap. *)
Definition add_segment (wal_dir : Path) (entry : DirEntry) (segments : BTreeMap Z Path) : BTreeMap Z Path :=
  let name := utf8_lossy (de_file_name entry) in
  match parse_segment_filename name with
  | None => segments
  | Some segment =>
      let is_gz := ends_with ".gz" (to_ascii_lowercase name) in
      let path := join wal_dir (de_file_name entry) in
      if is_gz then bt_insert segment path segments
      else if bt_contains segments segment then segments
      else bt_insert segment path segments
  end.

Definition list_wal_segments (wal_dir : Path) : Result (BTreeMap Z Path) JsdbError :=
  match src_read_dir fs wal_dir with
  | Ok entries =>
      try_fold (fun entry segments =>
        let? entry := map_err (JsIo wal_dir) entry in Ok (add_segment wal_dir entry segments)) entries []
  | Err e => match io_kind e with NotFound => Ok [] | _ => Err (JsIo wal_dir e) end
  end.

Definition replay_wal (dir : Path) (data : Data) (after : option CommitId) : Result Data JsdbError :=
  let wal_dir := join dir "wal" in
  let? segments := list_wal_segments wal_dir in
  try_fold (fun '(segment_number, path) data =>
    if match after with Some after => segment_number <? segment after | None => false end then Ok data
    else replay_segment path segment_number data after) segments data.

Definition load_snapshot (dir : Path) : Result (Data * option CommitId) JsdbError :=
  let gz_path := join dir "snapshot.json.gz" in
  let plain_path := join dir "snapshot.json" in
  let gz_meta := src_modified fs gz_path in
  let plain_meta := src_modified fs plain_path in
  let chosen :=
    match gz_meta, plain_meta with
    | Some gz_time, Some plain_time =>
        match plain_time, gz_time with
        | Some p, Some g => if p >? g then Some (plain_path, false) else Some (gz_path, true)
        | _, _ => Some (gz_path, true)
        end
    | Some _, None => Some (gz_path, true)
    | None, Some _ => Some (plain_path, false)
    | None, None => None
    end in
  match chosen with
  | None => Ok ([], None)
  | Some (path, is_gz) =>
      let? text := read_text path is_gz in
      let? snapshot := map_err (BadSnapshot path) (parse_as de_snapshot text) in
      Ok (sf_data snapshot, Some (sf_commit_id snapshot))
  end.

Definition open_namespace (dir : Path) : Result JsDb JsdbError :=
  let driver_path := join dir "driver.json" in
  let? driver_bytes := read_bytes driver_path in
  let? driver := map_err (fun e => NotWalKv driver_path ("<unparseable: " +:+ e +:+ ">"))
                   (json_from_str driver_bytes) in
  let kind := unwrap_or "" (and_then (value_get driver "kind") as_str) in
  let store_type := unwrap_or "" (and_then (value_get driver "type") as_str) in
  if negb (String.eqb kind "wal") || negb (String.eqb store_type "kv") then
    Err (NotWalKv driver_path (trim (utf8_lossy driver_bytes)))
  else
    let? (data, after) := load_snapshot dir in
    let? data := replay_wal dir data after in
    Ok {| jd_data := data |}.

Definition open_store (root : Path) : Result (JsDb * string) JsdbError :=
  let? entries := map_err (JsIo root) (src_read_dir fs root) in
  let? entries := collect_results (map_err (JsIo root)) entries in
  let all_names := map (fun e => utf8_lossy (de_file_name e)) entries in
  let is_namespace e :=
    starts_with "server-" (utf8_lossy (de_file_name e)) &&
    match de_file_type e with Some IsDir => true | _ => false end in
  let namespaces := sort_ord (map (fun e => utf8_lossy (de_file_name e)) (List.filter is_namespace entries)) in
  match namespaces with
  | [] => Err (NoNamespace root (sort_ord all_names))
  | [name] => let? db := open_namespace (join root name) in Ok (db, name)
  | _ => Err (MultipleNamespaces root (length namespaces) namespaces)
  end.
End reader.

(** ** Specification of the operations

    A store as the partial function the operations mean. *)

Inductive WalOp : Type :=
| Upd (key : string) (values : Map)
| DelFields (key : string) (names : list string)
| DelTree (key : string).

Definition Contents : Type := string -> option (string -> option Value).

Definition contents (data : Data) : Contents := fun c => bt_get <$> bt_get data c.

Definition effect (o : WalOp) (a : Contents) : Contents := fun c =>
  match o with
  | Upd key values =>
      if decide (c = key) then
        Some (fun f => match bt_get values f with Some v => Some v | None => unwrap_or (fun _ => None) (a key) f end)
      else a c
  | DelFields key names =>
      if decide (c = key) then (fun ctx f => if decide (f ∈ names) then None else ctx f) <$> a key else a c
  | DelTree key =>
      if str_is_empty key || String.eqb c key || starts_with (key +:+ ".") c then None else a c
  end.

Definition same_context (a b : option (string -> option Value)) : Prop :=
  match a, b with
  | Some m, Some n => forall f, m f = n f
  | None, None => True
  | _, _ => False
  end.

(** What an operation object says, when it is well formed. *)
Definition wal_op (op : Value) : option WalOp :=
  kind ← value_get op "op" ≫= as_str; key ← value_get op "key" ≫= as_str;
  if String.eqb kind "upd" then Upd key <$> (value_get op "values" ≫= as_object)
  else if String.eqb kind "del" then
    match value_get op "values" with
    | None => Some (DelTree key)
    | Some (VArray l) => DelFields key <$> string_names l
    | Some _ => None
    end
  else None.

(** ** Lemmas *)

Lemma bt_get_retain {V} (p : string -> bool) (m : BTreeMap string V) k :
  bt_get (retain p m) k = if p k then bt_get m k else None.
Proof.
  unfold retain. induction m as [|[k' v] m IH]; simpl; [by destruct (p k)|].
  destruct (String.compare k k') eqn:E.
  - apply String.compare_eq_iff in E as ->. destruct (p k') eqn:Hp; simpl; [|done].
    change (String.compare k' k') with (cmp k' k'). by rewrite cmp_refl.
  - destruct (p k'); simpl; rewrite ?E; apply IH.
  - destruct (p k'); simpl; rewrite ?E; apply IH.
Qed.

Lemma bt_get_remove {V} (k j : string) (m : BTreeMap string V) :
  bt_get (bt_remove k m) j = if decide (j = k) then None else bt_get m j.
Proof. case_decide; subst; [apply bt_get_remove_eq | by apply bt_get_remove_ne]. Qed.

Lemma bt_get_remove_fields names ctx f :
  bt_get (remove_fields names ctx) f = if decide (f ∈ names) then None else bt_get ctx f.
Proof.
  unfold remove_fields. revert ctx. induction names as [|n names IH]; intros ctx; simpl; [done|].
  rewrite IH, bt_get_remove. repeat case_decide; set_solver.
Qed.

Lemma bt_get_merge_fields (values ctx : Map) f :
  bt_wf values ->
  bt_get (merge_fields values ctx) f = match bt_get values f with Some v => Some v | None => bt_get ctx f end.
Proof.
  unfold merge_fields. intros Hwf. revert ctx. induction values as [|[k v] values IH]; intros ctx; [done|].
  cbn [fold_left fst snd]. rewrite IH by (by inversion Hwf). rewrite bt_get_insert.
  pose proof (bt_wf_lt_None _ _ _ Hwf) as Hn. simpl.
  destruct (String.compare f k) eqn:E.
  - apply String.compare_eq_iff in E as ->. rewrite Hn. by rewrite decide_True.
  - case_decide as D; [subst; change (cmp f f = Lt) in E; by rewrite cmp_refl in E | done].
  - case_decide as D; [subst; change (cmp f f = Gt) in E; by rewrite cmp_refl in E | done].
Qed.

Lemma bt_wf_retain {V} (p : string -> bool) (m : BTreeMap string V) : bt_wf m -> bt_wf (retain p m).
Proof. apply StronglySorted_filter. Qed.

Lemma value_get_wf v k w : value_wf v -> value_get v k = Some w -> value_wf w.
Proof.
  destruct v; try done. rewrite value_wf_object. intros [_ Hf] Hk%bt_get_elem.
  rewrite Forall_forall in Hf. by apply (Hf (k, w)).
Qed.

Lemma contents_insert key ctx data c :
  contents (bt_insert key ctx data) c = if decide (c = key) then Some (bt_get ctx) else contents data c.
Proof.
  unfold contents. rewrite bt_get_insert. repeat case_decide; subst; done.
Qed.

Lemma same_context_refl a : same_context a a.
Proof. by destruct a. Qed.
#[local] Hint Resolve same_context_refl : core.

(** The effect of a write-ahead-log operation, on every input.  A well
    formed operation changes exactly what it says: [upd] merges its values into
    the one context it names (creating it), [del] with values removes those
    fields of that context only, and [del] without values removes the context
    and everything below it ([key.] prefixed), or all of the store when the key
    is empty.  Anything else is refused with an error that names the file and
    the line. *)
Theorem apply_op_spec path n op data :
  value_wf op -> bt_wf data ->
  match wal_op op with
  | Some o => exists data', apply_op path n op data = Ok data' /\ bt_wf data' /\
                forall c, same_context (contents data' c) (effect o (contents data) c)
  | None => exists reason, apply_op path n op data = Err (BadWalLine path n reason)
  end.
Proof.
  intros Hop Hwf. unfold wal_op, apply_op. destruct op as [| | | | |obj]; try (simpl; eauto; fail).
  cbn [as_object ok_or result_bind value_get].
  destruct (bt_get obj "op") as [[| | |kind| |]|]; try (simpl; eauto; fail).
  cbn [and_then as_str mbind option_bind ok_or result_bind].
  destruct (bt_get obj "key") as [[| | |key| |]|]; try (simpl; eauto; fail).
  cbn [and_then as_str mbind option_bind ok_or result_bind].
  destruct (String.eqb kind "upd").
  { destruct (bt_get obj "values") as [[| | | | |values]|] eqn:Hv; try (simpl; eauto; fail).
    simpl. eexists. split; [done|]. split; [by apply bt_wf_insert|]. intros c.
    rewrite contents_insert. case_decide; [|done]. subst. intros f. rewrite bt_get_merge_fields.
    - unfold contents. by destruct (bt_get data key).
    - apply (value_get_wf (VObject obj) "values") in Hv; [|done]. by apply value_wf_object in Hv as [? _]. }
  destruct (String.eqb kind "del"); [|simpl; eauto].
  destruct (bt_get obj "values") as [[| | | |l|]|]; try (simpl; eauto; fail).
  - destruct (string_names l) as [names|]; [|simpl; eauto]. simpl. eexists. split; [done|]. split.
    { case_match; [by apply bt_wf_insert | done]. }
    intros c. destruct (bt_get data key) as [ctx|] eqn:Hk.
    + rewrite contents_insert. case_decide; [|done]. subst. unfold contents. rewrite Hk. simpl.
      intros f. by rewrite bt_get_remove_fields.
    + case_decide; [|done]. subst. unfold contents. by rewrite Hk.
  - simpl. destruct (str_is_empty key); [exists []; repeat split; constructor|]. eexists. split; [done|].
    split; [by apply bt_wf_retain, bt_wf_remove|]. intros c. unfold contents. rewrite bt_get_retain, bt_get_remove.
    destruct (starts_with (key +:+ ".") c); simpl; [by rewrite orb_true_r|]. rewrite orb_false_r.
    destruct (String.eqb_spec c key); case_decide; done.
Qed.

Lemma apply_op_spec_witness :
  value_wf (json_obj [("op", VString "del"); ("key", VString "nodes")]) /\
  match wal_op (json_obj [("op", VString "del"); ("key", VString "nodes")]) with
  | Some o => exists data',
      apply_op ["wal"] 3 (json_obj [("op", VString "del"); ("key", VString "nodes")])
        [("nodes", []); ("nodes.peer1", []); ("nodesX", [])] = Ok data' /\ bt_wf data' /\
      forall c, same_context (contents data' c)
                  (effect o (contents [("nodes", []); ("nodes.peer1", []); ("nodesX", [])]) c)
  | None => exists reason,
      apply_op ["wal"] 3 (json_obj [("op", VString "del"); ("key", VString "nodes")])
        [("nodes", []); ("nodes.peer1", []); ("nodesX", [])] = Err (BadWalLine ["wal"] 3 reason)
  end.
Proof.
  split; [apply value_wf_object; split; repeat constructor|].
  apply (apply_op_spec ["wal"] 3); [apply value_wf_object; split; repeat constructor | repeat constructor].
Defined.

(** ** Replay *)

Section replay.
Context `{SerdeJson} (fs : SourceFs) (gunzip : string -> Result string IoError).

(** A commit of the log: its identifier, its file and its text. *)
Record Commit : Type := { c_id : CommitId; c_path : Path; c_line : string }.

Definition commits_of (path : Path) (segment_number : Z) (text : string) : list Commit :=
  imap (fun i line => {| c_id := {| segment := segment_number; offset := Z.of_nat i |};
                         c_path := path; c_line := line |}) (split (byte_at 10) text).

(** The commits a snapshot taken at [after] does not contain. *)
Definition is_newer (after : option CommitId) (c : Commit) : bool :=
  negb (str_is_empty (trim (c_line c))) &&
  match after with Some b => negb (commit_le (c_id c) b) | None => true end.

Definition apply_commit (c : Commit) : Data -> Result Data JsdbError :=
  apply_line (c_path c) (Z.to_nat (offset (c_id c)) + 1) (c_line c).

Lemma replay_lines_spec path seg after lines i data :
  replay_lines path seg after i lines data =
  try_fold apply_commit
    (List.filter (is_newer after)
       (imap (fun j line => {| c_id := {| segment := seg; offset := Z.of_nat (i + j) |};
                               c_path := path; c_line := line |}) lines)) data.
Proof.
  revert i data. induction lines as [|line lines IH]; intros i data; [done|].
  cbn [replay_lines imap List.filter]. rewrite Nat.add_0_r.
  assert (E : forall data, replay_lines path seg after (S i) lines data =
    try_fold apply_commit (List.filter (is_newer after)
      (imap ((fun j line => {| c_id := {| segment := seg; offset := Z.of_nat (i + j) |};
                               c_path := path; c_line := line |}) ∘ S) lines)) data).
  { intros d. rewrite IH. do 2 f_equal. apply imap_ext. intros j x _. simpl. do 3 f_equal. lia. }
  unfold is_newer at 1. cbn [c_line c_id].
  destruct (str_is_empty (trim line)); cbn [negb andb]; [apply E|].
  destruct after as [b|].
  - destruct (commit_le _ b); cbn [negb]; [apply E|]. simpl. unfold apply_commit at 1. simpl.
    rewrite Nat2Z.id. by destruct (apply_line _ _ _ _); simpl.
  - simpl. unfold apply_commit at 1. simpl. rewrite Nat2Z.id. by destruct (apply_line _ _ _ _); simpl.
Qed.

Lemma replay_segment_spec path seg after data text :
  read_text fs gunzip path (path_is_gz path) = Ok text ->
  replay_segment fs gunzip path seg data after =
  try_fold apply_commit (List.filter (is_newer after) (commits_of path seg text)) data.
Proof. intros E. unfold replay_segment. rewrite E. simpl. by rewrite replay_lines_spec. Qed.

Lemma old_segment_not_newer b path seg text :
  seg < segment b -> List.filter (is_newer (Some b)) (commits_of path seg text) = [].
Proof.
  intros Hs.
  unfold commits_of. generalize (split (byte_at 10) text). intros lines.
  assert (G : forall (f : nat -> Z), List.filter (is_newer (Some b))
     (imap (fun i line => {| c_id := {| segment := seg; offset := f i |}; c_path := path; c_line := line |}) lines) = []).
  { induction lines as [|l lines IH]; intros f; [done|]. cbn [imap List.filter]. unfold is_newer at 1. cbn [c_id].
    unfold commit_le. cbn [segment]. rewrite (proj2 (Z.compare_lt_iff _ _) Hs). rewrite andb_false_r.
    apply (IH (fun i => f (S i))). }
  apply (G Z.of_nat).
Qed.

(** C33: replaying the log applies exactly the commits after the snapshot.  For
    any readable log, [replay_wal] is the sequential application, in segment
    and line order, of the non-blank lines whose (segment, offset) is strictly
    greater than the snapshot's [commitId]; it stops with an error at the first
    bad line.  Segments before the snapshot's are skipped without being read,
    which changes nothing. *)
Theorem replay_wal_spec dir data after segments (text : Path -> string) :
  list_wal_segments fs (join dir "wal") = Ok segments ->
  Forall (fun kv => (match after with Some b => segment b <= kv.1 | None => True end) ->
                    read_text fs gunzip kv.2 (path_is_gz kv.2) = Ok (text kv.2)) segments ->
  replay_wal fs gunzip dir data after =
  try_fold apply_commit
    (List.filter (is_newer after) (flat_map (fun kv => commits_of kv.2 kv.1 (text kv.2)) segments)) data.
Proof.
  intros Hl Hr. unfold replay_wal. rewrite Hl. cbn [result_bind]. clear Hl. revert data.
  induction segments as [|[seg path] segments IH]; intros data; [done|].
  inversion_clear Hr as [|? ? Hp Hrest]. cbn [flat_map fst snd]. rewrite List.filter_app, try_fold_app.
  cbn [try_fold]. destruct after as [b|].
  - destruct (Z.ltb_spec seg (segment b)) as [Hlt|Hge].
    + rewrite old_segment_not_newer by done. cbn [try_fold result_bind]. by apply IH.
    + rewrite (replay_segment_spec _ _ _ _ _ (Hp Hge)).
      destruct (try_fold _ _ data); cbn [result_bind]; [by apply IH | done].
  - rewrite (replay_segment_spec _ _ _ _ _ (Hp I)).
    destruct (try_fold _ _ data); cbn [result_bind]; [by apply IH | done].
Qed.

(** ** Which file is read for a segment *)

Definition segment_of (e : DirEntry) : option Z := parse_segment_filename (utf8_lossy (de_file_name e)).
Definition entry_is_gz (e : DirEntry) : bool := ends_with ".gz" (to_ascii_lowercase (utf8_lossy (de_file_name e))).

Lemma add_segment_get wal e m s :
  bt_get (add_segment wal e m) s =
  if decide (segment_of e = Some s) then
    if entry_is_gz e || negb (bt_contains m s) then Some (join wal (de_file_name e)) else bt_get m s
  else bt_get m s.
Proof.
  unfold add_segment, segment_of, entry_is_gz. destruct (parse_segment_filename _) as [n|]; [|by rewrite decide_False].
  destruct (decide (Some n = Some s)) as [[= ->]|Hne].
  - destruct (ends_with _ _); simpl; [by rewrite bt_get_insert_eq|].
    destruct (bt_contains m s); simpl; [done|]. by rewrite bt_get_insert_eq.
  - assert (n <> s) by congruence. destruct (ends_with _ _), (bt_contains m n); simpl; try done; by rewrite bt_get_insert_ne.
Qed.

Lemma add_segments_wf wal l m :
  bt_wf m -> bt_wf (fold_left (fun m e => add_segment wal e m) l m).
Proof.
  revert m. induction l as [|e l IH]; intros m Hm; [done|]. apply IH. unfold add_segment.
  repeat case_match; auto with matter.
Qed.

Lemma fold_segments wal entries m :
  try_fold (fun entry m => let? e := map_err (JsIo wal) entry in Ok (add_segment wal e m)) (map Ok entries) m =
  Ok (fold_left (fun m e => add_segment wal e m) entries m).
Proof. revert m. induction entries as [|e l IH]; intros m; [done|]. simpl. apply IH. Qed.

(** What the accumulated map records for one segment. *)
Definition chosen (wal : Path) (s : Z) (l : list DirEntry) (o : option Path) : Prop :=
  match o with
  | None => forall e, e ∈ l -> segment_of e <> Some s
  | Some p => exists e, e ∈ l /\ segment_of e = Some s /\ p = join wal (de_file_name e) /\
                ((exists g, g ∈ l /\ segment_of g = Some s /\ entry_is_gz g = true) -> entry_is_gz e = true)
  end.

Lemma chosen_step wal s l m e :
  chosen wal s l (bt_get m s) -> chosen wal s (l ++ [e]) (bt_get (add_segment wal e m) s).
Proof.
  intros Hc. rewrite add_segment_get. unfold bt_contains.
  destruct (decide (segment_of e = Some s)) as [He|He].
  - destruct (bt_get m s) as [p|] eqn:Em; simpl in Hc; simpl.
    + destruct (entry_is_gz e) eqn:Hg; simpl; [exists e; set_solver|].
      destruct Hc as (x & Hx & Hs & -> & Hgz). exists x. split; [set_solver|]. split; [done|]. split; [done|].
      intros (g & Hin & Hgs & Hgg). apply Hgz. exists g. split; [|done].
      apply elem_of_app in Hin as [?|Hin]; [done|]. apply list_elem_of_singleton in Hin as ->. congruence.
    + rewrite orb_true_r. simpl. exists e. split; [set_solver|]. split; [done|]. split; [done|].
      intros (g & Hin & Hgs & Hgg). apply elem_of_app in Hin as [Hin|Hin]; [by apply Hc in Hin|].
      by apply list_elem_of_singleton in Hin as ->.
  - destruct (bt_get m s) as [p|]; simpl in Hc |- *.
    + destruct Hc as (x & Hx & Hs & -> & Hgz). exists x. split; [set_solver|]. split; [done|]. split; [done|].
      intros (g & Hin & Hgs & Hgg). apply Hgz. exists g. split; [|done].
      apply elem_of_app in Hin as [?|Hin]; [done|]. by apply list_elem_of_singleton in Hin as ->.
    + intros x Hx. apply elem_of_app in Hx as [?|Hx]; [by apply Hc|]. by apply list_elem_of_singleton in Hx as ->.
Qed.

(** The segments of a log directory.  Whatever the order in which the
    directory lists its files, the result maps a segment number exactly when
    some file has that number in its name, to such a file, and to a compressed
    one whenever there is one; the segments come in ascending order. *)
Theorem list_wal_segments_spec wal entries :
  src_read_dir fs wal = Ok (map Ok entries) ->
  exists segments, list_wal_segments fs wal = Ok segments /\ bt_wf segments /\
    forall s, chosen wal s entries (bt_get segments s).
Proof.
  intros Hd. unfold list_wal_segments. rewrite Hd, fold_segments. eexists. split; [done|].
  split; [apply add_segments_wf; constructor|]. intros s.
  assert (G : forall past m, chosen wal s past (bt_get m s) ->
            chosen wal s (past ++ entries) (bt_get (fold_left (fun m e => add_segment wal e m) entries m) s)).
  { clear Hd. induction entries as [|e l IH]; intros past m Hm; simpl; [by rewrite app_nil_r|].
    replace (past ++ e :: l) with ((past ++ [e]) ++ l) by (by rewrite <- app_assoc). by apply IH, chosen_step. }
  apply (G [] []). intros e He. by apply elem_of_nil in He.
Qed.
End replay.

(** ** A log directory *)

Definition demo_wal : Path := ["m"; "wal"].
Definition demo_entry (name : string) : DirEntry := {| de_file_name := name; de_file_type := Some IsFile |}.
Definition demo_entries : list DirEntry :=
  [demo_entry "00000002.jsonl"; demo_entry "00000001.JSONL.GZ"; demo_entry "00000001.jsonl"; demo_entry "tmp"].
Definition demo_log : string := "[]" +:+ String (byte_at 10) "[]".

(** Only segment 2 can be read. *)
Definition demo_source : SourceFs := {|
  src_read p := if decide (p = join demo_wal "00000002.jsonl") then Ok demo_log
                else Err (not_found p);
  src_read_dir p := if decide (p = demo_wal) then Ok (map Ok demo_entries) else Err (not_found p);
  src_modified _ := None;
  src_exists _ := true;
  src_canonicalize p := Some p;
|}.

Definition no_gunzip : string -> Result string IoError := fun _ => Err (io_error InvalidData "corrupt").

Lemma replay_wal_spec_witness :
  @replay_wal TreeJson demo_source no_gunzip ["m"] [] (Some {| segment := 2; offset := 0 |}) =
  try_fold (@apply_commit TreeJson)
    (List.filter (is_newer (Some {| segment := 2; offset := 0 |}))
       (flat_map (fun kv => commits_of kv.2 kv.1 demo_log)
          [(1, join demo_wal "00000001.JSONL.GZ"); (2, join demo_wal "00000002.jsonl")])) [].
Proof.
  apply (@replay_wal_spec TreeJson demo_source no_gunzip ["m"] [] _ _ (fun _ => demo_log)); [reflexivity|].
  repeat constructor. simpl. lia.
Defined.

Lemma list_wal_segments_spec_witness :
  exists segments, list_wal_segments demo_source demo_wal = Ok segments /\ bt_wf segments /\
    forall s, chosen demo_wal s demo_entries (bt_get segments s).
Proof. apply (list_wal_segments_spec demo_source demo_wal demo_entries). reflexivity. Defined.
