(* ===== verification/Decode.v ===== *)
(** * matter.js tagged values

    [crates/migrate/src/decode.rs]: numbers, byte strings and maps that
    matter.js stores as a JSON document inside a string.  The [hex] crate is an
    interface. *)

From S2P Require Import Prelude Json Prog Fs Storage Text.

Inductive DecodeError : Type :=
| UnknownTag (tag : string)
| Malformed (what : string)
| WrongType (expected got : string).

(** [{0}] of the error. *)
Definition show_decode_error (e : DecodeError) : string :=
  match e with
  | UnknownTag t => "unknown __object__ tag " +:+ debug_str t
  | Malformed w => "malformed tagged value: " +:+ w
  | WrongType x g => "expected " +:+ x +:+ ", got " +:+ g
  end.

(** The [hex] crate, on byte strings. *)
Class HexCodec : Type := {
  hexc_encode : string -> string;
  hexc_decode : string -> Result string string;
}.

Class HexCodecLaws `{HexCodec} : Prop := {
  hexc_roundtrip : forall s, hexc_decode (hexc_encode s) = Ok s;
}.

Definition PlainHex : HexCodec := {|
  hexc_encode := hex_encode;
  hexc_decode s := ok_or (hex_decode s) "Invalid character";
|}.
#[export] Instance PlainHex_laws : @HexCodecLaws PlainHex.
Proof. constructor. intros s. simpl. by rewrite hex_decode_encode. Qed.

Definition quoted (s : string) : string := dquote +:+ s +:+ dquote.

Definition TAG_PREFIX : string := "{" +:+ quoted "__object__" +:+ ":" +:+ dquote.

Definition BIGINT_TAGS : list string := ["BigInt"; "EventNumber"; "FabricId"; "NodeId"].

Definition NUMBER_TAGS : list string :=
  ["AttributeId"; "CaseAuthenticatedTag"; "ClusterId"; "CommandId"; "DataVersion";
   "DeviceTypeId"; "EndpointNumber"; "EntryIndex"; "EventId"; "FabricIndex";
   "FieldId"; "GroupId"; "VendorId"].

Definition contains (l : list string) (s : string) : bool := existsb (String.eqb s) l.

Inductive Tagged : Type :=
| U64 (n : Z)
| Bytes (b : string)
| MapEntries (l : list (Value * Value))
| Undefined.

Definition entry_pair (item : Value) : Result (Value * Value) DecodeError :=
  match Json.as_array item with
  | Some [k; v] => Ok (k, v)
  | _ => Err (Malformed "Map entry is not a [key, value] pair")
  end.

Definition entries_from_array (v : Value) : Result Tagged DecodeError :=
  match v with
  | VArray items => result_map MapEntries (collect_results entry_pair items)
  | _ => Err (Malformed "Map __value__ is not an array")
  end.

Definition ELLIPSIS : string := bytes_str [0xE2; 0x80; 0xA6].

Section decode.
Context `{SerdeJson} `{HexCodec}.

Definition parse_tagged_inner (s : string) : Result Tagged DecodeError :=
  let? doc := map_err Malformed (json_from_str s) in
  let? tag := ok_or (and_then (value_get doc "__object__") Json.as_str) (Malformed "__object__ is not a string") in
  let value := value_get doc "__value__" in
  if String.eqb tag "Undefined" then Ok Undefined
  else if contains BIGINT_TAGS tag then
    let? payload := ok_or (and_then value Json.as_str) (Malformed (tag +:+ " without a string __value__")) in
    let? n := map_err (fun e => Malformed (tag +:+ " " +:+ debug_str payload +:+ ": " +:+ int_error e))
                (parse_int 64 payload) in
    Ok (U64 n)
  else if contains NUMBER_TAGS tag then
    let? n := ok_or (and_then value Json.as_u64) (Malformed (tag +:+ " without a u64 __value__")) in
    Ok (U64 n)
  else if String.eqb tag "Uint8Array" then
    let? payload := ok_or (and_then value Json.as_str) (Malformed "Uint8Array without a string __value__") in
    let? bytes := map_err (fun e => Malformed ("Uint8Array hex: " +:+ e)) (hexc_decode payload) in
    Ok (Bytes bytes)
  else if String.eqb tag "Map" then
    let? payload := ok_or (and_then value Json.as_str) (Malformed "Map without a string __value__") in
    let? inner := map_err (fun e => Malformed ("Map: " +:+ e)) (json_from_str payload) in
    entries_from_array inner
  else Err (UnknownTag tag).

Definition parse_tagged (v : Value) : option (Result Tagged DecodeError) :=
  match Json.as_str v with
  | Some s => if negb (starts_with TAG_PREFIX s && ends_with "}" s) then None else Some (parse_tagged_inner s)
  | None => None
  end.

Definition short_debug (v : Value) : string :=
  let s := json_to_string v in
  if (80 <? length (chars s))%nat then str_concat (take 80 (chars s)) +:+ ELLIPSIS else s.

Definition wrong_type (expected : string) (v : Value) : DecodeError := WrongType expected (short_debug v).

Definition as_u64 (v : Value) : Result Z DecodeError :=
  match parse_tagged v with
  | Some (Ok (U64 n)) => Ok n
  | Some (Ok _) => Err (wrong_type "u64" v)
  | Some (Err e) => Err e
  | None => ok_or (Json.as_u64 v) (wrong_type "u64" v)
  end.

Definition as_bytes (v : Value) : Result string DecodeError :=
  match parse_tagged v with
  | Some (Ok (Bytes b)) => Ok b
  | Some (Ok _) => Err (wrong_type "Uint8Array" v)
  | Some (Err e) => Err e
  | None => Err (wrong_type "Uint8Array" v)
  end.

Definition as_str (v : Value) : Result string DecodeError :=
  match parse_tagged v with
  | Some (Ok _) => Err (wrong_type "plain string" v)
  | Some (Err e) => Err e
  | None => ok_or (Json.as_str v) (wrong_type "plain string" v)
  end.

Definition as_map_entries (v : Value) : Result (list (Value * Value)) DecodeError :=
  match parse_tagged v with
  | Some (Ok (MapEntries e)) => Ok e
  | Some (Ok _) => Err (wrong_type "Map" v)
  | Some (Err e) => Err e
  | None =>
      match entries_from_array v with
      | Ok (MapEntries e) => Ok e
      | Ok _ => Err (wrong_type "Map" v)   (* unreachable!: [entries_from_array_ok] *)
      | Err e => if negb (is_array v) then Err (wrong_type "Map" v) else Err e
      end
  end.

Definition is_undefined (v : Value) : bool :=
  match parse_tagged v with Some (Ok Undefined) => true | _ => false end.

(** ** Lemmas *)

(** The [unreachable!] arm is unreachable. *)
Lemma entries_from_array_ok v t : entries_from_array v = Ok t -> exists l, t = MapEntries l.
Proof. destruct v; try done. simpl. destruct (collect_results _ _); [|done]. intros [= <-]. by eexists. Qed.

Lemma contains_elem l s : contains l s = true <-> s ∈ l.
Proof.
  unfold contains. rewrite existsb_exists, list_elem_of_In. split.
  - intros (x & Hx & E). by apply String.eqb_eq in E as ->.
  - intros Hs. exists s. by rewrite String.eqb_refl.
Qed.

(** A string that is a tagged document, with the document in it. *)
Definition tagged_doc (v doc : Value) : Prop :=
  exists s, v = VString s /\ starts_with TAG_PREFIX s = true /\ ends_with "}" s = true /\
            json_from_str s = Ok doc.

Definition tag_of (doc : Value) (tag : string) : Prop := value_get doc "__object__" = Some (VString tag).
Definition payload_of (doc : Value) (v : Value) : Prop := value_get doc "__value__" = Some v.

Lemma parse_tagged_doc v doc : tagged_doc v doc ->
  parse_tagged v = Some (match value_get doc "__object__" with
    | Some (VString tag) =>
        let value := value_get doc "__value__" in
        if String.eqb tag "Undefined" then Ok Undefined
        else if contains BIGINT_TAGS tag then
          let? payload := ok_or (and_then value Json.as_str) (Malformed (tag +:+ " without a string __value__")) in
          let? n := map_err (fun e => Malformed (tag +:+ " " +:+ debug_str payload +:+ ": " +:+ int_error e))
                      (parse_int 64 payload) in
          Ok (U64 n)
        else if contains NUMBER_TAGS tag then
          let? n := ok_or (and_then value Json.as_u64) (Malformed (tag +:+ " without a u64 __value__")) in
          Ok (U64 n)
        else if String.eqb tag "Uint8Array" then
          let? payload := ok_or (and_then value Json.as_str) (Malformed "Uint8Array without a string __value__") in
          let? bytes := map_err (fun e => Malformed ("Uint8Array hex: " +:+ e)) (hexc_decode payload) in
          Ok (Bytes bytes)
        else if String.eqb tag "Map" then
          let? payload := ok_or (and_then value Json.as_str) (Malformed "Map without a string __value__") in
          let? inner := map_err (fun e => Malformed ("Map: " +:+ e)) (json_from_str payload) in
          entries_from_array inner
        else Err (UnknownTag tag)
    | _ => Err (Malformed "__object__ is not a string")
    end).
Proof.
  intros (s & -> & Hp & He & Hd). unfold parse_tagged. cbn [Json.as_str]. rewrite Hp, He. cbn [andb negb].
  unfold parse_tagged_inner. rewrite Hd. cbn [map_err result_bind]. f_equal.
  destruct (value_get doc "__object__") as [[]|]; reflexivity.
Qed.

(** The readings of a value as a number. *)
Definition reads_u64 (v : Value) (n : Z) : Prop :=
  v = json_u n \/
  exists doc tag, tagged_doc v doc /\ tag_of doc tag /\
    ((tag ∈ BIGINT_TAGS /\ exists payload, payload_of doc (VString payload) /\ parse_int 64 payload = Ok n) \/
     (tag ∈ NUMBER_TAGS /\ payload_of doc (json_u n))).

Lemma parse_tagged_number n : parse_tagged (json_u n) = None.
Proof. done. Qed.

Lemma tagged_docs_only v t : parse_tagged v = Some (Ok t) -> exists doc, tagged_doc v doc.
Proof.
  unfold parse_tagged. destruct v as [| | |s| |]; try done. cbn [Json.as_str].
  destruct (starts_with TAG_PREFIX s) eqn:Hp, (ends_with "}" s) eqn:He; simpl; try done.
  unfold parse_tagged_inner. destruct (json_from_str s) as [doc|e] eqn:Hd; simpl; [|done].
  intros _. exists doc, s. auto.
Qed.

Ltac tags :=
  repeat match goal with
  | H : contains _ _ = true |- _ => apply contains_elem in H
  | H : String.eqb _ _ = true |- _ => apply String.eqb_eq in H
  end.

Lemma parse_tagged_u64 v doc n :
  tagged_doc v doc ->
  parse_tagged v = Some (Ok (U64 n)) <->
  exists tag, tag_of doc tag /\
    ((tag ∈ BIGINT_TAGS /\ exists payload, payload_of doc (VString payload) /\ parse_int 64 payload = Ok n) \/
     (tag ∈ NUMBER_TAGS /\ payload_of doc (json_u n))).
Proof.
  intros Hd. rewrite (parse_tagged_doc v doc Hd). unfold tag_of, payload_of. split.
  - destruct (value_get doc "__object__") as [[| | |tag| |]|] eqn:Ht; try done. intros Hp. exists tag. split; [done|].
    cbv zeta in Hp. destruct (String.eqb tag "Undefined"); [done|].
    destruct (contains BIGINT_TAGS tag) eqn:Hb.
    { left. tags. split; [done|]. destruct (value_get doc "__value__") as [[| | |p| |]|]; try done.
      simpl in Hp. exists p. split; [done|]. by destruct (parse_int 64 p); simplify_eq/=. }
    destruct (contains NUMBER_TAGS tag) eqn:Hn.
    { right. tags. split; [done|]. destruct (value_get doc "__value__") as [w|]; [|done]. simpl in Hp.
      destruct (Json.as_u64 w) eqn:Hw; simplify_eq/=. by apply as_u64_Some in Hw as ->. }
    destruct (String.eqb tag "Uint8Array").
    { exfalso. destruct (value_get doc "__value__") as [[]|]; simplify_eq/=. by destruct (hexc_decode _). }
    destruct (String.eqb tag "Map"); [|done].
    exfalso. destruct (value_get doc "__value__") as [[]|]; simplify_eq/=.
    destruct (json_from_str s); simplify_eq/=. by apply entries_from_array_ok in Hp as [? ?].
  - intros (tag & -> & [(Hb & p & Hv & Hn)|(Hn & Hv)]).
    + assert (String.eqb tag "Undefined" = false) as ->.
      { unfold BIGINT_TAGS in Hb. rewrite !elem_of_cons, elem_of_nil in Hb. destruct_or! Hb; by subst. }
      apply contains_elem in Hb as ->. rewrite Hv. simpl. by rewrite Hn.
    + assert (String.eqb tag "Undefined" = false /\ contains BIGINT_TAGS tag = false) as [-> ->].
      { unfold NUMBER_TAGS in Hn. rewrite !elem_of_cons, elem_of_nil in Hn. destruct_or! Hn; by subst. }
      apply contains_elem in Hn as ->. by rewrite Hv.
Qed.

(** Exactly which values are read as a number: a JSON integer that fits 64
    bits, or a tagged document whose tag is one of the two known families, with
    a decimal string, or a number, that fits.  In particular a number too large
    for 64 bits, an unknown tag and a tagged byte string are errors, never
    another number. *)
Theorem as_u64_iff v n : as_u64 v = Ok n <-> reads_u64 v n.
Proof.
  unfold as_u64, reads_u64. split.
  - destruct (parse_tagged v) as [[[m| | |]|]|] eqn:Hp; try done.
    + intros [= ->]. right. destruct (tagged_docs_only v _ Hp) as [doc Hd].
      destruct (proj1 (parse_tagged_u64 v doc n Hd) Hp) as (tag & Htag & Hcase). exists doc, tag. auto.
    + destruct (Json.as_u64 v) eqn:E; [|done]. simpl. intros [= ->]. left. by apply as_u64_Some.
  - intros [->|(doc & tag & Hd & Ht & Hc)]; [done|].
    rewrite (proj2 (parse_tagged_u64 v doc n Hd)); [done|]. by exists tag.
Qed.

(** A tag the reader does not know is reported as such by every accessor;
    nothing reads the value as something else. *)
Theorem unknown_tag_rejected v doc tag :
  tagged_doc v doc -> tag_of doc tag ->
  (tag ∉ "Undefined" :: "Uint8Array" :: "Map" :: BIGINT_TAGS ++ NUMBER_TAGS) ->
  as_u64 v = Err (UnknownTag tag) /\ as_bytes v = Err (UnknownTag tag) /\ as_str v = Err (UnknownTag tag) /\
  as_map_entries v = Err (UnknownTag tag) /\ is_undefined v = false.
Proof.
  intros Hd Ht Hn. assert (Hp : parse_tagged v = Some (Err (UnknownTag tag))).
  { rewrite (parse_tagged_doc v doc Hd). unfold tag_of in Ht. rewrite Ht. cbv zeta.
    rewrite !not_elem_of_cons, not_elem_of_app in Hn. destruct Hn as (H1 & H2 & H3 & H4 & H5).
    rewrite (proj2 (String.eqb_neq _ _) H1), (proj2 (String.eqb_neq _ _) H2), (proj2 (String.eqb_neq _ _) H3).
    destruct (contains BIGINT_TAGS tag) eqn:E; [tags; done|].
    destruct (contains NUMBER_TAGS tag) eqn:E'; [tags; done|]. done. }
  unfold as_u64, as_bytes, as_str, as_map_entries, is_undefined. by rewrite Hp.
Qed.

(** A stored byte string is read back. *)
Lemma as_bytes_roundtrip `{!HexCodecLaws} v doc b :
  tagged_doc v doc -> tag_of doc "Uint8Array" -> payload_of doc (VString (hexc_encode b)) -> as_bytes v = Ok b.
Proof.
  intros Hd Ht Hv. unfold as_bytes. rewrite (parse_tagged_doc v doc Hd). unfold tag_of, payload_of in *.
  rewrite Ht, Hv. simpl. by rewrite hexc_roundtrip.
Qed.
End decode.

(** ** A reader that knows one document *)

Definition demo_doc (tag payload : string) : string :=
  TAG_PREFIX +:+ tag +:+ dquote +:+ "," +:+ quoted "__value__" +:+ ":" +:+ quoted payload +:+ "}".

Definition DocJson (tag payload : string) : SerdeJson := {|
  de_message := @de_message TreeJson;
  json_to_string := @json_to_string TreeJson;
  json_chunks := @json_chunks TreeJson;
  json_from_str s :=
    if String.eqb s (demo_doc tag payload)
    then Ok (json_obj [("__object__", VString tag); ("__value__", VString payload)])
    else @json_from_str TreeJson s;
|}.

Lemma unknown_tag_rejected_witness :
  let v := VString (demo_doc "Set" "1") in
  @as_u64 (DocJson "Set" "1") PlainHex v = Err (UnknownTag "Set") /\
  @as_bytes (DocJson "Set" "1") PlainHex v = Err (UnknownTag "Set") /\
  @as_str (DocJson "Set" "1") PlainHex v = Err (UnknownTag "Set") /\
  @as_map_entries (DocJson "Set" "1") PlainHex v = Err (UnknownTag "Set") /\
  @is_undefined (DocJson "Set" "1") PlainHex v = false.
Proof.
  eapply (@unknown_tag_rejected (DocJson "Set" "1") PlainHex);
    [by exists (demo_doc "Set" "1") | reflexivity | set_solver].
Defined.
