(* ===== verification/Convert.v ===== *)
(** * From a matter.js store to this server's records

    [crates/migrate/src/convert.rs]: the strict reading of the source fabric,
    the best-effort search for each device's fabric index, and the node and
    configuration records to write. *)

From S2P Require Import Prelude Json Prog Fs Addr Storage Text Jsdb Decode.

Inductive ConvertError : Type :=
| Missing (what : string)
| CeDecode (context : string) (source : DecodeError)
| Invalid (what : string).

Definition show_convert_error (e : ConvertError) : string :=
  match e with
  | Missing w => "missing " +:+ w +:+ " in the matter.js store"
  | CeDecode c s => c +:+ ": " +:+ show_decode_error s
  | Invalid w => w
  end.

Record SourceFabric : Type := {
  sf_fabric_id : Z;
  sf_controller_node_id : Z;
  sf_vendor_id : Z;
  sf_label : string;
  sf_ipk_epoch_key : string;
  sf_operational_ipk : string;
  sf_operational_id : string;
  sf_ca_private_key : string;
  sf_rcac_tlv : string;
}.

(** The hand-written [Debug]. *)
Definition source_fabric_debug (s : SourceFabric) : string :=
  let redacted b := "[redacted; " +:+ show (str_len b) +:+ " bytes]" in
  let sized b := "[" +:+ show (str_len b) +:+ " bytes]" in
  debug_struct "SourceFabric"
    [("fabric_id", show (sf_fabric_id s));
     ("controller_node_id", show (sf_controller_node_id s));
     ("vendor_id", show (sf_vendor_id s));
     ("label", debug_str (sf_label s));
     ("ipk_epoch_key", redacted (sf_ipk_epoch_key s));
     ("operational_ipk", redacted (sf_operational_ipk s));
     ("operational_id", sized (sf_operational_id s));
     ("ca_private_key", redacted (sf_ca_private_key s));
     ("rcac_tlv", sized (sf_rcac_tlv s))].

Inductive FabricIndexSource : Type :=
| MatchedByRootPublicKey
| FallbackZero (reason : string).

Record NodePlan : Type := { np_record : NodeRecord; np_fabric_index : FabricIndexSource }.

Definition EM_DASH : string := bytes_str [0xE2; 0x80; 0x94].

Definition need (obj : Map) (key full : string) : Result Value ConvertError :=
  ok_or (bt_get obj key) (Missing full).

Definition as_object (v : Value) (full : string) : Result Map ConvertError :=
  ok_or (Json.as_object v) (Invalid (full +:+ " is not an object")).

Definition check_len (bytes : string) (expected : Z) (field : string) : Result unit ConvertError :=
  if negb (str_len bytes =? expected) then
    Err (Invalid (field +:+ " must be " +:+ show expected +:+ " bytes, got " +:+ show (str_len bytes)))
  else Ok tt.

(** Node id to the index found, or why none is used. *)
Abbreviation IndexMap := (BTreeMap Z (Result Z string)).

Section convert.
Context `{SerdeJson} `{HexCodec} `{NodeDate}.

Definition u64_field (v : Value) (path : string) : Result Z ConvertError :=
  map_err (CeDecode path) (Decode.as_u64 v).
Definition bytes_field (v : Value) (path : string) : Result string ConvertError :=
  map_err (CeDecode path) (Decode.as_bytes v).
Definition str_field (v : Value) (path : string) : Result string ConvertError :=
  map_err (CeDecode path) (Decode.as_str v).

Definition read_source_fabric (db : JsDb) : Result SourceFabric ConvertError :=
  let? credentials := ok_or (get db "credentials") (Missing "credentials") in
  let? fabric := need credentials "fabric" "credentials.fabric" in
  let? fabric := as_object fabric "credentials.fabric" in
  let? v := need fabric "fabricId" "credentials.fabric.fabricId" in
  let? fabric_id := u64_field v "credentials.fabric.fabricId" in
  let? v := need fabric "nodeId" "credentials.fabric.nodeId" in
  let? controller_node_id := u64_field v "credentials.fabric.nodeId" in
  let? v := need fabric "rootVendorId" "credentials.fabric.rootVendorId" in
  let? root_vendor_id := u64_field v "credentials.fabric.rootVendorId" in
  let? vendor_id := ok_or (try_from_u 16 root_vendor_id)
    (Invalid ("credentials.fabric.rootVendorId " +:+ show root_vendor_id +:+ " does not fit in a u16")) in
  let? label := match bt_get fabric "label" with
                | Some v => str_field v "credentials.fabric.label"
                | None => Ok ""
                end in
  let? v := need fabric "identityProtectionKey" "credentials.fabric.identityProtectionKey" in
  let? ipk_epoch_key := bytes_field v "credentials.fabric.identityProtectionKey" in
  let? _ := check_len ipk_epoch_key 16 "credentials.fabric.identityProtectionKey" in
  let? v := need fabric "operationalIdentityProtectionKey" "credentials.fabric.operationalIdentityProtectionKey" in
  let? operational_ipk := bytes_field v "credentials.fabric.operationalIdentityProtectionKey" in
  let? _ := check_len operational_ipk 16 "credentials.fabric.operationalIdentityProtectionKey" in
  let? v := need fabric "operationalId" "credentials.fabric.operationalId" in
  let? operational_id := bytes_field v "credentials.fabric.operationalId" in
  let? _ := check_len operational_id 8 "credentials.fabric.operationalId" in
  let? certificates := ok_or (get db "certificates") (Missing "certificates") in
  let? v := need certificates "rootKeyPair" "certificates.rootKeyPair" in
  let? root_key_pair := as_object v "certificates.rootKeyPair" in
  let? v := need root_key_pair "privateKey" "certificates.rootKeyPair.privateKey" in
  let? ca_private_key := bytes_field v "certificates.rootKeyPair.privateKey" in
  let? _ := check_len ca_private_key 32 "certificates.rootKeyPair.privateKey" in
  let? v := need certificates "rootCertBytes" "certificates.rootCertBytes" in
  let? rcac_tlv := bytes_field v "certificates.rootCertBytes" in
  Ok {| sf_fabric_id := fabric_id; sf_controller_node_id := controller_node_id;
        sf_vendor_id := vendor_id; sf_label := label; sf_ipk_epoch_key := ipk_epoch_key;
        sf_operational_ipk := operational_ipk; sf_operational_id := operational_id;
        sf_ca_private_key := ca_private_key; sf_rcac_tlv := rcac_tlv |}.

(** ** The fabric index of each device *)

(** The node id and index an entry of a fabric table claims on our fabric; an
    entry without them, or of another root, claims nothing. *)
Definition entry_claim (root_public_key : string) (entry : Value) : option (Z * Z) :=
  obj ← Json.as_object entry;
  pk_value ← bt_get obj "rootPublicKey";
  pk ← result_ok (Decode.as_bytes pk_value);
  if negb (String.eqb pk root_public_key) then None
  else
    node_id_value ← bt_get obj "nodeId";
    index_value ← bt_get obj "fabricIndex";
    node_id ← result_ok (Decode.as_u64 node_id_value);
    index ← result_ok (Decode.as_u64 index_value);
    Some (node_id, index).

Definition record_claim (context : string) (node_id index : Z) (m : IndexMap) : IndexMap :=
  if negb ((1 <=? index) && (index <=? 254)) then
    bt_insert node_id
      (Err ("the cached fabric entry for this node (at " +:+ context +:+ ") has an out-of-range fabricIndex "
            +:+ show index)) m
  else
    let index := as_u 8 index in
    match bt_get m node_id with
    | None => bt_insert node_id (Ok index) m
    | Some (Ok prev) =>
        if prev =? index then m
        else bt_insert node_id
          (Err ("two cached fabric tables claim node " +:+ show node_id +:+
                " on our fabric with different fabric indexes; refusing to pick")) m
    | Some (Err _) => m
    end.

Definition add_entry (root_public_key context : string) (m : IndexMap) (entry : Value) : IndexMap :=
  match entry_claim root_public_key entry with
  | Some (node_id, index) => record_claim context node_id index m
  | None => m
  end.

Definition is_fabric_table (context : string) : bool :=
  starts_with "nodes.peer" context && ends_with ".endpoints.0.62" context.

Definition add_context (db : JsDb) (root_public_key : string) (m : IndexMap) (context : string) : IndexMap :=
  if negb (is_fabric_table context) then m
  else
    match and_then (field db context "1") Json.as_array with
    | Some array => fold_left (add_entry root_public_key context) array m
    | None => m
    end.

Definition fabric_index_by_node_id (db : JsDb) (root_public_key : string) : IndexMap :=
  fold_left (add_context db root_public_key) (context_keys db) [].

(** ** Planned records *)

Definition resolve_index (index_by_node : IndexMap) (node_id : Z) : Z * FabricIndexSource :=
  match bt_get index_by_node node_id with
  | Some (Ok index) => (index, MatchedByRootPublicKey)
  | Some (Err reason) =>
      (0, FallbackZero (reason +:+ " " +:+ EM_DASH +:+ " removing this device will leave our fabric behind on it"))
  | None =>
      (0, FallbackZero ("no cached fabric table names this node on our fabric (searched every " +:+
         "nodes.peer*.endpoints.0.62 cache) " +:+ EM_DASH +:+ " removing this device will leave our " +:+
         "fabric behind on it"))
  end.

(** One commissioned node; [now] is what the clock reads when the store has no
    discovery time. *)
Definition plan_node (index_by_node : IndexMap) (now : Z) (kv : Value * Value) : Result NodePlan ConvertError :=
  let? node_id := u64_field kv.1 "nodes.commissionedNodes[key]" in
  let? obj := as_object kv.2 "nodes.commissionedNodes[value]" in
  let? discovered_ms :=
    match and_then (bt_get obj "discoveryData") (fun d => value_get d "discoveredAt") with
    | Some v => result_map Some (u64_field v "nodes.commissionedNodes[value].discoveryData.discoveredAt")
    | None => Ok None
    end in
  let date := format_node_date (match discovered_ms with Some ms => ms | None => now end) in
  let? addresses :=
    match and_then (bt_get obj "operationalServerAddress") (fun a => value_get a "ip") with
    | Some v =>
        let? ip := str_field v "nodes.commissionedNodes[value].operationalServerAddress.ip" in
        Ok [ip_of ip]
    | None => Ok []
    end in
  let '(device_fabric_index, fabric_index) := resolve_index index_by_node node_id in
  Ok {| np_record := {| nr_node_id := node_id; nr_date_commissioned := date; nr_last_interview := date;
                        nr_device_fabric_index := device_fabric_index; nr_addresses := addresses;
                        nr_attributes := [] |};
        np_fabric_index := fabric_index |}.

Definition plan_key (p : NodePlan) : Z := nr_node_id (np_record p).

(** [clock i]: the time at which the [i]-th node is planned. *)
Definition plan_nodes (clock : nat -> Z) (db : JsDb) (root_public_key : string) :
    Result (list NodePlan) ConvertError :=
  match and_then (get db "nodes") (fun nodes_ctx => bt_get nodes_ctx "commissionedNodes") with
  | None => Ok []
  | Some commissioned =>
      let? entries := map_err (CeDecode "nodes.commissionedNodes") (Decode.as_map_entries commissioned) in
      let index_by_node := fabric_index_by_node_id db root_public_key in
      let? plans := collect_results (fun ie => plan_node index_by_node (clock ie.1) ie.2) (imap pair entries) in
      Ok (sort_by_key plan_key plans)
  end.

Definition max_id (nodes : list NodePlan) : option Z :=
  foldr (fun p m => Some (match m with Some m => Z.max (plan_key p) m | None => plan_key p end)) None nodes.

(** [max + 1] wraps in a release build. *)
Definition config_from (source : SourceFabric) (nodes : list NodePlan) : ConfigData :=
  {| cfg_fabric_label := normalize_fabric_label (Some (sf_label source));
     cfg_next_node_id := match max_id nodes with None => 1 | Some max => as_u 64 (max + 1) end;
     cfg_wifi_credentials := [];
     cfg_thread_datasets := [] |}.
End convert.

(** ** The source fabric *)

Section source.
Context `{SerdeJson} `{HexCodec}.

Definition fabric_of (db : JsDb) : option Map :=
  credentials ← get db "credentials"; bt_get credentials "fabric" ≫= Json.as_object.
Definition key_pair_of (db : JsDb) : option Map :=
  certificates ← get db "certificates"; bt_get certificates "rootKeyPair" ≫= Json.as_object.

Definition u64_at (obj : option Map) (key : string) : option Z :=
  m ← obj; v ← bt_get m key; result_ok (Decode.as_u64 v).
Definition bytes_at (obj : option Map) (key : string) : option string :=
  m ← obj; v ← bt_get m key; result_ok (Decode.as_bytes v).

(** What a store must hold for [s] to be its fabric. *)
Definition holds_fabric (db : JsDb) (s : SourceFabric) : Prop :=
  u64_at (fabric_of db) "fabricId" = Some (sf_fabric_id s) /\
  u64_at (fabric_of db) "nodeId" = Some (sf_controller_node_id s) /\
  u64_at (fabric_of db) "rootVendorId" = Some (sf_vendor_id s) /\ 0 <= sf_vendor_id s < 2 ^ 16 /\
  match m ← fabric_of db; bt_get m "label" with
  | Some v => Decode.as_str v = Ok (sf_label s)
  | None => sf_label s = ""
  end /\
  bytes_at (fabric_of db) "identityProtectionKey" = Some (sf_ipk_epoch_key s) /\
  str_len (sf_ipk_epoch_key s) = 16 /\
  bytes_at (fabric_of db) "operationalIdentityProtectionKey" = Some (sf_operational_ipk s) /\
  str_len (sf_operational_ipk s) = 16 /\
  bytes_at (fabric_of db) "operationalId" = Some (sf_operational_id s) /\ str_len (sf_operational_id s) = 8 /\
  bytes_at (key_pair_of db) "privateKey" = Some (sf_ca_private_key s) /\ str_len (sf_ca_private_key s) = 32 /\
  bytes_at (get db "certificates") "rootCertBytes" = Some (sf_rcac_tlv s).

Lemma check_len_ok b n f : check_len b n f = Ok tt <-> str_len b = n.
Proof. unfold check_len. destruct (Z.eqb_spec (str_len b) n); simpl; split; congruence. Qed.

Lemma result_bind_ok {A B E} (r : Result A E) (f : A -> Result B E) b :
  result_bind r f = Ok b <-> exists a, r = Ok a /\ f a = Ok b.
Proof. destruct r; simpl; split; [eauto | naive_solver | done | naive_solver]. Qed.

Lemma u64_field_ok v p n : u64_field v p = Ok n <-> result_ok (Decode.as_u64 v) = Some n.
Proof. unfold u64_field. destruct (Decode.as_u64 v); simpl; split; congruence. Qed.
Lemma bytes_field_ok v p n : bytes_field v p = Ok n <-> result_ok (Decode.as_bytes v) = Some n.
Proof. unfold bytes_field. destruct (Decode.as_bytes v); simpl; split; congruence. Qed.
Lemma ok_or_ok {A E} (o : option A) (e : E) a : ok_or o e = Ok a <-> o = Some a.
Proof. destruct o; simpl; split; congruence. Qed.

(** The source fabric is read strictly.  [read_source_fabric] succeeds with
    [s] exactly when every field of [s] is in the store at its documented path
    and decodes, the vendor id fits 16 bits, both protection keys have 16
    bytes, the operational id 8 and the private key 32; a missing label (and
    nothing else) has a default.  Nothing is truncated, padded or guessed. *)
Theorem read_source_fabric_iff db s : read_source_fabric db = Ok s <-> holds_fabric db s.
Proof.
  unfold read_source_fabric, holds_fabric, u64_at, bytes_at, fabric_of, key_pair_of, need, as_object. split.
  - intros Hr. repeat (apply result_bind_ok in Hr as (? & ?E & Hr)). injection Hr as <-. simpl.
    repeat match goal with
    | x : unit |- _ => destruct x
    | E : check_len _ _ _ = Ok _ |- _ => apply check_len_ok in E
    | E : ok_or _ _ = Ok _ |- _ => apply ok_or_ok in E
    | E : u64_field _ _ = Ok _ |- _ => apply u64_field_ok in E
    | E : bytes_field _ _ = Ok _ |- _ => apply bytes_field_ok in E
    end.
    match goal with E : try_from_u _ _ = Some _ |- _ => apply try_from_u_Some in E as [-> ?] end.
    repeat match goal with E : _ = Some _ |- _ => progress rewrite ?E; simpl end.
    split_and!; try done; try lia. unfold str_field in *.
    destruct (bt_get _ "label"); [|by simplify_eq]. by destruct (Decode.as_str _); simplify_eq/=.
  - destruct s; simpl. intros (F1 & F2 & F3 & Hv & Hl & F4 & L4 & F5 & L5 & F6 & L6 & F7 & L7 & F8).
    repeat match goal with E : _ ≫= _ = Some _ |- _ => apply bind_Some in E as (? & ? & E) end.
    simplify_eq.
    repeat match goal with E : _ = Some _ |- _ => progress rewrite ?E; simpl end.
    rewrite !(proj2 (u64_field_ok _ _ _) F1), !(proj2 (u64_field_ok _ _ _) F2), !(proj2 (u64_field_ok _ _ _) F3).
    simpl. rewrite (proj2 (try_from_u_Some 16 _ _) (conj eq_refl Hv)). simpl.
    rewrite !(proj2 (bytes_field_ok _ _ _) F4), !(proj2 (bytes_field_ok _ _ _) F5),
      !(proj2 (bytes_field_ok _ _ _) F6), !(proj2 (bytes_field_ok _ _ _) F7), !(proj2 (bytes_field_ok _ _ _) F8).
    repeat match goal with E : _ = Some _ |- _ => progress rewrite ?E in Hl; simpl in Hl end.
    destruct (bt_get _ "label"); [unfold str_field; rewrite Hl | subst]; simpl;
      rewrite !(proj2 (check_len_ok _ _ _) L4), !(proj2 (check_len_ok _ _ _) L5),
        !(proj2 (check_len_ok _ _ _) L6), !(proj2 (check_len_ok _ _ _) L7); done.
Qed.
End source.

(** ** Which index a device gets *)

Section index.
Context `{SerdeJson} `{HexCodec} `{NodeDate}.

(** All the claims made by the cached fabric tables of a store, in the order
    they are read: context, node id, index. *)
Definition table_claims (db : JsDb) (pk context : string) : list (string * Z * Z) :=
  if is_fabric_table context then
    match and_then (field db context "1") Json.as_array with
    | Some l => omap (fun e => (fun c => (context, c.1, c.2)) <$> entry_claim pk e) l
    | None => []
    end
  else [].

Definition claims (db : JsDb) (pk : string) : list (string * Z * Z) :=
  flat_map (table_claims db pk) (context_keys db).

Definition add_claim (m : IndexMap) (c : string * Z * Z) : IndexMap := record_claim c.1.1 c.1.2 c.2 m.

Lemma fabric_index_claims db pk : fabric_index_by_node_id db pk = fold_left add_claim (claims db pk) [].
Proof.
  unfold fabric_index_by_node_id, claims. generalize (@nil (Z * Result Z string)) as m.
  induction (context_keys db) as [|c l IH]; intros m; [done|]. cbn [fold_left flat_map].
  rewrite fold_left_app, IH. f_equal. unfold add_context, table_claims. destruct (is_fabric_table c); [|done]. simpl.
  destruct (and_then _ _) as [es|]; [|done]. clear. revert m. induction es as [|e es IH]; intros m; [done|].
  simpl. unfold add_entry at 2. destruct (entry_claim pk e) as [[n i]|]; simpl; apply IH.
Qed.

Definition in_index_range (i : Z) : Prop := 1 <= i <= 254.

(** What the claims about one node justify. *)
Definition justified (cs : list (string * Z * Z)) (n : Z) (o : option (Result Z string)) : Prop :=
  match o with
  | None => forall ctx i, (ctx, n, i) ∉ cs
  | Some (Ok i) =>
      in_index_range i /\ (exists ctx, (ctx, n, i) ∈ cs) /\ (forall ctx j, (ctx, n, j) ∈ cs -> j = i)
  | Some (Err _) =>
      (exists ctx i, (ctx, n, i) ∈ cs /\ ~ in_index_range i) \/
      (exists ctx i ctx' j, (ctx, n, i) ∈ cs /\ (ctx', n, j) ∈ cs /\ i <> j)
  end.

Lemma record_claim_other ctx n i m k : n <> k -> bt_get (record_claim ctx n i m) k = bt_get m k.
Proof.
  intros Hn. unfold record_claim. repeat case_match; try done; by rewrite bt_get_insert_ne.
Qed.

Lemma justified_other cs n k o ctx i : n <> k -> justified cs k o -> justified (cs ++ [(ctx, n, i)]) k o.
Proof.
  intros Hn Hj.
  assert (Hin : forall c j, (c, k, j) ∈ cs ++ [(ctx, n, i)] <-> (c, k, j) ∈ cs).
  { intros c j. rewrite elem_of_app, list_elem_of_singleton. split; [|auto].
    intros [?|?]; [done|]. congruence. }
  destruct o as [[j|e]|]; simpl in *.
  - destruct Hj as (? & (c & ?) & Hall). split; [done|]. split; [exists c; by apply Hin|].
    intros ? ? ?%Hin. by eapply Hall.
  - destruct Hj as [(c & j & ? & ?)|(c & j & c' & j' & ? & ? & ?)].
    + left. exists c, j. by rewrite Hin.
    + right. exists c, j, c', j'. by rewrite !Hin.
  - intros c j. rewrite Hin. apply Hj.
Qed.

Lemma justified_same cs n ctx i m :
  justified cs n (bt_get m n) -> justified (cs ++ [(ctx, n, i)]) n (bt_get (record_claim ctx n i m) n).
Proof.
  intros Hj. unfold record_claim.
  assert (Hnew : (ctx, n, i) ∈ cs ++ [(ctx, n, i)]) by set_solver.
  assert (Hold : forall c, c ∈ cs -> c ∈ cs ++ [(ctx, n, i)]) by set_solver.
  destruct ((1 <=? i) && (i <=? 254)) eqn:Hr; cbn [negb].
  2:{ rewrite bt_get_insert_eq. simpl. left. exists ctx, i. split; [done|].
      apply andb_false_iff in Hr. unfold in_index_range. lia. }
  z_bools. unfold as_u. rewrite Z.mod_small by lia.
  destruct (bt_get m n) as [[j|e]|] eqn:Em; simpl in Hj |- *.
  - destruct Hj as (Hj & (c & Hc) & Hall). destruct (Z.eqb_spec j i) as [->|Hne].
    + rewrite Em. simpl. split; [done|]. split; [by exists ctx|]. intros c' j'.
      rewrite elem_of_app, list_elem_of_singleton. intros [Hin|[= _ ->]]; [by eapply Hall | done].
    + rewrite bt_get_insert_eq. simpl. right. exists c, j, ctx, i. auto.
  - rewrite Em. simpl. destruct Hj as [(c & j & ? & ?)|(c & j & c' & j' & ? & ? & ?)].
    + left. exists c, j. auto.
    + right. exists c, j, c', j'. auto.
  - rewrite bt_get_insert_eq. simpl. split; [done|]. split; [by exists ctx|]. intros c' j'.
    rewrite elem_of_app, list_elem_of_singleton. intros [Hin|[= _ ->]]; [by apply Hj in Hin | done].
Qed.

Lemma fold_claims_justified cs past m n :
  justified past n (bt_get m n) -> justified (past ++ cs) n (bt_get (fold_left add_claim cs m) n).
Proof.
  revert past m. induction cs as [|[[ctx k] i] cs IH]; intros past m Hj; simpl; [by rewrite app_nil_r|].
  replace (past ++ (ctx, k, i) :: cs) with ((past ++ [(ctx, k, i)]) ++ cs) by (by rewrite <- app_assoc).
  apply IH. unfold add_claim. simpl. destruct (decide (k = n)) as [->|Hne].
  - by apply justified_same.
  - rewrite record_claim_other by done. by apply justified_other.
Qed.

(** A device's fabric index is never a guess.  For every store and every
    node id, the result is an index exactly when some cached fabric table
    claims that index for the node on our root key, every such claim agrees,
    and it lies in 1..254; two claims that differ, or one out of range, make it
    a refusal, and a node nobody mentions has no entry. *)
Theorem fabric_index_spec db pk n :
  justified (claims db pk) n (bt_get (fabric_index_by_node_id db pk) n).
Proof.
  rewrite fabric_index_claims. apply (fold_claims_justified _ []). intros ctx i Hin. by apply elem_of_nil in Hin.
Qed.

(** ** The plan *)

(** A plan is consistent when the index written matches how it was found. *)
Definition plan_ok (db : JsDb) (pk : string) (p : NodePlan) : Prop :=
  match np_fabric_index p with
  | MatchedByRootPublicKey =>
      justified (claims db pk) (plan_key p) (Some (Ok (nr_device_fabric_index (np_record p))))
  | FallbackZero _ => nr_device_fabric_index (np_record p) = 0
  end.

Lemma plan_node_ok db pk now kv p :
  plan_node (fabric_index_by_node_id db pk) now kv = Ok p ->
  plan_ok db pk p /\ Decode.as_u64 kv.1 = Ok (plan_key p) /\ nr_attributes (np_record p) = [].
Proof.
  unfold plan_node. intros Hp. repeat (apply result_bind_ok in Hp as (? & ?E & Hp)).
  unfold resolve_index in Hp. unfold plan_ok, plan_key.
  repeat match goal with E : u64_field kv.1 _ = _ |- _ => apply u64_field_ok in E end.
  match goal with E : result_ok (Decode.as_u64 kv.1) = Some ?n |- _ =>
    pose proof (fabric_index_spec db pk n) as Hj;
    destruct (Decode.as_u64 kv.1); simplify_eq/= end.
  destruct (bt_get (fabric_index_by_node_id _ _) _) as [[i|e]|] eqn:Hg; simplify_eq/=; auto.
Qed.

Lemma map_snd_imap {A} (f : nat -> nat) (l : list A) : map snd (imap (fun i e => (f i, e)) l) = l.
Proof. revert f. induction l as [|a l IH]; intros f; [done|]. simpl. f_equal. apply (IH (f ∘ S)). Qed.

Lemma Forall2_map_eq {A B C} (R : A -> B -> Prop) (g : B -> C) (h : A -> C) l l' :
  Forall2 R l l' -> (forall a b, R a b -> g b = h a) -> map g l' = map h l.
Proof. intros Hl Hr. induction Hl; simpl; f_equal; auto. Qed.

(** The planned records.  When planning succeeds, there is one record for
    each commissioned node of the store, in ascending order of node id, each
    with the store's node id; a record written with an index above zero carries
    the one index all the cached tables agree on, and every other record
    carries 0. *)
Theorem plan_nodes_spec clock db pk commissioned entries plans :
  and_then (get db "nodes") (fun m => bt_get m "commissionedNodes") = Some commissioned ->
  Decode.as_map_entries commissioned = Ok entries ->
  plan_nodes clock db pk = Ok plans ->
  StronglySorted (key_le plan_key) plans /\
  Permutation (map (fun p => Ok (E := DecodeError) (plan_key p)) plans) (map (fun kv => Decode.as_u64 kv.1) entries) /\
  Forall (plan_ok db pk) plans.
Proof.
  intros Hc He Hp. unfold plan_nodes in Hp. rewrite Hc, He in Hp. cbn [map_err result_bind] in Hp.
  apply result_bind_ok in Hp as (ps & Hps & [= <-]). apply collect_results_Ok in Hps.
  split; [apply sort_by_key_sorted|]. rewrite (sort_by_key_perm plan_key ps). split.
  - rewrite <- (map_snd_imap (fun i => i) entries) at 1. rewrite map_map. apply Permutation_refl'.
    eapply Forall2_map_eq; [exact Hps|]. intros ie p Hp. simpl in Hp. by apply plan_node_ok in Hp as (_ & -> & _).
  - eapply Forall2_Forall_r; [exact Hps|]. apply Forall_forall. intros ie _ p Hie.
    by apply plan_node_ok in Hie as [? _].
Qed.
End index.

(** A refusal's reason can still change: an out-of-range claim replaces it. *)
Example later_range_error_replaces_reason :
  let m1 := record_claim "a" 8 2 (record_claim "a" 8 1 []) in
  exists e1 e2, bt_get m1 8 = Some (Err e1) /\ bt_get (record_claim "b" 8 255 m1) 8 = Some (Err e2) /\ e1 <> e2.
Proof. eexists _, _. split; [reflexivity|]. split; [reflexivity|]. discriminate. Qed.

(** ** A small store *)

Definition ShowDate : NodeDate := {| format_node_date := show |}.

Definition demo_nodes : Value := VArray [VArray [json_u 9; VObject []]; VArray [json_u 8; VObject []]].
Definition demo_db : JsDb := from_data [("nodes", [("commissionedNodes", demo_nodes)])].
Definition demo_plan (id : Z) (reason : string) : NodePlan :=
  {| np_record := {| nr_node_id := id; nr_date_commissioned := "0"; nr_last_interview := "0";
                     nr_device_fabric_index := 0; nr_addresses := []; nr_attributes := [] |};
     np_fabric_index := FallbackZero reason |}.
Definition no_table_reason : string :=
  match (resolve_index [] 0).2 with FallbackZero r => r | _ => "" end.

Lemma plan_nodes_spec_witness :
  StronglySorted (key_le plan_key) [demo_plan 8 no_table_reason; demo_plan 9 no_table_reason] /\
  Permutation (map (fun p => Ok (E := DecodeError) (plan_key p)) [demo_plan 8 no_table_reason; demo_plan 9 no_table_reason])
    (map (fun kv => @Decode.as_u64 TreeJson PlainHex kv.1) [(json_u 9, VObject []); (json_u 8, VObject [])]) /\
  Forall (@plan_ok TreeJson PlainHex demo_db "pk") [demo_plan 8 no_table_reason; demo_plan 9 no_table_reason].
Proof.
  apply (@plan_nodes_spec TreeJson PlainHex ShowDate (fun _ => 0) demo_db "pk" demo_nodes); reflexivity.
Defined.
