(* ===== verification/Identity.v ===== *)
(** * The controller's fabric identity

    [crates/stack/src/identity.rs] and [crates/stack/src/migration.rs]: loading
    or minting the identity at start, installing it as a fabric, and the helpers
    the migration tool uses.  Certificates, keys and the fabric table are
    [rs-matter]'s: what it computes from bytes is the class [RsMatter], what
    draws random numbers or changes the fabric table is an operation of
    [RsOp]. *)

From S2P Require Import Prelude Json Prog Fs Storage StackApi.

Definition CONTROLLER_NODE_ID : Z := 112233.
Definition FABRIC_LABEL_MAX_BYTES : nat := 32.
Definition RCAC_DRAW_ATTEMPTS : nat := 32.
Definition MATTER_EPOCH_OFFSET_S : Z := 946684800.

(** ** rs-matter *)

Class RsMatter : Type := {
  rs_error : Type;
  rs_show : rs_error -> string;              (* [Display] *)
  rs_invalid_data : rs_error;                (* [ErrorCode::InvalidData.into()] *)
  rs_of_io : IoError -> rs_error;            (* [From<io::Error>] *)
  cert_node_id : string -> Result Z rs_error;      (* CertRef::get_node_id *)
  cert_fabric_id : string -> Result Z rs_error;
  cert_ca_id : string -> Result Z rs_error;
  cert_pubkey : string -> Result string rs_error;
  cert_serial : string -> Result string rs_error;  (* structure()?.find_ctx(1)?.str()? *)
  canon_secret_key : string -> Result string rs_error;   (* CanonPkcSecretKey::try_from *)
  canon_aead_key : string -> Result string rs_error;     (* CanonAeadKeyRef::try_new *)
  key_set_update : string -> Z -> Result string rs_error;  (* KeySet::update, its op_key *)
  verify_add_cert : string -> string -> Z -> Result unit rs_error;  (* verify_chain_start(now).add_cert *)
  verify_finalise : string -> string -> Z -> Result unit rs_error;
}.

Inductive RsOp `{RsMatter} : Type -> Type :=
| GenerateRcac (fabric_id : Z) : RsOp (Result (string * string) rs_error)
| GenerateRcacWithoutFabricId : RsOp (Result (string * string) rs_error)
| GenerateSecretKey : RsOp (Result string rs_error)
| Csr (key : string) : RsOp (Result string rs_error)
| WriteCanon (key : string) : RsOp (Result string rs_error)
| NocCreate (ca_key rcac : string) : RsOp (Result string rs_error)
| NocCreateWithFabricId (ca_key rcac : string) (fabric_id : Z) : RsOp (Result string rs_error)
| NocGenerate (generator csr : string) (node_id : Z) : RsOp (Result string rs_error)
| FillRandom (bytes : nat) : RsOp (Result string rs_error)
| FabricsAdd (key rcac noc ipk : string) (vendor_id node_id : Z) : RsOp (Result (Z * Z) rs_error)
| FreshFabricsAdd (key rcac noc ipk : string) (vendor_id node_id : Z) : RsOp (Result Z rs_error)
| FabricsRemove (fab_idx : Z) : RsOp (Result unit rs_error)
| UpdateLabel (fab_idx : Z) (label : string) : RsOp (Result unit rs_error)
| UnixSeconds : RsOp (option Z).      (* None: the clock is before 1970 *)

Inductive IdOp `{RsMatter} : Type -> Type :=
| OnFs {A} (op : FsOp A) : IdOp A
| OnRs {A} (op : RsOp A) : IdOp A.

Section identity.
Context `{RS : RsMatter} `{SerdeJson} `{Base64}.

Abbreviation Id := (Prog IdOp).

Definition rs {A} (op : RsOp A) : Id A := do_op (OnRs op).

Fixpoint on_fs {A} (p : Io A) : Id A :=
  match p with
  | Ret a => Ret a
  | Do op k => Do (OnFs op) (fun b => on_fs (k b))
  end.

(** An [io::Error] through [?]. *)
Definition io_try {A} (p : Io (Result A IoError)) : Id (Result A rs_error) :=
  do! r := on_fs p in Ret (map_err rs_of_io r).

(** ** Serial numbers *)

Definition top_bit (c : byte) : bool := 128 <=? byte_of c.

Definition canonical_serial (serial : string) : bool :=
  match serial with
  | EmptyString => false
  | String first rest =>
      if top_bit first then false
      else negb ((byte_of first =? 0) && match rest with String b _ => negb (top_bit b) | _ => false end)
  end.

Definition serial_is_der_canonical (cert_tlv : string) : Result bool rs_error :=
  let? serial := cert_serial cert_tlv in Ok (canonical_serial serial).

(** ** Minting *)

Fixpoint draw_rcac (attempts : nat) (fabric_id : Z) (last_err : option rs_error) :
    Id (Result (string * string) rs_error) :=
  match attempts with
  | O => Ret (Err (match last_err with Some e => e | None => rs_invalid_data end))
  | S attempts =>
      do! drawn := rs (GenerateRcac fabric_id) in
      match drawn with
      | Err e => draw_rcac attempts fabric_id (Some e)
      | Ok (rcac_priv, rcac) =>
          match serial_is_der_canonical rcac with
          | Err e => Ret (Err e)
          | Ok true => Ret (Ok (rcac_priv, rcac))
          | Ok false => draw_rcac attempts fabric_id last_err
          end
      end
  end.

Definition generate_usable_rcac (fabric_id : Z) : Id (Result (string * string) rs_error) :=
  draw_rcac RCAC_DRAW_ATTEMPTS fabric_id None.

Definition finish_identity (fabric_id vendor_id : Z) (rcac_priv rcac : string) : Id (Result ServerIdentity rs_error) :=
  do? controller_secret_key := rs GenerateSecretKey in
  do? csr := rs (Csr controller_secret_key) in
  do? controller_key := rs (WriteCanon controller_secret_key) in
  do? noc_gen := rs (NocCreate rcac_priv rcac) in
  do? controller_noc := rs (NocGenerate noc_gen csr CONTROLLER_NODE_ID) in
  do? ipk := rs (FillRandom 16) in
  Ret (Ok {| id_version := IDENTITY_VERSION; id_fabric_id := fabric_id; id_vendor_id := vendor_id;
             id_controller_node_id := CONTROLLER_NODE_ID; id_compressed_fabric_id := 0;
             id_ca_private_key := rcac_priv; id_rcac_tlv := rcac;
             id_controller_private_key := controller_key; id_controller_noc_tlv := controller_noc;
             id_ipk := ipk |}).

Definition generate (fabric_id vendor_id : Z) : Id (Result ServerIdentity rs_error) :=
  do? (rcac_priv, rcac) := generate_usable_rcac fabric_id in
  finish_identity fabric_id vendor_id rcac_priv rcac.

(** ** Installing *)

Definition install (id : ServerIdentity) : Id (Result (Z * Z) rs_error) :=
  do? noc_node_id := lift_result (cert_node_id (id_controller_noc_tlv id)) in
  if negb (noc_node_id =? id_controller_node_id id) then Ret (Err rs_invalid_data)
  else
    do? controller_key := lift_result (canon_secret_key (id_controller_private_key id)) in
    do? ipk := lift_result (canon_aead_key (id_ipk id)) in
    rs (FabricsAdd controller_key (id_rcac_tlv id) (id_controller_noc_tlv id) ipk
          (id_vendor_id id) (id_controller_node_id id)).

Fixpoint boundary_below (s : string) (i : nat) : nat :=
  match i with
  | O => O
  | S j => if is_char_boundary s i then i else boundary_below s j
  end.

Definition truncate_to_bytes (s : string) (max_bytes : nat) : string :=
  if (String.length s <=? max_bytes)%nat then s
  else String.substring 0 (boundary_below s max_bytes) s.

Definition with_compressed (id : ServerIdentity) (compressed : Z) : ServerIdentity :=
  {| id_version := id_version id; id_fabric_id := id_fabric_id id; id_vendor_id := id_vendor_id id;
     id_controller_node_id := id_controller_node_id id; id_compressed_fabric_id := compressed;
     id_ca_private_key := id_ca_private_key id; id_rcac_tlv := id_rcac_tlv id;
     id_controller_private_key := id_controller_private_key id;
     id_controller_noc_tlv := id_controller_noc_tlv id; id_ipk := id_ipk id |}.

(** The [Some(stored)] arm. *)
Definition use_stored (s : Storage) (stored : ServerIdentity) : Id (Result (ServerIdentity * Z) rs_error) :=
  do? (fab_idx, compressed) := install stored in
  if negb (compressed =? id_compressed_fabric_id stored) then
    let stored := with_compressed stored compressed in
    do! _ := on_fs (save_identity s stored) in      (* a failure is only logged *)
    Ret (Ok (stored, fab_idx))
  else Ret (Ok (stored, fab_idx)).

(** The [None] arm: a fabric that cannot be persisted is removed again. *)
Definition mint (s : Storage) (fabric_id vendor_id : Z) : Id (Result (ServerIdentity * Z) rs_error) :=
  do? identity := generate fabric_id vendor_id in
  do? (fab_idx, compressed) := install identity in
  let identity := with_compressed identity compressed in
  do! created := on_fs (create_identity s identity) in
  match created with
  | Err e => do! _ := rs (FabricsRemove fab_idx) in Ret (Err (rs_of_io e))
  | Ok _ => Ret (Ok (identity, fab_idx))
  end.

Definition ensure_identity (s : Storage) (fabric_id vendor_id : Z) (fabric_label : string) :
    Id (Result (ServerIdentity * Z) rs_error) :=
  do? found := io_try (load_identity s) in
  do? (identity, fab_idx) :=
    match found with
    | Some stored => use_stored s stored
    | None => mint s fabric_id vendor_id
    end in
  do! _ := rs (UpdateLabel fab_idx (truncate_to_bytes fabric_label FABRIC_LABEL_MAX_BYTES)) in
  Ret (Ok (identity, fab_idx)).

(** ** migration.rs *)

Definition sdk_err (context : string) (e : rs_error) : StackError :=
  StackError_new Sdk (context +:+ ": Error::" +:+ rs_show e).

Definition sdk {A} (context : string) (p : Id (Result A rs_error)) : Id (Result A StackError) :=
  do! r := p in Ret (map_err (sdk_err context) r).

Definition TLV_CONTEXT : string := "rcac_tlv does not parse as a Matter TLV certificate".

Definition verify_identity (id : ServerIdentity) : Id (Result unit StackError) :=
  let noc := id_controller_noc_tlv id in
  let rcac := id_rcac_tlv id in
  do? noc_node_id := sdk "controller_noc_tlv does not parse as a Matter TLV certificate" (Ret (cert_node_id noc)) in
  if negb (noc_node_id =? id_controller_node_id id) then
    Ret (Err (StackError_new Sdk ("the minted NOC's subject node id " +:+ show noc_node_id +:+
      " does not match controller_node_id " +:+ show (id_controller_node_id id))))
  else
    do! secs := rs UnixSeconds in
    let now_matter_micros := as_u 64 (Z.max 0 (unwrap_or 0 secs - MATTER_EPOCH_OFFSET_S) * 1000000) in
    do? _ := sdk "the controller NOC does not chain to the RCAC" (Ret (verify_add_cert noc rcac now_matter_micros)) in
    do? _ := sdk "the RCAC did not verify as a chain root" (Ret (verify_finalise noc rcac now_matter_micros)) in
    Ret (Ok tt).

Definition rcac_fabric_id_check (rcac_tlv : string) (fabric_id : Z) : Result unit StackError :=
  match cert_fabric_id rcac_tlv with
  | Ok rcac_fabric_id =>
      if rcac_fabric_id =? fabric_id then Ok tt
      else Err (StackError_new Sdk ("the preserved RCAC carries fabric id " +:+ show rcac_fabric_id +:+
                                    ", not the requested " +:+ show fabric_id))
  | Err e => if is_ok (cert_ca_id rcac_tlv) then Ok tt else Err (sdk_err TLV_CONTEXT e)
  end.

Definition identity_from_preserved_ca (ca_private_key rcac_tlv : string) (fabric_id vendor_id node_id : Z)
    (ipk_epoch_key : string) : Id (Result ServerIdentity StackError) :=
  do? _ := lift_result (rcac_fabric_id_check rcac_tlv fabric_id) in
  do? ca_key := sdk "ca_private_key is not a canonical P-256 secret key" (Ret (canon_secret_key ca_private_key)) in
  do? controller_secret_key := sdk "generating the controller key pair" (rs GenerateSecretKey) in
  do? csr := sdk "building the controller CSR" (rs (Csr controller_secret_key)) in
  do? controller_key := sdk "serialising the controller key" (rs (WriteCanon controller_secret_key)) in
  do? noc_gen := sdk "preparing the NOC generator over the preserved CA"
                   (rs (NocCreateWithFabricId ca_key rcac_tlv fabric_id)) in
  do? controller_noc := sdk "minting the controller NOC" (rs (NocGenerate noc_gen csr node_id)) in
  do? ipk := sdk "ipk_epoch_key is not a 16-byte AEAD key" (Ret (canon_aead_key ipk_epoch_key)) in
  do? compressed_fabric_id := sdk "installing the preserved fabric"
        (rs (FreshFabricsAdd controller_key rcac_tlv controller_noc ipk vendor_id node_id)) in
  let identity :=
    {| id_version := IDENTITY_VERSION; id_fabric_id := fabric_id; id_vendor_id := vendor_id;
       id_controller_node_id := node_id; id_compressed_fabric_id := compressed_fabric_id;
       id_ca_private_key := ca_private_key; id_rcac_tlv := rcac_tlv;
       id_controller_private_key := controller_key; id_controller_noc_tlv := controller_noc;
       id_ipk := ipk_epoch_key |} in
  do? _ := verify_identity identity in
  Ret (Ok identity).

Definition derive_operational_ipk (ipk_epoch_key : string) (compressed_fabric_id : Z) : Result string StackError :=
  let? epoch := map_err (sdk_err "ipk_epoch_key is not a 16-byte AEAD key") (canon_aead_key ipk_epoch_key) in
  map_err (sdk_err "deriving the operational IPK") (key_set_update epoch compressed_fabric_id).

Definition rcac_public_key (rcac_tlv : string) : Result string StackError :=
  map_err (sdk_err TLV_CONTEXT) (cert_pubkey rcac_tlv).

Definition rcac_serial_is_der_canonical (rcac_tlv : string) : Result bool StackError :=
  map_err (sdk_err TLV_CONTEXT) (serial_is_der_canonical rcac_tlv).

Definition generate_ca (fabric_id : Z) : Id (Result (string * string) StackError) :=
  sdk "generating a CA" (generate_usable_rcac fabric_id).

Definition generate_ca_without_fabric_id : Id (Result (string * string) StackError) :=
  sdk "generating a FabricId-less CA" (rs GenerateRcacWithoutFabricId).
End identity.

(** ** Canonical serial numbers

    A DER INTEGER is the shortest non-empty big-endian two's complement
    encoding of its value. *)

Fixpoint be_value (s : string) : Z :=
  match s with
  | EmptyString => 0
  | String c r => byte_of c * 256 ^ str_len r + be_value r
  end.

Definition signed_value (s : string) : Z :=
  match s with
  | String c _ => if top_bit c then be_value s - 256 ^ str_len s else be_value s
  | EmptyString => 0
  end.

Definition is_der_integer (s : string) (n : Z) : Prop :=
  s <> "" /\ signed_value s = n /\ forall t, t <> "" -> signed_value t = n -> str_len s <= str_len t.

Lemma byte_of_range c : 0 <= byte_of c < 256.
Proof. by destruct c as [[] [] [] [] [] [] [] []]. Qed.

Lemma str_len_cons c s : str_len (String c s) = str_len s + 1.
Proof. unfold str_len. simpl. lia. Qed.

Lemma str_len_nonneg s : 0 <= str_len s.
Proof. unfold str_len. lia. Qed.

Lemma pow256_succ n : 0 <= n -> 256 ^ (n + 1) = 256 * 256 ^ n.
Proof. intros. rewrite Z.add_1_r, Z.pow_succ_r by done. done. Qed.

Lemma be_value_range s : 0 <= be_value s < 256 ^ str_len s.
Proof.
  induction s as [|c s IH]; [done|]. cbn [be_value]. rewrite str_len_cons, pow256_succ by apply str_len_nonneg.
  pose proof (byte_of_range c). nia.
Qed.

(** The values [k] bytes can hold. *)
Lemma signed_value_range c s : - 256 ^ str_len s * 128 <= signed_value (String c s) < 256 ^ str_len s * 128.
Proof.
  cbn [signed_value be_value]. rewrite str_len_cons, pow256_succ by apply str_len_nonneg.
  pose proof (byte_of_range c). pose proof (be_value_range s). unfold top_bit.
  destruct (Z.leb_spec 128 (byte_of c)); nia.
Qed.

Lemma pow256_mono a b : 0 <= a <= b -> 256 ^ a <= 256 ^ b.
Proof. intros. apply Z.pow_le_mono_r; lia. Qed.

Lemma byte_of_zero c : byte_of c = 0 -> c = "000"%char.
Proof. by destruct c as [[] [] [] [] [] [] [] []]. Qed.

Lemma canonical_minimal c s t :
  canonical_serial (String c s) = true -> t <> "" -> signed_value t = be_value (String c s) ->
  str_len (String c s) <= str_len t.
Proof.
  cbn [canonical_serial]. destruct (top_bit c) eqn:Ht; [done|]. intros Hc Hne Hv.
  destruct t as [|d t]; [done|]. rewrite !str_len_cons.
  destruct (Z.le_gt_cases (str_len s) (str_len t)) as [|Hlt]; [lia|]. exfalso.
  pose proof (signed_value_range d t) as [_ Hr]. rewrite Hv in Hr. cbn [be_value] in Hr.
  pose proof (byte_of_range c). pose proof (be_value_range s). pose proof (str_len_nonneg t).
  destruct s as [|b s]; [unfold str_len in Hlt; simpl in Hlt; lia|].
  rewrite str_len_cons in Hlt, Hr. rewrite pow256_succ in Hr by apply str_len_nonneg.
  pose proof (pow256_mono (str_len t) (str_len s) ltac:(lia)).
  destruct (Z.eqb_spec (byte_of c) 0) as [Hz|Hz]; simpl in Hc.
  - rewrite negb_involutive in Hc. unfold top_bit in Hc. apply Z.leb_le in Hc.
    rewrite Hz in Hr. cbn [be_value] in Hr. pose proof (be_value_range s). nia.
  - nia.
Qed.

(** [canonical_serial] decides exactly whether a serial number is already
    the DER INTEGER of its own unsigned value: not read as negative, and no
    shorter encoding exists.  That is the condition under which a peer that
    re-encodes the certificate signs over the same bytes. *)
Theorem canonical_serial_iff s : canonical_serial s = true <-> is_der_integer s (be_value s).
Proof.
  split.
  - destruct s as [|c s]; [done|]. intros Hc. split; [done|]. split.
    + cbn [canonical_serial signed_value] in *. by destruct (top_bit c).
    + intros t Ht Hv. by apply canonical_minimal.
  - intros (Hne & Hs & Hmin). destruct s as [|c s]; [done|]. cbn [canonical_serial signed_value] in *.
    destruct (top_bit c) eqn:Ht.
    { pose proof (str_len_nonneg (String c s)). pose proof (pow256_mono 0 (str_len (String c s)) ltac:(lia)). lia. }
    destruct (Z.eqb_spec (byte_of c) 0) as [Hz|]; [|done]. destruct s as [|b s]; [done|]. simpl.
    destruct (top_bit b) eqn:Hb; [done|]. exfalso.
    assert (Hlen : str_len (String c (String b s)) <= str_len (String b s)).
    { apply Hmin; [done|]. cbn [signed_value]. rewrite Hb. cbn [be_value]. rewrite Hz. lia. }
    rewrite (str_len_cons c) in Hlen. lia.
Qed.

(** ** Truncation *)

Lemma boundary_below_spec s i :
  (boundary_below s i <= i)%nat /\ is_char_boundary s (boundary_below s i) = true /\
  forall j, (j <= i)%nat -> is_char_boundary s j = true -> (j <= boundary_below s i)%nat.
Proof.
  induction i as [|i (IH1 & IH2 & IH3)]; cbn [boundary_below].
  { split; [lia|]. split; [done|]. lia. }
  destruct (is_char_boundary s (S i)) eqn:E.
  - split; [lia|]. split; [done|]. lia.
  - split; [lia|]. split; [done|]. intros j Hj Hb.
    destruct (decide (j = S i)) as [->|]; [congruence|]. apply IH3; [lia | done].
Qed.

Lemma substring_length s n : (n <= String.length s)%nat -> String.length (String.substring 0 n s) = n.
Proof.
  revert n. induction s as [|c s IH]; intros [|n] Hn; simpl in *; try lia.
  f_equal. apply IH. lia.
Qed.

Lemma substring_prefix s n : exists rest, s = String.substring 0 n s +:+ rest.
Proof.
  revert n. induction s as [|c s IH]; intros [|n]; [by exists "" | by exists "" | by exists (String c s) |]. simpl.
  destruct (IH n) as [rest E]. exists rest. by rewrite <- E.
Qed.

(** [truncate_to_bytes] returns the longest prefix of the label that fits
    the byte budget and ends at a character boundary; a label that fits is kept
    whole, and the loop ends (position 0 is a boundary). *)
Theorem truncate_to_bytes_spec s max :
  let t := truncate_to_bytes s max in
  (exists rest, s = t +:+ rest) /\ (String.length t <= max)%nat /\
  is_char_boundary s (String.length t) = true /\
  forall j, (j <= max)%nat -> (j <= String.length s)%nat -> is_char_boundary s j = true -> (j <= String.length t)%nat.
Proof.
  intros t. unfold t, truncate_to_bytes. destruct (Nat.leb_spec (String.length s) max) as [Hle|Hgt].
  - split; [exists ""; by rewrite str_app_nil_r|]. split; [done|]. split; [|lia].
    unfold is_char_boundary. destruct (String.length s); [done|]. by rewrite Nat.eqb_refl.
  - destruct (boundary_below_spec s max) as (H1 & H2 & H3). rewrite substring_length by lia.
    split; [apply substring_prefix|]. auto.
Qed.

(** ** Running *)

Section world.
Context `{RS : RsMatter} `{SerdeJson} `{Base64}.
Context {R : Type} (rs_step : forall B, RsOp B -> R -> B * R).

Definition id_step (B : Type) (op : IdOp B) (w : R * FS) : B * (R * FS) :=
  match op with
  | OnFs op => let '(b, fs) := fs_step _ op w.2 in (b, (w.1, fs))
  | OnRs op => let '(b, r) := rs_step _ op w.1 in (b, (r, w.2))
  end.

Abbreviation run_id := (run id_step).

Lemma run_on_fs {A} (p : Io A) r fs : run_id (on_fs p) (r, fs) = let '(a, fs) := run fs_step p fs in (a, (r, fs)).
Proof.
  revert fs. induction p as [a|X op k IH]; intros fs; simpl; [done|].
  destruct (fs_step X op fs) as [b fs']. simpl. apply IH.
Qed.

Lemma run_rs {A} (op : RsOp A) w : run_id (rs op) w = let '(a, r) := rs_step A op w.1 in (a, (r, w.2)).
Proof. unfold rs, do_op. simpl. by destruct (rs_step A op w.1). Qed.

(** Programs that only use the stack leave the files alone. *)
Definition stack_only (B : Type) (op : IdOp B) : Prop :=
  match op with OnFs _ => False | OnRs _ => True end.

Lemma stack_only_files {A} (p : Prog IdOp A) w : all_ops stack_only p -> (run_id p w).2.2 = w.2.
Proof.
  intros Hp. apply (states_inv id_step (fun w' => w'.2 = w.2) stack_only p w); [|done..].
  intros B op w' Hop E. destruct op; [done|]. simpl. by destruct (rs_step A0 op w'.1).
Qed.

Lemma stack_only_rs {A} (op : RsOp A) : all_ops stack_only (rs op).
Proof. by apply all_ops_op. Qed.
#[local] Hint Resolve stack_only_rs : matter.

Lemma stack_only_install i : all_ops stack_only (install i).
Proof.
  unfold install, lift_result. apply all_ops_try; [constructor|]. intros n. case_match; [constructor|].
  repeat (apply all_ops_try; [constructor|]; intros ?). apply stack_only_rs.
Qed.

Lemma stack_only_draw n fid e : all_ops stack_only (draw_rcac n fid e).
Proof.
  revert e. induction n as [|n IH]; intros e; simpl; [constructor|].
  constructor; [done|]. simpl. intros [[k c]|e']; [|apply IH].
  destruct (serial_is_der_canonical c) as [[]|]; [constructor | apply IH | constructor].
Qed.

Lemma stack_only_generate fid vid : all_ops stack_only (generate fid vid).
Proof.
  unfold generate. apply all_ops_try; [apply stack_only_draw|]. intros [k c]. unfold finish_identity.
  repeat (apply all_ops_try; [apply stack_only_rs|]; intros ?). constructor.
Qed.

(** ** Drawing root certificates *)

(** The replies of [n] successive draws. *)
Fixpoint draws (n : nat) (fid : Z) (r : R) : list (Result (string * string) rs_error) :=
  match n with
  | O => []
  | S n => let '(d, r) := rs_step _ (GenerateRcac fid) r in d :: draws n fid r
  end.

(** A draw the loop goes past. *)
Definition unusable (d : Result (string * string) rs_error) : Prop :=
  match d with Err _ => True | Ok (_, c) => serial_is_der_canonical c = Ok false end.

Lemma draw_rcac_spec n fid last w :
  match (run_id (draw_rcac n fid last) w).1 with
  | Ok (k, c) => exists i, draws n fid w.1 !! i = Some (Ok (k, c)) /\ serial_is_der_canonical c = Ok true /\
                   Forall unusable (take i (draws n fid w.1))
  | Err e => Forall unusable (draws n fid w.1) \/
             exists i k c, draws n fid w.1 !! i = Some (Ok (k, c)) /\ serial_is_der_canonical c = Err e
  end.
Proof.
  revert last w. induction n as [|n IH]; intros last [r fs]; [by left|].
  cbn [draw_rcac draws fst]. rewrite run_bind, run_rs. cbn [fst snd].
  destruct (rs_step _ (GenerateRcac fid) r) as [[[k c]|e] r'].
  - destruct (serial_is_der_canonical c) as [[]|e] eqn:Hc.
    + exists 0%nat. simpl. auto.
    + specialize (IH last (r', fs)). cbn [fst] in IH.
      destruct (run_id _ (r', fs)).1 as [[k' c']|e'].
      * destruct IH as (i & ? & ? & ?). exists (S i). simpl. split; [done|]. split; [done|]. by constructor.
      * destruct IH as [?|(i & k' & c' & ? & ?)]; [left; by constructor|]. right. by exists (S i), k', c'.
    + right. exists 0%nat, k, c. done.
  - specialize (IH (Some e) (r', fs)). cbn [fst] in IH.
    destruct (run_id _ (r', fs)).1 as [[k' c']|e'].
    + destruct IH as (i & ? & ? & ?). exists (S i). simpl. split; [done|]. split; [done|]. by constructor.
    + destruct IH as [?|(i & k' & c' & ? & ?)]; [left; by constructor|]. right. by exists (S i), k', c'.
Qed.

(** Minting a root certificate, whatever the random draws: at most 32 are
    made; a certificate that is returned has a serial number strict peers
    accept and is the first such draw; the call fails only when none of the 32
    was usable, or when a drawn certificate cannot be read at all. *)
Theorem generate_usable_rcac_spec fid w :
  (length (draws RCAC_DRAW_ATTEMPTS fid w.1) = 32)%nat /\
  match (run_id (generate_usable_rcac fid) w).1 with
  | Ok (k, c) => exists i, draws RCAC_DRAW_ATTEMPTS fid w.1 !! i = Some (Ok (k, c)) /\
                   serial_is_der_canonical c = Ok true /\
                   Forall unusable (take i (draws RCAC_DRAW_ATTEMPTS fid w.1))
  | Err e => Forall unusable (draws RCAC_DRAW_ATTEMPTS fid w.1) \/
             exists i k c, draws RCAC_DRAW_ATTEMPTS fid w.1 !! i = Some (Ok (k, c)) /\
               serial_is_der_canonical c = Err e
  end.
Proof.
  split; [|apply draw_rcac_spec]. generalize w.1. unfold RCAC_DRAW_ATTEMPTS.
  assert (G : forall n r, length (draws n fid r) = n); [|by apply G].
  induction n as [|n IH]; intros r; [done|]. simpl. destruct (rs_step _ _ r). simpl. by rewrite IH.
Qed.

(** ** Booting *)

(** A stored identity always wins.  When server.json holds an identity,
    [ensure_identity] never mints: it installs the stored one and returns it
    unchanged, except that the compressed fabric id is the one derived from the
    certificates; if it cannot be installed the call fails and no file has been
    written. *)
Theorem stored_identity_wins s fid vid label r fs fs1 stored :
  run fs_step (load_identity s) fs = (Ok (Some stored), fs1) ->
  match run_id (install stored) (r, fs1) with
  | (Ok (idx, compressed), w) =>
      (run_id (ensure_identity s fid vid label) (r, fs)).1 = Ok (with_compressed stored compressed, idx)
  | (Err e, w) => run_id (ensure_identity s fid vid label) (r, fs) = (Err e, w) /\ w.2 = fs1
  end.
Proof.
  intros Hl. unfold ensure_identity, io_try. rewrite run_try, run_bind, run_on_fs, Hl. cbn [run map_err].
  rewrite run_try. unfold use_stored. rewrite run_try.
  pose proof (stack_only_files (install stored) (r, fs1) (stack_only_install stored)) as Hfs.
  destruct (run_id (install stored) (r, fs1)) as [[[idx compressed]|e] w]; [|done].
  destruct (Z.eqb_spec compressed (id_compressed_fabric_id stored)) as [->|Hne]; simpl negb; cbv iota.
  - cbn [run]. rewrite run_bind, run_rs. destruct (rs_step _ _ w.1). cbn [run fst]. by destruct stored.
  - destruct w as [r1 fs2]. rewrite run_bind, run_on_fs. destruct (run fs_step _ fs2) as [? fs3].
    cbn [run]. rewrite run_bind, run_rs. by destruct (rs_step _ _ _).
Qed.

(** ** Minting and the fabric table *)

(** The indices of the fabrics installed on the [Matter] instance, as
    [rs-matter] maintains them. *)
Record FabricTable : Type := {
  fabrics : R -> gset Z;
  add_fresh : forall k c n i v m r idx comp r',
    rs_step _ (FabricsAdd k c n i v m) r = (Ok (idx, comp), r') ->
    (idx ∉ fabrics r) /\ fabrics r' = {[ idx ]} ∪ fabrics r;
  add_failed : forall k c n i v m r e r',
    rs_step _ (FabricsAdd k c n i v m) r = (Err e, r') -> fabrics r' = fabrics r;
  remove_removes : forall idx r, idx ∈ fabrics r -> fabrics (rs_step _ (FabricsRemove idx) r).2 = fabrics r ∖ {[ idx ]};
  others_keep : forall B (op : RsOp B) r,
    match op with FabricsAdd _ _ _ _ _ _ | FabricsRemove _ => True | _ => fabrics (rs_step B op r).2 = fabrics r end;
}.

Context (T : FabricTable).

Definition not_table (B : Type) (op : IdOp B) : Prop :=
  match op with
  | OnFs _ => False
  | OnRs op => match op with FabricsAdd _ _ _ _ _ _ | FabricsRemove _ => False | _ => True end
  end.

Lemma not_table_keeps {A} (p : Prog IdOp A) w :
  all_ops not_table p -> fabrics T (run_id p w).2.1 = fabrics T w.1.
Proof.
  intros Hp. apply (states_inv id_step (fun w' => fabrics T w'.1 = fabrics T w.1) not_table p w); [|done..].
  intros B op [r fs] Hop E. destruct op as [|B op]; [done|]. simpl in E |- *.
  pose proof (others_keep T B op r) as Hk. destruct (rs_step B op r) as [b r'] eqn:Hs. simpl in Hk |- *.
  rewrite <- E. by destruct op.
Qed.

Lemma not_table_generate fid vid : all_ops not_table (generate fid vid).
Proof.
  unfold generate. apply all_ops_try.
  - unfold generate_usable_rcac. generalize RCAC_DRAW_ATTEMPTS, (@None rs_error). intros n.
    induction n as [|n IH]; intros e; simpl; [constructor|]. constructor; [done|]. simpl.
    intros [[k c]|e']; [|apply IH].
    destruct (serial_is_der_canonical c) as [[]|]; [constructor | apply IH | constructor].
  - intros [k c]. unfold finish_identity. repeat (apply all_ops_try; [by apply all_ops_op|]; intros ?). constructor.
Qed.

(** What installing does to the table. *)
Lemma install_table i w :
  match run_id (install i) w with
  | (Ok (idx, _), w') => (idx ∉ fabrics T w.1) /\ fabrics T w'.1 = {[ idx ]} ∪ fabrics T w.1
  | (Err _, w') => fabrics T w'.1 = fabrics T w.1
  end.
Proof.
  unfold install, lift_result. rewrite run_try. cbn [run]. destruct (cert_node_id _); [|done].
  destruct (negb _); [done|]. rewrite run_try. cbn [run]. destruct (canon_secret_key _); [|done].
  rewrite run_try. cbn [run]. destruct (canon_aead_key _); [|done]. rewrite run_rs.
  destruct (rs_step _ _ w.1) as [[[idx c]|e] r'] eqn:E.
  - by apply (add_fresh T) in E.
  - by apply (add_failed T) in E.
Qed.

Lemma create_identity_outcome s i fs :
  match run fs_step (create_identity s i) fs with
  | (Ok _, fs') => exists x, fs_files fs' !! join (st_root s) "server.json" = Some x /\
                     complete (identity_document i) true x
  | (Err _, fs') => fs_files fs' !! join (st_root s) "server.json" = fs_files fs !! join (st_root s) "server.json"
  end.
Proof.
  unfold create_identity. unfold try_bind. rewrite run_bind. unfold do_op. cbn [run fs_step]. unfold faulty.
  pose proof (pop_fault_files fs) as E. destruct (pop_fault fs) as [[e|] fs1]; simpl in E.
  { cbn [run]. by rewrite E. }
  case_bool_decide; cbn [run]; [by rewrite E|].
  destruct (write_json_atomic_triple (st_root s) "server.json" (identity_document i) true fs1
              ltac:(done) fs1 eq_refl) as [_ HQ].
  destruct (run fs_step _ fs1) as [[[]|e] fs']; destruct HQ as [HQ _]; [exact HQ|]. rewrite <- E. exact HQ.
Qed.

(** C17: a new fabric is installed exactly when it is persisted.  With no stored
    identity, [ensure_identity] either returns an identity whose complete
    document is in server.json (mode 0600) and whose fabric is the one added to
    the table, or it fails with the table as it was and server.json untouched:
    a fabric that could not be written is removed again. *)
Theorem mint_installed_iff_persisted s fid vid label r fs fs1 :
  run fs_step (load_identity s) fs = (Ok None, fs1) ->
  match run_id (ensure_identity s fid vid label) (r, fs) with
  | (Ok (i, idx), (r', fs')) =>
      (idx ∉ fabrics T r) /\ fabrics T r' = {[ idx ]} ∪ fabrics T r /\
      exists x, fs_files fs' !! join (st_root s) "server.json" = Some x /\ complete (identity_document i) true x
  | (Err _, (r', fs')) =>
      fabrics T r' = fabrics T r /\
      fs_files fs' !! join (st_root s) "server.json" = fs_files fs1 !! join (st_root s) "server.json"
  end.
Proof.
  intros Hl. unfold ensure_identity, io_try. rewrite run_try, run_bind, run_on_fs, Hl. cbn [run map_err].
  rewrite run_try. unfold mint. rewrite run_try.
  pose proof (stack_only_files (generate fid vid) (r, fs1) (stack_only_generate fid vid)) as Hf.
  pose proof (not_table_keeps (generate fid vid) (r, fs1) (not_table_generate fid vid)) as Ht.
  destruct (run_id (generate fid vid) (r, fs1)) as [[i|e] [r1 fs2]]; simpl in Hf, Ht; subst; [|done].
  rewrite run_try.
  pose proof (stack_only_files (install i) (r1, fs1) (stack_only_install i)) as Hf.
  pose proof (install_table i (r1, fs1)) as Hi.
  destruct (run_id (install i) (r1, fs1)) as [[[idx comp]|e] [r2 fs2]]; simpl in Hf, Hi; subst; [|by rewrite Hi].
  rewrite run_bind, run_on_fs.
  pose proof (create_identity_outcome s (with_compressed i comp) fs1) as Hc.
  destruct (run fs_step (create_identity _ _) fs1) as [[[]|e] fs3]; destruct Hi as [Hn Hi].
  - cbn [run]. rewrite run_bind, run_rs. cbn [fst snd].
    pose proof (others_keep T _ (UpdateLabel idx (truncate_to_bytes label FABRIC_LABEL_MAX_BYTES)) r2) as Hk.
    simpl in Hk. destruct (rs_step _ _ r2) as [? r3]. cbn [run]. simpl in Hk. rewrite Hk, Hi, Ht.
    split; [by rewrite <- Ht|]. by split.
  - rewrite run_bind, run_rs. cbn [fst snd].
    pose proof (remove_removes T idx r2 ltac:(set_solver)) as Hk.
    destruct (rs_step _ _ r2) as [? r3]. cbn [run]. simpl in Hk. split; [|done]. rewrite Hk, Hi, <- Ht. set_solver.
Qed.
End world.

(** ** A stack that always succeeds *)

Definition ToyRs : RsMatter := {|
  rs_error := string; rs_show e := e; rs_invalid_data := "InvalidData"; rs_of_io := io_message;
  cert_node_id _ := Ok CONTROLLER_NODE_ID; cert_fabric_id _ := Ok 1; cert_ca_id _ := Ok 1;
  cert_pubkey c := Ok c; cert_serial c := Ok c; canon_secret_key k := Ok k; canon_aead_key k := Ok k;
  key_set_update k _ := Ok k; verify_add_cert _ _ _ := Ok tt; verify_finalise _ _ _ := Ok tt;
|}.

(** Its state: the installed fabrics. *)
Definition toy_step (B : Type) (op : @RsOp ToyRs B) (r : gset Z) : B * gset Z :=
  match op with
  | GenerateRcac _ => (Ok ("ca", "serial"), r)
  | GenerateRcacWithoutFabricId => (Ok ("ca", "serial"), r)
  | GenerateSecretKey => (Ok "key", r)
  | Csr _ => (Ok "csr", r)
  | WriteCanon k => (Ok k, r)
  | NocCreate _ _ => (Ok "generator", r)
  | NocCreateWithFabricId _ _ _ => (Ok "generator", r)
  | NocGenerate _ _ _ => (Ok "noc", r)
  | FillRandom n => (Ok "0123456789abcdef", r)
  | FabricsAdd _ _ _ _ _ _ => let idx := fresh r in (Ok (idx, 7), {[ idx ]} ∪ r)
  | FreshFabricsAdd _ _ _ _ _ _ => (Ok 7, r)
  | FabricsRemove idx => (Ok tt, r ∖ {[ idx ]})
  | UpdateLabel _ _ => (Ok tt, r)
  | UnixSeconds => (Some 1000000000, r)
  end.

Definition toy_table : @FabricTable ToyRs (gset Z) toy_step.
Proof.
  refine {| fabrics := fun r => r |}.
  - intros k c n i v m r idx comp r' [= <- <- <-]. split; [apply is_fresh | done].
  - done.
  - done.
  - intros B op r. by destruct op.
Defined.

Definition toy_storage : Storage := {| st_root := ["d"] |}.
Definition empty_fs : FS :=
  {| fs_files := ∅; fs_dirs := {[ ["d"] ]}; fs_faults := []; fs_seq := 7; fs_pid := 42; fs_create_mode := 420 |}.

Lemma mint_installed_iff_persisted_witness :
  match run (id_step (RS := ToyRs) toy_step)
          (ensure_identity (RS := ToyRs) (H := TreeJson) (H0 := HexBase64) toy_storage 1 65521 "HomeAssistant")
          (∅, empty_fs) with
  | (Ok (i, idx), (r', fs')) =>
      (idx ∉ (∅ : gset Z)) /\ r' = {[ idx ]} ∪ ∅ /\
      exists x, fs_files fs' !! join (st_root toy_storage) "server.json" = Some x /\
        complete (H := TreeJson) (identity_document (H := HexBase64) i) true x
  | (Err _, (r', fs')) =>
      r' = ∅ /\ fs_files fs' !! join (st_root toy_storage) "server.json" =
                fs_files empty_fs !! join (st_root toy_storage) "server.json"
  end.
Proof.
  apply (@mint_installed_iff_persisted ToyRs TreeJson HexBase64 (gset Z) toy_step toy_table toy_storage 1 65521
           "HomeAssistant" ∅ empty_fs empty_fs).
  unfold load_identity. by rewrite (run_read_json_strict (H := TreeJson) de_identity _ empty_fs eq_refl).
Defined.

(** A parser that reads every document as one identity. *)
Definition toy_identity : ServerIdentity :=
  {| id_version := 1; id_fabric_id := 1; id_vendor_id := 65521; id_controller_node_id := CONTROLLER_NODE_ID;
     id_compressed_fabric_id := 9; id_ca_private_key := "k"; id_rcac_tlv := "r";
     id_controller_private_key := "c"; id_controller_noc_tlv := "n"; id_ipk := "i" |}.

Definition IdentityJson : SerdeJson := {|
  de_message := @de_message TreeJson;
  json_to_string := @json_to_string TreeJson;
  json_chunks := @json_chunks TreeJson;
  json_from_str _ := Ok (canon (@identity_document HexBase64 toy_identity));
|}.

Definition stored_fs : FS :=
  {| fs_files := {[ ["d"; "server.json"] := {| f_data := "{}"; f_mode := 384 |} ]};
     fs_dirs := {[ ["d"] ]}; fs_faults := []; fs_seq := 7; fs_pid := 42; fs_create_mode := 420 |}.

Lemma stored_identity_wins_witness :
  match run (id_step (RS := ToyRs) toy_step) (install (RS := ToyRs) toy_identity) (∅, stored_fs) with
  | (Ok (idx, compressed), w) =>
      (run (id_step (RS := ToyRs) toy_step)
         (ensure_identity (RS := ToyRs) (H := IdentityJson) (H0 := HexBase64) toy_storage 5 65521 "HomeAssistant")
         (∅, stored_fs)).1 = Ok (with_compressed toy_identity compressed, idx)
  | (Err e, w) =>
      run (id_step (RS := ToyRs) toy_step)
         (ensure_identity (RS := ToyRs) (H := IdentityJson) (H0 := HexBase64) toy_storage 5 65521 "HomeAssistant")
         (∅, stored_fs) = (Err e, w) /\ w.2 = stored_fs
  end.
Proof.
  apply (@stored_identity_wins ToyRs IdentityJson HexBase64 (gset Z) toy_step toy_storage 5 65521
           "HomeAssistant" ∅ stored_fs stored_fs toy_identity).
  unfold load_identity. pose proof (run_read_json_strict (H := IdentityJson) (de_identity (H := HexBase64))
    (join (st_root toy_storage) "server.json") stored_fs eq_refl) as E. unfold run_io in E. rewrite E. clear E.
  apply (f_equal (fun o => (o, stored_fs))). unfold read_outcome.
  change (fs_files stored_fs !! join (st_root toy_storage) "server.json")
    with (Some {| f_data := "{}"; f_mode := 384 |}).
  unfold parse_as. cbn [f_data json_from_str IdentityJson result_bind].
  by rewrite (de_identity_document (H := HexBase64) toy_identity).
Defined.
