(* ===== verification/Migrate.v ===== *)
(** * The migration tool

    [crates/migrate/src/checks.rs], [lib.rs] and [main.rs]: the five offline
    self-checks, the run (read, check, report, write) and the exit code. *)

From S2P Require Import Prelude Json Prog Fs Storage StackApi Text Jsdb Decode Convert Identity.

(** ** checks.rs *)

Record CheckOutcome : Type := { ck_name : string; ck_passed : bool; ck_detail : string }.

Definition outcome (name : string) (passed : bool) (detail : string) : CheckOutcome :=
  {| ck_name := name; ck_passed := passed; ck_detail := detail |}.

(** [u64::to_be_bytes]. *)
Fixpoint be_bytes (width : nat) (n : Z) : string :=
  match width with
  | O => EmptyString
  | S w => String (byte_at (n / 256 ^ Z.of_nat w mod 256)) (be_bytes w n)
  end.

(** [{kind:?}] *)
Definition debug_kind (k : StackErrorKind) : string :=
  match k with
  | NodeUnreachable => "NodeUnreachable"
  | Busy => "Busy"
  | Timeout => "Timeout"
  | StackInvalidArguments => "InvalidArguments"
  | Sdk => "Sdk"
  end.

Definition show_stack_error (e : StackError) : string := debug_kind (se_kind e) +:+ ": " +:+ se_message e.

Fixpoint join_with (sep : string) (l : list string) : string :=
  match l with [] => "" | [s] => s | s :: l => s +:+ sep +:+ join_with sep l end.

(** [{:?}] of a list of numbers. *)
Definition debug_list (l : list Z) : string := "[" +:+ join_with ", " (map show l) +:+ "]".

Section checks.
Context `{RS : RsMatter} `{SerdeJson} `{Base64} `{HexCodec}.

Definition check_fabric_identity (identity : ServerIdentity) (source : SourceFabric) : CheckOutcome :=
  let ours := be_bytes 8 (id_compressed_fabric_id identity) in
  let passed := String.eqb ours (sf_operational_id source) in
  outcome "fabric-identity" passed
    ("ours " +:+ hex_digits false 16 (id_compressed_fabric_id identity) +:+ " vs source " +:+
     hexc_encode (sf_operational_id source)).

Definition check_admin_identity (identity : ServerIdentity) (source : SourceFabric) : Prog IdOp CheckOutcome :=
  do! verified := verify_identity identity in
  Ret match verified with
      | Ok _ =>
          if id_controller_node_id identity =? sf_controller_node_id source then
            outcome "admin-identity" true
              ("controller node id " +:+ show (id_controller_node_id identity) +:+ " verifies against the RCAC")
          else
            outcome "admin-identity" false
              ("identity.controller_node_id " +:+ show (id_controller_node_id identity) +:+
               " != source.controller_node_id " +:+ show (sf_controller_node_id source))
      | Err e => outcome "admin-identity" false (show_stack_error e)
      end.

Definition check_ipk_choice (identity : ServerIdentity) (source : SourceFabric) : CheckOutcome :=
  match derive_operational_ipk (id_ipk identity) (id_compressed_fabric_id identity) with
  | Ok derived =>
      if String.eqb derived (sf_operational_ipk source) then
        outcome "ipk-choice" true "derived operational IPK matches the source's"
      else
        outcome "ipk-choice" false
          ("derived operational IPK " +:+ hexc_encode derived +:+ " != source's operational_ipk " +:+
           hexc_encode (sf_operational_ipk source))
  | Err e => outcome "ipk-choice" false (show_stack_error e)
  end.

Definition check_node_accounting (config : ConfigData) (nodes : list NodePlan) : CheckOutcome :=
  let colliding := List.filter (fun id => cfg_next_node_id config <=? id) (map plan_key nodes) in
  let passed := match colliding with [] => true | _ => false end in
  let detail :=
    if passed then
      "next_node_id " +:+ show (cfg_next_node_id config) +:+ " is past every one of " +:+
      show (Z.of_nat (length nodes)) +:+ " planned node(s)"
    else
      "next_node_id " +:+ show (cfg_next_node_id config) +:+
      " would collide with commissioned node id(s) " +:+ debug_list colliding in
  outcome "node-accounting" passed detail.

Definition fallbacks (nodes : list NodePlan) : list string :=
  omap (fun n => match np_fabric_index n with
    | FallbackZero reason =>
        if nr_device_fabric_index (np_record n) =? 0
        then Some ("node " +:+ show (plan_key n) +:+ " " +:+ EM_DASH +:+ " FALLBACK 0 " +:+ EM_DASH +:+ " " +:+ reason)
        else None
    | MatchedByRootPublicKey => None
    end) nodes.

Definition inconsistent (nodes : list NodePlan) : list string :=
  omap (fun n => match np_fabric_index n with
    | MatchedByRootPublicKey =>
        if nr_device_fabric_index (np_record n) =? 0
        then Some ("node " +:+ show (plan_key n) +:+ " is MatchedByRootPublicKey but device_fabric_index is 0")
        else None
    | FallbackZero reason =>
        if negb (nr_device_fabric_index (np_record n) =? 0)
        then Some ("node " +:+ show (plan_key n) +:+ " has device_fabric_index " +:+
                   show (nr_device_fabric_index (np_record n)) +:+
                   " but its fabric_index source is FallbackZero (" +:+ reason +:+ ")")
        else None
    end) nodes.

Definition check_fabric_index_sanity (nodes : list NodePlan) : CheckOutcome :=
  let passed := match inconsistent nodes with [] => true | _ => false end in
  let detail :=
    match inconsistent nodes, fallbacks nodes with
    | _ :: _, _ => join_with "; " (inconsistent nodes)
    | [], [] => "every planned node's fabric index was matched by root public key"
    | [], l => join_with "; " l
    end in
  outcome "fabric-index-sanity" passed detail.

Definition run_all (identity : ServerIdentity) (source : SourceFabric) (config : ConfigData)
    (nodes : list NodePlan) : Prog IdOp (list CheckOutcome) :=
  do! admin := check_admin_identity identity source in
  Ret [check_fabric_identity identity source; admin; check_ipk_choice identity source;
       check_node_accounting config nodes; check_fabric_index_sanity nodes].
End checks.

(** ** lib.rs *)

Definition RCAC_SERIAL_NOTE : string :=
  "the migrated RCAC's serial number is not canonical DER; the server " +:+
  "will warn about it at every boot. For a migrated fabric this is EXPECTED and HARMLESS " +:+ EM_DASH +:+ " every " +:+
  "commissioned device already trusts this exact root. It limits nothing except commissioning new " +:+
  "matter.js-based test devices.".

Record Options : Type := { op_from : Path; op_to : Path; op_write : bool }.

Record Report : Type := {
  rp_namespace : string;
  rp_fabric_id : Z;
  rp_compressed_fabric_id : Z;
  rp_vendor_id : Z;
  rp_controller_node_id : Z;
  rp_fabric_label : string;
  rp_next_node_id : Z;
  rp_nodes : list (Z * Z * FabricIndexSource);
  rp_checks : list CheckOutcome;
  rp_rcac_serial_note : option string;
  rp_ignored_python_leftovers : list string;
  rp_wrote : option Path;
}.

Definition report_ok (r : Report) : bool := forallb ck_passed (rp_checks r).

Definition NL : string := String (byte_at 10) EmptyString.

Definition show_how (how : FabricIndexSource) : string :=
  match how with
  | MatchedByRootPublicKey => "matched by root public key"
  | FallbackZero reason => "FALLBACK 0 " +:+ EM_DASH +:+ " " +:+ reason
  end.

Definition show_report (r : Report) : string :=
  "matter.js namespace: " +:+ rp_namespace r +:+ NL +:+ NL +:+
  "fabric id:            " +:+ show (rp_fabric_id r) +:+ NL +:+
  "compressed fabric id: " +:+ hex_digits false 16 (rp_compressed_fabric_id r) +:+ NL +:+
  "vendor id:            0x" +:+ hex_digits false 4 (rp_vendor_id r) +:+ NL +:+
  "controller node id:   " +:+ show (rp_controller_node_id r) +:+ NL +:+
  "fabric label:         " +:+ rp_fabric_label r +:+ NL +:+
  "next node id:         " +:+ show (rp_next_node_id r) +:+ NL +:+ NL +:+
  match rp_nodes r with
  | [] => "nodes: none" +:+ NL
  | l => "nodes:" +:+ NL +:+
      str_concat (map (fun '(id, index, how) =>
        "  node " +:+ show id +:+ ": fabric index " +:+ show index +:+ " " +:+ EM_DASH +:+ " " +:+ show_how how +:+ NL) l)
  end +:+ NL +:+
  str_concat (map (fun c => (if ck_passed c then "ok" else "FAILED") +:+ " " +:+ ck_name c +:+ " " +:+ EM_DASH +:+
                            " " +:+ ck_detail c +:+ NL) (rp_checks r)) +:+
  match rp_rcac_serial_note r with Some note => NL +:+ note +:+ NL | None => "" end +:+
  match rp_ignored_python_leftovers r with
  | [] => ""
  | l => NL +:+ "ignored python-server leftovers at the top level of --from (not read, not used as source of truth): "
         +:+ join_with ", " l +:+ NL
  end +:+ NL +:+
  match rp_wrote r with
  | Some path => "wrote " +:+ show_path path
  | None => "dry run " +:+ EM_DASH +:+ " nothing written (pass --write to migrate)"
  end.

Inductive MigrateError : Type :=
| MeJsdb (e : JsdbError)
| MeConvert (e : ConvertError)
| MeStack (message : string)
| SamePath
| MeWrite (path : Path) (source : IoError).

Definition stack_err (e : StackError) : MigrateError := MeStack (show_stack_error e).

Definition is_lowercase_hex (c : byte) : bool := is_digit c || ((97 <=? byte_of c) && (byte_of c <=? 102)).

Definition is_hex16_json (name : string) : bool :=
  match strip_suffix ".json" name with
  | Some stem => (str_len stem =? 16) && str_forall is_lowercase_hex stem
  | None => false
  end.

Definition leftover (entry : DirEntry) : option string :=
  let name := utf8_lossy (de_file_name entry) in
  match de_file_type entry with
  | Some IsDir => if String.eqb name "certificates" || String.eqb name "credentials" then Some name else None
  | Some IsFile =>
      if (starts_with "chip_" name && ends_with ".ini" name) || is_hex16_json name then Some name else None
  | _ => None
  end.

Definition scan_python_leftovers (src : SourceFs) (from : Path) : list string :=
  match src_read_dir src from with
  | Err _ => []
  | Ok entries => sort_ord (omap (fun r => match r with Ok e => leftover e | Err _ => None end) entries)
  end.

Section run.
Context `{RS : RsMatter} `{SerdeJson} `{Base64} `{HexCodec} `{NodeDate}.
Context (src : SourceFs) (gunzip : string -> Result string IoError) (clock : nat -> Z).

Abbreviation Id := (Prog IdOp).

Definition same_place (opts : Options) : bool :=
  bool_decide (op_from opts = op_to opts) ||
  (src_exists src (op_to opts) &&
   match src_canonicalize src (op_from opts), src_canonicalize src (op_to opts) with
   | Some a, Some b => bool_decide (a = b)
   | _, _ => false
   end).

(** Steps 2 to 9: everything that is computed before a decision to write. *)
Record Analysis : Type := {
  an_report : Report;
  an_identity : ServerIdentity;
  an_config : ConfigData;
  an_nodes : list NodePlan;
}.

Definition analyse (opts : Options) : Id (Result Analysis MigrateError) :=
  do? (db, namespace) := lift_result (map_err MeJsdb (open_store src gunzip (op_from opts))) in
  do? source := lift_result (map_err MeConvert (read_source_fabric db)) in
  do? root_public_key := lift_result (map_err stack_err (rcac_public_key (sf_rcac_tlv source))) in
  do? identity := (do! r := identity_from_preserved_ca (sf_ca_private_key source) (sf_rcac_tlv source)
                              (sf_fabric_id source) (sf_vendor_id source) (sf_controller_node_id source)
                              (sf_ipk_epoch_key source) in Ret (map_err stack_err r)) in
  do? nodes := lift_result (map_err MeConvert (plan_nodes clock db root_public_key)) in
  let config := config_from source nodes in
  do! outcomes := run_all identity source config nodes in
  do? canonical := lift_result (map_err stack_err (rcac_serial_is_der_canonical (sf_rcac_tlv source))) in
  let report :=
    {| rp_namespace := namespace; rp_fabric_id := sf_fabric_id source;
       rp_compressed_fabric_id := id_compressed_fabric_id identity; rp_vendor_id := sf_vendor_id source;
       rp_controller_node_id := id_controller_node_id identity; rp_fabric_label := cfg_fabric_label config;
       rp_next_node_id := cfg_next_node_id config;
       rp_nodes := map (fun n => (plan_key n, nr_device_fabric_index (np_record n), np_fabric_index n)) nodes;
       rp_checks := outcomes;
       rp_rcac_serial_note := if canonical : bool then None else Some RCAC_SERIAL_NOTE;
       rp_ignored_python_leftovers := scan_python_leftovers src (op_from opts);
       rp_wrote := None |} in
  Ret (Ok {| an_report := report; an_identity := identity; an_config := config; an_nodes := nodes |}).

Definition writing_at {A} (path : Path) (p : Io (Result A IoError)) : Id (Result A MigrateError) :=
  do! r := on_fs p in Ret (map_err (MeWrite path) r).

(** Step 11. *)
Definition write_all (to_dir : Path) (a : Analysis) : Id (Result unit MigrateError) :=
  do? storage := writing_at to_dir (open to_dir) in
  do? _ := writing_at (join to_dir "server.json") (create_identity storage (an_identity a)) in
  do? _ := writing_at (join to_dir "config.json") (save_config storage (an_config a)) in
  do? _ := try_for (an_nodes a) (fun plan =>
             writing_at (join (join to_dir "nodes") (show (plan_key plan) +:+ ".json"))
               (save_node storage (np_record plan))) in
  do! loaded := on_fs (load_nodes storage) in
  let written := length loaded in
  if negb (written =? length (an_nodes a))%nat then
    Ret (Err (MeWrite (join to_dir "nodes") (io_error OtherIo
      ("planned " +:+ show (Z.of_nat (length (an_nodes a))) +:+ " node file(s) but found " +:+
       show (Z.of_nat written) +:+ " after writing"))))
  else Ret (Ok tt).

Definition with_wrote (r : Report) (p : Path) : Report :=
  {| rp_namespace := rp_namespace r; rp_fabric_id := rp_fabric_id r;
     rp_compressed_fabric_id := rp_compressed_fabric_id r; rp_vendor_id := rp_vendor_id r;
     rp_controller_node_id := rp_controller_node_id r; rp_fabric_label := rp_fabric_label r;
     rp_next_node_id := rp_next_node_id r; rp_nodes := rp_nodes r; rp_checks := rp_checks r;
     rp_rcac_serial_note := rp_rcac_serial_note r;
     rp_ignored_python_leftovers := rp_ignored_python_leftovers r; rp_wrote := Some p |}.

Definition migrate (opts : Options) : Id (Result Report MigrateError) :=
  if same_place opts then Ret (Err SamePath)
  else
    do? a := analyse opts in
    let all_passed := forallb ck_passed (rp_checks (an_report a)) in
    if negb all_passed || negb (op_write opts) then Ret (Ok (an_report a))
    else
      do? _ := write_all (op_to opts) a in
      Ret (Ok (with_wrote (an_report a) (op_to opts))).

(** ** main.rs: the exit code *)

Definition exit_success (r : Result Report MigrateError) : bool :=
  match r with Ok report => report_ok report | Err _ => false end.
End run.

(** ** The self-checks on a plan *)

Lemma be_bytes_length w n : String.length (be_bytes w n) = w.
Proof. induction w; simpl; congruence. Qed.

Lemma filter_nil_iff {A} (f : A -> bool) l : List.filter f l = [] <-> Forall (fun a => f a = false) l.
Proof.
  induction l as [|a l IH]; simpl; [done|]. rewrite Forall_cons. destruct (f a) eqn:E; [|tauto].
  split; [done | intros [[=] _]].
Qed.

Lemma omap_nil_iff {A B} (f : A -> option B) l : omap f l = [] <-> Forall (fun a => f a = None) l.
Proof.
  induction l as [|a l IH]; simpl; [done|]. rewrite Forall_cons. destruct (f a); [|tauto].
  split; [done | intros [[=] _]].
Qed.

Lemma max_id_spec nodes :
  match max_id nodes with
  | None => nodes = []
  | Some m => m ∈ map plan_key nodes /\ Forall (fun p => plan_key p <= m) nodes
  end.
Proof.
  induction nodes as [|p nodes IH]; [done|]. cbn [max_id foldr]. unfold max_id in IH.
  destruct (foldr _ None nodes) as [m|].
  - destruct IH as [Hin Hall]. split.
    + simpl. destruct (Z.max_spec (plan_key p) m) as [[_ ->]|[_ ->]]; [by right | by left].
    + constructor; [lia|]. eapply Forall_impl; [exact Hall|]. simpl. lia.
  - subst. split; [by left | repeat constructor; lia].
Qed.

(** The checks on what is about to be written, for a plan made from the
    store.  Check 5 (indices are consistent with how they were found) always
    passes.  Check 4 (the next node id is past every node) passes exactly when
    no node has the id 2^64 - 1, whose successor wraps to 0; so a configuration
    that is written never reissues a node id. *)
Theorem planned_checks_spec `{SerdeJson} `{HexCodec} db pk source nodes :
  Forall (plan_ok db pk) nodes -> Forall (fun p => 0 <= plan_key p < 2 ^ 64) nodes ->
  ck_passed (check_fabric_index_sanity nodes) = true /\
  (ck_passed (check_node_accounting (config_from source nodes) nodes) = true <->
   Forall (fun p => plan_key p <> 2 ^ 64 - 1) nodes) /\
  (ck_passed (check_node_accounting (config_from source nodes) nodes) = true ->
   Forall (fun p => plan_key p < cfg_next_node_id (config_from source nodes)) nodes).
Proof.
  intros Hok Hr. assert (Ha : ck_passed (check_node_accounting (config_from source nodes) nodes) = true <->
    Forall (fun p => plan_key p < cfg_next_node_id (config_from source nodes)) nodes).
  { unfold check_node_accounting. simpl.
    set (next := match max_id nodes with Some max => as_u 64 (max + 1) | None => 1 end).
    rewrite filter_of_map. transitivity (List.filter (fun a => next <=? plan_key a) nodes = []).
    - destruct (List.filter _ nodes); simpl; split; done.
    - rewrite filter_nil_iff. split; intros Hf; (eapply Forall_impl; [exact Hf|]); intros p; simpl.
      + apply Z.leb_gt.
      + intros. by apply Z.leb_gt. }
  split; [|split; [|apply Ha]].
  - simpl. assert (inconsistent nodes = []) as ->; [|done]. apply omap_nil_iff.
    eapply Forall_impl; [exact Hok|]. intros p Hp. unfold plan_ok in Hp. simpl in Hp.
    destruct (np_fabric_index p).
    + destruct Hp as [Hi _]. unfold in_index_range in Hi.
      destruct (Z.eqb_spec (nr_device_fabric_index (np_record p)) 0); [lia | done].
    + by rewrite Hp.
  - rewrite Ha. simpl. pose proof (max_id_spec nodes) as Hm. destruct (max_id nodes) as [m|].
    2:{ subst. split; constructor. }
    destruct Hm as [Hin Hall].
    assert (Hmr : 0 <= m < 2 ^ 64).
    { apply list_elem_of_fmap in Hin as (p & -> & Hp). rewrite Forall_forall in Hr. by apply Hr. }
    assert (Hmax : Forall (fun p => plan_key p <> 2 ^ 64 - 1) nodes <-> m <> 2 ^ 64 - 1).
    { split.
      - intros Hf. apply list_elem_of_fmap in Hin as (p & -> & Hp). rewrite Forall_forall in Hf. by apply Hf.
      - intros Hne. rewrite Forall_forall in *. intros p Hp. specialize (Hall p Hp). specialize (Hr p Hp).
        simpl in *. lia. }
    rewrite Hmax. unfold as_u. split.
    + intros Hf Hm. rewrite Hm in Hf. apply list_elem_of_fmap in Hin as (p & E & Hp).
      rewrite Forall_forall in Hf. specialize (Hf p Hp). specialize (proj1 (Forall_forall _ _) Hr p Hp) as Hrp.
      simpl in Hrp, Hf. replace (2 ^ 64 - 1 + 1) with (2 ^ 64) in Hf by lia. rewrite Z.mod_same in Hf by lia. lia.
    + intros Hne. rewrite Z.mod_small by lia. eapply Forall_impl; [exact Hall|]. simpl. lia.
Qed.

(** ** What a run writes *)

Section safety.
Context `{RS : RsMatter} `{SerdeJson} `{Base64} `{HexCodec} `{NodeDate}.
Context (src : SourceFs) (gunzip : string -> Result string IoError) (clock : nat -> Z).
Context {R : Type} (rs_step : forall B, RsOp B -> R -> B * R).

Abbreviation run_id := (run (id_step rs_step)).

Lemma stack_only_sdk {A} c (p : Prog IdOp (Result A rs_error)) :
  all_ops stack_only p -> all_ops stack_only (sdk c p).
Proof. intros Hp. apply all_ops_bind; [done|]. constructor. Qed.

Lemma stack_only_verify i : all_ops stack_only (verify_identity i).
Proof.
  unfold verify_identity. apply all_ops_try; [apply stack_only_sdk; constructor|]. intros n.
  destruct (negb _); [constructor|]. apply all_ops_bind; [by apply all_ops_op|]. intros secs.
  repeat (apply all_ops_try; [apply stack_only_sdk; constructor|]; intros ?). constructor.
Qed.

Lemma stack_only_preserved k c f v n i : all_ops stack_only (identity_from_preserved_ca k c f v n i).
Proof.
  unfold identity_from_preserved_ca, lift_result.
  repeat (apply all_ops_try; [first [apply stack_only_verify | apply stack_only_sdk; first [constructor; fail | by apply all_ops_op]
                                    | constructor] |]; intros ?).
  constructor.
Qed.

Lemma stack_only_analyse opts : all_ops stack_only (analyse src gunzip clock opts).
Proof.
  unfold analyse, lift_result. apply all_ops_try; [constructor|]. intros [db ns].
  do 2 (apply all_ops_try; [constructor|]; intros ?).
  apply all_ops_try; [apply all_ops_bind; [apply stack_only_preserved | constructor]|]. intros i.
  apply all_ops_try; [constructor|]. intros nodes. apply all_ops_bind.
  - unfold run_all, check_admin_identity. repeat (apply all_ops_bind; [|constructor]). apply stack_only_verify.
  - intros outcomes. apply all_ops_try; [constructor|]. intros ?. constructor.
Qed.

Lemma run_writing {A} path (p : Io (Result A IoError)) r fs :
  run_id (writing_at path p) (r, fs) =
  let '(a, fs') := run fs_step p fs in (map_err (MeWrite path) a, (r, fs')).
Proof. unfold writing_at. rewrite run_bind, run_on_fs. by destruct (run fs_step p fs). Qed.

(** Files a write does not concern. *)
Lemma write_json_others dir name v secret fs q :
  name <> ".." -> q <> join dir name -> (forall pid seq, q <> join dir (tmp_name name pid seq)) ->
  fs_files (run fs_step (write_json_atomic (join dir name) v secret) fs).2 !! q = fs_files fs !! q.
Proof.
  intros Hn Hq Ht. destruct (write_json_atomic_triple dir name v secret fs Hn fs eq_refl) as [_ HQ].
  destruct (run fs_step _ fs) as [[[]|e] fs']; destruct HQ as (_ & _ & Ho); by apply Ho.
Qed.

Lemma write_json_written dir name v secret fs :
  name <> ".." ->
  match run fs_step (write_json_atomic (join dir name) v secret) fs with
  | (Ok _, fs') => exists x, fs_files fs' !! join dir name = Some x /\ complete v secret x
  | (Err _, fs') => fs_files fs' !! join dir name = fs_files fs !! join dir name
  end.
Proof.
  intros Hn. destruct (write_json_atomic_triple dir name v secret fs Hn fs eq_refl) as [_ HQ].
  destruct (run fs_step _ fs) as [[[]|e] fs']; by destruct HQ as [HQ _].
Qed.

Lemma create_dir_files d fs : fs_files (run fs_step (do_op (CreateDirAll d)) fs).2 = fs_files fs.
Proof.
  cbn [do_op run fs_step]. unfold faulty. pose proof (pop_fault_files fs) as E.
  by destruct (pop_fault fs) as [[e|] fs'].
Qed.

Lemma open_files root fs :
  match run fs_step (open root) fs with
  | (Ok s, fs') => st_root s = root /\ fs_files fs' = fs_files fs
  | (Err _, fs') => fs_files fs' = fs_files fs
  end.
Proof.
  unfold open. rewrite run_try. pose proof (create_dir_files (join root "nodes") fs) as E.
  destruct (run fs_step _ fs) as [[[]|e] fs1]; [|done]. rewrite run_try.
  pose proof (create_dir_files (join root "sessions") fs1) as E1.
  destruct (run fs_step _ fs1) as [[[]|e] fs2]; simpl in *; [split; [done|]|]; congruence.
Qed.

Lemma create_existing s i fs x :
  fs_files fs !! join (st_root s) "server.json" = Some x ->
  exists e fs', run fs_step (create_identity s i) fs = (Err e, fs') /\ fs_files fs' = fs_files fs.
Proof.
  intros Hx. unfold create_identity. rewrite run_try. cbn [do_op run fs_step]. unfold faulty.
  pose proof (pop_fault_files fs) as E. destruct (pop_fault fs) as [[e|] fs']; simpl in *; [by exists e, fs'|].
  rewrite E, Hx. simpl. by eexists _, fs'.
Qed.

Lemma run_try_ok {Op : Type -> Type} {St} (h : forall B, Op B -> St -> B * St) {A B E}
    (p : Prog Op (Result A E)) (f : A -> Prog Op (Result B E)) s b s' :
  run h (try_bind p f) s = (Ok b, s') -> exists a s1, run h p s = (Ok a, s1) /\ run h (f a) s1 = (Ok b, s').
Proof. rewrite run_try. destruct (run h p s) as [[a|e] s1]; [|done]. eauto. Qed.

Lemma run_bind_ok {Op : Type -> Type} {St} (h : forall B, Op B -> St -> B * St) {A B}
    (p : Prog Op A) (f : A -> Prog Op B) s b s' :
  run h (prog_bind p f) s = (b, s') -> exists a s1, run h p s = (a, s1) /\ run h (f a) s1 = (b, s').
Proof. rewrite run_bind. destruct (run h p s) as [a s1]. eauto. Qed.

Lemma analyse_wrote opts w a w' :
  run_id (analyse src gunzip clock opts) w = (Ok a, w') -> rp_wrote (an_report a) = None.
Proof.
  unfold analyse. intros Hr. apply run_try_ok in Hr as ([db ns] & w1 & _ & Hr).
  do 4 (apply run_try_ok in Hr as (? & ? & _ & Hr)). apply run_bind_ok in Hr as (? & ? & _ & Hr).
  apply run_try_ok in Hr as (? & ? & _ & Hr). cbn [run] in Hr. by injection Hr as <- _.
Qed.

Lemma write_all_existing to_dir a r fs :
  is_Some (fs_files fs !! join to_dir "server.json") ->
  is_ok (run_id (write_all to_dir a) (r, fs)).1 = false /\
  fs_files (run_id (write_all to_dir a) (r, fs)).2.2 = fs_files fs.
Proof.
  intros [x Hx]. unfold write_all. rewrite run_try, run_writing.
  pose proof (open_files to_dir fs) as Ho. destruct (run fs_step (open _) fs) as [[s|e] fs1]; cbn [map_err]; cbv iota; [|done].
  destruct Ho as [Hs Ho]. rewrite run_try, run_writing.
  destruct (create_existing s (an_identity a) fs1 x) as (e & fs2 & -> & Ef); [by rewrite Hs, Ho|].
  simpl. by rewrite Ef, Ho.
Qed.

(** C25: the tool never touches an installation.  In every run: without
    [--write] the target is not changed at all; a failed check writes nothing
    even with it; a target that already has a server.json keeps all its files
    exactly as they are; and a report says that something was written only
    when writing was asked for and every check passed. *)
Theorem migrate_writes_only_when_ok opts r fs :
  match run_id (migrate src gunzip clock opts) (r, fs) with
  | (res, (r', fs')) =>
      (op_write opts = false -> fs' = fs) /\
      (is_Some (fs_files fs !! join (op_to opts) "server.json") -> fs_files fs' = fs_files fs) /\
      match res with
      | Ok report =>
          (rp_wrote report = None -> fs' = fs) /\
          (rp_wrote report <> None -> op_write opts = true /\ report_ok report = true)
      | Err _ => True
      end
  end.
Proof.
  unfold migrate. destruct (same_place src opts); [done|]. rewrite run_try.
  pose proof (stack_only_files rs_step (analyse src gunzip clock opts) (r, fs) (stack_only_analyse opts)) as Hf.
  pose proof (fun a w => analyse_wrote opts (r, fs) a w) as Hw.
  destruct (run_id (analyse _ _ _ _) (r, fs)) as [[a|e] [r1 fs1]]; simpl in Hf; subst fs1; [|done].
  specialize (Hw a _ eq_refl).
  destruct (forallb ck_passed (rp_checks (an_report a))) eqn:Hall, (op_write opts) eqn:Hwr; cbn [negb orb]; cbv iota.
  2-4: cbn [run]; rewrite ?Hw; by split_and!.
  rewrite run_try. pose proof (write_all_existing (op_to opts) a r1 fs) as Hx.
  destruct (run_id (write_all (op_to opts) a) (r1, fs)) as [[[]|e] [r2 fs2]]; cbn [run]; split_and!; try done.
  - intros Hs. by apply Hx in Hs as [[=] _].
  - intros Hs. by apply Hx in Hs as [_ ?].
Qed.

(** ** What a successful run leaves *)

Abbreviation spares P := (all_ops (touches P)).

Lemma spares_write_json (P : Path -> Prop) dir name v secret :
  name <> ".." -> P (join dir name) -> (forall pid seq, P (join dir (tmp_name name pid seq))) ->
  spares P (write_json_atomic (join dir name) v secret).
Proof.
  intros Hn Hp Ht. unfold write_json_atomic. rewrite parent_join, file_name_join by done.
  apply all_ops_bind; [by apply all_ops_op|]. intros seq. apply all_ops_bind; [by apply all_ops_op|]. intros pid.
  apply all_ops_bind.
  - unfold write_tmp_then_rename. apply all_ops_try; [apply all_ops_op; apply Ht|]. intros _.
    apply all_ops_try; [apply all_ops_try_for; intros; apply all_ops_op; apply Ht|]. intros _.
    apply all_ops_try; [by apply all_ops_op|]. intros _.
    apply all_ops_try; [destruct secret; [apply all_ops_op; apply Ht | constructor]|]. intros _.
    apply all_ops_op. split; [apply Ht | done].
  - intros [|]; [constructor|]. apply all_ops_bind; [apply all_ops_op; apply Ht | constructor].
Qed.

Lemma spares_read_json P {A} (d : Decoder A) path : spares P (read_json d path).
Proof.
  unfold read_json, read_to_string. apply all_ops_bind.
  - apply all_ops_try; [by apply all_ops_op | constructor].
  - intros []; constructor.
Qed.

Lemma spares_load_nodes P s : spares P (load_nodes s).
Proof.
  unfold load_nodes. apply all_ops_bind; [by apply all_ops_op|]. intros [l|]; [|constructor].
  apply all_ops_bind; [|constructor]. induction l as [|e l IH]; cbn [load_node_files]; [constructor|].
  destruct (decide _); [|done]. apply all_ops_bind; [apply spares_read_json|]. intros ?.
  apply all_ops_bind; [done | constructor].
Qed.

Lemma spares_keeps (P : Path -> Prop) {A} (p : Io A) fs q :
  spares P p -> ~ P q -> fs_files (run fs_step p fs).2 !! q = fs_files fs !! q.
Proof.
  intros Hp Hq. apply (states_inv fs_step (fun fs' => fs_files fs' !! q = fs_files fs !! q) (touches P) p fs);
    [|done..]. intros B op fs1 Ht <-. by apply (fs_step_files P).
Qed.

Lemma join_inj (d1 d2 : Path) a b : join d1 a = join d2 b -> d1 = d2 /\ a = b.
Proof. unfold join. intros E. apply app_inj_2 in E as [-> [= ->]]; done. Qed.

Lemma node_write_spares s rec q :
  (forall name, q <> join (nodes_dir s) name) -> spares (fun p => p <> q) (save_node s rec).
Proof.
  intros Hq. unfold save_node, node_file. apply spares_write_json; [|by intros E; by eapply Hq|by intros ? ? E; by eapply Hq].
  intros E. apply (f_equal String.length) in E. rewrite str_length_app in E. simpl in E. lia.
Qed.

(** The saving of the nodes leaves the other files alone. *)
Lemma save_nodes_keep s dir plans r fs q :
  (forall name, q <> join (nodes_dir s) name) ->
  fs_files (run_id (try_for plans (fun plan =>
     writing_at (join dir (show (plan_key plan) +:+ ".json")) (save_node s (np_record plan)))) (r, fs)).2.2 !! q =
  fs_files fs !! q.
Proof.
  intros Hq. revert r fs. induction plans as [|p plans IH]; intros r fs; [done|]. cbn [try_for].
  rewrite run_try, run_writing.
  pose proof (spares_keeps _ (save_node s (np_record p)) fs q (node_write_spares s (np_record p) q Hq) ltac:(auto)) as Hk.
  destruct (run fs_step _ fs) as [[[]|e] fs1]; cbn [map_err]; cbv iota; simpl in Hk; [|by simpl].
  by rewrite IH.
Qed.

(** A run that reports success leaves a complete installation root: the
    target's server.json is the whole identity that passed the checks and its
    config.json the whole configuration that did, both with mode 0600. *)
Theorem migrate_written_complete opts r fs :
  match run_id (migrate src gunzip clock opts) (r, fs) with
  | (Ok report, (r', fs')) =>
      rp_wrote report = None \/
      exists a w, run_id (analyse src gunzip clock opts) (r, fs) = (Ok a, w) /\
        forallb ck_passed (rp_checks (an_report a)) = true /\
        (exists x, fs_files fs' !! join (op_to opts) "server.json" = Some x /\
           complete (identity_document (an_identity a)) true x) /\
        (exists x, fs_files fs' !! join (op_to opts) "config.json" = Some x /\
           complete (config_document (an_config a)) true x)
  | (Err _, _) => True
  end.
Proof.
  destruct (run_id (migrate src gunzip clock opts) (r, fs)) as [[report|e] [r' fs']] eqn:Hr; [|done].
  destruct (rp_wrote report) eqn:Hp; [right | by left]. revert Hr. assert (Hw : rp_wrote report <> None) by congruence.
  clear Hp. unfold migrate. destruct (same_place src opts); [done|]. intros Hr.
  apply run_try_ok in Hr as (a & [r1 fs1] & Ha & Hr). exists a, (r1, fs1). split; [done|].
  destruct (forallb ck_passed (rp_checks (an_report a))) eqn:Hall, (op_write opts); cbn [negb orb] in Hr; cbv iota in Hr.
  2-4: cbn [run] in Hr; injection Hr as <- _ _; by rewrite (analyse_wrote _ _ _ _ Ha) in Hw.
  split; [done|]. apply run_try_ok in Hr as ([] & [r2 fs2] & Hr & E). cbn [run] in E.
  injection E as _ -> ->. unfold write_all in Hr.
  apply run_try_ok in Hr as (s & w & Hs & Hr). rewrite run_writing in Hs.
  pose proof (open_files (op_to opts) fs1) as Ho. destruct (run fs_step (open _) fs1) as [[s'|e] fs3]; [|done].
  injection Hs as -> <-. destruct Ho as [<- _].
  apply run_try_ok in Hr as ([] & w & Hc & Hr). rewrite run_writing in Hc.
  pose proof (create_identity_outcome s (an_identity a) fs3) as Hi.
  destruct (run fs_step (create_identity _ _) fs3) as [[[]|e] fs4]; [|done]. injection Hc as <-.
  apply run_try_ok in Hr as ([] & w & Hc & Hr). rewrite run_writing in Hc. unfold save_config in Hc.
  pose proof (write_json_written (st_root s) "config.json" (config_document (an_config a)) true fs4 ltac:(done)) as Hg.
  pose proof (write_json_others (st_root s) "config.json" (config_document (an_config a)) true fs4
    (join (st_root s) "server.json") ltac:(done) ltac:(by apply join_ne)
    ltac:(intros ? ? E; apply join_inj in E as [_ E]; by destruct pid, seq)) as Hk.
  destruct (run fs_step (write_json_atomic _ _ _) fs4) as [[[]|e] fs5]; [|done]. injection Hc as <-.
  simpl in Hk. rewrite <- Hk in Hi.
  apply run_try_ok in Hr as ([] & [r6 fs6] & Hn & Hr).
  assert (Hq : forall f name, join (st_root s) f <> join (nodes_dir s) name).
  { intros f name E. apply join_inj in E as [E _]. apply (f_equal length) in E. unfold nodes_dir, join in E.
    rewrite length_app in E. simpl in E. lia. }
  pose proof (fun f => save_nodes_keep s (join (op_to opts) "nodes") (an_nodes a) r1 fs5 (join (st_root s) f) (Hq f)) as Hkn.
  rewrite Hn in Hkn. cbn [fst snd] in Hkn.
  apply run_bind_ok in Hr as (nodes & w7 & Hl & Hr). rewrite run_on_fs in Hl.
  pose proof (fun q => spares_keeps (fun _ => False) (load_nodes s) fs6 q (spares_load_nodes _ s) ltac:(auto)) as Hkl.
  destruct (run fs_step (load_nodes s) fs6) as [l' fs7]. injection Hl as -> <-. cbn [snd] in Hkl.
  assert (fs' = fs7) as -> by (destruct (negb _); [done | by injection Hr]).
  rewrite !Hkl, !Hkn. by split.
Qed.
End safety.

(** ** A store with no devices *)

Definition bytes_prefix : string :=
  TAG_PREFIX +:+ "Uint8Array" +:+ dquote +:+ "," +:+ quoted "__value__" +:+ ":" +:+ dquote.
Definition bytes_doc (b : string) : Value := VString (bytes_prefix +:+ hex_encode b +:+ dquote +:+ "}").

Definition key16 : string := "0123456789abcdef".
Definition demo_snapshot : Value := json_obj
  [("commitId", json_obj [("segment", json_u 0); ("offset", json_u 0)]);
   ("data", json_obj
     [("credentials", json_obj
        [("fabric", json_obj
           [("fabricId", json_u 1); ("nodeId", json_u CONTROLLER_NODE_ID); ("rootVendorId", json_u 65521);
            ("identityProtectionKey", bytes_doc key16); ("operationalIdentityProtectionKey", bytes_doc key16);
            ("operationalId", bytes_doc (be_bytes 8 7))])]);
      ("certificates", json_obj
        [("rootKeyPair", json_obj [("privateKey", bytes_doc (key16 +:+ key16))]);
         ("rootCertBytes", bytes_doc "rcac")])])].

(** A parser for the documents of this store. *)
Definition StoreJson : SerdeJson := {|
  de_message := @de_message TreeJson;
  json_to_string _ := "";
  json_chunks _ := ["{}"];
  json_from_str s :=
    if String.eqb s "driver" then Ok (json_obj [("kind", VString "wal"); ("type", VString "kv")])
    else if String.eqb s "snapshot" then Ok demo_snapshot
    else match strip_prefix bytes_prefix s with
         | Some r => Ok (json_obj [("__object__", VString "Uint8Array");
                                   ("__value__", VString (unwrap_or "" (strip_suffix (dquote +:+ "}") r)))])
         | None => Err "expected value"
         end;
|}.

Definition demo_store : SourceFs := {|
  src_read p :=
    if decide (p = ["from"; "server-1"; "driver.json"]) then Ok "driver"
    else if decide (p = ["from"; "server-1"; "snapshot.json"]) then Ok "snapshot"
    else Err (not_found p);
  src_read_dir p :=
    if decide (p = ["from"]) then Ok [Ok {| de_file_name := "server-1"; de_file_type := Some IsDir |}]
    else Err (not_found p);
  src_modified p := if decide (p = ["from"; "server-1"; "snapshot.json"]) then Some (Some 1) else None;
  src_exists _ := false;
  src_canonicalize p := Some p;
|}.

Definition demo_options : Options := {| op_from := ["from"]; op_to := ["to"]; op_write := true |}.
Definition demo_target : FS :=
  {| fs_files := ∅; fs_dirs := {[ [] ]}; fs_faults := []; fs_seq := 0; fs_pid := 1; fs_create_mode := 420 |}.

(** The run reads the store, passes its checks and writes. *)
Example demo_migration_writes :
  match (run (id_step (RS := ToyRs) toy_step)
          (migrate (RS := ToyRs) (H := StoreJson) (H0 := HexBase64) (H1 := PlainHex) (H2 := ShowDate)
             demo_store no_gunzip (fun _ => 0) demo_options) (∅, demo_target)).1 with
  | Ok report => rp_wrote report = Some ["to"] /\ report_ok report = true
  | Err _ => False
  end.
Proof. by vm_compute. Qed.

Lemma planned_checks_spec_witness :
  ck_passed (check_fabric_index_sanity [demo_plan 8 ""]) = true.
Proof.
  apply (@planned_checks_spec TreeJson PlainHex demo_db "pk"
    {| sf_fabric_id := 1; sf_controller_node_id := 1; sf_vendor_id := 1; sf_label := ""; sf_ipk_epoch_key := "";
       sf_operational_ipk := ""; sf_operational_id := ""; sf_ca_private_key := ""; sf_rcac_tlv := "" |}
    [demo_plan 8 ""]); by repeat constructor.
Defined.
