(* ===== verification/Gen.v ===== *)
(** * The generated cluster tables

    [crates/gen/src/lib.rs]: the shape of the tables [build.rs] generates from
    the IDL and the lookups into them.  The tables themselves are a generated
    file: an interface with the property [build.rs] establishes by sorting. *)

From S2P Require Import Prelude.

Record Attr : Type := { at_code : Z; at_name : string; at_ty : string; at_is_list : bool }.
Record Cmd : Type := {
  cmd_code : Z; cmd_name : string; cmd_input : option string; cmd_output : option string; cmd_is_timed : bool }.
Record Field : Type := { f_code : Z; f_name : string; f_ty : string; f_is_list : bool }.
Record Struct : Type := { st_name : string; st_fields : list Field }.
Record Event : Type := { evt_code : Z; evt_name : string; evt_fields : list Field }.

Record Cluster : Type := {
  cl_code : Z;
  cl_name : string;
  cl_attributes : list Attr;
  cl_commands : list Cmd;
  cl_structs : list Struct;
  cl_events : list Event;
}.

Class Tables : Type := { CLUSTERS : list Cluster }.

(** Tables without any cluster. *)
Definition EmptyTables : Tables := {| CLUSTERS := [] |}.

(** What [parse] ends with: sorted by code, one cluster per code. *)
Class SortedTables `{Tables} : Prop := { clusters_ascending : ascending cl_code CLUSTERS }.

Definition cluster `{Tables} (code : Z) : option Cluster :=
  match binary_search cl_code CLUSTERS code with Some i => CLUSTERS !! i | None => None end.

Definition find_command_ci (c : Cluster) (name : string) : option Cmd :=
  List.find (fun m => eq_ignore_ascii_case (cmd_name m) name) (cl_commands c).
Definition find_struct (c : Cluster) (name : string) : option Struct :=
  List.find (fun s => String.eqb (st_name s) name) (cl_structs c).
Definition attr (c : Cluster) (code : Z) : option Attr :=
  List.find (fun a => at_code a =? code) (cl_attributes c).
Definition event (c : Cluster) (code : Z) : option Event :=
  List.find (fun e => evt_code e =? code) (cl_events c).

(** The binary search finds a cluster exactly when the table has one. *)
Lemma cluster_spec `{SortedTables} code c :
  cluster code = Some c <-> c ∈ CLUSTERS /\ cl_code c = code.
Proof.
  unfold cluster. split.
  - destruct (binary_search cl_code CLUSTERS code) as [i|] eqn:E; [|done].
    apply binary_search_spec in E as (a & Hi & Hc); [|apply clusters_ascending].
    intros Hc'. rewrite Hi in Hc'. injection Hc' as ->. split; [by eapply list_elem_of_lookup_2 | done].
  - intros [[i Hi]%list_elem_of_lookup Hc].
    assert (E : binary_search cl_code CLUSTERS code = Some i).
    { apply binary_search_spec; [apply clusters_ascending|]. by exists c. }
    by rewrite E.
Qed.
