(* ===== verification/GenBuild.v ===== *)
(** * The generator of the cluster tables

    [crates/gen/build.rs]: the line-based extractor that reads the CSA IDL and
    produces the tables [Gen] looks things up in.  [GenRender] is what it prints. *)

From S2P Require Import Prelude Text Gen.

(** ** Strings *)

(** The rest of [s] after the first occurrence of [p], and what is before it. *)
Fixpoint find_split (p s : string) : option (string * string) :=
  match strip_prefix p s with
  | Some rest => Some (EmptyString, rest)
  | None =>
      match s with
      | EmptyString => None
      | String c s => (fun '(before, rest) => (String c before, rest)) <$> find_split p s
      end
  end.

(** [s.split(p).nth(1)] *)
Definition split_nth1 (p s : string) : option string :=
  match find_split p s with
  | None => None
  | Some (_, rest) => Some (match find_split p rest with Some (piece, _) => piece | None => rest end)
  end.

(** [trim_end_matches] with a set of characters. *)
Definition trim_end_chars (cs : list byte) (s : string) : string :=
  str_rev ((fix go s := match s with
            | String c s' => if existsb (Ascii.eqb c) cs then go s' else s
            | EmptyString => EmptyString end) (str_rev s)).

(** [trim_end_matches("[]")] *)
Fixpoint trim_end_brackets (fuel : nat) (s : string) : string :=
  match fuel, strip_suffix "[]" s with
  | S fuel, Some s' => trim_end_brackets fuel s'
  | _, _ => s
  end.

(** [str::lines]: newline-terminated lines, without a carriage return before
    the newline. *)
Definition newline : byte := byte_at 10.
Definition lines (s : string) : list string :=
  let pieces := split newline s in
  let pieces := match rev pieces with EmptyString :: r => rev r | _ => pieces end in
  map (fun l => match strip_suffix (String (byte_at 13) EmptyString) l with Some l => l | None => l end) pieces.

Fixpoint words_of (cur : string) (l : list string) : list string :=
  let flush := match cur with EmptyString => [] | _ => [cur] end in
  match l with
  | [] => flush
  | c :: l => if is_whitespace c then flush ++ words_of EmptyString l else words_of (cur +:+ c) l
  end.
Definition split_whitespace (s : string) : list string := words_of EmptyString (chars s).

Fixpoint position (p : string -> bool) (l : list string) : option nat :=
  match l with
  | [] => None
  | w :: l => if p w then Some O else S <$> position p l
  end.

Definition has_word (w : string) (words : list string) : bool := existsb (String.eqb w) words.
Definition word_at (w : string) (words : list string) : option nat := position (String.eqb w) words.

(** ** Fragments *)

Definition QUALIFIERS : list string := ["optional"; "nullable"; "readonly"; "fabric_sensitive"].

Definition parse_field (line : string) : option Field :=
  let line := trim_end_chars [";"%char] (trim line) in
  match rsplit_once "="%char line with
  | None => None
  | Some (decl, code) =>
      match parse_u 64 (trim code) with
      | None => None
      | Some code =>
          let toks := drop_while (fun t => has_word t QUALIFIERS) (split_whitespace decl) in
          match rev toks with
          | name_tok :: ty_tok :: _ =>
              Some {| f_code := code;
                      f_name := trim_end_brackets (String.length name_tok) name_tok;
                      f_ty := match split "<"%char ty_tok with ty :: _ => ty | [] => ty_tok end;
                      f_is_list := ends_with "[]" name_tok |}
          | _ => None
          end
      end
  end.

Definition strip_access (s : string) : string :=
  match find_split "access(" s with
  | Some (before, rest) =>
      match split_once ")"%char rest with
      | Some (_, after) => before +:+ after
      | None => s
      end
  | None => s
  end.

(** The outer [None] is the panic of [call[open + 1..close]] when the last
    [')'] comes before the first ['(']. *)
Definition parse_command (s : string) : option (option (string * option string * option string * Z)) :=
  let s := trim_end_chars [";"%char] (trim s) in
  match rsplit_once "="%char s with
  | None => Some None
  | Some (sig, code) =>
      match parse_u 64 (trim code) with
      | None => Some None
      | Some code =>
          match rsplit_once ":"%char sig with
          | None => Some None
          | Some (call, output) =>
              let output := trim output in
              let output := if String.eqb output "DefaultSuccess" then None else Some output in
              match split_once "("%char (trim call) with
              | None => Some None
              | Some (name, inner) =>
                  match rsplit_once ")"%char inner with
                  | None => if str_contains ")"%char name then None else Some None
                  | Some (inner, _) =>
                      let inner := trim inner in
                      Some (Some (trim name, if str_is_empty inner then None else Some inner, output, code))
                  end
              end
          end
      end
  end.

(** ** The state of [parse] *)

Inductive Block : Type :=
| BSkip
| BStruct (name : string)
| BEvent (code : Z) (name : string).

Record PState : Type := {
  ps_clusters : list Cluster;
  ps_cur : option Cluster;
  ps_block : option (Block * list Field);
  ps_depth : Z;
}.

Definition ps_init : PState := {| ps_clusters := []; ps_cur := None; ps_block := None; ps_depth := 0 |}.

Definition new_cluster (name : string) (code : Z) : Cluster :=
  {| cl_code := code; cl_name := name; cl_attributes := []; cl_commands := []; cl_structs := []; cl_events := [] |}.

Definition push_attr (c : Cluster) (f : Field) : Cluster :=
  {| cl_code := cl_code c; cl_name := cl_name c;
     cl_attributes := cl_attributes c ++
       [{| at_code := f_code f; at_name := f_name f; at_ty := f_ty f; at_is_list := f_is_list f |}];
     cl_commands := cl_commands c; cl_structs := cl_structs c; cl_events := cl_events c |}.
Definition push_cmd (c : Cluster) (m : Cmd) : Cluster :=
  {| cl_code := cl_code c; cl_name := cl_name c; cl_attributes := cl_attributes c;
     cl_commands := cl_commands c ++ [m]; cl_structs := cl_structs c; cl_events := cl_events c |}.

(** A finished block goes into the current cluster. *)
Definition push_block (c : Cluster) (kind : Block) (fields : list Field) : Cluster :=
  match kind with
  | BStruct name =>
      {| cl_code := cl_code c; cl_name := cl_name c; cl_attributes := cl_attributes c; cl_commands := cl_commands c;
         cl_structs := cl_structs c ++ [{| st_name := name; st_fields := fields |}]; cl_events := cl_events c |}
  | BEvent code name =>
      {| cl_code := cl_code c; cl_name := cl_name c; cl_attributes := cl_attributes c; cl_commands := cl_commands c;
         cl_structs := cl_structs c;
         cl_events := cl_events c ++ [{| evt_code := code; evt_name := name; evt_fields := fields |}] |}
  | BSkip => c
  end.

Definition with_cur (s : PState) (c : option Cluster) : PState :=
  {| ps_clusters := ps_clusters s; ps_cur := c; ps_block := ps_block s; ps_depth := ps_depth s |}.
Definition with_block (s : PState) (b : option (Block * list Field)) (depth : Z) : PState :=
  {| ps_clusters := ps_clusters s; ps_cur := ps_cur s; ps_block := b; ps_depth := depth |}.

(** [if let Some(c) = cur.take() { clusters.push(c) }] *)
Definition take_cur (s : PState) : list Cluster :=
  ps_clusters s ++ match ps_cur s with Some c => [c] | None => [] end.

(** A line inside a struct, event or skipped block. *)
Definition block_line (s : PState) (kind : Block) (fields : list Field) (line : string) : PState :=
  let depth := if str_contains "{"%char line then ps_depth s + 1 else ps_depth s in
  let closing := str_contains "}"%char line in
  let depth := if closing then depth - 1 else depth in
  if closing && (depth <=? 0) then
    with_cur (with_block s None depth) ((fun c => push_block c kind fields) <$> ps_cur s)
  else
    match kind with
    | BSkip => with_block s (Some (kind, fields)) depth
    | _ =>
        let fields := match parse_field line with Some f => fields ++ [f] | None => fields end in
        with_block s (Some (kind, fields)) depth
    end.

Definition open_event (s : PState) (line : string) : PState :=
  if ends_with "{" line then
    let rest := unwrap_or "" (split_nth1 "event" line) in
    let rest := trim (trim_end_chars ["{"%char] (trim (strip_access rest))) in
    match rsplit_once "="%char rest with
    | Some (name_part, code_part) =>
        match parse_u 64 (trim code_part) with
        | Some code => with_block s (Some (BEvent code (trim name_part), [])) 1
        | None => s
        end
    | None => s
    end
  else s.

(** A line of a cluster outside any block. *)
Definition cluster_line (s : PState) (c : Cluster) (line : string) (words : list string) : option PState :=
  if String.eqb line "}" then
    Some {| ps_clusters := ps_clusters s ++ [c]; ps_cur := None; ps_block := ps_block s; ps_depth := ps_depth s |}
  else if has_word "enum" words || has_word "bitmap" words then
    Some (if ends_with "{" line then with_block s (Some (BSkip, [])) 1 else s)
  else
    match word_at "struct" words with
    | Some pos =>
        let name := trim_end_chars ["{"%char] (unwrap_or "" (words !! S pos)) in
        Some (if ends_with "{" line then with_block s (Some (BStruct name, [])) 1 else s)
    | None =>
        if has_word "event" words then Some (open_event s line)
        else if has_word "attribute" words then
          let rest := strip_access (unwrap_or "" (split_nth1 "attribute" line)) in
          Some (match parse_field rest with
                | Some f => with_cur s (Some (push_attr c f))
                | None => s
                end)
        else
          match word_at "command" words with
          | Some pos =>
              let is_timed := has_word "timed" (take pos words) in
              let rest := strip_access (unwrap_or "" (split_nth1 "command" line)) in
              match parse_command rest with
              | None => None
              | Some (Some (name, input, output, code)) =>
                  Some (with_cur s (Some (push_cmd c {| cmd_code := code; cmd_name := name; cmd_input := input;
                                                        cmd_output := output; cmd_is_timed := is_timed |})))
              | Some None => Some s
              end
          | None => Some s
          end
    end.

Definition u64_MAX : Z := 2 ^ 64 - 1.

(** The cluster a line opens; the outer [None] is the panic of an index out
    of range. *)
Definition cluster_header (line : string) (words : list string) : option (option Cluster) :=
  match word_at "cluster" words with
  | None => Some None
  | Some pos =>
      if bool_decide (words !! (pos + 2)%nat = Some "=") && ends_with "{" line then
        match words !! (pos + 1)%nat, words !! (pos + 3)%nat with
        | Some name, Some code =>
            let code := unwrap_or u64_MAX (parse_u 64 (trim_end_chars ["{"%char; " "%char] code)) in
            Some (Some (new_cluster name code))
        | _, _ => None
        end
      else Some None
  end.

Definition parse_line (s : PState) (raw : string) : option PState :=
  let line := trim raw in
  if starts_with "//" line || starts_with "/*" line || str_is_empty line then Some s
  else
    match ps_block s with
    | Some (kind, fields) => Some (block_line s kind fields line)
    | None =>
        let words := split_whitespace line in
        match words with
        | [] => Some s
        | _ =>
            match cluster_header line words with
            | None => None
            | Some (Some c) =>
                Some {| ps_clusters := take_cur s; ps_cur := Some c; ps_block := None; ps_depth := ps_depth s |}
            | Some None =>
                match ps_cur s with
                | None => Some s
                | Some c => cluster_line s c line words
                end
            end
        end
    end.

Fixpoint parse_lines (s : PState) (ls : list string) : option PState :=
  match ls with
  | [] => Some s
  | l :: ls => match parse_line s l with Some s => parse_lines s ls | None => None end
  end.

(** [dedup_by_key]: of neighbours with one key, the first stays. *)
Fixpoint dedup_after (last : Z) (l : list Cluster) : list Cluster :=
  match l with
  | [] => []
  | c :: l => if cl_code c =? last then dedup_after last l else c :: dedup_after (cl_code c) l
  end.

Definition dedup_by_code (l : list Cluster) : list Cluster :=
  match l with
  | [] => []
  | c :: l => c :: dedup_after (cl_code c) l
  end.

(** All the clusters of the source, in source order. *)
Definition declared (src : string) : option (list Cluster) := take_cur <$> parse_lines ps_init (lines src).

Definition parse (src : string) : option (list Cluster) :=
  (fun cs => dedup_by_code (sort_by_key cl_code (List.filter (fun c => negb (cl_code c =? u64_MAX)) cs)))
    <$> declared src.

(** ** The tables *)

Lemma find_insert_by_key {A} (key : A -> Z) k a l :
  List.find (fun x => key x =? k) (insert_by_key key a l) =
  if key a =? k then Some a else List.find (fun x => key x =? k) l.
Proof.
  induction l as [|b l IH]; simpl; [by destruct (key a =? k)|].
  destruct (Z.leb_spec (key a) (key b)); simpl; [done|]. rewrite IH.
  destruct (Z.eqb_spec (key a) k), (Z.eqb_spec (key b) k); (done || lia).
Qed.

(** Sorting is stable: the first with a key stays the first. *)
Lemma find_sort_by_key {A} (key : A -> Z) k l :
  List.find (fun x => key x =? k) (sort_by_key key l) = List.find (fun x => key x =? k) l.
Proof. induction l as [|a l IH]; [done|]. simpl. by rewrite find_insert_by_key, IH. Qed.

Lemma find_filter {A} (p q : A -> bool) l :
  (forall a, p a = true -> q a = true) -> List.find p (List.filter q l) = List.find p l.
Proof.
  intros Hpq. induction l as [|a l IH]; [done|]. simpl. destruct (q a) eqn:Eq; simpl; [by rewrite IH|].
  destruct (p a) eqn:Ep; [|done]. rewrite Hpq in Eq; done.
Qed.

Lemma dedup_after_spec last l :
  StronglySorted (key_le cl_code) l -> Forall (fun c => last <= cl_code c) l ->
  StronglySorted Z.lt (map cl_code (dedup_after last l)) /\
  Forall (fun c => last < cl_code c) (dedup_after last l) /\
  forall k, k <> last -> List.find (fun c => cl_code c =? k) (dedup_after last l) = List.find (fun c => cl_code c =? k) l.
Proof.
  intros Hs. revert last. induction Hs as [|c l Hs IH Hc]; intros last Hl; simpl; [by repeat constructor|].
  apply Forall_cons in Hl as [Hcl Hl]. destruct (Z.eqb_spec (cl_code c) last) as [E|Hne].
  - destruct (IH last Hl) as (H1 & H2 & H3). split; [done|]. split; [done|]. intros k Hk.
    rewrite H3 by done. by destruct (Z.eqb_spec (cl_code c) k); [congruence|].
  - destruct (IH (cl_code c)) as (H1 & H2 & H3); [exact Hc|]. split; [|split].
    + simpl. constructor; [done|]. by apply (Forall_fmap _ _ (dedup_after _ _)).
    + constructor; [lia|]. eapply Forall_impl; [exact H2|]. simpl. lia.
    + intros k Hk. simpl. destruct (Z.eqb_spec (cl_code c) k); [done|]. by apply H3.
Qed.

Lemma dedup_by_code_spec l :
  StronglySorted (key_le cl_code) l ->
  ascending cl_code (dedup_by_code l) /\
  forall k, List.find (fun c => cl_code c =? k) (dedup_by_code l) = List.find (fun c => cl_code c =? k) l.
Proof.
  intros Hs. destruct Hs as [|c l Hs Hc]; [by repeat constructor|].
  destruct (dedup_after_spec (cl_code c) l Hs Hc) as (H1 & H2 & H3). unfold ascending. simpl. split.
  - constructor; [done|]. by apply (Forall_fmap _ _ (dedup_after _ _)).
  - intros k. destruct (Z.eqb_spec (cl_code c) k); [done|]. by apply H3.
Qed.

(** In an ascending table the lookup is the search for the code. *)
Lemma cluster_find `{SortedTables} code : cluster code = List.find (fun c => cl_code c =? code) CLUSTERS.
Proof.
  destruct (List.find _ CLUSTERS) as [c|] eqn:E.
  - apply List.find_some in E as [Hin Hc]. apply cluster_spec. split; [by apply list_elem_of_In | by apply Z.eqb_eq].
  - destruct (cluster code) as [c|] eqn:Ec; [|done]. apply cluster_spec in Ec as [Hin Hc].
    pose proof (List.find_none _ _ E c) as Hn. rewrite <- list_elem_of_In in Hn. specialize (Hn Hin).
    apply Z.eqb_neq in Hn. done.
Qed.

(** C37: what the generator produces is what the lookups rely on.  Whatever the
    IDL, the clusters [parse] returns are strictly ascending by code, so that
    the binary search of [cluster] is correct on them; and looking a code up in
    the generated table finds exactly the first cluster the source declares
    with it - none is lost by sorting or removing duplicates (a cluster whose
    code does not parse is left out). *)
Theorem parse_tables src cs raw :
  parse src = Some cs -> declared src = Some raw ->
  ascending cl_code cs /\
  forall code, code <> u64_MAX ->
    @cluster {| CLUSTERS := cs |} code = List.find (fun c => cl_code c =? code) raw.
Proof.
  unfold parse. intros Hp Hd. rewrite Hd in Hp. injection Hp as <-.
  set (kept := List.filter _ raw). destruct (dedup_by_code_spec (sort_by_key cl_code kept)) as [Ha Hf];
    [apply sort_by_key_sorted|].
  split; [done|]. intros code Hc. set (T := {| CLUSTERS := dedup_by_code (sort_by_key cl_code kept) |}).
  rewrite (@cluster_find T (@Build_SortedTables T Ha)). unfold T. cbn [CLUSTERS].
  rewrite Hf, find_sort_by_key. apply find_filter. intros c E%Z.eqb_eq. subst code. by apply negb_true_iff, Z.eqb_neq.
Qed.

Definition nl : string := String newline EmptyString.

Definition demo_idl : string :=
  "provisional cluster OnOff = 6 {" +:+ nl +:+
  "  readonly attribute boolean onOff = 0;" +:+ nl +:+
  "  readonly attribute attrib_id attributeList[] = 65531;" +:+ nl +:+
  "  timed command access(invoke: administer) Toggle(): DefaultSuccess = 2;" +:+ nl +:+
  "}" +:+ nl +:+
  "cluster Identify = 3 {" +:+ nl +:+ "}" +:+ nl +:+
  "cluster OnOffAgain = 6 {" +:+ nl +:+ "}".

Lemma parse_tables_witness :
  @cluster {| CLUSTERS := default [] (parse demo_idl) |} 6 =
  List.find (fun c => cl_code c =? 6) (default [] (declared demo_idl)) /\
  length (default [] (parse demo_idl)) = 2%nat.
Proof.
  split; [|vm_compute; reflexivity].
  apply (parse_tables demo_idl); [vm_compute; reflexivity | vm_compute; reflexivity | unfold u64_MAX; lia].
Defined.

(** The generator drops every attribute whose declaration contains the word
    "attribute" twice.  The declaration
    [readonly attribute attrib_id attributeList[] = 65531;], present in each
    cluster of the IDL, is split at each occurrence of "attribute" instead of at
    the first, the fragment kept has no code, and the global attribute
    AttributeList is in no generated cluster; the attribute before it is. *)
Theorem attribute_list_dropped :
  exists c, (fun cs => @cluster {| CLUSTERS := cs |} 6) <$> parse demo_idl = Some (Some c) /\
    attr c 65531 = None /\ at_name <$> attr c 0 = Some "onOff" /\
    forall s cl, cluster_line s cl "readonly attribute attrib_id attributeList[] = 65531;"
      (split_whitespace "readonly attribute attrib_id attributeList[] = 65531;") = Some s.
Proof. eexists. split; [vm_compute; reflexivity|]. by split; [vm_compute|]. Qed.
