(* ===== verification/GenRender.v ===== *)
(** * The generated table file

    [render] of [crates/gen/build.rs], which prints the parsed clusters as the
    Rust source [crates/gen/src/lib.rs] includes, and enough of Rust to read that
    source back: its tokens, literal expressions, and the struct types of
    [lib.rs]. *)

From S2P Require Import Prelude Text Gen GenBuild.

(** ** render *)

(** [s.replace] of the double quote by its escape. *)
Fixpoint esc (s : string) : string :=
  match s with
  | EmptyString => EmptyString
  | String c s => if Ascii.eqb c (byte_at 34) then backslash +:+ String c (esc s) else String c (esc s)
  end.

Definition literal (s : string) : string := dquote +:+ esc s +:+ dquote.
Definition show_bool (b : bool) : string := if b then "true" else "false".
Definition show_option (o : option string) : string :=
  match o with Some s => "Some(" +:+ literal s +:+ ")" | None => "None" end.

Definition render_field (f : Field) : string :=
  "        Field { code: " +:+ show (f_code f) +:+ ", name: " +:+ literal (f_name f) +:+ ", ty: " +:+ literal (f_ty f) +:+
  ", is_list: " +:+ show_bool (f_is_list f) +:+ " }," +:+ nl.

Definition render_attr (a : Attr) : string :=
  "    Attr { code: " +:+ show (at_code a) +:+ ", name: " +:+ literal (at_name a) +:+ ", ty: " +:+ literal (at_ty a) +:+
  ", is_list: " +:+ show_bool (at_is_list a) +:+ " }," +:+ nl.

Definition render_cmd (c : Cmd) : string :=
  "    Cmd { code: " +:+ show (cmd_code c) +:+ ", name: " +:+ literal (cmd_name c) +:+ ", input: " +:+ show_option (cmd_input c) +:+
  ", output: " +:+ show_option (cmd_output c) +:+ ", is_timed: " +:+ show_bool (cmd_is_timed c) +:+ " }," +:+ nl.

Definition render_struct (s : Struct) : string :=
  "    Struct { name: " +:+ literal (st_name s) +:+ ", fields: &[" +:+ nl +:+
  str_concat (map render_field (st_fields s)) +:+ "    ] }," +:+ nl.

Definition render_event (e : Event) : string :=
  "    Event { code: " +:+ show (evt_code e) +:+ ", name: " +:+ literal (evt_name e) +:+ ", fields: &[" +:+ nl +:+
  str_concat (map render_field (evt_fields e)) +:+ "    ] }," +:+ nl.

Definition render_cluster (c : Cluster) : string :=
  "Cluster { code: " +:+ show (cl_code c) +:+ ", name: " +:+ literal (cl_name c) +:+ ", attributes: &[" +:+ nl +:+
  str_concat (map render_attr (cl_attributes c)) +:+ "], commands: &[" +:+ nl +:+
  str_concat (map render_cmd (cl_commands c)) +:+ "], structs: &[" +:+ nl +:+
  str_concat (map render_struct (cl_structs c)) +:+ "], events: &[" +:+ nl +:+
  str_concat (map render_event (cl_events c)) +:+ "] }," +:+ nl.

Definition render (clusters : list Cluster) : string :=
  "static CLUSTERS: &[Cluster] = &[" +:+ nl +:+ str_concat (map render_cluster clusters) +:+ "];" +:+ nl.

(** [main], from the IDL text to the file's. *)
Definition generate (idl : string) : option string := render <$> parse idl.

(** ** Rust tokens *)

Inductive Token : Type :=
| TWord (w : string)
| TInt (n : Z)
| TStr (s : string)
| TPunct (c : byte).

#[export] Instance Token_eq_dec : EqDecision Token.
Proof. solve_decision. Defined.

(** Where in a token the lexer is. *)
Inductive LexState : Type :=
| Between
| InWord (w : string)
| InInt (n : Z)
| InStr (s : string)
| InEscape (s : string).

Definition is_word_start (c : byte) : bool :=
  let n := byte_of c in ((65 <=? n) && (n <=? 90)) || ((97 <=? n) && (n <=? 122)) || (n =? 95).
Definition is_blank (c : byte) : bool := let n := byte_of c in (n =? 32) || ((9 <=? n) && (n <=? 13)).
Definition PUNCTUATION : list byte :=
  ["{"; "}"; "["; "]"; "("; ")"; ","; ":"; ";"; "="; "&"]%char.

Definition append (s : string) (c : byte) : string := s +:+ String c EmptyString.

Definition lex_between (c : byte) : option (list Token * LexState) :=
  if is_blank c then Some ([], Between)
  else match digit_value 10 c with
       | Some d => Some ([], InInt d)
       | None =>
           if is_word_start c then Some ([], InWord (String c EmptyString))
           else if Ascii.eqb c (byte_at 34) then Some ([], InStr EmptyString)
           else if existsb (Ascii.eqb c) PUNCTUATION then Some ([TPunct c], Between)
           else None
       end.

Definition after (t : Token) (r : option (list Token * LexState)) : option (list Token * LexState) :=
  (fun '(ts, st) => (t :: ts, st)) <$> r.

(** A number or a word next to the other is one malformed token; a quote right
    after a word would be a prefixed literal. *)
Definition lex_byte (st : LexState) (c : byte) : option (list Token * LexState) :=
  let n := byte_of c in
  match st with
  | Between => lex_between c
  | InWord w =>
      if is_word_start c || is_digit c then Some ([], InWord (append w c))
      else if n =? 34 then None
      else after (TWord w) (lex_between c)
  | InInt m =>
      match digit_value 10 c with
      | Some d => Some ([], InInt (m * 10 + d))
      | None => if is_word_start c then None else after (TInt m) (lex_between c)
      end
  | InStr s =>
      if n =? 34 then Some ([TStr s], Between)
      else if n =? 92 then Some ([], InEscape s)
      else if n =? 13 then None
      else Some ([], InStr (append s c))
  | InEscape s =>
      if (n =? 34) || (n =? 92) || (n =? 39) then Some ([], InStr (append s c))
      else if n =? 110 then Some ([], InStr (append s (byte_at 10)))
      else if n =? 114 then Some ([], InStr (append s (byte_at 13)))
      else if n =? 116 then Some ([], InStr (append s (byte_at 9)))
      else if n =? 48 then Some ([], InStr (append s (byte_at 0)))
      else None
  end.

Fixpoint lex_from (st : LexState) (s : string) : option (list Token * LexState) :=
  match s with
  | EmptyString => Some ([], st)
  | String c s =>
      match lex_byte st c with
      | Some (ts, st) => (fun '(ts', st') => (ts ++ ts', st')) <$> lex_from st s
      | None => None
      end
  end.

Definition lex (s : string) : option (list Token) :=
  match lex_from Between s with Some (ts, Between) => Some ts | _ => None end.

(** ** Literal expressions *)

Inductive Expr : Type :=
| EInt (n : Z)
| EStr (s : string)
| EWord (w : string)                              (* [true], [None] *)
| ECall (w : string) (e : Expr)                   (* [Some(e)] *)
| EStruct (w : string) (fields : list (string * Expr))
| ESlice (items : list Expr).                     (* [&[e, ...]] *)

Section lists.
Context (tokens : Expr -> list Token).

(** No comma after the last field of a struct, one after every element of a
    slice, as [render] prints them. *)
Fixpoint field_tokens (fields : list (string * Expr)) : list Token :=
  match fields with
  | [] => [TPunct "}"]
  | (f, e) :: fields =>
      TWord f :: TPunct ":" :: tokens e ++
      match fields with [] => [TPunct "}"] | _ :: _ => TPunct "," :: field_tokens fields end
  end%char.

Fixpoint item_tokens (items : list Expr) : list Token :=
  match items with
  | [] => [TPunct "]"]
  | e :: items => tokens e ++ TPunct "," :: item_tokens items
  end%char.
End lists.

Fixpoint tokens (e : Expr) : list Token :=
  match e with
  | EInt n => [TInt n]
  | EStr s => [TStr s]
  | EWord w => [TWord w]
  | ECall w e => TWord w :: TPunct "(" :: tokens e ++ [TPunct ")"]
  | EStruct w fields => TWord w :: TPunct "{" :: field_tokens tokens fields
  | ESlice items => TPunct "&" :: TPunct "[" :: item_tokens tokens items
  end%char.

(** The next token must be [t]. *)
Definition expect (t : Token) (ts : list Token) : option (list Token) :=
  match ts with t' :: ts => if decide (t' = t) then Some ts else None | [] => None end.

(** The parser; [fuel] bounds the nesting and the lengths of the lists. *)
Fixpoint parse_expr (fuel : nat) (ts : list Token) : option (Expr * list Token) :=
  match fuel with
  | O => None
  | S fuel =>
      match ts with
      | TInt n :: ts => Some (EInt n, ts)
      | TStr s :: ts => Some (EStr s, ts)
      | TWord w :: TPunct "(" :: ts =>
          '(e, ts) ← parse_expr fuel ts; ts ← expect (TPunct ")") ts; Some (ECall w e, ts)
      | TWord w :: TPunct "{" :: ts => '(fields, ts) ← parse_fields fuel ts; Some (EStruct w fields, ts)
      | TWord w :: ts => Some (EWord w, ts)
      | TPunct "&" :: TPunct "[" :: ts => '(items, ts) ← parse_items fuel ts; Some (ESlice items, ts)
      | _ => None
      end%char
  end
with parse_fields (fuel : nat) (ts : list Token) : option (list (string * Expr) * list Token) :=
  match fuel with
  | O => None
  | S fuel =>
      match ts with
      | TPunct "}" :: ts => Some ([], ts)
      | TWord f :: TPunct ":" :: ts =>
          '(e, ts) ← parse_expr fuel ts;
          match ts with
          | TPunct "}" :: ts => Some ([(f, e)], ts)
          | TPunct "," :: ts => '(fields, ts) ← parse_fields fuel ts; Some ((f, e) :: fields, ts)
          | _ => None
          end
      | _ => None
      end%char
  end
with parse_items (fuel : nat) (ts : list Token) : option (list Expr * list Token) :=
  match fuel with
  | O => None
  | S fuel =>
      match ts with
      | TPunct "]" :: ts => Some ([], ts)
      | _ =>
          '(e, ts) ← parse_expr fuel ts;
          match ts with
          | TPunct "]" :: ts => Some ([e], ts)
          | TPunct "," :: ts => '(items, ts) ← parse_items fuel ts; Some (e :: items, ts)
          | _ => None
          end
      end%char
  end.

(** What can follow a whole expression. *)
Definition stops (rest : list Token) : Prop :=
  match rest with TPunct c :: _ => c <> "("%char /\ c <> "{"%char | _ => False end.

Lemma parse_tokens fuel :
  (forall e rest, (length (tokens e) <= fuel)%nat -> stops rest -> parse_expr fuel (tokens e ++ rest) = Some (e, rest)) /\
  (forall fields rest, (length (field_tokens tokens fields) <= fuel)%nat ->
     parse_fields fuel (field_tokens tokens fields ++ rest) = Some (fields, rest)) /\
  (forall items rest, (length (item_tokens tokens items) <= fuel)%nat ->
     parse_items fuel (item_tokens tokens items ++ rest) = Some (items, rest)).
Proof.
  induction fuel as [|fuel (IHe & IHf & IHi)].
  { split; [|split]; [intros [] ? Hl | intros [|[]] ? Hl | intros [|e l] ? Hl]; simpl in Hl; try lia.
    rewrite length_app in Hl. simpl in Hl. lia. }
  split; [|split].
  - intros [n|s|w|w e|w fields|items] rest Hl Hs; simpl in Hl; cbn [tokens app]; try done.
    + simpl. destruct rest as [|[w'|n|s|c] rest]; try done. destruct Hs as [Hp Hb].
      destruct c as [[] [] [] [] [] [] [] []]; done.
    + rewrite length_app in Hl. cbn [parse_expr]. rewrite <- app_assoc, IHe by (simpl in *; done || lia). done.
    + cbn [parse_expr]. by rewrite IHf by lia.
    + cbn [parse_expr]. by rewrite IHi by lia.
  - intros [|[f e] fields] rest Hl; [done|]. cbn [field_tokens app] in *. simpl in Hl. rewrite length_app in Hl.
    cbn [parse_fields]. rewrite <- app_assoc. destruct fields as [|fe fields]; cbn [app].
    + by rewrite IHe by (simpl in *; done || lia).
    + rewrite IHe by (simpl in *; done || lia). cbn [mbind option_bind]. rewrite IHf by (cbn [field_tokens length] in *; lia). done.
  - intros [|e items] rest Hl; [done|]. cbn [item_tokens] in *. rewrite length_app in Hl. simpl in Hl.
    rewrite <- app_assoc. cbn [app].
    assert (E : parse_expr fuel (tokens e ++ TPunct ","%char :: item_tokens tokens items ++ rest) =
                Some (e, TPunct ","%char :: item_tokens tokens items ++ rest)) by (apply IHe; [lia | done]).
    transitivity ('(e, ts) ← parse_expr fuel (tokens e ++ TPunct ","%char :: item_tokens tokens items ++ rest);
                  match ts with TPunct "]"%char :: ts => Some ([e], ts)
                  | TPunct ","%char :: ts => '(items, ts) ← parse_items fuel ts; Some (e :: items, ts) | _ => None end).
    + by destruct e.
    + rewrite E. cbn [mbind option_bind]. by rewrite IHi by lia.
Qed.

(** ** The types of [lib.rs] *)

(** A literal out of range for [u32] does not compile. *)
Definition u32 (e : Expr) : option Z := match e with EInt n => try_from_u 32 n | _ => None end.
Definition static_str (e : Expr) : option string := match e with EStr s => Some s | _ => None end.
Definition boolean (e : Expr) : option bool :=
  match e with
  | EWord w => if String.eqb w "true" then Some true else if String.eqb w "false" then Some false else None
  | _ => None
  end.
Definition optional (e : Expr) : option (option string) :=
  match e with
  | EWord w => if String.eqb w "None" then Some None else None
  | ECall w e => if String.eqb w "Some" then Some <$> static_str e else None
  | _ => None
  end.
Definition slice {A} (read : Expr -> option A) (e : Expr) : option (list A) :=
  match e with ESlice items => mapM read items | _ => None end.

(** A field of a struct literal that names the type and has [arity] fields. *)
Definition member (w : string) (arity : nat) (e : Expr) (f : string) : option Expr :=
  match e with
  | EStruct w' fields =>
      if String.eqb w' w && (length fields =? arity)%nat
      then snd <$> List.find (fun fe => String.eqb f fe.1) fields else None
  | _ => None
  end.

Definition read_field (e : Expr) : option Field :=
  let m := member "Field" 4 e in
  code ← m "code" ≫= u32; name ← m "name" ≫= static_str; ty ← m "ty" ≫= static_str; l ← m "is_list" ≫= boolean;
  Some {| f_code := code; f_name := name; f_ty := ty; f_is_list := l |}.

Definition read_attr (e : Expr) : option Attr :=
  let m := member "Attr" 4 e in
  code ← m "code" ≫= u32; name ← m "name" ≫= static_str; ty ← m "ty" ≫= static_str; l ← m "is_list" ≫= boolean;
  Some {| at_code := code; at_name := name; at_ty := ty; at_is_list := l |}.

Definition read_cmd (e : Expr) : option Cmd :=
  let m := member "Cmd" 5 e in
  code ← m "code" ≫= u32; name ← m "name" ≫= static_str; input ← m "input" ≫= optional; output ← m "output" ≫= optional;
  timed ← m "is_timed" ≫= boolean;
  Some {| cmd_code := code; cmd_name := name; cmd_input := input; cmd_output := output; cmd_is_timed := timed |}.

Definition read_struct (e : Expr) : option Struct :=
  let m := member "Struct" 2 e in
  name ← m "name" ≫= static_str; fields ← m "fields" ≫= slice read_field;
  Some {| st_name := name; st_fields := fields |}.

Definition read_event (e : Expr) : option Event :=
  let m := member "Event" 3 e in
  code ← m "code" ≫= u32; name ← m "name" ≫= static_str; fields ← m "fields" ≫= slice read_field;
  Some {| evt_code := code; evt_name := name; evt_fields := fields |}.

Definition read_cluster (e : Expr) : option Cluster :=
  let m := member "Cluster" 6 e in
  code ← m "code" ≫= u32; name ← m "name" ≫= static_str; attrs ← m "attributes" ≫= slice read_attr;
  cmds ← m "commands" ≫= slice read_cmd; structs ← m "structs" ≫= slice read_struct; events ← m "events" ≫= slice read_event;
  Some {| cl_code := code; cl_name := name; cl_attributes := attrs; cl_commands := cmds; cl_structs := structs;
          cl_events := events |}.

(** [static CLUSTERS: &[Cluster] =] *)
Definition HEADER : list Token :=
  [TWord "static"; TWord "CLUSTERS"; TPunct ":"; TPunct "&"; TPunct "["; TWord "Cluster"; TPunct "]"; TPunct "="]%char.

(** The value of [CLUSTERS] after compiling the file; [None] if it does not
    compile. *)
Definition load (text : string) : option (list Cluster) :=
  ts ← lex text;
  ts ← foldl (fun ts t => ts ≫= expect t) (Some ts) HEADER;
  '(e, ts) ← parse_expr (length ts) ts;
  match ts with [TPunct ";"%char] => slice read_cluster e | _ => None end.

(** ** Expressions of tables *)

Definition EBool (b : bool) : Expr := EWord (show_bool b).
Definition EOption (o : option string) : Expr := match o with Some s => ECall "Some" (EStr s) | None => EWord "None" end.

Definition quote_field (f : Field) : Expr :=
  EStruct "Field" [("code", EInt (f_code f)); ("name", EStr (f_name f)); ("ty", EStr (f_ty f)); ("is_list", EBool (f_is_list f))].
Definition quote_attr (a : Attr) : Expr :=
  EStruct "Attr" [("code", EInt (at_code a)); ("name", EStr (at_name a)); ("ty", EStr (at_ty a)); ("is_list", EBool (at_is_list a))].
Definition quote_cmd (c : Cmd) : Expr :=
  EStruct "Cmd" [("code", EInt (cmd_code c)); ("name", EStr (cmd_name c)); ("input", EOption (cmd_input c));
                 ("output", EOption (cmd_output c)); ("is_timed", EBool (cmd_is_timed c))].
Definition quote_struct (s : Struct) : Expr :=
  EStruct "Struct" [("name", EStr (st_name s)); ("fields", ESlice (map quote_field (st_fields s)))].
Definition quote_event (e : Event) : Expr :=
  EStruct "Event" [("code", EInt (evt_code e)); ("name", EStr (evt_name e)); ("fields", ESlice (map quote_field (evt_fields e)))].
Definition quote_cluster (c : Cluster) : Expr :=
  EStruct "Cluster" [("code", EInt (cl_code c)); ("name", EStr (cl_name c));
    ("attributes", ESlice (map quote_attr (cl_attributes c))); ("commands", ESlice (map quote_cmd (cl_commands c)));
    ("structs", ESlice (map quote_struct (cl_structs c))); ("events", ESlice (map quote_event (cl_events c)))].

(** What [render] can print: codes of [u32], names without a backslash or a
    carriage return. *)
Definition u32_ok (n : Z) : bool := in_u 32 n.
Definition plain (s : string) : bool := str_forall (fun c => negb ((byte_of c =? 92) || (byte_of c =? 13))) s.
Definition plain_option (o : option string) : bool := match o with Some s => plain s | None => true end.

Definition field_ok (f : Field) : bool := u32_ok (f_code f) && plain (f_name f) && plain (f_ty f).
Definition attr_ok (a : Attr) : bool := u32_ok (at_code a) && plain (at_name a) && plain (at_ty a).
Definition cmd_ok (c : Cmd) : bool :=
  u32_ok (cmd_code c) && plain (cmd_name c) && plain_option (cmd_input c) && plain_option (cmd_output c).
Definition struct_ok (s : Struct) : bool := plain (st_name s) && forallb field_ok (st_fields s).
Definition event_ok (e : Event) : bool := u32_ok (evt_code e) && plain (evt_name e) && forallb field_ok (evt_fields e).
Definition cluster_ok (c : Cluster) : bool :=
  u32_ok (cl_code c) && plain (cl_name c) && forallb attr_ok (cl_attributes c) && forallb cmd_ok (cl_commands c) &&
  forallb struct_ok (cl_structs c) && forallb event_ok (cl_events c).

(** *** Reading back what was quoted *)

Lemma u32_read n : u32_ok n = true -> u32 (EInt n) = Some n.
Proof. intros Hn. cbn [u32]. unfold try_from_u. unfold u32_ok in Hn. by rewrite Hn. Qed.

Lemma bool_read b : boolean (EBool b) = Some b.
Proof. by destruct b. Qed.

Lemma option_read o : optional (EOption o) = Some o.
Proof. by destruct o. Qed.

Lemma slice_read {A} (read : Expr -> option A) quote ok l :
  (forall a, ok a = true -> read (quote a) = Some a) -> forallb ok l = true ->
  slice read (ESlice (map quote l)) = Some l.
Proof.
  intros Hr Hl. simpl. induction l as [|a l IH]; [done|]. simpl in *. apply andb_true_iff in Hl as [Ha Hl].
  by rewrite Hr, IH.
Qed.

Ltac read_back :=
  repeat match goal with H : (_ && _)%bool = true |- _ => apply andb_true_iff in H as [? ?] end;
  cbn -[u32 boolean optional slice];
  repeat first [rewrite u32_read by done | rewrite bool_read | rewrite option_read
               | erewrite slice_read by eauto | progress cbn -[u32 boolean optional slice]].

Lemma field_read f : field_ok f = true -> read_field (quote_field f) = Some f.
Proof. intros Hf. unfold field_ok in Hf. unfold read_field, quote_field. read_back. by destruct f. Qed.

Lemma attr_read a : attr_ok a = true -> read_attr (quote_attr a) = Some a.
Proof. intros Ha. unfold attr_ok in Ha. unfold read_attr, quote_attr. read_back. by destruct a. Qed.

Lemma cmd_read c : cmd_ok c = true -> read_cmd (quote_cmd c) = Some c.
Proof. intros Hc. unfold cmd_ok in Hc. unfold read_cmd, quote_cmd. read_back. by destruct c. Qed.

#[local] Hint Resolve field_read attr_read cmd_read : core.

Lemma struct_read s : struct_ok s = true -> read_struct (quote_struct s) = Some s.
Proof. intros Hs. unfold struct_ok in Hs. unfold read_struct, quote_struct. read_back. by destruct s. Qed.

Lemma event_read e : event_ok e = true -> read_event (quote_event e) = Some e.
Proof. intros He. unfold event_ok in He. unfold read_event, quote_event. read_back. by destruct e. Qed.

#[local] Hint Resolve struct_read event_read : core.

Lemma cluster_read c : cluster_ok c = true -> read_cluster (quote_cluster c) = Some c.
Proof. intros Hc. unfold cluster_ok in Hc. unfold read_cluster, quote_cluster. read_back. by destruct c. Qed.

(** ** Reading the printed text *)

Definition Scan (st : LexState) (s : string) (ts : list Token) (st' : LexState) : Prop := lex_from st s = Some (ts, st').

Lemma scan_app st1 s1 ts1 st2 s2 ts2 st3 :
  Scan st1 s1 ts1 st2 -> Scan st2 s2 ts2 st3 -> Scan st1 (s1 +:+ s2) (ts1 ++ ts2) st3.
Proof.
  unfold Scan. revert st1 ts1. induction s1 as [|c s1 IH]; intros st1 ts1; simpl; [by intros [= <- ->]|].
  destruct (lex_byte st1 c) as [[ts st]|]; [|done]. destruct (lex_from st s1) as [[ts' st']|] eqn:E; [|done].
  intros [= <- ->] H2. rewrite (IH st ts' E H2). simpl. by rewrite app_assoc.
Qed.

Lemma scan_eq st s ts ts' st' : Scan st s ts st' -> ts = ts' -> Scan st s ts' st'.
Proof. by intros ? <-. Qed.

Lemma digit_not_blank c d : digit_value 10 c = Some d -> is_blank c = false.
Proof. destruct c as [[] [] [] [] [] [] [] []]; vm_compute; done. Qed.

Lemma scan_digits s m n : digits_value 10 m s = Some n -> Scan (InInt m) s [] (InInt n).
Proof.
  unfold Scan. revert m. induction s as [|c s IH]; intros m; cbn [digits_value lex_from lex_byte]; [by intros [= ->]|].
  destruct (digit_value 10 c) as [d|]; [|done]. intros Hs. by rewrite (IH _ Hs).
Qed.

Lemma scan_nat n : u32_ok n = true -> Scan Between (show n) [] (InInt n).
Proof.
  intros Hn. unfold u32_ok, in_u in Hn. z_bools. destruct (show_digits n) as [Hv _]; [done|].
  pose proof (show_nonempty n) as Hne. destruct (show n) as [|c s]; [done|].
  unfold Scan. cbn [digits_value lex_from lex_byte] in *. unfold lex_between.
  destruct (digit_value 10 c) as [d|] eqn:Hd; [|done]. rewrite (digit_not_blank c d Hd).
  apply scan_digits in Hv. change (0 * 10 + d) with d in Hv. by rewrite Hv.
Qed.

Lemma byte_34 c : (byte_of c =? 34) = Ascii.eqb c (byte_at 34).
Proof. by destruct c as [[] [] [] [] [] [] [] []]. Qed.

Lemma scan_esc s acc : plain s = true -> Scan (InStr acc) (esc s +:+ dquote) [TStr (acc +:+ s)] Between.
Proof.
  unfold Scan. revert acc. induction s as [|c s IH]; intros acc Hs; [by rewrite str_app_nil_r|].
  cbn [plain str_forall] in Hs. apply andb_true_iff in Hs as [Hc Hs]. apply negb_true_iff, orb_false_iff in Hc as [H92 H13].
  replace (acc +:+ String c s) with (append acc c +:+ s) by (unfold append; by rewrite str_app_assoc).
  cbn [esc]. destruct (Ascii.eqb c (byte_at 34)) eqn:Hq.
  - apply Ascii.eqb_eq in Hq as ->. set (rest := esc s) in *.
    change ((backslash +:+ String (byte_at 34) rest) +:+ dquote)
      with (String (byte_at 92) (String (byte_at 34) (rest +:+ dquote))). cbn [lex_from].
    change (lex_byte (InStr acc) (byte_at 92)) with (Some (@nil Token, InEscape acc)). cbn [lex_from].
    change (lex_byte (InEscape acc) (byte_at 34)) with (Some (@nil Token, InStr (append acc (byte_at 34)))).
    cbn beta iota. by rewrite IH.
  - set (rest := esc s) in *. change (String c rest +:+ dquote) with (String c (rest +:+ dquote)). cbn [lex_from lex_byte].
    rewrite byte_34, Hq, H92, H13. by rewrite IH.
Qed.

Lemma scan_literal s : plain s = true -> Scan Between (literal s) [TStr s] Between.
Proof. intros Hs. apply (scan_app _ _ [] (InStr "")); [done|]. by apply (scan_esc s ""). Qed.

Lemma scan_some s :
  plain s = true ->
  Scan Between ("Some(" +:+ literal s +:+ ")") [TWord "Some"; TPunct "("; TStr s; TPunct ")"]%char Between.
Proof.
  intros Hs. apply (scan_app _ _ [TWord "Some"; TPunct "("%char] Between); [done|].
  apply (scan_app _ _ [TStr s] Between); [by apply scan_literal | done].
Qed.

Section items.
Context {A : Type} (render_item : A -> string) (quote : A -> Expr) (ok : A -> bool).
Hypothesis item_scan : forall a, ok a = true -> Scan Between (render_item a) (tokens (quote a) ++ [TPunct ","%char]) Between.

Lemma scan_items l :
  forallb ok l = true ->
  Scan Between (str_concat (map render_item l)) (concat (map (fun a => tokens (quote a) ++ [TPunct ","%char]) l)) Between.
Proof.
  induction l as [|a l IH]; [done|]. simpl. intros [Ha Hl]%andb_true_iff. eapply scan_app; [by apply item_scan | by apply IH].
Qed.

Lemma item_tokens_concat (l : list A) :
  item_tokens tokens (map quote l) = concat (map (fun a => tokens (quote a) ++ [TPunct ","%char]) l) ++ [TPunct "]"%char].
Proof. induction l as [|a l IH]; [done|]. simpl. rewrite IH, <- !app_assoc. done. Qed.
End items.
Arguments scan_items {A}. Arguments item_tokens_concat {A}.

(** Put a printed line together from its pieces. *)
Ltac scan_piece :=
  lazymatch goal with
  | |- Scan _ (literal _) _ _ => eapply scan_literal; eassumption
  | |- Scan _ (show _) _ _ => eapply scan_nat; eassumption
  | |- Scan _ (_ +:+ literal _ +:+ _) _ _ => eapply scan_some; eassumption
  | |- Scan _ (str_concat _) _ _ => eapply scan_items; [|eassumption]; eassumption
  | |- _ => cbv; reflexivity
  end.

Ltac scan_pieces :=
  lazymatch goal with
  | |- Scan _ (_ +:+ _) _ _ => eapply scan_app; [scan_piece | scan_pieces]
  | |- _ => scan_piece
  end.

Ltac scan_line :=
  unfold EBool, EOption, show_option in *;
  eapply scan_eq; [scan_pieces | cbn [tokens field_tokens]; rewrite ?item_tokens_concat; list_simplifier; reflexivity].

Ltac oks :=
  repeat match goal with H : (_ && _)%bool = true |- _ => apply andb_true_iff in H as [? ?] end.

Lemma field_scan f :
  field_ok f = true -> Scan Between (render_field f) (tokens (quote_field f) ++ [TPunct ","%char]) Between.
Proof.
  destruct f as [code name ty l]. unfold field_ok, render_field. simpl f_code. simpl f_name. simpl f_ty. simpl f_is_list.
  intros Hf. oks. destruct l; scan_line.
Qed.

Lemma attr_scan a :
  attr_ok a = true -> Scan Between (render_attr a) (tokens (quote_attr a) ++ [TPunct ","%char]) Between.
Proof.
  destruct a as [code name ty l]. unfold attr_ok, render_attr. simpl at_code. simpl at_name. simpl at_ty. simpl at_is_list.
  intros Ha. oks. destruct l; scan_line.
Qed.

Lemma cmd_scan c :
  cmd_ok c = true -> Scan Between (render_cmd c) (tokens (quote_cmd c) ++ [TPunct ","%char]) Between.
Proof.
  destruct c as [code name input output timed]. unfold cmd_ok, render_cmd.
  simpl cmd_code. simpl cmd_name. simpl cmd_input. simpl cmd_output. simpl cmd_is_timed.
  intros Hc. oks. destruct input, output, timed; simpl plain_option in *; scan_line.
Qed.

Lemma struct_scan s :
  struct_ok s = true -> Scan Between (render_struct s) (tokens (quote_struct s) ++ [TPunct ","%char]) Between.
Proof.
  destruct s as [name fields]. unfold struct_ok, render_struct, quote_struct. cbn [st_name st_fields].
  intros Hs. oks. pose proof field_scan as Hfields. scan_line.
Qed.

Lemma event_scan e :
  event_ok e = true -> Scan Between (render_event e) (tokens (quote_event e) ++ [TPunct ","%char]) Between.
Proof.
  destruct e as [code name fields]. unfold event_ok, render_event, quote_event. cbn [evt_code evt_name evt_fields].
  intros He. oks. pose proof field_scan as Hfields. scan_line.
Qed.

Lemma cluster_scan c :
  cluster_ok c = true -> Scan Between (render_cluster c) (tokens (quote_cluster c) ++ [TPunct ","%char]) Between.
Proof.
  destruct c as [code name attrs cmds structs events]. unfold cluster_ok, render_cluster, quote_cluster.
  cbn [cl_code cl_name cl_attributes cl_commands cl_structs cl_events].
  intros Hc. oks. pose proof attr_scan. pose proof cmd_scan. pose proof struct_scan. pose proof event_scan. scan_line.
Qed.

Lemma render_lex cs :
  forallb cluster_ok cs = true ->
  lex (render cs) = Some (HEADER ++ tokens (ESlice (map quote_cluster cs)) ++ [TPunct ";"%char]).
Proof.
  intros Hcs. pose proof cluster_scan as Hclusters.
  assert (Hs : Scan Between (render cs) (HEADER ++ tokens (ESlice (map quote_cluster cs)) ++ [TPunct ";"%char]) Between).
  { unfold render. scan_line. }
  unfold lex. by rewrite Hs.
Qed.

Lemma slice_clusters cs : forallb cluster_ok cs = true -> slice read_cluster (ESlice (map quote_cluster cs)) = Some cs.
Proof. apply slice_read, cluster_read. Qed.

(** C30: the generated file means what was parsed.  Whatever tables the
    generator prints - any names, with quotes or any other characters but a
    backslash or a carriage return, and codes that fit the [u32] of [lib.rs] -
    the Rust source it writes lexes, parses and type-checks, and the value of
    [CLUSTERS] is exactly those tables. *)
Theorem render_loads cs : forallb cluster_ok cs = true -> load (render cs) = Some cs.
Proof.
  intros Hcs. unfold load. rewrite (render_lex cs Hcs). cbn [mbind option_bind].
  set (e := ESlice (map quote_cluster cs)). set (rest := [TPunct ";"%char]).
  assert (Hh : foldl (fun ts t => ts ≫= expect t) (Some (HEADER ++ tokens e ++ rest)) HEADER = Some (tokens e ++ rest)) by done.
  rewrite Hh. cbn [mbind option_bind]. rewrite (proj1 (parse_tokens _)) by (rewrite ?length_app; simpl; done || lia).
  cbn [mbind option_bind]. by apply slice_clusters.
Qed.

(** A backslash in a name is printed as it is and starts an escape in the
    generated source: such a table does not survive. *)
Lemma backslash_lost :
  load (render [new_cluster (backslash +:+ "n") 6]) = Some [new_cluster (String newline "") 6].
Proof. vm_compute. reflexivity. Qed.

Lemma render_loads_witness :
  let cs := default [] (parse demo_idl) in
  length cs = 2%nat /\ load (render (new_cluster ("a " +:+ dquote +:+ "b") 1 :: cs)) = Some (new_cluster ("a " +:+ dquote +:+ "b") 1 :: cs).
Proof. split; [vm_compute; reflexivity | apply render_loads; vm_compute; reflexivity]. Defined.
