(* ===== verification/TlvJson.v ===== *)
(** * TLV and JSON

    [crates/stack/src/tlv_json.rs]: attribute values, command payloads and
    event data between Matter TLV and the JSON of the wire.  TLV elements are
    [rs-matter]'s: what its reader hands out is the tree [Tlv] (with its parse
    errors where they can occur), what its writer receives is a list of
    [Token]s. *)

From Stdlib Require Import Floats.SpecFloat.
From S2P Require Import Prelude Json Prog Fs Text Gen.

Definition MATTER_EPOCH_OFFSET_S : Z := 946684800.
Definition MATTER_EPOCH_OFFSET_US : Z := 946684800000000.
Definition MAX_DEPTH : Z := 32.

(** ** Elements *)

Inductive TlvError : Type :=
| InvalidTlv               (* [ErrorCode::InvalidData] *)
| ReadError (what : string).

Inductive TlvTag : Type :=
| Anonymous
| Context (n : Z)
| OtherTag.

#[warnings="-register-all"]
Inductive Tlv : Type :=
| TSigned (v : Z)
| TUnsigned (v : Z)
| TBool (b : bool)
| TF32 (f : spec_float)
| TF64 (f : spec_float)
| TUtf8 (raw : string)
| TOctets (raw : string)
| TNull
| TStruct (items : list (Result (TlvTag * Tlv) TlvError))
| TArray (items : list (Result (TlvTag * Tlv) TlvError))
| TList (items : list (Result (TlvTag * Tlv) TlvError))
| TEndCnt
| TBroken (e : TlvError).  (* [control()] or [value()] fails *)

Abbreviation Items := (list (Result (TlvTag * Tlv) TlvError)).

Inductive Base : Type :=
| BBool
| Unsigned (bytes : Z)
| Signed (bytes : Z)
| Single
| Double
| Utf8
| Octets
| EpochS
| EpochUs.

Definition BASE_TYPES : list (string * Base) :=
  [("boolean", BBool);
   ("single", Single);
   ("double", Double);
   ("char_string", Utf8); ("long_char_string", Utf8);
   ("octet_string", Octets); ("long_octet_string", Octets);
   ("epoch_s", EpochS);
   ("epoch_us", EpochUs);
   ("int8u", Unsigned 1); ("enum8", Unsigned 1); ("bitmap8", Unsigned 1);
   ("percent", Unsigned 1); ("fabric_idx", Unsigned 1);
   ("action_id", Unsigned 1); ("priority", Unsigned 1); ("status", Unsigned 1);
   ("int16u", Unsigned 2); ("enum16", Unsigned 2); ("bitmap16", Unsigned 2);
   ("percent100ths", Unsigned 2); ("group_id", Unsigned 2);
   ("endpoint_no", Unsigned 2); ("vendor_id", Unsigned 2); ("entry_idx", Unsigned 2);
   ("int24u", Unsigned 3);
   ("int32u", Unsigned 4); ("bitmap32", Unsigned 4); ("cluster_id", Unsigned 4);
   ("attrib_id", Unsigned 4); ("field_id", Unsigned 4); ("command_id", Unsigned 4);
   ("event_id", Unsigned 4); ("devtype_id", Unsigned 4); ("trans_id", Unsigned 4);
   ("data_ver", Unsigned 4); ("elapsed_s", Unsigned 4);
   ("int40u", Unsigned 5); ("int48u", Unsigned 6); ("int56u", Unsigned 7);
   ("int64u", Unsigned 8); ("bitmap64", Unsigned 8); ("node_id", Unsigned 8);
   ("fabric_id", Unsigned 8); ("subject_id", Unsigned 8); ("event_no", Unsigned 8);
   ("systime_us", Unsigned 8); ("systime_ms", Unsigned 8); ("posix_ms", Unsigned 8);
   ("money", Unsigned 8);
   ("int8s", Signed 1);
   ("int16s", Signed 2); ("temperature", Signed 2);
   ("int24s", Signed 3); ("int32s", Signed 4);
   ("int40s", Signed 5); ("int48s", Signed 6); ("int56s", Signed 7);
   ("int64s", Signed 8); ("amperage_ma", Signed 8); ("voltage_mv", Signed 8);
   ("power_mw", Signed 8); ("power_mva", Signed 8); ("power_mvar", Signed 8);
   ("energy_mwh", Signed 8); ("energy_mvah", Signed 8); ("energy_mvarh", Signed 8)].

Definition base_type (ty : string) : option Base :=
  snd <$> List.find (fun nb => eq_ignore_ascii_case nb.1 ty) BASE_TYPES.

(** ** Epochs *)

Definition apply_epoch (ty : string) (v : Value) : Result Value TlvError :=
  let shift offset :=
    match as_u64 v with
    | None => Ok v
    | Some matter => ok_or (json_u <$> checked_add_u64 matter offset) InvalidTlv
    end in
  match base_type ty with
  | Some EpochS => shift MATTER_EPOCH_OFFSET_S
  | Some EpochUs => shift MATTER_EPOCH_OFFSET_US
  | _ => Ok v
  end.

Definition to_matter_epoch (v : Value) (offset : Z) : Result Z TlvError :=
  let? n := ok_or (as_u64 v) InvalidTlv in
  ok_or (checked_sub_u64 n offset) InvalidTlv.

(** ** TLV to JSON *)

Section read.
Context `{Base64} `{Tables}.

(** [i64], [u64], [bool] and float leaves. *)
Definition leaf_to_json (elem : Tlv) : Result Value TlvError :=
  match elem with
  | TSigned v => Ok (json_i v)
  | TUnsigned v => Ok (json_u v)
  | TBool b => Ok (VBool b)
  | TF32 f | TF64 f => Ok (json_f64 f)
  | TUtf8 raw => Ok (VString (utf8_lossy raw))
  | TOctets b => Ok (VString (b64_encode b))
  | TNull => Ok VNull
  | TEndCnt => Err InvalidTlv
  | TBroken e => Err e
  | TStruct _ | TArray _ | TList _ => Err InvalidTlv
  end.

Fixpoint tlv_to_json_at (elem : Tlv) (depth : Z) : Result Value TlvError :=
  if depth >? MAX_DEPTH then Err InvalidTlv
  else
    match elem with
    | TStruct items =>
        let fix members (items : Items) (obj : Map) : Result Map TlvError :=
          match items with
          | [] => Ok obj
          | Err e :: _ => Err e
          | Ok (Context n, child) :: items =>
              let? v := tlv_to_json_at child (depth + 1) in members items (bt_insert (show n) v obj)
          | Ok (_, _) :: items => members items obj
          end in
        result_map VObject (members items [])
    | TArray items | TList items =>
        let fix elements (items : Items) : Result (list Value) TlvError :=
          match items with
          | [] => Ok []
          | Err e :: _ => Err e
          | Ok (_, child) :: items =>
              let? v := tlv_to_json_at child (depth + 1) in
              let? vs := elements items in Ok (v :: vs)
          end in
        result_map VArray (elements items)
    | _ => leaf_to_json elem
    end.

Definition tlv_to_json (elem : Tlv) : Result Value TlvError := tlv_to_json_at elem 0.

Definition attr_value_to_json (cl at_id : Z) (elem : Tlv) : Result Value TlvError :=
  let ty := match and_then (cluster cl) (fun c => attr c at_id) with Some a => at_ty a | None => "" end in
  let? v := tlv_to_json elem in apply_epoch ty v.

(** [named_field_to_json], given the readings of the element and of its
    children with the fields of a struct. *)
Definition named_field_to_json (elem : Tlv) (f : Field) (c : Cluster) (depth : Z)
    (self_named : list Field -> Z -> Result Value TlvError)
    (children_named : list Field -> Z -> Result (list Value) TlvError) : Result Value TlvError :=
  match elem with
  | TBroken e => Err e
  | TUtf8 raw => Ok (VString (utf8_lossy raw))
  | _ =>
      match find_struct c (f_ty f) with
      | None => let? v := tlv_to_json_at elem depth in apply_epoch (f_ty f) v
      | Some nested =>
          match elem with
          | TStruct _ => self_named (st_fields nested) depth
          | TArray _ | TList _ => result_map VArray (children_named (st_fields nested) (depth + 1))
          | _ => tlv_to_json_at elem depth
          end
      end
  end.

Definition find_field (fields : list Field) (n : Z) : option Field := List.find (fun f => f_code f =? n) fields.

Fixpoint tlv_to_json_named_at (c : Cluster) (elem : Tlv) (fields : list Field) (depth : Z) : Result Value TlvError :=
  if depth >? MAX_DEPTH then Err InvalidTlv
  else
    match elem with
    | TStruct items =>
        let fix elements (items : Items) (fields : list Field) (depth : Z) : Result (list Value) TlvError :=
          match items with
          | [] => Ok []
          | Err e :: _ => Err e
          | Ok (_, child) :: items =>
              let? v := tlv_to_json_named_at c child fields depth in
              let? vs := elements items fields depth in Ok (v :: vs)
          end in
        let fix members (items : Items) (obj : Map) : Result Map TlvError :=
          match items with
          | [] => Ok obj
          | Err e :: _ => Err e
          | Ok (Context n, child) :: items =>
              match find_field fields n with
              | Some f =>
                  let? v := named_field_to_json child f c (depth + 1)
                    (fun fs d => tlv_to_json_named_at c child fs d)
                    (fun fs d => match child with
                                 | TStruct items | TArray items | TList items => elements items fs d
                                 | _ => Ok []
                                 end) in
                  members items (bt_insert (f_name f) v obj)
              | None =>
                  let? v := tlv_to_json_at child (depth + 1) in
                  members items (bt_insert (show n) v obj)
              end
          | Ok (_, _) :: items => members items obj
          end in
        result_map VObject (members items [])
    | _ => tlv_to_json_at elem depth
    end.

Definition tlv_to_json_named (elem : Tlv) (fields : list Field) (c : Cluster) : Result Value TlvError :=
  tlv_to_json_named_at c elem fields 0.
End read.

(** ** JSON to TLV *)

(** The calls made on a [TLVWrite]. *)
Inductive Token : Type :=
| WNull (t : TlvTag)
| WBool (t : TlvTag) (b : bool)
| WF32 (t : TlvTag) (f : spec_float)
| WF64 (t : TlvTag) (f : spec_float)
| WUtf8 (t : TlvTag) (s : string)
| WStr (t : TlvTag) (s : string)
| WU (bits : Z) (t : TlvTag) (n : Z)
| WI (bits : Z) (t : TlvTag) (z : Z)
| WStartStruct (t : TlvTag)
| WStartArray (t : TlvTag)
| WEnd.

Abbreviation Tokens := (Result (list Token) TlvError).

Record TypeHint : Type := { th_ty : string; th_is_list : bool; th_cluster : option Cluster }.

(** How one JSON value gets written under a tag and a hint; the members of an
    array or an object are given as their writers. *)
Abbreviation Writer := (TlvTag -> option TypeHint -> Tokens).

Record Children : Type := { ch_items : list Writer; ch_members : list (string * Writer) }.

(** [f64 as f32], to nearest, saturating to an infinity. *)
Definition f32_of_f64 (f : spec_float) : spec_float :=
  match f with
  | S754_finite s m e => binary_normalize 24 128 (if s then Z.neg m else Z.pos m) e s
  | _ => f
  end.

Definition as_f64_or (v : Value) : Result spec_float TlvError := ok_or (as_f64 v) InvalidTlv.

Definition write_unsigned (tag : TlvTag) (v : Value) (bytes : Z) : Tokens :=
  let? n := ok_or (as_u64 v) InvalidTlv in
  if (bytes =? 1) || (bytes =? 2) || (bytes =? 4) then
    let? n := ok_or (try_from_u (8 * bytes) n) InvalidTlv in Ok [WU (8 * bytes) tag n]
  else if (bytes =? 3) || (bytes =? 5) || (bytes =? 6) || (bytes =? 7) then
    if n >=? Z.shiftl 1 (bytes * 8) then Err InvalidTlv else Ok [WU 64 tag n]
  else Ok [WU 64 tag n].

Definition write_signed (tag : TlvTag) (v : Value) (bytes : Z) : Tokens :=
  let? n := ok_or (as_i64 v) InvalidTlv in
  if (bytes =? 1) || (bytes =? 2) || (bytes =? 4) then
    let? n := ok_or (try_from_i (8 * bytes) n) InvalidTlv in Ok [WI (8 * bytes) tag n]
  else if (bytes =? 3) || (bytes =? 5) || (bytes =? 6) || (bytes =? 7) then
    let limit := Z.shiftl 1 (bytes * 8 - 1) in
    if negb ((- limit <=? n) && (n <? limit)) then Err InvalidTlv else Ok [WI 64 tag n]
  else Ok [WI 64 tag n].

Section write.
Context `{Base64} `{Tables}.

Definition write_base (tag : TlvTag) (v : Value) (base : Base) : Tokens :=
  match base with
  | BBool => let? b := ok_or (as_bool v) InvalidTlv in Ok [WBool tag b]
  | Single =>
      let? n := as_f64_or v in
      let narrowed := f32_of_f64 n in
      if negb (is_finite_float narrowed) then Err InvalidTlv else Ok [WF32 tag narrowed]
  | Double => let? n := as_f64_or v in Ok [WF64 tag n]
  | Utf8 => let? s := ok_or (as_str v) InvalidTlv in Ok [WUtf8 tag s]
  | Octets =>
      let? s := ok_or (as_str v) InvalidTlv in
      let? raw := ok_or (b64_decode s) InvalidTlv in Ok [WStr tag raw]
  | EpochS =>
      let? matter := to_matter_epoch v MATTER_EPOCH_OFFSET_S in
      let? n := ok_or (try_from_u 32 matter) InvalidTlv in Ok [WU 32 tag n]
  | EpochUs => let? matter := to_matter_epoch v MATTER_EPOCH_OFFSET_US in Ok [WU 64 tag matter]
  | Unsigned bytes => write_unsigned tag v bytes
  | Signed bytes => write_signed tag v bytes
  end.

(** [emit_struct]: resolve every key, refuse two keys with one tag, then write
    the members in ascending tag order. *)
Fixpoint sort_members (resolve : string -> Result (Z * option TypeHint) TlvError)
    (members : list (string * Writer)) (sorted : BTreeMap Z (option TypeHint * Writer)) :
    Result (BTreeMap Z (option TypeHint * Writer)) TlvError :=
  match members with
  | [] => Ok sorted
  | (key, w) :: members =>
      let? (ctx, hint) := resolve key in
      if bt_contains sorted ctx then Err InvalidTlv
      else sort_members resolve members (bt_insert ctx (hint, w) sorted)
  end.

Definition emit_struct (tag : TlvTag) (members : list (string * Writer))
    (resolve : string -> Result (Z * option TypeHint) TlvError) : Tokens :=
  let? sorted := sort_members resolve members [] in
  let? body := collect_results (fun '(ctx, (hint, w)) => w (Context ctx) hint) sorted in
  Ok (WStartStruct tag :: concat body ++ [WEnd]).

Definition field_hint (f : Field) (c : Cluster) : TypeHint :=
  {| th_ty := f_ty f; th_is_list := f_is_list f; th_cluster := Some c |}.

Definition resolve_named (fields : list Field) (c : Cluster) (key : string) : Result (Z * option TypeHint) TlvError :=
  let? f := ok_or (List.find (fun f => eq_ignore_ascii_case (f_name f) key) fields) InvalidTlv in
  let? ctx := ok_or (try_from_u 8 (f_code f)) InvalidTlv in
  Ok (ctx, Some (field_hint f c)).

Definition resolve_tag_based (nested : option (list Field * Cluster)) (key : string) :
    Result (Z * option TypeHint) TlvError :=
  let? ctx := ok_or (parse_u 8 key) InvalidTlv in
  Ok (ctx, and_then nested (fun '(fields, c) => (fun f => field_hint f c) <$> find_field fields ctx)).

Definition write_json_named_with (tag : TlvTag) (members : list (string * Writer)) (fields : list Field)
    (c : Cluster) : Tokens :=
  emit_struct tag members (resolve_named fields c).

Definition write_tag_based_struct (tag : TlvTag) (members : list (string * Writer))
    (nested : option (list Field * Cluster)) : Tokens :=
  emit_struct tag members (resolve_tag_based nested).

Definition write_hinted_struct (tag : TlvTag) (v : Value) (ch : Children) (nested : Struct) (c : Cluster) : Tokens :=
  let? _ := ok_or (as_object v) InvalidTlv in
  if forallb (fun kw => match parse_u 8 kw.1 with Some _ => true | None => false end) (ch_members ch) then
    write_tag_based_struct tag (ch_members ch) (Some (st_fields nested, c))
  else write_json_named_with tag (ch_members ch) (st_fields nested) c.

(** The items of an array, one after the other. *)
Definition write_array (tag : TlvTag) (items : list Writer) (hint : option TypeHint) : Tokens :=
  let? body := collect_results (fun w : Writer => w Anonymous hint) items in
  Ok (WStartArray tag :: concat body ++ [WEnd]).

Definition write_heuristic (tag : TlvTag) (v : Value) (ch : Children) : Tokens :=
  match v with
  | VNull => Ok [WNull tag]
  | VBool b => Ok [WBool tag b]
  | VNumber n =>
      match as_u64 v, as_i64 v with
      | Some u, _ => Ok [WU 64 tag u]
      | None, Some i => Ok [WI 64 tag i]
      | None, None => let? f := as_f64_or v in Ok [WF64 tag f]
      end
  | VString s => Ok [WUtf8 tag s]
  | VArray _ => write_array tag (ch_items ch) None
  | VObject _ => write_tag_based_struct tag (ch_members ch) None
  end.

Definition write_hinted (tag : TlvTag) (v : Value) (ch : Children) (h : TypeHint) : Tokens :=
  if is_null v then Ok [WNull tag]
  else
    match base_type (th_ty h) with
    | Some base => write_base tag v base
    | None =>
        match and_then (th_cluster h) (fun c => (fun nested => (nested, c)) <$> find_struct c (th_ty h)) with
        | Some (nested, c) => write_hinted_struct tag v ch nested c
        | None => write_heuristic tag v ch
        end
    end.

Definition write_node (v : Value) (ch : Children) : Writer := fun tag hint =>
  match hint with
  | Some h =>
      if th_is_list h then
        if is_null v then Ok [WNull tag]
        else
          let? _ := ok_or (as_array v) InvalidTlv in
          write_array tag (ch_items ch)
            (Some {| th_ty := th_ty h; th_is_list := false; th_cluster := th_cluster h |})
      else write_hinted tag v ch h
  | None => write_heuristic tag v ch
  end.

Fixpoint write_json (v : Value) : Writer :=
  write_node v
    {| ch_items := match v with VArray l => map write_json l | _ => [] end;
       ch_members := match v with VObject m => map (fun kv => (kv.1, write_json kv.2)) m | _ => [] end |}.

Definition write_json_named (tag : TlvTag) (obj : Map) (fields : list Field) (c : Cluster) : Tokens :=
  write_json_named_with tag (map (fun kv => (kv.1, write_json kv.2)) obj) fields c.
End write.

(** ** Widths *)

Lemma try_from_u_none bits n : try_from_u bits n = None -> ~ 0 <= n < 2 ^ bits.
Proof. intros E Hr. pose proof (proj2 (try_from_u_Some bits n n) (conj eq_refl Hr)). congruence. Qed.

Lemma try_from_i_none bits n : try_from_i bits n = None -> ~ - 2 ^ (bits - 1) <= n < 2 ^ (bits - 1).
Proof. intros E Hr. pose proof (proj2 (try_from_i_Some bits n n) (conj eq_refl Hr)). congruence. Qed.

Definition token_width (bytes : Z) : Z := if (bytes =? 1) || (bytes =? 2) || (bytes =? 4) then 8 * bytes else 64.

Lemma as_i64_wf v z : value_wf v -> as_i64 v = Some z <-> v = json_i z /\ - 2 ^ 63 <= z < 2 ^ 63.
Proof.
  intros Hwf. destruct v as [| |[n|n|f]| | |]; simpl in *; try (split; [done | intros [E _]; unfold json_i in E; by case_match]).
  - rewrite try_from_i_Some. apply in_u_spec in Hwf. unfold json_i. split.
    + intros [-> Hr]. destruct (Z.ltb_spec n 0); [lia|]. split; [done | lia].
    + intros [E Hr]. destruct (Z.ltb_spec z 0); simplify_eq. split; [done | lia].
  - z_bools. unfold json_i. split.
    + intros [= ->]. rewrite (proj2 (Z.ltb_lt _ _)) by done. split; [done | lia].
    + intros [E Hr]. by destruct (z <? 0); simplify_eq.
Qed.

Ltac widths bytes :=
  assert (bytes = 1 \/ bytes = 2 \/ bytes = 3 \/ bytes = 4 \/ bytes = 5 \/ bytes = 6 \/ bytes = 7 \/ bytes = 8) as Hb by lia;
  destruct_or! Hb; subst.

(** The four widths with a TLV type of their own, and the others. *)
Lemma unsigned_checked bits tag n toks :
  (let? m := ok_or (try_from_u bits n) InvalidTlv in Ok [WU bits tag m]) = Ok toks <->
  0 <= n < 2 ^ bits /\ toks = [WU bits tag n].
Proof.
  destruct (try_from_u bits n) as [m|] eqn:E; simpl.
  - apply try_from_u_Some in E as [-> ?]. split; [intros [= <-]; done | intros [_ ->]; done].
  - apply try_from_u_none in E. split; [done | intros [? _]; done].
Qed.

Lemma unsigned_odd bits tag n toks :
  0 <= bits -> 0 <= n ->
  (if n >=? Z.shiftl 1 bits then Err InvalidTlv else Ok [WU 64 tag n]) = Ok toks <->
  0 <= n < 2 ^ bits /\ toks = [WU 64 tag n].
Proof.
  intros Hb Hn. rewrite Z.shiftl_1_l, Z.geb_leb. destruct (Z.leb_spec (2 ^ bits) n).
  - split; [done|]. intros [? _]. lia.
  - split; [intros [= <-]; done | intros [_ ->]; done].
Qed.

Lemma signed_checked bits tag z toks :
  (let? m := ok_or (try_from_i bits z) InvalidTlv in Ok [WI bits tag m]) = Ok toks <->
  - 2 ^ (bits - 1) <= z < 2 ^ (bits - 1) /\ toks = [WI bits tag z].
Proof.
  destruct (try_from_i bits z) as [m|] eqn:E; simpl.
  - apply try_from_i_Some in E as [-> ?]. split; [intros [= <-]; done | intros [_ ->]; done].
  - apply try_from_i_none in E. split; [done | intros [? _]; done].
Qed.

Lemma signed_odd bits tag z toks :
  0 <= bits ->
  (if negb ((- Z.shiftl 1 bits <=? z) && (z <? Z.shiftl 1 bits)) then Err InvalidTlv else Ok [WI 64 tag z]) = Ok toks <->
  - 2 ^ bits <= z < 2 ^ bits /\ toks = [WI 64 tag z].
Proof.
  intros Hb. rewrite Z.shiftl_1_l.
  destruct (Z.leb_spec (- 2 ^ bits) z), (Z.ltb_spec z (2 ^ bits)); simpl; split; try done;
    try (intros [= <-]; done); try (intros [_ ->]; done); intros [? _]; lia.
Qed.

(** C38: an integer is written exactly when it fits its IDL type.  For every
    width of 1 to 8 bytes, the odd ones included, [write_unsigned] accepts a
    JSON number precisely when it is a non-negative integer below 2^(8 bytes)
    and [write_signed] precisely when it lies in the signed range; what is
    written is that number.  Nothing wraps or is truncated. *)
Theorem write_integer_iff tag v bytes toks :
  1 <= bytes <= 8 -> value_wf v ->
  (write_unsigned tag v bytes = Ok toks <->
   exists n, v = json_u n /\ 0 <= n < 2 ^ (8 * bytes) /\ toks = [WU (token_width bytes) tag n]) /\
  (write_signed tag v bytes = Ok toks <->
   exists z, v = json_i z /\ - 2 ^ (8 * bytes - 1) <= z < 2 ^ (8 * bytes - 1) /\ toks = [WI (token_width bytes) tag z]).
Proof.
  intros Hbytes Hwf. split.
  - transitivity (exists n, as_u64 v = Some n /\ 0 <= n < 2 ^ (8 * bytes) /\ toks = [WU (token_width bytes) tag n]).
    2:{ setoid_rewrite as_u64_Some. done. }
    pose proof (fun n => value_wf_u64 v n Hwf) as Hu.
    unfold write_unsigned, token_width. destruct (as_u64 v) as [n|]; simpl; [|naive_solver].
    specialize (Hu n eq_refl).
    transitivity (0 <= n < 2 ^ (8 * bytes) /\ toks = [WU (token_width bytes) tag n]); [|unfold token_width; naive_solver].
    unfold token_width. widths bytes; cbn [Z.eqb Pos.eqb orb];
      first [apply unsigned_checked | apply unsigned_odd; lia | split; [intros [= <-]; split; [lia | done] | intros [_ ->]; done]].
  - transitivity (exists z, as_i64 v = Some z /\ - 2 ^ (8 * bytes - 1) <= z < 2 ^ (8 * bytes - 1) /\
                   toks = [WI (token_width bytes) tag z]).
    2:{ split.
        - intros (z & Hv & Hr & ->). apply as_i64_wf in Hv as [-> _]; [|done]. eauto.
        - intros (z & -> & Hr & ->). exists z. split; [|done]. apply as_i64_wf; [done|]. split; [done|].
          widths bytes; lia. }
    pose proof (fun z Hz => proj2 (proj1 (as_i64_wf v z Hwf) Hz)) as Hi.
    unfold write_signed, token_width. destruct (as_i64 v) as [z|]; simpl; [|naive_solver].
    specialize (Hi z eq_refl).
    transitivity (- 2 ^ (8 * bytes - 1) <= z < 2 ^ (8 * bytes - 1) /\ toks = [WI (token_width bytes) tag z]);
      [|unfold token_width; naive_solver].
    unfold token_width. widths bytes; cbn [Z.eqb Pos.eqb orb];
      first [apply signed_checked | apply (signed_odd (8 * 3 - 1)); lia | apply (signed_odd (8 * 5 - 1)); lia
            | apply (signed_odd (8 * 6 - 1)); lia | apply (signed_odd (8 * 7 - 1)); lia
            | split; [intros [= <-]; split; [lia | done] | intros [_ ->]; done]].
Qed.

Lemma write_integer_iff_witness :
  write_unsigned Anonymous (json_u 16777215) 3 = Ok [WU 64 Anonymous 16777215] /\
  write_unsigned Anonymous (json_u 16777216) 3 <> Ok [WU 64 Anonymous 16777216].
Proof.
  split.
  - apply (write_integer_iff Anonymous (json_u 16777215) 3 [WU 64 Anonymous 16777215]); [lia | done |].
    exists 16777215. split; [done|]. split; [lia | done].
  - intros E. destruct (write_integer_iff Anonymous (json_u 16777216) 3 [WU 64 Anonymous 16777216]) as [Hu _]; [lia | done |].
    apply Hu in E as (n & [= <-] & Hn & _). lia.
Defined.

(** ** Epochs *)

Definition epoch_offset (ty : string) : option Z :=
  match base_type ty with
  | Some EpochS => Some MATTER_EPOCH_OFFSET_S
  | Some EpochUs => Some MATTER_EPOCH_OFFSET_US
  | _ => None
  end.

(** Epochs are shifted without loss in both directions.  Reading an epoch
    field adds the offset to Unix time or, when the sum leaves 64 bits, fails;
    it is never left Matter-relative or wrapped.  Writing what was read gives
    the same Matter value back, and writing a value before the Matter epoch is
    refused.  Any other type, and any value that is not a number, is untouched. *)
Theorem epoch_roundtrip ty v :
  value_wf v ->
  match epoch_offset ty, as_u64 v with
  | Some offset, Some n =>
      (apply_epoch ty v = Ok (json_u (n + offset)) /\ to_matter_epoch (json_u (n + offset)) offset = Ok n /\
       n + offset < 2 ^ 64) \/
      (apply_epoch ty v = Err InvalidTlv /\ 2 ^ 64 <= n + offset)
  | _, _ => apply_epoch ty v = Ok v
  end /\
  (forall offset n, epoch_offset ty = Some offset -> v = json_u n -> n < offset -> to_matter_epoch v offset = Err InvalidTlv).
Proof.
  intros Hwf. assert (Hoff : forall o, epoch_offset ty = Some o -> 0 <= o).
  { unfold epoch_offset. intros o. repeat case_match; intros [= <-]; done. }
  split.
  - unfold apply_epoch, epoch_offset in *.
    assert (G : forall o, 0 <= o -> match as_u64 v with
      | Some n => (match as_u64 v with None => Ok v | Some m => ok_or (json_u <$> checked_add_u64 m o) InvalidTlv end
                     = Ok (json_u (n + o)) /\ to_matter_epoch (json_u (n + o)) o = Ok n /\ n + o < 2 ^ 64) \/
                  (match as_u64 v with None => Ok v | Some m => ok_or (json_u <$> checked_add_u64 m o) InvalidTlv end
                     = Err InvalidTlv /\ 2 ^ 64 <= n + o)
      | None => match as_u64 v with None => Ok v | Some m => ok_or (json_u <$> checked_add_u64 m o) InvalidTlv end = Ok v
      end).
    { intros o Ho. destruct (as_u64 v) as [n|] eqn:Hn; [|done]. apply (value_wf_u64 v n Hwf) in Hn.
      unfold checked_add_u64. destruct (try_from_u 64 (n + o)) as [m|] eqn:E.
      - apply try_from_u_Some in E as [-> ?]. left. split; [done|]. split; [|lia].
        unfold to_matter_epoch. simpl. unfold checked_sub_u64. replace (n + o - o) with n by lia.
        by rewrite (proj2 (try_from_u_Some 64 n n)).
      - apply try_from_u_none in E. right. split; [done | lia]. }
    destruct (base_type ty) as [[]|]; try done; by apply G, Hoff.
  - intros o n _ -> Hlt. unfold to_matter_epoch. simpl. unfold checked_sub_u64.
    destruct (try_from_u 64 (n - o)) eqn:E; [|done]. apply try_from_u_Some in E as [-> ?]. lia.
Qed.

Lemma epoch_roundtrip_witness : apply_epoch "epoch_us" (json_u (2 ^ 64 - 1)) = Err InvalidTlv.
Proof.
  destruct (epoch_roundtrip "epoch_us" (json_u (2 ^ 64 - 1)) eq_refl) as [[(_ & _ & Hlt)|[E _]] _]; [|exact E].
  vm_compute in Hlt. discriminate.
Defined.

(** ** Depth *)

Section tlv_ind.
Context (P : Tlv -> Prop).
Hypothesis Hleaf : forall t, match t with TStruct _ | TArray _ | TList _ => True | _ => P t end.
Hypothesis Hstruct : forall items, Forall (fun i => match i with Ok (_, t) => P t | Err _ => True end) items -> P (TStruct items).
Hypothesis Harray : forall items, Forall (fun i => match i with Ok (_, t) => P t | Err _ => True end) items -> P (TArray items).
Hypothesis Hlist : forall items, Forall (fun i => match i with Ok (_, t) => P t | Err _ => True end) items -> P (TList items).

Fixpoint tlv_ind' (t : Tlv) : P t :=
  let fix all (items : Items) : Forall (fun i => match i with Ok (_, t) => P t | Err _ => True end) items :=
    match items with
    | [] => Forall_nil_2 _
    | i :: items =>
        Forall_cons_2 _ i items
          (match i return match i with Ok (_, t) => P t | Err _ => True end with
           | Ok (_, t) => tlv_ind' t
           | Err _ => I
           end) (all items)
    end in
  match t with
  | TStruct items => Hstruct items (all items)
  | TArray items => Harray items (all items)
  | TList items => Hlist items (all items)
  | t => Hleaf t
  end.
End tlv_ind.

(** How deep the deepest value in a value lies. *)
Fixpoint json_height (v : Value) : Z :=
  match v with
  | VArray l => foldr (fun v n => Z.max (1 + json_height v) n) 0 l
  | VObject m => foldr (fun kv n => Z.max (1 + json_height kv.2) n) 0 m
  | _ => 0
  end.

Lemma json_height_nonneg v : 0 <= json_height v.
Proof.
  destruct v; simpl; try lia.
  - induction l; simpl; lia.
  - induction m; simpl; lia.
Qed.

(** Values of at most a given depth. *)
Definition low (b : Z) (v : Value) : Prop := json_height v <= b.

Lemma low_array b l : 0 <= b -> low b (VArray l) <-> Forall (low (b - 1)) l.
Proof.
  intros Hb. unfold low. simpl. induction l as [|v l IH]; simpl; [split; [constructor | lia]|].
  rewrite Forall_cons, <- IH. lia.
Qed.

Lemma low_object b (m : Map) : 0 <= b -> low b (VObject m) <-> Forall (fun kv => low (b - 1) kv.2) m.
Proof.
  intros Hb. unfold low. simpl. induction m as [|v l IH]; simpl; [split; [constructor | lia]|].
  rewrite Forall_cons, <- IH. lia.
Qed.

Lemma Forall_bt_insert (P : Value -> Prop) k v (m : Map) :
  P v -> Forall (fun kv => P kv.2) m -> Forall (fun kv => P kv.2) (bt_insert k v m).
Proof.
  intros Hv Hm. apply Forall_forall. intros kv Hin. apply bt_insert_elem in Hin as [->|Hin]; [done|].
  rewrite Forall_forall in Hm. by apply Hm.
Qed.

Section tlv_facts.
Context `{Base64} `{Tables}.

(** The bodies of the two loops, named. *)
Fixpoint members_at (depth : Z) (items : Items) (obj : Map) : Result Map TlvError :=
  match items with
  | [] => Ok obj
  | Err e :: _ => Err e
  | Ok (Context n, child) :: items =>
      let? v := tlv_to_json_at child depth in members_at depth items (bt_insert (show n) v obj)
  | Ok (_, _) :: items => members_at depth items obj
  end.

Fixpoint elements_at (depth : Z) (items : Items) : Result (list Value) TlvError :=
  match items with
  | [] => Ok []
  | Err e :: _ => Err e
  | Ok (_, child) :: items =>
      let? v := tlv_to_json_at child depth in let? vs := elements_at depth items in Ok (v :: vs)
  end.

Lemma tlv_to_json_at_struct items depth :
  tlv_to_json_at (TStruct items) depth =
  if depth >? MAX_DEPTH then Err InvalidTlv else result_map VObject (members_at (depth + 1) items []).
Proof.
  cbn [tlv_to_json_at]. destruct (depth >? MAX_DEPTH); [done|]. f_equal. generalize (@nil (string * Value)).
  induction items as [|[[[] t]|e] items IH]; intros obj; cbn [members_at]; try done; try apply IH.
  destruct (tlv_to_json_at t (depth + 1)); cbn [result_bind]; [apply IH | done].
Qed.

Lemma tlv_to_json_at_elements items depth :
  tlv_to_json_at (TArray items) depth =
  (if depth >? MAX_DEPTH then Err InvalidTlv else result_map VArray (elements_at (depth + 1) items)) /\
  tlv_to_json_at (TList items) depth =
  (if depth >? MAX_DEPTH then Err InvalidTlv else result_map VArray (elements_at (depth + 1) items)).
Proof.
  cbn [tlv_to_json_at]. destruct (depth >? MAX_DEPTH); [done|].
  split; f_equal; (induction items as [|[[tag t]|e] items IH]; cbn [elements_at]; [done| |done];
    destruct (tlv_to_json_at t (depth + 1)); cbn [result_bind]; [by rewrite IH | done]).
Qed.

Lemma leaf_height t v : leaf_to_json t = Ok v -> json_height v = 0.
Proof.
  destruct t; simpl; try done; intros [= <-]; try done.
  - unfold json_f64. by destruct (is_finite_float f).
  - unfold json_f64. by destruct (is_finite_float f).
Qed.

Lemma members_low d items obj m :
  Forall (fun i => match i with Ok (_, t) => forall v, tlv_to_json_at t d = Ok v -> low (MAX_DEPTH - d) v | Err _ => True end) items ->
  members_at d items obj = Ok m -> Forall (fun kv => low (MAX_DEPTH - d) kv.2) obj ->
  Forall (fun kv => low (MAX_DEPTH - d) kv.2) m.
Proof.
  intros Hi. revert obj. induction Hi as [|[[tag t]|e] items Ht _ IH]; intros obj; cbn [members_at]; [by intros [= <-]| |done].
  destruct tag as [|n|]; [apply IH| |apply IH].
  destruct (tlv_to_json_at t d) as [w|]; [|done]. cbn [result_bind]. intros Hm Ho.
  apply (IH _ Hm). apply Forall_bt_insert; auto.
Qed.

Lemma elements_low d items l :
  Forall (fun i => match i with Ok (_, t) => forall v, tlv_to_json_at t d = Ok v -> low (MAX_DEPTH - d) v | Err _ => True end) items ->
  elements_at d items = Ok l -> Forall (low (MAX_DEPTH - d)) l.
Proof.
  intros Hi. revert l. induction Hi as [|[[tag t]|e] items Ht _ IH]; intros l; cbn [elements_at]; [by intros [= <-]| |done].
  destruct (tlv_to_json_at t d) as [w|]; [|done]. cbn [result_bind].
  destruct (elements_at d items) as [l'|]; [|done]. intros [= <-]. auto.
Qed.

Lemma items_deeper (d : Z) (items : Items) :
  Forall (fun i => match i with
    | Ok (_, t) => forall d v, 0 <= d -> tlv_to_json_at t d = Ok v -> low (MAX_DEPTH - d) v | Err _ => True end) items ->
  0 <= d ->
  Forall (fun i => match i with Ok (_, t) => forall v, tlv_to_json_at t d = Ok v -> low (MAX_DEPTH - d) v | Err _ => True end) items.
Proof. intros Hi Hd. eapply Forall_impl; [exact Hi|]. intros [[tag t]|]; [|done]. auto. Qed.

Lemma depth_at t d v : 0 <= d -> tlv_to_json_at t d = Ok v -> low (MAX_DEPTH - d) v.
Proof.
  revert d v. apply (tlv_ind' (fun t => forall d v, 0 <= d -> tlv_to_json_at t d = Ok v -> low (MAX_DEPTH - d) v)); clear t.
  - intros t. assert (L : forall d v, 0 <= d -> (if d >? MAX_DEPTH then Err InvalidTlv else leaf_to_json t) = Ok v ->
      low (MAX_DEPTH - d) v).
    { intros d v Hd. rewrite Z.gtb_ltb. destruct (Z.ltb_spec MAX_DEPTH d); [done|].
      intros Hl%leaf_height. unfold low. lia. }
    destruct t; try done; apply L.
  - intros items IH d v Hd. rewrite tlv_to_json_at_struct, Z.gtb_ltb. destruct (Z.ltb_spec MAX_DEPTH d); [done|].
    destruct (members_at (d + 1) items []) as [m|] eqn:E; [|done]. intros [= <-].
    apply low_object; [lia|]. replace (MAX_DEPTH - d - 1) with (MAX_DEPTH - (d + 1)) by lia.
    eapply members_low; [apply items_deeper; [exact IH | lia] | exact E | constructor].
  - intros items IH d v Hd. rewrite (proj1 (tlv_to_json_at_elements items d)), Z.gtb_ltb.
    destruct (Z.ltb_spec MAX_DEPTH d); [done|].
    destruct (elements_at (d + 1) items) as [l|] eqn:E; [|done]. intros [= <-].
    apply low_array; [lia|]. replace (MAX_DEPTH - d - 1) with (MAX_DEPTH - (d + 1)) by lia.
    eapply elements_low; [apply items_deeper; [exact IH | lia] | exact E].
  - intros items IH d v Hd. rewrite (proj2 (tlv_to_json_at_elements items d)), Z.gtb_ltb.
    destruct (Z.ltb_spec MAX_DEPTH d); [done|].
    destruct (elements_at (d + 1) items) as [l|] eqn:E; [|done]. intros [= <-].
    apply low_array; [lia|]. replace (MAX_DEPTH - d - 1) with (MAX_DEPTH - (d + 1)) by lia.
    eapply elements_low; [apply items_deeper; [exact IH | lia] | exact E].
Qed.

(** The reading of a TLV element always ends and its depth is bounded.
    [tlv_to_json] is total on every tree, however malformed; a value it returns
    is never nested deeper than 32 levels, anything deeper being an error. *)
Theorem tlv_to_json_depth_bounded t v : tlv_to_json t = Ok v -> json_height v <= MAX_DEPTH.
Proof. intros E. apply depth_at in E; [|done]. unfold low in E. lia. Qed.
End tlv_facts.

Lemma tlv_to_json_depth_bounded_witness :
  json_height (VArray [VObject [("1", json_u 7)]]) <= MAX_DEPTH.
Proof.
  apply (@tlv_to_json_depth_bounded HexBase64 (TList [Ok (Anonymous, TStruct [Ok (Context 1, TUnsigned 7)])])).
  reflexivity.
Defined.

(** ** Writing and reading back *)

(** The calls that write a tree. *)
Fixpoint tokens_of (tag : TlvTag) (t : Tlv) : list Token :=
  let items (items : Items) : list Token :=
    concat (map (fun i => match i with Ok (tag, t) => tokens_of tag t | Err _ => [] end) items) in
  match t with
  | TSigned v => [WI 64 tag v]
  | TUnsigned v => [WU 64 tag v]
  | TBool b => [WBool tag b]
  | TF32 f => [WF32 tag f]
  | TF64 f => [WF64 tag f]
  | TUtf8 s => [WUtf8 tag s]
  | TOctets s => [WStr tag s]
  | TNull => [WNull tag]
  | TStruct l => WStartStruct tag :: items l ++ [WEnd]
  | TArray l | TList l => WStartArray tag :: items l ++ [WEnd]
  | TEndCnt | TBroken _ => []
  end.

(** The tag a key stands for; the tree of a value without type information. *)
Definition tag_of_key (k : string) : Z := unwrap_or 0 (parse_u 8 k).

Fixpoint to_tlv (v : Value) : Tlv :=
  match v with
  | VNull => TNull
  | VBool b => TBool b
  | VNumber (PosInt n) => TUnsigned n
  | VNumber (NegInt z) => TSigned z
  | VNumber (Float f) => TF64 f
  | VString s => TUtf8 s
  | VArray l => TArray (map (fun v => Ok (Anonymous, to_tlv v)) l)
  | VObject m =>
      TStruct (map (fun nt => Ok (Context nt.1, nt.2))
        (bt_from_iter (map (fun kv => (tag_of_key kv.1, to_tlv kv.2)) m)))
  end.

(** Objects keyed by tag numbers, as attribute values are. *)
Definition is_tag_key (k : string) : bool :=
  match parse_u 8 k with Some n => String.eqb (show n) k | None => false end.

Fixpoint tag_keyed (v : Value) : bool :=
  match v with
  | VArray l => forallb tag_keyed l
  | VObject m => forallb (fun kv => is_tag_key kv.1 && tag_keyed kv.2) m
  | _ => true
  end.

Lemma is_tag_key_show k : is_tag_key k = true -> k = show (tag_of_key k) /\ parse_u 8 k = Some (tag_of_key k).
Proof.
  unfold is_tag_key, tag_of_key. destruct (parse_u 8 k) as [n|]; [|done]. simpl. intros E.
  apply String.eqb_eq in E as <-. done.
Qed.

Section from_iter.
Context {K : Type} `{Ord K} `{EqDecision K}.

Lemma bt_from_iter_snoc {V} (l : list (K * V)) k v : bt_from_iter (l ++ [(k, v)]) = bt_insert k v (bt_from_iter l).
Proof. unfold bt_from_iter. by rewrite fold_left_app. Qed.

Lemma bt_insert_map {A B} (f : A -> B) k a (m : BTreeMap K A) :
  bt_insert k (f a) (map (fun kv => (kv.1, f kv.2)) m) = map (fun kv => (kv.1, f kv.2)) (bt_insert k a m).
Proof. induction m as [|[k' a'] m IH]; simpl; [done|]. destruct (cmp k k'); simpl; by rewrite ?IH. Qed.

Lemma bt_from_iter_map {A B} (f : A -> B) (l : list (K * A)) :
  bt_from_iter (map (fun kv => (kv.1, f kv.2)) l) = map (fun kv => (kv.1, f kv.2)) (bt_from_iter l).
Proof.
  induction l as [|[k a] l IH] using rev_ind; [done|]. rewrite map_app. simpl map at 2.
  by rewrite !bt_from_iter_snoc, IH, bt_insert_map.
Qed.

Lemma bt_from_iter_get {V} (l : list (K * V)) k v :
  NoDup l.*1 -> bt_get (bt_from_iter l) k = Some v <-> (k, v) ∈ l.
Proof.
  induction l as [|[k' v'] l IH] using rev_ind; intros Hnd; [by rewrite elem_of_nil|].
  rewrite bt_from_iter_snoc, bt_get_insert. rewrite fmap_app in Hnd. apply NoDup_app in Hnd as (Hl & Hdis & _).
  rewrite elem_of_app, list_elem_of_singleton. case_decide as E.
  - subst. split; [intros [= ->]; auto|]. intros [Hin|[= ->]]; [|done]. exfalso.
    apply (Hdis k); [|by left]. apply list_elem_of_fmap. by exists (k, v).
  - rewrite (IH Hl). split; [auto|]. intros [?|[= -> _]]; done.
Qed.
End from_iter.

Lemma bt_wf_NoDup `{Ord K} {V} (m : BTreeMap K V) : bt_wf m -> NoDup m.*1.
Proof.
  induction 1 as [|[k v] m _ IH Hf]; simpl; constructor; [|done].
  intros (kv & E & Hin)%list_elem_of_fmap. rewrite Forall_forall in Hf. apply Hf in Hin.
  unfold bt_lt in Hin. simpl in *. subst. by rewrite cmp_refl in Hin.
Qed.

Section back.
Context `{Base64} `{Tables}.

(** Distinct tag keys are sorted without a clash. *)
Lemma sort_members_tags (ms : list (string * Writer)) (done_ : list (Z * (option TypeHint * Writer))) :
  Forall (fun kw => parse_u 8 kw.1 = Some (tag_of_key kw.1)) ms ->
  NoDup (done_.*1 ++ map (fun kw => tag_of_key kw.1) ms) ->
  sort_members (resolve_tag_based None) ms (bt_from_iter done_) =
  Ok (bt_from_iter (done_ ++ map (fun kw => (tag_of_key kw.1, (None, kw.2))) ms)).
Proof.
  revert done_. induction ms as [|[k w] ms IH]; intros done_ Hp Hn; [by rewrite app_nil_r|].
  apply Forall_cons in Hp as [Hk Hp]. simpl in Hk. cbn [sort_members map]. unfold resolve_tag_based at 1.
  rewrite Hk. cbn [ok_or result_bind and_then fst snd].
  assert (Hc : bt_contains (bt_from_iter done_) (tag_of_key k) = false).
  { unfold bt_contains. destruct (bt_get (bt_from_iter done_) (tag_of_key k)) as [x|] eqn:E; [|done]. exfalso.
    apply NoDup_app in Hn as (Hd & Hdis & _). apply bt_from_iter_get in E; [|done].
    apply (Hdis (tag_of_key k)); [apply list_elem_of_fmap; by exists (tag_of_key k, x) | by left]. }
  rewrite Hc, <- bt_from_iter_snoc, IH.
  - do 2 f_equal. by rewrite <- app_assoc.
  - done.
  - rewrite fmap_app, <- app_assoc. exact Hn.
Qed.

Lemma collect_tokens {A} (f : A -> Tokens) (g : A -> list Token) l :
  Forall (fun a => f a = Ok (g a)) l -> collect_results f l = Ok (map g l).
Proof. induction 1 as [|a l E _ IH]; [done|]. simpl. by rewrite E, IH. Qed.

Lemma tag_keys_NoDup (m : Map) :
  bt_wf m -> Forall (fun kv => is_tag_key kv.1 = true) m -> NoDup (map (fun kv => tag_of_key kv.1) m).
Proof.
  intros Hwf%bt_wf_NoDup Hk. induction m as [|[k v] m IH]; simpl; [constructor|].
  apply Forall_cons in Hk as [Hk Hm]. inversion_clear Hwf as [|? ? Hn Hwf']. constructor; [|by apply IH].
  intros (kv & E & Hin)%list_elem_of_fmap. apply Hn. apply list_elem_of_fmap. exists kv. split; [|done].
  rewrite Forall_forall in Hm. apply Hm, is_tag_key_show in Hin as [-> _]. apply is_tag_key_show in Hk as [Hk _].
  simpl in *. congruence.
Qed.

Lemma from_iter_Forall {V} (P : V -> Prop) (l : list (Z * V)) :
  Forall (fun kv => P kv.2) l -> Forall (fun kv => P kv.2) (bt_from_iter l).
Proof.
  intros Hl. rewrite Forall_forall in Hl. apply Forall_forall. intros kv Hin.
  assert (G : forall m : BTreeMap Z V, kv ∈ fold_left (fun m kv => bt_insert kv.1 kv.2 m) l m -> kv ∈ l \/ kv ∈ m).
  { clear. induction l as [|[k v] l IH]; intros m Hm; [auto|]. apply IH in Hm as [?|Hm]; [left; by right|].
    apply bt_insert_elem in Hm as [->|?]; [left; by left | auto]. }
  apply G in Hin as [?|Hin]; [by apply Hl | by apply elem_of_nil in Hin].
Qed.

(** What writing does with the members of a tag-keyed object. *)
Lemma write_object tag (m : Map) :
  bt_wf m -> Forall (fun kv => is_tag_key kv.1 = true) m ->
  Forall (fun kv => forall t, write_json kv.2 t None = Ok (tokens_of t (to_tlv kv.2))) m ->
  write_json (VObject m) tag None = Ok (tokens_of tag (to_tlv (VObject m))).
Proof.
  intros Hwf Hk IH. cbn [write_json write_node write_heuristic ch_members].
  unfold write_tag_based_struct, emit_struct.
  pose proof (sort_members_tags (map (fun kv => (kv.1, write_json kv.2)) m) []) as Hs.
  cbn [app] in Hs. change (bt_from_iter []) with (@nil (Z * (option TypeHint * Writer))) in Hs. rewrite Hs; clear Hs.
  2:{ apply Forall_map. eapply Forall_impl; [exact Hk|]. intros kv Hkv. simpl. by apply is_tag_key_show in Hkv as [_ ?]. }
  2:{ rewrite map_map. simpl. by apply tag_keys_NoDup. }
  cbn [result_bind]. rewrite map_map.
  rewrite (map_ext _ (fun kv => (fun nv : Z * Value => (nv.1, (None, write_json nv.2))) (tag_of_key kv.1, kv.2))) by done.
  rewrite <- (map_map (fun kv => (tag_of_key kv.1, kv.2)) (fun nv : Z * Value => (nv.1, (None, write_json nv.2)))).
  rewrite (bt_from_iter_map (fun v => (None, write_json v))).
  cbn [to_tlv tokens_of].
  rewrite (map_ext (fun kv : string * Value => (tag_of_key kv.1, to_tlv kv.2))
             (fun kv => (fun nv : Z * Value => (nv.1, to_tlv nv.2)) (tag_of_key kv.1, kv.2))) by done.
  rewrite <- (map_map (fun kv => (tag_of_key kv.1, kv.2)) (fun nv : Z * Value => (nv.1, to_tlv nv.2))).
  rewrite (bt_from_iter_map to_tlv).
  set (S := bt_from_iter (map (fun kv => (tag_of_key kv.1, kv.2)) m)).
  assert (HS : Forall (fun nv => forall t, write_json nv.2 t None = Ok (tokens_of t (to_tlv nv.2))) S).
  { apply (from_iter_Forall (fun v => forall t, write_json v t None = Ok (tokens_of t (to_tlv v)))). by apply Forall_map. }
  rewrite (collect_tokens _ (fun nhw : Z * (option TypeHint * Writer) => match nhw.2.2 (Context nhw.1) nhw.2.1 with Ok t => t | Err _ => [] end)).
  - cbn [result_bind]. do 3 f_equal. f_equal. rewrite !map_map. apply map_ext_in. intros nv Hin%list_elem_of_In. simpl.
    rewrite Forall_forall in HS. by rewrite (HS nv Hin).
  - apply Forall_map. eapply Forall_impl; [exact HS|]. intros nv Hnv. simpl. by rewrite Hnv.
Qed.

(** What reading does with them. *)
Lemma read_object (m : Map) d :
  bt_wf m -> Forall (fun kv => is_tag_key kv.1 = true) m -> d <= MAX_DEPTH ->
  Forall (fun kv => tlv_to_json_at (to_tlv kv.2) (d + 1) = Ok kv.2) m ->
  tlv_to_json_at (to_tlv (VObject m)) d = Ok (VObject m).
Proof.
  intros Hwf Hk Hd IH. cbn [to_tlv]. rewrite tlv_to_json_at_struct, Z.gtb_ltb, (proj2 (Z.ltb_ge _ _)) by done.
  rewrite (map_ext (fun kv : string * Value => (tag_of_key kv.1, to_tlv kv.2))
             (fun kv => (fun nv : Z * Value => (nv.1, to_tlv nv.2)) (tag_of_key kv.1, kv.2))) by done.
  rewrite <- (map_map (fun kv => (tag_of_key kv.1, kv.2)) (fun nv : Z * Value => (nv.1, to_tlv nv.2))).
  rewrite (bt_from_iter_map to_tlv), map_map. cbn [fst snd].
  set (S := bt_from_iter (map (fun kv => (tag_of_key kv.1, kv.2)) m)).
  assert (HS : Forall (fun nv => tlv_to_json_at (to_tlv nv.2) (d + 1) = Ok nv.2) S).
  { apply (from_iter_Forall (fun v => tlv_to_json_at (to_tlv v) (d + 1) = Ok v)). by apply Forall_map. }
  assert (R : forall obj, members_at (d + 1) (map (fun nv => Ok (Context nv.1, to_tlv nv.2)) S) obj =
                Ok (fold_left (fun o nv => bt_insert (show nv.1) nv.2 o) S obj)).
  { induction HS as [|[n v] S' E _ IHS]; intros obj; [done|]. cbn [map members_at fst snd] in *. rewrite E. apply IHS. }
  rewrite R. simpl. do 2 f_equal.
  assert (E : fold_left (fun o nv => bt_insert (show nv.1) nv.2 o) S [] =
              bt_from_iter (map (fun nv => (show nv.1, nv.2)) S)).
  { unfold bt_from_iter. generalize (@nil (string * Value)). clear. induction S as [|nv S IH]; intros o; [done|]. apply IH. }
  rewrite E. apply bt_ext; [apply bt_wf_from_iter | done|]. intros k.
  assert (HmS : forall n v, (n, v) ∈ S <-> exists k, (k, v) ∈ m /\ n = tag_of_key k).
  { intros n v. transitivity (bt_get S n = Some v).
    - split; [apply bt_elem_get, bt_wf_from_iter | apply bt_get_elem].
    - unfold S. rewrite bt_from_iter_get.
      + rewrite list_elem_of_fmap. split; [intros ([k' v'] & [= -> ->] & ?); by exists k' | intros (k' & ? & ->); by exists (k', v)].
      + rewrite <- list_fmap_compose. by apply tag_keys_NoDup. }
  rewrite Forall_forall in Hk.
  assert (Hget : forall v, bt_get (bt_from_iter (map (fun nv : Z * Value => (show nv.1, nv.2)) S)) k = Some v <-> bt_get m k = Some v).
  { intros v. rewrite bt_from_iter_get.
    - rewrite list_elem_of_fmap. split.
      + intros ([n w] & [= -> ->] & (k' & Hin & ->)%HmS). apply bt_elem_get; [done|]. simpl.
        by destruct (is_tag_key_show k' (Hk _ Hin)) as [<- _].
      + intros Hin%bt_get_elem. exists (tag_of_key k, v). simpl.
        destruct (is_tag_key_show k (Hk _ Hin)) as [<- _]. split; [done|]. apply HmS. by exists k.
    - rewrite <- list_fmap_compose.
      assert (Hn : NoDup S.*1) by apply bt_wf_NoDup, bt_wf_from_iter.
      change (NoDup ((show ∘ fst) <$> S)). rewrite (list_fmap_compose fst show). apply NoDup_fmap_2; [|done].
      intros a b. apply show_inj. }
  by apply option_eq.
Qed.

Lemma write_items tag l :
  Forall (fun v => forall t, write_json v t None = Ok (tokens_of t (to_tlv v))) l ->
  write_json (VArray l) tag None = Ok (tokens_of tag (to_tlv (VArray l))).
Proof.
  intros IH. cbn [write_json write_node write_heuristic ch_items]. unfold write_array.
  rewrite (collect_tokens _ (fun w : Writer => match w Anonymous None with Ok t => t | Err _ => [] end)).
  - cbn [result_bind to_tlv tokens_of]. do 3 f_equal. f_equal. rewrite !map_map. apply map_ext_in.
    intros v Hin%list_elem_of_In. rewrite Forall_forall in IH. by rewrite (IH v Hin).
  - apply Forall_map. eapply Forall_impl; [exact IH|]. intros v Hv. simpl. by rewrite Hv.
Qed.

Lemma read_items l d :
  d <= MAX_DEPTH -> Forall (fun v => tlv_to_json_at (to_tlv v) (d + 1) = Ok v) l ->
  tlv_to_json_at (to_tlv (VArray l)) d = Ok (VArray l).
Proof.
  intros Hd IH. cbn [to_tlv]. rewrite (proj1 (tlv_to_json_at_elements _ d)), Z.gtb_ltb, (proj2 (Z.ltb_ge _ _)) by done.
  assert (E : elements_at (d + 1) (map (fun v => Ok (Anonymous, to_tlv v)) l) = Ok l); [|by rewrite E].
  induction IH as [|v l E _ IH]; [done|]. cbn [map elements_at]. by rewrite E; cbn [result_bind]; rewrite IH.
Qed.

Lemma tag_keyed_object (m : Map) :
  tag_keyed (VObject m) = true ->
  Forall (fun kv => is_tag_key kv.1 = true) m /\ Forall (fun kv => tag_keyed kv.2 = true) m.
Proof.
  cbn [tag_keyed]. rewrite forallb_forall. intros Hk.
  split; apply Forall_forall; intros kv Hin%list_elem_of_In; by apply Hk, andb_true_iff in Hin as [? ?].
Qed.

Lemma forallb_Forall {A} (f : A -> bool) l : forallb f l = true -> Forall (fun a => f a = true) l.
Proof. rewrite forallb_forall, Forall_forall. intros Hf a Ha%list_elem_of_In. auto. Qed.

Lemma write_json_tree v tag :
  value_wf v -> tag_keyed v = true -> write_json v tag None = Ok (tokens_of tag (to_tlv v)).
Proof.
  revert tag. induction v as [|b|n|s|l IH|m IH] using value_ind'; intros tag Hwf Hk; try done.
  - by destruct n.
  - apply value_wf_array in Hwf. apply forallb_Forall in Hk. apply write_items.
    rewrite Forall_forall in *. intros v Hin t. by apply IH; [|apply Hwf|apply Hk].
  - apply value_wf_object in Hwf as [Hm Hwf]. apply tag_keyed_object in Hk as [Hk Hv].
    apply write_object; [done..|]. rewrite Forall_forall in *. intros kv Hin t. by apply IH; [|apply Hwf|apply Hv].
Qed.

(** A shallow enough value passes the depth check. *)
Lemma depth_ok v d : low (MAX_DEPTH - d) v -> (d >? MAX_DEPTH) = false.
Proof.
  unfold low. pose proof (json_height_nonneg v). intros Hv. rewrite Z.gtb_ltb. apply Z.ltb_ge. lia.
Qed.

Lemma read_tree v d :
  value_wf v -> value_utf8 v = true -> tag_keyed v = true -> low (MAX_DEPTH - d) v ->
  tlv_to_json_at (to_tlv v) d = Ok v.
Proof.
  revert d. induction v as [|b|n|s|l IH|m IH] using value_ind'; intros d Hwf Hu Hk Hh;
    pose proof (depth_ok _ _ Hh) as Hg.
  - cbn [to_tlv tlv_to_json_at]. by rewrite Hg.
  - cbn [to_tlv tlv_to_json_at]. by rewrite Hg.
  - simpl in Hwf. destruct n as [n|z|f]; cbn [to_tlv tlv_to_json_at]; rewrite Hg; cbn [leaf_to_json]; [done| |].
    + simpl in Hwf. z_bools. unfold json_i. by rewrite (proj2 (Z.ltb_lt _ _)).
    + unfold json_f64. simpl in Hwf. by rewrite Hwf.
  - cbn [to_tlv tlv_to_json_at]. rewrite Hg. cbn [leaf_to_json]. by rewrite utf8_lossy_valid.
  - apply value_wf_array in Hwf. cbn [value_utf8 tag_keyed] in Hu, Hk. apply forallb_Forall in Hu, Hk.
    rewrite Z.gtb_ltb in Hg. apply Z.ltb_ge in Hg.
    apply low_array in Hh; [|lia]. apply read_items; [done|]. rewrite Forall_forall in *. intros v Hin.
    apply IH; auto. replace (MAX_DEPTH - (d + 1)) with (MAX_DEPTH - d - 1) by lia. by apply Hh.
  - apply value_wf_object in Hwf as [Hm Hwf]. apply tag_keyed_object in Hk as [Hk Hv].
    rewrite Z.gtb_ltb in Hg. apply Z.ltb_ge in Hg.
    assert (Hu' : Forall (fun kv => value_utf8 kv.2 = true) m).
    { cbn [value_utf8] in Hu. apply forallb_Forall in Hu. eapply Forall_impl; [exact Hu|].
      intros kv Hkv. by apply andb_true_iff in Hkv as [_ ?]. }
    apply low_object in Hh; [|lia]. apply read_object; [done..|]. rewrite Forall_forall in *. intros kv Hin.
    apply IH; auto. replace (MAX_DEPTH - (d + 1)) with (MAX_DEPTH - d - 1) by lia. by apply Hh.
Qed.

(** C28: a JSON value written to TLV without type information reads back as
    itself, as far as the reader goes.  For every well-formed value whose objects
    are keyed by tag numbers, however deep, [write_json] emits the calls of a TLV
    tree, members in ascending tag order; and [tlv_to_json] of that tree is the
    value - every integer, float, string, array and object survives - exactly when
    it is at most 32 levels deep.  The writer has no such limit. *)
Theorem write_json_reads_back v tag :
  value_wf v -> value_utf8 v = true -> tag_keyed v = true ->
  write_json v tag None = Ok (tokens_of tag (to_tlv v)) /\
  (tlv_to_json (to_tlv v) = Ok v <-> json_height v <= MAX_DEPTH).
Proof.
  intros Hwf Hu Hk. split; [by apply write_json_tree|]. split; [apply tlv_to_json_depth_bounded | intros Hh; by apply read_tree].
Qed.
End back.

(** A value that survives, and a list in 32 lists that is written and refused. *)
Lemma write_json_reads_back_witness :
  (let v := VObject [("10", VArray [json_u 5; VNull]); ("2", VString "on")] in
   @write_json HexBase64 v Anonymous None = Ok (tokens_of Anonymous (to_tlv v)) /\ @tlv_to_json HexBase64 (to_tlv v) = Ok v) /\
  (let v := Nat.iter 32 (fun v => VArray [v]) (VArray [VNull]) in
   @write_json HexBase64 v Anonymous None = Ok (tokens_of Anonymous (to_tlv v)) /\ @tlv_to_json HexBase64 (to_tlv v) <> Ok v).
Proof.
  split; intros v.
  - destruct (@write_json_reads_back HexBase64 v Anonymous) as [Hw Hr]; [|reflexivity|reflexivity|].
    + apply value_wf_object. split; repeat constructor.
    + split; [exact Hw | apply Hr; by vm_compute].
  - destruct (@write_json_reads_back HexBase64 v Anonymous) as [Hw Hr]; [|reflexivity|reflexivity|].
    + repeat split.
    + split; [exact Hw|]. intros Hv. apply Hr in Hv. vm_compute in Hv. by apply Hv.
Defined.

(** ** Members of a named struct *)

Section named.
Context `{Base64}.

Lemma bt_insert_perm {V} (k : Z) (v : V) (m : BTreeMap Z V) : bt_get m k = None -> bt_insert k v m ≡ₚ (k, v) :: m.
Proof.
  induction m as [|[k' v'] m IH]; simpl; [done|]. destruct (Z.compare k k') eqn:E; [done|done|].
  intros Hm. rewrite (IH Hm). apply Permutation_swap.
Qed.

(** A member after its key has been resolved. *)
Definition resolved (resolve : string -> Result (Z * option TypeHint) TlvError)
    (kw : string * Writer) (m : Z * (option TypeHint * Writer)) : Prop :=
  resolve kw.1 = Ok (m.1, m.2.1) /\ m.2.2 = kw.2.

Lemma sort_members_ok resolve ms acc s :
  bt_wf acc -> sort_members resolve ms acc = Ok s ->
  bt_wf s /\ exists rs, Forall2 (resolved resolve) ms rs /\ s ≡ₚ rs ++ acc.
Proof.
  revert acc. induction ms as [|[k w] ms IH]; intros acc Hwf; cbn [sort_members].
  - intros [= <-]. split; [done|]. by exists [].
  - destruct (resolve k) as [[ctx h]|e] eqn:Hr; [|done]. cbn [result_bind].
    destruct (bt_contains acc ctx) eqn:Hc; [done|]. intros Hs.
    apply IH in Hs as (Hws & rs & Hrs & Hp); [|by apply bt_wf_insert]. split; [done|].
    exists ((ctx, (h, w)) :: rs). split; [by constructor|]. rewrite Hp, bt_insert_perm.
    + by rewrite <- Permutation_middle.
    + unfold bt_contains in Hc. by destruct (bt_get acc ctx).
Qed.

(** A command payload is written whole or not at all.  When
    [write_json_named] succeeds, every member of the JSON object was matched to
    a field of the request by its name (ignoring case), no two members to the
    same field id, and what is written is one struct with exactly these
    members, each the writing of its own value under its field's type, in
    strictly ascending tag order.  An unknown name or two names for one field
    is an error, never a dropped member. *)
Theorem write_json_named_members tag (obj : Map) fields c toks :
  write_json_named tag obj fields c = Ok toks ->
  exists rs sorted bodies,
    Forall2 (resolved (resolve_named fields c)) (map (fun kv => (kv.1, write_json kv.2)) obj) rs /\
    sorted ≡ₚ rs /\ StronglySorted Z.lt sorted.*1 /\
    Forall2 (fun m body => m.2.2 (Context m.1) m.2.1 = Ok body) sorted bodies /\
    toks = WStartStruct tag :: concat bodies ++ [WEnd].
Proof.
  unfold write_json_named, write_json_named_with, emit_struct.
  destruct (sort_members _ _ []) as [sorted|] eqn:Hs; [|done]. cbn [result_bind].
  apply sort_members_ok in Hs as (Hwf & rs & Hrs & Hp); [|constructor].
  destruct (collect_results _ sorted) as [bodies|] eqn:Hb; [|done]. intros [= <-].
  exists rs, sorted, bodies. rewrite app_nil_r in Hp. split; [done|]. split; [done|]. split; [|split; [|done]].
  - eapply (StronglySorted_map bt_lt); [|exact Hwf]. intros a b _ _. unfold bt_lt. simpl. apply Z.compare_lt_iff.
  - apply collect_results_Ok in Hb. eapply Forall2_impl; [exact Hb|]. by intros [ctx [h w]] body.
Qed.
End named.

Definition level_field : Field := {| f_code := 0; f_name := "level"; f_ty := "int8u"; f_is_list := false |}.
Definition level_cluster : Cluster :=
  {| cl_code := 8; cl_name := "LevelControl"; cl_attributes := []; cl_commands := []; cl_structs := []; cl_events := [] |}.

Lemma write_json_named_members_witness :
  exists rs sorted bodies,
    Forall2 (resolved (resolve_named [level_field] level_cluster))
      (map (fun kv => (kv.1, @write_json HexBase64 kv.2)) [("Level", json_u 7)]) rs /\
    sorted ≡ₚ rs /\ StronglySorted Z.lt sorted.*1 /\
    Forall2 (fun m body => m.2.2 (Context m.1) m.2.1 = Ok body) sorted bodies /\
    [WStartStruct Anonymous; WU 8 (Context 0) 7; WEnd] = WStartStruct Anonymous :: concat bodies ++ [WEnd].
Proof.
  apply (@write_json_named_members HexBase64 Anonymous [("Level", json_u 7)] [level_field] level_cluster).
  reflexivity.
Defined.
