(* ===== verification/Accumulate.v ===== *)
(** * Attribute reports and their accumulation

    The first half of [crates/stack/src/reports.rs]: the reports of one or more
    [ReportData] messages collected into ordered path/value pairs
    ([AttrAccumulator]), and the accumulators of the reports that are still
    incomplete, per node ([PendingReports]).  The [ReportData] types are
    [rs-matter]'s, with the fields the code reads. *)

From stdpp Require Import functions.
From S2P Require Import Prelude Json Prog Fs Text Gen TlvJson.

(** ** Reports *)

Record AttrPath : Type := {
  ap_endpoint : option Z;
  ap_cluster : option Z;
  ap_attr : option Z;
  ap_list_index : option (option Z);  (* absent, present and null, or an index *)
}.

Record AttrData : Type := { ad_path : AttrPath; ad_data : Tlv }.

Inductive AttrResp : Type :=
| AttrRespData (data : AttrData)
| AttrRespStatus (path : AttrPath) (status : Z).

Inductive EventDataTimestamp : Type :=
| EpochTimestamp (ms : Z)
| SystemTimestamp (ms : Z)
| DeltaEpochTimestamp (ms : Z)
| DeltaSystemTimestamp (ms : Z).

Record EventPath : Type := { ep_endpoint : option Z; ep_cluster : option Z; ep_event : option Z }.

Record EventData : Type := {
  ed_path : EventPath;
  ed_event_number : Z;
  ed_priority : Z;
  ed_timestamp : EventDataTimestamp;
  ed_data : option Tlv;  (* [None]: the empty element *)
}.

Inductive EventResp : Type :=
| EventRespData (data : EventData)
| EventRespStatus (path : EventPath) (status : Z).

(** An entry that does not parse is an error among the others. *)
Record ReportDataResp : Type := {
  rd_subscription_id : option Z;
  rd_attr_reports : option (list (Result AttrResp TlvError));
  rd_event_reports : option (list (Result EventResp TlvError));
  rd_more_chunks : option bool;
}.

Inductive ListOp : Type :=
| Replace
| Append
| SetIndex (i : Z).

Definition list_op (path : AttrPath) : ListOp :=
  match ap_list_index path with
  | None => Replace
  | Some None => Append
  | Some (Some i) => SetIndex i
  end.

(** ** The accumulator *)

Record AttrAccumulator : Type := {
  acc_out : list (string * Value);
  acc_index : gmap string nat;
  acc_orphan_appends : list string;
  acc_failures : nat;
}.

Definition AttrAccumulator_default : AttrAccumulator :=
  {| acc_out := []; acc_index := ∅; acc_orphan_appends := []; acc_failures := 0 |}.

(** [Vec::resize] with [Null]. *)
Definition resize (n : nat) (l : list Value) : list Value :=
  take n l ++ replicate (n - length l) VNull.

Definition with_out (a : AttrAccumulator) (out : list (string * Value)) : AttrAccumulator :=
  {| acc_out := out; acc_index := acc_index a; acc_orphan_appends := acc_orphan_appends a;
     acc_failures := acc_failures a |}.

(** [self.index.insert(key, self.out.len()); self.out.push((key, json))] *)
Definition push_slot (a : AttrAccumulator) (key : string) (json : Value) : AttrAccumulator :=
  {| acc_out := acc_out a ++ [(key, json)];
     acc_index := <[key := length (acc_out a)]> (acc_index a);
     acc_orphan_appends := acc_orphan_appends a;
     acc_failures := acc_failures a |}.

Definition add_failure (a : AttrAccumulator) : AttrAccumulator :=
  {| acc_out := acc_out a; acc_index := acc_index a; acc_orphan_appends := acc_orphan_appends a;
     acc_failures := S (acc_failures a) |}.

Definition add_orphan (a : AttrAccumulator) (key : string) : AttrAccumulator :=
  {| acc_out := acc_out a; acc_index := acc_index a; acc_orphan_appends := acc_orphan_appends a ++ [key];
     acc_failures := acc_failures a |}.

Definition put (a : AttrAccumulator) (key : string) (json : Value) : AttrAccumulator :=
  match acc_index a !! key with
  | Some at_ =>
      match acc_out a !! at_ with
      | Some slot => with_out a (<[at_ := (slot.1, json)]> (acc_out a))
      | None => a
      end
  | None => push_slot a key json
  end.

Definition append (a : AttrAccumulator) (key : string) (json : Value) : AttrAccumulator :=
  match acc_index a !! key with
  | None => push_slot (add_orphan a key) key (VArray [json])
  | Some at_ =>
      match acc_out a !! at_ with
      | None => a
      | Some slot =>
          let v := match slot.2 with VArray arr => VArray (arr ++ [json]) | _ => VArray [json] end in
          with_out a (<[at_ := (slot.1, v)]> (acc_out a))
      end
  end.

(** [None] is the panic of [self.out[at]] out of range. *)
Definition set_index (a : AttrAccumulator) (key : string) (i : Z) (json : Value) : option AttrAccumulator :=
  let '(a, at_) :=
    match acc_index a !! key with
    | Some at_ => (a, at_)
    | None => let a := push_slot a key (VArray []) in (a, (length (acc_out a) - 1)%nat)
    end in
  match acc_out a !! at_ with
  | None => None
  | Some slot =>
      let arr := match slot.2 with VArray arr => arr | _ => [] end in
      let idx := Z.to_nat i in
      let arr := if (length arr <=? idx)%nat then resize (S idx) arr else arr in
      Some (with_out a (<[at_ := (slot.1, VArray (<[idx := json]> arr))]> (acc_out a)))
  end.

Definition attr_key (e cl a : Z) : string := show e +:+ "/" +:+ show cl +:+ "/" +:+ show a.

Abbreviation PendingReports := (gmap Z AttrAccumulator).

Section absorb.
Context `{Base64} `{Tables}.

Definition absorb_one (acc : AttrAccumulator) (r : Result AttrResp TlvError) : option AttrAccumulator :=
  match r with
  | Err _ => Some (add_failure acc)
  | Ok (AttrRespStatus _ _) => Some acc
  | Ok (AttrRespData data) =>
      match ap_endpoint (ad_path data), ap_cluster (ad_path data), ap_attr (ad_path data) with
      | Some e, Some cl, Some a =>
          match attr_value_to_json cl a (ad_data data) with
          | Err _ => Some (add_failure acc)
          | Ok json =>
              let key := attr_key e cl a in
              match list_op (ad_path data) with
              | Replace => Some (put acc key json)
              | Append => Some (append acc key json)
              | SetIndex i => set_index acc key i json
              end
          end
      | _, _, _ => Some (add_failure acc)
      end
  end.

Fixpoint absorb_all (acc : AttrAccumulator) (rs : list (Result AttrResp TlvError)) : option AttrAccumulator :=
  match rs with
  | [] => Some acc
  | r :: rs => match absorb_one acc r with Some acc => absorb_all acc rs | None => None end
  end.

Definition absorb (acc : AttrAccumulator) (report : ReportDataResp) : option AttrAccumulator :=
  match rd_attr_reports report with
  | None => Some acc
  | Some reports => absorb_all acc reports
  end.

Definition into_pairs (acc : AttrAccumulator) : list (string * Value) := acc_out acc.

(** ** Reports in several messages *)

(** [None] when absorbing panics; otherwise the changes a complete report
    releases and the reports still pending. *)
Definition absorb_message (pending : PendingReports) (node_id : Z) (report : ReportDataResp) :
    option (option (list (string * Value)) * PendingReports) :=
  let acc := default AttrAccumulator_default (pending !! node_id) in
  let pending := delete node_id pending in
  match absorb acc report with
  | None => None
  | Some acc =>
      if decide (rd_more_chunks report = Some true) then Some (None, <[node_id := acc]> pending)
      else Some (Some (into_pairs acc), pending)
  end.

Definition forget (pending : PendingReports) (node_id : Z) : PendingReports := delete node_id pending.
End absorb.

(** ** What accumulation promises

    The accepted reports as operations on named slots; a slot's value is the
    replay of the operations on it, the slots in order of first mention. *)

Section spec.
Context `{Base64} `{Tables}.

Definition decode_report (r : Result AttrResp TlvError) : option (string * (ListOp * Value)) :=
  match r with
  | Ok (AttrRespData data) =>
      match ap_endpoint (ad_path data), ap_cluster (ad_path data), ap_attr (ad_path data) with
      | Some e, Some cl, Some a =>
          match attr_value_to_json cl a (ad_data data) with
          | Ok json => Some (attr_key e cl a, (list_op (ad_path data), json))
          | Err _ => None
          end
      | _, _, _ => None
      end
  | _ => None
  end.

(** A report that is counted as skipped: not a status, and not usable. *)
Definition skipped (r : Result AttrResp TlvError) : bool :=
  match r with
  | Ok (AttrRespStatus _ _) => false
  | _ => match decode_report r with None => true | Some _ => false end
  end.

Definition array_of (cur : option Value) : list Value :=
  match cur with Some (VArray l) => l | _ => [] end.

Definition slot_op (cur : option Value) (o : ListOp * Value) : option Value :=
  Some (match o.1 with
        | Replace => o.2
        | Append => VArray (array_of cur ++ [o.2])
        | SetIndex i =>
            let l := array_of cur in let n := Z.to_nat i in
            VArray (<[n := o.2]> (l ++ replicate (S n - length l) VNull))
        end).

Abbreviation Ops := (list (string * (ListOp * Value))).

Definition ops_on (k : string) (ops : Ops) : list (ListOp * Value) :=
  omap (fun o => if decide (o.1 = k) then Some o.2 else None) ops.

Definition replay (ops : list (ListOp * Value)) : option Value := fold_left slot_op ops None.

Definition first_mentions (ks : list string) : list string :=
  fold_left (fun seen k => if decide (k ∈ seen) then seen else seen ++ [k]) ks [].

Definition merged (ops : Ops) : list (string * Value) :=
  map (fun k => (k, default VNull (replay (ops_on k ops)))) (first_mentions ops.*1).

Definition acc_wf (a : AttrAccumulator) : Prop :=
  forall k i, acc_index a !! k = Some i <-> exists v, acc_out a !! i = Some (k, v).
End spec.

Section merging.
Context `{Base64} `{Tables}.

Lemma first_mentions_snoc ks k :
  first_mentions (ks ++ [k]) =
  if decide (k ∈ first_mentions ks) then first_mentions ks else first_mentions ks ++ [k].
Proof. unfold first_mentions. by rewrite fold_left_app. Qed.

Lemma first_mentions_elem ks k : k ∈ first_mentions ks <-> k ∈ ks.
Proof.
  induction ks as [|k' ks IH] using rev_ind; [done|]. rewrite first_mentions_snoc, elem_of_app, list_elem_of_singleton.
  case_decide; [set_solver|]. rewrite elem_of_app, list_elem_of_singleton, IH. done.
Qed.

Lemma first_mentions_NoDup ks : NoDup (first_mentions ks).
Proof.
  induction ks as [|k ks IH] using rev_ind; [constructor|]. rewrite first_mentions_snoc.
  case_decide; [done|]. apply NoDup_app. split; [done|]. split; [set_solver | apply NoDup_singleton].
Qed.

Lemma ops_on_snoc k k' ops o :
  ops_on k (ops ++ [(k', o)]) = ops_on k ops ++ (if decide (k' = k) then [o] else []).
Proof. unfold ops_on. rewrite omap_app. simpl. by case_decide. Qed.

Lemma replay_snoc ops o : replay (ops ++ [o]) = slot_op (replay ops) o.
Proof. unfold replay. by rewrite fold_left_app. Qed.

Lemma ops_on_nil k ops : k ∉ ops.*1 -> ops_on k ops = [].
Proof.
  induction ops as [|[k' o] ops IH]; [done|]. cbn [fmap list_fmap fst]. rewrite not_elem_of_cons. intros [Hk Hn].
  unfold ops_on. cbn [omap list_omap fst]. rewrite decide_False by congruence. by apply IH.
Qed.

Lemma replay_is_Some k ops : k ∈ ops.*1 -> is_Some (replay (ops_on k ops)).
Proof.
  induction ops as [|[k' o] ops IH] using rev_ind; [intros Hk; by apply elem_of_nil in Hk|].
  rewrite fmap_app, elem_of_app, ops_on_snoc. cbn [fmap list_fmap fst]. rewrite list_elem_of_singleton.
  case_decide as E.
  - intros _. rewrite replay_snoc. unfold slot_op. eauto.
  - rewrite app_nil_r. intros [Hk| ->]; [auto | done].
Qed.

Lemma merged_lookup ops i k v :
  merged ops !! i = Some (k, v) <->
  first_mentions ops.*1 !! i = Some k /\ replay (ops_on k ops) = Some v.
Proof.
  unfold merged. rewrite list_lookup_fmap. split.
  - destruct (first_mentions ops.*1 !! i) as [k'|] eqn:E; [|done]. simpl. intros [= -> <-]. split; [done|].
    apply list_elem_of_lookup_2, first_mentions_elem, replay_is_Some in E as [v' ->]. done.
  - intros [-> E]. simpl. by rewrite E.
Qed.

(** The three operations are one update of a slot. *)
Definition upd (a : AttrAccumulator) (k : string) (f : option Value -> Value) : AttrAccumulator :=
  match acc_index a !! k with
  | Some i =>
      match acc_out a !! i with
      | Some slot => with_out a (<[i := (slot.1, f (Some slot.2))]> (acc_out a))
      | None => a
      end
  | None => push_slot a k (f None)
  end.

(** What the well-formed accumulator holds, whatever it has noted besides. *)
Definition holds (a : AttrAccumulator) (ops : list (string * (ListOp * Value))) : Prop :=
  acc_wf a /\ acc_out a = merged ops.

Lemma push_slot_wf a k v : acc_wf a -> acc_index a !! k = None -> acc_wf (push_slot a k v).
Proof.
  unfold acc_wf. intros Hwf Hk k' i. cbn [push_slot acc_index acc_out]. rewrite lookup_insert_Some, Hwf. split.
  - intros [[<- <-]|[Hne [w Hw]]].
    + exists v. by rewrite list_lookup_middle.
    + exists w. by apply lookup_app_l_Some.
  - intros [w [Hw|[Hlen Hw]]%lookup_app_Some].
    + right. split; [|eauto]. intros <-. destruct (Hwf k i) as [_ Hk']. rewrite Hk in Hk'.
      discriminate Hk'. eauto.
    + apply list_lookup_singleton_Some in Hw as [Hi [= -> ->]]. left. split; [done | lia].
Qed.

Lemma with_out_wf a i k v w :
  acc_wf a -> acc_out a !! i = Some (k, v) -> acc_wf (with_out a (<[i := (k, w)]> (acc_out a))).
Proof.
  unfold acc_wf. intros Hwf Hi k' j. cbn [with_out acc_index acc_out]. rewrite Hwf.
  pose proof (lookup_lt_Some _ _ _ Hi) as Hlt. destruct (decide (i = j)) as [->|Hne].
  - rewrite list_lookup_insert_eq by done. rewrite Hi. naive_solver.
  - by rewrite list_lookup_insert_ne.
Qed.

Lemma wf_index_None a ops k : holds a ops -> acc_index a !! k = None <-> k ∉ ops.*1.
Proof.
  intros [Hwf Hout]. rewrite <- first_mentions_elem. split.
  - intros Hk [i Hi]%list_elem_of_lookup. destruct (replay_is_Some k ops) as [v Hv].
    { apply first_mentions_elem. by eapply list_elem_of_lookup_2. }
    destruct (Hwf k i) as [_ Hw]. rewrite Hk in Hw. discriminate Hw.
    exists v. rewrite Hout. by apply merged_lookup.
  - intros Hk. destruct (acc_index a !! k) as [i|] eqn:E; [|done]. destruct Hk.
    apply Hwf in E as [v Hv]. rewrite Hout in Hv. apply merged_lookup in Hv as [Hv _].
    by eapply list_elem_of_lookup_2.
Qed.

Lemma merged_snoc_new ops k o :
  k ∉ ops.*1 -> merged (ops ++ [(k, o)]) = merged ops ++ [(k, default VNull (slot_op None o))].
Proof.
  intros Hk. unfold merged. rewrite fmap_app. cbn [fmap list_fmap fst]. rewrite first_mentions_snoc.
  rewrite decide_False by by rewrite first_mentions_elem. rewrite map_app. f_equal.
  - apply map_ext_in. intros k' Hk'. rewrite <- list_elem_of_In, first_mentions_elem in Hk'. rewrite ops_on_snoc.
    rewrite decide_False by (intros ->; done). by rewrite app_nil_r.
  - simpl. rewrite ops_on_snoc, decide_True by done. rewrite ops_on_nil by done. done.
Qed.

Lemma merged_snoc_old ops k o i v :
  merged ops !! i = Some (k, v) ->
  merged (ops ++ [(k, o)]) = <[i := (k, default VNull (slot_op (Some v) o))]> (merged ops).
Proof.
  intros Hi. pose proof Hi as [Hki Hv]%merged_lookup.
  assert (Hin : k ∈ first_mentions ops.*1) by by eapply list_elem_of_lookup_2.
  apply list_eq. intros j. unfold merged at 1. rewrite fmap_app. cbn [fmap list_fmap fst].
  rewrite first_mentions_snoc, decide_True by done. rewrite list_lookup_fmap.
  destruct (decide (i = j)) as [<-|Hne].
  - rewrite list_lookup_insert_eq by by eapply lookup_lt_Some. rewrite Hki. simpl.
    by rewrite ops_on_snoc, decide_True, replay_snoc, Hv.
  - rewrite list_lookup_insert_ne by done. unfold merged. rewrite list_lookup_fmap.
    destruct (first_mentions ops.*1 !! j) as [k'|] eqn:Ej; [|done]. simpl.
    rewrite ops_on_snoc. rewrite decide_False; [by rewrite app_nil_r|].
    intros ->. apply Hne. eapply NoDup_lookup; [apply first_mentions_NoDup | exact Hki | exact Ej].
Qed.

Lemma upd_holds a ops k o f :
  holds a ops -> (forall cur, f cur = default VNull (slot_op cur o)) -> holds (upd a k f) (ops ++ [(k, o)]).
Proof.
  intros Ha Hf. pose proof Ha as [Hwf Hout]. unfold upd. destruct (acc_index a !! k) as [i|] eqn:Ek.
  - apply Hwf in Ek as [v Hv]. rewrite Hv. cbn [fst snd]. split; [by eapply with_out_wf|].
    cbn [with_out acc_out]. rewrite Hf, Hout. symmetry. apply merged_snoc_old. by rewrite <- Hout.
  - split; [by apply push_slot_wf|]. cbn [push_slot acc_out]. rewrite Hf, Hout. symmetry. apply merged_snoc_new.
    by eapply wf_index_None.
Qed.

Lemma resize_grow n l : (length l <= n)%nat -> resize n l = l ++ replicate (n - length l) VNull.
Proof. intros Hl. unfold resize. by rewrite take_ge. Qed.

Lemma put_holds a ops k v : holds a ops -> holds (put a k v) (ops ++ [(k, (Replace, v))]).
Proof. intros Ha. apply (upd_holds a ops k (Replace, v) (fun _ => v)); [done|]. by intros []. Qed.

Lemma append_holds a ops k v : holds a ops -> holds (append a k v) (ops ++ [(k, (Append, v))]).
Proof.
  intros Ha. pose proof (upd_holds a ops k (Append, v) (fun cur => VArray (array_of cur ++ [v])) Ha) as Hu.
  unfold append, upd in *. destruct (acc_index a !! k) as [i|] eqn:Ek.
  - destruct (acc_out a !! i) as [slot|]; [|by apply Hu].
    replace (match slot.2 with VArray arr => VArray (arr ++ [v]) | _ => VArray [v] end)
      with (VArray (array_of (Some slot.2) ++ [v])) by (by destruct slot.2). by apply Hu.
  - by apply Hu.
Qed.

Lemma set_index_holds a ops k i v :
  holds a ops -> exists a', set_index a k i v = Some a' /\ holds a' (ops ++ [(k, (SetIndex i, v))]) /\
    acc_failures a' = acc_failures a.
Proof.
  intros Ha.
  set (f := fun cur => default VNull (slot_op cur (SetIndex i, v))).
  pose proof (upd_holds a ops k (SetIndex i, v) f Ha (fun _ => eq_refl)) as Hu.
  assert (Harr : forall l : list Value,
    <[Z.to_nat i := v]> (if (length l <=? Z.to_nat i)%nat then resize (S (Z.to_nat i)) l else l) =
    <[Z.to_nat i := v]> (l ++ replicate (S (Z.to_nat i) - length l) VNull)).
  { intros l. destruct (Nat.leb_spec (length l) (Z.to_nat i)) as [Hl|Hl].
    - rewrite resize_grow by lia. done.
    - replace (S (Z.to_nat i) - length l)%nat with 0%nat by lia. by rewrite app_nil_r. }
  unfold set_index, upd in *. destruct (acc_index a !! k) as [at_|] eqn:Ek.
  - pose proof Ek as [w Hw]%(proj1 Ha). rewrite Hw in *. cbn [fst snd] in *. eexists. split; [done|]. split; [|done].
    rewrite Harr. exact Hu.
  - cbn [push_slot acc_out]. rewrite length_app. cbn [length].
    replace (length (acc_out a) + 1 - 1)%nat with (length (acc_out a)) by lia.
    rewrite list_lookup_middle by done. cbn [fst snd]. eexists. split; [done|]. split; [|done].
    rewrite Harr. unfold with_out, push_slot in *. cbn [acc_out acc_index acc_orphan_appends acc_failures] in *.
    rewrite insert_app_r_alt by lia. rewrite Nat.sub_diag. exact Hu.
Qed.
End merging.

Section promises.
Context `{Base64} `{Tables}.

Lemma default_holds : holds AttrAccumulator_default [].
Proof. split; [|done]. intros k i. simpl. rewrite lookup_empty. split; [done | by intros [v Hv]]. Qed.

Lemma holds_failure a ops : holds a ops -> holds (add_failure a) ops.
Proof. done. Qed.

Lemma put_failures a k v : acc_failures (put a k v) = acc_failures a.
Proof. unfold put. by repeat case_match. Qed.

Lemma append_failures a k v : acc_failures (append a k v) = acc_failures a.
Proof. unfold append. by repeat case_match. Qed.

Lemma absorb_one_spec a ops r :
  holds a ops ->
  exists a', absorb_one a r = Some a' /\ holds a' (ops ++ omap decode_report [r]) /\
    acc_failures a' = (acc_failures a + if skipped r then 1 else 0)%nat.
Proof.
  intros Ha. unfold absorb_one, skipped. cbn [omap list_omap]. unfold decode_report.
  assert (Hsame : holds a (ops ++ [])) by by rewrite app_nil_r.
  destruct r as [[data|p st]|e]; [|exists a; by rewrite Nat.add_0_r|exists (add_failure a); split; [done|]; split; [exact Hsame | simpl; lia]].
  destruct (ap_endpoint (ad_path data)), (ap_cluster (ad_path data)), (ap_attr (ad_path data)); try (exists (add_failure a); split; [done|]; split; [exact Hsame | simpl; lia]).
  destruct (attr_value_to_json _ _ _) as [json|]; [|exists (add_failure a); split; [done|]; split; [exact Hsame | simpl; lia]].
  rewrite Nat.add_0_r. destruct (list_op _).
  - eexists. split; [done|]. split; [by apply put_holds | apply put_failures].
  - eexists. split; [done|]. split; [by apply append_holds | apply append_failures].
  - by apply set_index_holds.
Qed.

Lemma absorb_all_spec rs a ops :
  holds a ops ->
  exists a', absorb_all a rs = Some a' /\ holds a' (ops ++ omap decode_report rs) /\
    acc_failures a' = (acc_failures a + length (List.filter skipped rs))%nat.
Proof.
  revert a ops. induction rs as [|r rs IH]; intros a ops Ha.
  - exists a. simpl. by rewrite app_nil_r, Nat.add_0_r.
  - destruct (absorb_one_spec a ops r Ha) as (a1 & E1 & H1 & F1).
    destruct (IH a1 _ H1) as (a2 & E2 & H2 & F2). exists a2. cbn [absorb_all]. rewrite E1. split; [done|].
    split; [by rewrite <- app_assoc, <- omap_app in H2|]. rewrite F2, F1. cbn [List.filter].
    destruct (skipped r); cbn [length]; lia.
Qed.

Lemma replay_appends (l : list Value) vs :
  fold_left slot_op (map (pair Append) vs) (Some (VArray l)) = Some (VArray (l ++ vs)).
Proof.
  revert l. induction vs as [|v vs IH]; intros l; simpl; [by rewrite app_nil_r|].
  unfold slot_op at 2. simpl. by rewrite IH, <- app_assoc.
Qed.

(** Attribute reports are merged without loss, and one bad report costs
    only itself.  Absorbing any reports never panics; the pairs handed out name
    every reported path once, in the order of first mention, each with the
    replay of exactly the operations reported for that path, whatever came in
    between; what is skipped is counted.  In particular a list that arrives as
    an empty (or partial) array followed by appended elements is that array
    with all the elements, in order. *)
Theorem absorb_merges (rs : list (Result AttrResp TlvError)) :
  exists acc, absorb_all AttrAccumulator_default rs = Some acc /\
    into_pairs acc = merged (omap decode_report rs) /\
    acc_failures acc = length (List.filter skipped rs) /\
    forall k l vs, ops_on k (omap decode_report rs) = (Replace, VArray l) :: map (pair Append) vs ->
      (k, VArray (l ++ vs)) ∈ into_pairs acc.
Proof.
  destruct (absorb_all_spec rs _ _ default_holds) as (acc & E & [Hwf Hout] & F).
  exists acc. split; [done|]. split; [done|]. split; [done|]. intros k l vs Hk.
  unfold into_pairs. rewrite Hout. simpl. set (ops := omap decode_report rs) in *.
  assert (Hin : k ∈ ops.*1).
  { destruct (decide (k ∈ ops.*1)) as [|Hn]; [done|]. by rewrite (ops_on_nil k ops Hn) in Hk. }
  apply first_mentions_elem, list_elem_of_lookup in Hin as [i Hi].
  apply (list_elem_of_lookup_2 _ i), merged_lookup. split; [done|]. rewrite Hk. unfold replay. simpl.
  unfold slot_op at 2. simpl. apply replay_appends.
Qed.

(** ** Messages of several nodes *)

Abbreviation Changes := (list (string * Value)).

(** The reports of the sink in the order they arrive: what each releases. *)
Fixpoint absorb_messages (pending : PendingReports) (ms : list (Z * ReportDataResp)) :
    option (list (Z * Changes) * PendingReports) :=
  match ms with
  | [] => Some ([], pending)
  | (n, m) :: ms =>
      match absorb_message pending n m with
      | None => None
      | Some (released, pending) =>
          match absorb_messages pending ms with
          | None => None
          | Some (outs, pending) =>
              Some (match released with Some c => (n, c) :: outs | None => outs end, pending)
          end
      end
  end.

Definition reports_of (m : ReportDataResp) : list (Result AttrResp TlvError) := default [] (rd_attr_reports m).

(** One node's messages cut into complete reports, and what is left over. *)
Fixpoint batches (cur : option (list (Result AttrResp TlvError))) (ms : list ReportDataResp) :
    list (list (Result AttrResp TlvError)) * option (list (Result AttrResp TlvError)) :=
  match ms with
  | [] => ([], cur)
  | m :: ms =>
      let cur := default [] cur ++ reports_of m in
      if decide (rd_more_chunks m = Some true) then batches (Some cur) ms
      else let '(bs, rest) := batches None ms in (cur :: bs, rest)
  end.

Definition of_node {A} (n : Z) (l : list (Z * A)) : list A :=
  omap (fun p => if decide (p.1 = n) then Some p.2 else None) l.

(** What is pending for a node is the merge of its unfinished report. *)
Definition pending_is (acc : option AttrAccumulator) (cur : option (list (Result AttrResp TlvError))) : Prop :=
  match acc, cur with
  | Some a, Some rs => holds a (omap decode_report rs)
  | None, None => True
  | _, _ => False
  end.

Definition pending_matches (pending : PendingReports) (cur : Z -> option (list (Result AttrResp TlvError))) : Prop :=
  forall n, pending_is (pending !! n) (cur n).

Lemma absorb_message_spec pending cur n m :
  pending_matches pending cur ->
  let rs := default [] (cur n) ++ reports_of m in
  exists pending',
    if decide (rd_more_chunks m = Some true) then
      absorb_message pending n m = Some (None, pending') /\ pending_matches pending' (<[n := Some rs]> cur)
    else
      absorb_message pending n m = Some (Some (merged (omap decode_report rs)), pending') /\
      pending_matches pending' (<[n := None]> cur).
Proof.
  intros Hp rs. set (acc0 := default AttrAccumulator_default (pending !! n)).
  assert (Ha : holds acc0 (omap decode_report (default [] (cur n)))).
  { specialize (Hp n). unfold acc0, pending_is in *.
    destruct (pending !! n), (cur n); try done. apply default_holds. }
  assert (exists acc, absorb acc0 m = Some acc /\ holds acc (omap decode_report rs)) as (acc & Hacc & Hholds).
  { unfold absorb, rs, reports_of. rewrite omap_app. destruct (rd_attr_reports m) as [l|]; simpl.
    - destruct (absorb_all_spec l acc0 _ Ha) as (a & E & Hh & _). eauto.
    - exists acc0. by rewrite app_nil_r. }
  unfold absorb_message. fold acc0. rewrite Hacc. case_decide.
  - eexists. split; [done|]. intros j. destruct (decide (n = j)) as [<-|Hne].
    + by rewrite lookup_insert_eq, fn_lookup_insert.
    + rewrite lookup_insert_ne, lookup_delete_ne, fn_lookup_insert_ne by done. apply Hp.
  - eexists. split.
    + unfold into_pairs. by rewrite (proj2 Hholds).
    + intros j. destruct (decide (n = j)) as [<-|Hne].
      * by rewrite lookup_delete_eq, fn_lookup_insert.
      * rewrite lookup_delete_ne, fn_lookup_insert_ne by done. apply Hp.
Qed.

Lemma absorb_messages_from ms pending cur :
  pending_matches pending cur ->
  exists outs pending', absorb_messages pending ms = Some (outs, pending') /\
    forall n, of_node n outs = map (fun b => merged (omap decode_report b)) (batches (cur n) (of_node n ms)).1 /\
      pending_is (pending' !! n) (batches (cur n) (of_node n ms)).2.
Proof.
  revert pending cur. induction ms as [|[n m] ms IH]; intros pending cur Hp.
  { exists [], pending. split; [done|]. intros n. split; [done | apply Hp]. }
  destruct (absorb_message_spec pending cur n m Hp) as [pending1 Hm]. cbn [absorb_messages].
  case_decide as Hmore; destruct Hm as [-> Hp1]; destruct (IH _ _ Hp1) as (outs & pending2 & -> & Hall);
    (eexists _, _; split; [done|]); intros j; specialize (Hall j);
    unfold of_node; cbn [omap list_omap fst snd]; fold (of_node j ms) (of_node j outs); case_decide as E.
  - subst j. rewrite fn_lookup_insert in Hall. cbn [batches]. by rewrite decide_True by done.
  - by rewrite fn_lookup_insert_ne in Hall by done.
  - subst j. rewrite fn_lookup_insert in Hall. cbn [batches]. rewrite decide_False by done.
    destruct (batches None (of_node n ms)) as [bs rest]. cbn [fst snd map] in *. destruct Hall as [-> Hrest].
    by split.
  - by rewrite fn_lookup_insert_ne in Hall by done.
Qed.

(** C23: a report released to the client is a whole report of one node.  For
    any messages of any nodes, interleaved in any way, nothing panics; what is
    released for a node is, in order, one batch per complete report of that
    node, each the merge of all its messages (so where a device cuts a report
    into messages makes no difference), and what stays pending for a node is
    its own unfinished report, if any. *)
Theorem absorb_messages_spec (ms : list (Z * ReportDataResp)) :
  exists outs pending, absorb_messages ∅ ms = Some (outs, pending) /\
    forall n,
      of_node n outs = map (fun b => merged (omap decode_report b)) (batches None (of_node n ms)).1 /\
      (pending !! n = None <-> (batches None (of_node n ms)).2 = None).
Proof.
  destruct (absorb_messages_from ms ∅ (fun _ => None)) as (outs & pending & E & Hall); [done|].
  exists outs, pending. split; [done|]. intros n. destruct (Hall n) as [Ho Hp]. split; [done|].
  unfold pending_is in Hp. destruct (pending !! n), (batches None (of_node n ms)).2; done.
Qed.
End promises.
