(* ===== verification/Ctx.v ===== *)
(** * The shared state of the stack thread

    [crates/stack/src/ctx.rs]: [StackCtx], the replay filter for events, the
    mapping of [rs-matter] errors to the kinds the controller knows, and the
    wall-clock budget every operation runs under.  All tasks that share the
    context run on one thread, so each synchronous stretch of code is one step
    on it; [ctx_events] is what has been sent on the event channel. *)

From S2P Require Import Prelude Json StackApi TlvJson Accumulate.

Definition BUSY_MESSAGE : string :=
  "device is busy (a previous commissioning attempt may still hold its failsafe for ~60s)".
Definition IM_TIMEOUT_SECS : Z := 30.
Definition INTERVIEW_TIMEOUT_SECS : Z := 120.
Definition COMMISSION_TIMEOUT_SECS : Z := 60.

(** [embassy_time]: ticks are microseconds. *)
Definition from_secs (s : Z) : Z := s * 1000000.
Definition from_millis (ms : Z) : Z := ms * 1000.
Definition saturating_duration_since (now earlier : Z) : Z := Z.max 0 (now - earlier).

(** ** Errors *)

(** [rs_matter::error::ErrorCode]: the codes the crate tells apart. *)
Inductive ErrorCode : Type :=
| ENotFound
| ERxTimeout
| ETxTimeout
| EBusy
| EInvalidData
| EOther (name : string).

(** [rs_matter::error::Error]: its code and how it is displayed. *)
Record RsError : Type := { rse_code : ErrorCode; rse_display : string }.

Definition code_name (c : ErrorCode) : string :=
  match c with
  | ENotFound => "NotFound" | ERxTimeout => "RxTimeout" | ETxTimeout => "TxTimeout"
  | EBusy => "Busy" | EInvalidData => "InvalidData" | EOther name => name
  end.

(** [ErrorCode::into] *)
Definition rs_error_of (c : ErrorCode) : RsError := {| rse_code := c; rse_display := code_name c |}.

Definition map_err (e : RsError) : StackError :=
  match rse_code e with
  | ENotFound => StackError_new NodeUnreachable "could not resolve node via mDNS"
  | ERxTimeout | ETxTimeout => StackError_new Timeout ("Error::" +:+ rse_display e)
  | EBusy => StackError_new Busy BUSY_MESSAGE
  | _ => StackError_new Sdk ("Error::" +:+ rse_display e)
  end.

Definition map_err_established (e : RsError) : StackError :=
  match rse_code e with
  | ENotFound => StackError_new Sdk "device answered with IM status NotFound (0x8b)"
  | _ => map_err e
  end.

(** When a future settles, in ticks from the start, and with what; [None] when
    it never does.  [select] polls the future before the timer. *)
Abbreviation Timed A := (option (Z * A)).

Definition within (ticks : Z) {A} (fut : Timed A) : option A :=
  match fut with Some (t, a) => if t <=? ticks then Some a else None | None => None end.

Definition with_timeout_mapped {A} (secs : Z) (fut : Timed (Result A RsError)) (map : RsError -> StackError) :
    Result A StackError :=
  match within (from_secs secs) fut with
  | Some r => Prelude.map_err map r
  | None => Err (StackError_new Timeout ("IM operation timed out after " +:+ show secs +:+ "s"))
  end.

(** ** The context *)

(** [fab_idx] and the maps by node id: the subscription established, the
    instant of the last report, the highest event number forwarded, the report
    still incomplete, the last known addresses, the supervisor task. *)
Record StackCtx : Type := {
  fab_idx : Z;
  subs : gmap Z Z;
  liveness : gmap Z Z;
  last_event : gmap Z Z;
  pending_reports : PendingReports;
  addrs : gmap Z (list string);
  supervisors : gmap Z nat;
  ctx_events : list StackEvent;
}.

Definition StackCtx_new (fab : Z) : StackCtx :=
  {| fab_idx := fab; subs := ∅; liveness := ∅; last_event := ∅; pending_reports := ∅; addrs := ∅;
     supervisors := ∅; ctx_events := [] |}.

Definition with_subs (c : StackCtx) (m : gmap Z Z) : StackCtx :=
  {| fab_idx := fab_idx c; subs := m; liveness := liveness c; last_event := last_event c;
     pending_reports := pending_reports c; addrs := addrs c; supervisors := supervisors c; ctx_events := ctx_events c |}.
Definition with_liveness (c : StackCtx) (m : gmap Z Z) : StackCtx :=
  {| fab_idx := fab_idx c; subs := subs c; liveness := m; last_event := last_event c;
     pending_reports := pending_reports c; addrs := addrs c; supervisors := supervisors c; ctx_events := ctx_events c |}.
Definition with_last_event (c : StackCtx) (m : gmap Z Z) : StackCtx :=
  {| fab_idx := fab_idx c; subs := subs c; liveness := liveness c; last_event := m;
     pending_reports := pending_reports c; addrs := addrs c; supervisors := supervisors c; ctx_events := ctx_events c |}.
Definition with_pending (c : StackCtx) (m : PendingReports) : StackCtx :=
  {| fab_idx := fab_idx c; subs := subs c; liveness := liveness c; last_event := last_event c;
     pending_reports := m; addrs := addrs c; supervisors := supervisors c; ctx_events := ctx_events c |}.
Definition with_addrs (c : StackCtx) (m : gmap Z (list string)) : StackCtx :=
  {| fab_idx := fab_idx c; subs := subs c; liveness := liveness c; last_event := last_event c;
     pending_reports := pending_reports c; addrs := m; supervisors := supervisors c; ctx_events := ctx_events c |}.
Definition with_supervisors (c : StackCtx) (m : gmap Z nat) : StackCtx :=
  {| fab_idx := fab_idx c; subs := subs c; liveness := liveness c; last_event := last_event c;
     pending_reports := pending_reports c; addrs := addrs c; supervisors := m; ctx_events := ctx_events c |}.

(** [events.send]; a closed receiver is ignored. *)
Definition send (c : StackCtx) (evs : list StackEvent) : StackCtx :=
  {| fab_idx := fab_idx c; subs := subs c; liveness := liveness c; last_event := last_event c;
     pending_reports := pending_reports c; addrs := addrs c; supervisors := supervisors c;
     ctx_events := ctx_events c ++ evs |}.

Definition note_event (last : gmap Z Z) (node_id event_number : Z) : bool * gmap Z Z :=
  match last !! node_id with
  | Some seen => if event_number <=? seen then (false, last) else (true, <[node_id := event_number]> last)
  | None => (true, <[node_id := event_number]> last)
  end.

Definition reset_event_high_water (c : StackCtx) (node_id : Z) : StackCtx :=
  with_last_event c (delete node_id (last_event c)).

(** ** Facts *)

(** [map_err] on every code. *)
Lemma map_err_kind e :
  se_kind (map_err e) =
  match rse_code e with
  | ENotFound => NodeUnreachable
  | ERxTimeout | ETxTimeout => Timeout
  | EBusy => Busy
  | EInvalidData | EOther _ => Sdk
  end.
Proof. unfold map_err. by destruct (rse_code e). Qed.

Lemma map_err_established_kind e :
  se_kind (map_err_established e) <> NodeUnreachable.
Proof. unfold map_err_established, map_err. by destruct (rse_code e). Qed.

Lemma map_err_established_args e : se_kind (map_err_established e) <> StackInvalidArguments.
Proof. unfold map_err_established, map_err. by destruct (rse_code e). Qed.

(** The outcome within the budget, or the timeout. *)
Lemma with_timeout_mapped_spec {A} secs (fut : Timed (Result A RsError)) f :
  with_timeout_mapped secs fut f =
  match fut with
  | Some (t, r) =>
      if decide (t <= from_secs secs) then Prelude.map_err f r
      else Err (StackError_new Timeout ("IM operation timed out after " +:+ show secs +:+ "s"))
  | None => Err (StackError_new Timeout ("IM operation timed out after " +:+ show secs +:+ "s"))
  end.
Proof.
  unfold with_timeout_mapped, within. destruct fut as [[t r]|]; [|done].
  case_decide as E; destruct (Z.leb_spec t (from_secs secs)); (done || lia).
Qed.

(** Above everything seen so far. *)
Definition newer (mark : option Z) (num : Z) : bool :=
  match mark with Some seen => seen <? num | None => true end.

(** The mark of a node only moves for that node, and only up. *)
Lemma note_event_spec last n num :
  note_event last n num = if newer (last !! n) num then (true, <[n := num]> last) else (false, last).
Proof.
  unfold note_event, newer. destruct (last !! n) as [seen|]; [|done].
  destruct (Z.leb_spec num seen), (Z.ltb_spec seen num); (done || lia).
Qed.
