(* ===== verification/Interact.v ===== *)
(** * Interaction-model operations

    [crates/stack/src/ops/interact.rs]: reading, interviewing, writing and
    invoking over a CASE exchange.  The exchange is [rs-matter]'s: what it
    yields is data - whether [Exchange::initiate] succeeded, whether the request
    got a response, and the response chunks with the errors that reading or
    advancing them can raise - together with the time until the operation's
    future settles.  The devices are an interface: their state and how each
    request changes it. *)

From S2P Require Import Prelude Json Prog Fs Text StackApi Gen TlvJson Accumulate Ctx.

(** ** Exchanges *)

(** The chunks of one response: what [response()] and [complete().await] give,
    until there is no next chunk. *)
Inductive Chunks (A : Type) : Type :=
| LastChunk (response : Result A RsError) (complete : Result unit RsError)
| NextChunk (response : Result A RsError) (complete : Result unit RsError) (next : Chunks A).
Arguments LastChunk {A}.
Arguments NextChunk {A}.

Record Exchange (A : Type) : Type := {
  ex_initiate : Result unit RsError;
  ex_request : Result unit RsError;  (* up to [TxOutcome::GotResponse] *)
  ex_chunks : Chunks A;
}.
Arguments ex_initiate {A}.
Arguments ex_request {A}.
Arguments ex_chunks {A}.

Fixpoint fold_chunks {A B} (f : B -> A -> Result B RsError) (cs : Chunks A) (b : B) : Result B RsError :=
  match cs with
  | LastChunk response complete =>
      let? a := response in let? b := f b a in let? _ := complete in Ok b
  | NextChunk response complete next =>
      let? a := response in let? b := f b a in let? _ := complete in fold_chunks f next b
  end.

Definition first_response {A} (cs : Chunks A) : Result A RsError :=
  match cs with LastChunk response _ | NextChunk response _ _ => response end.

(** The body of an operation on an exchange, and the mapping of its error:
    before [initiate] has succeeded a [NotFound] is a failed resolution. *)
Definition on_exchange {A B} (body : Chunks A -> Result B RsError) (ex : Exchange A) : Result B RsError :=
  let? _ := ex_initiate ex in
  let? _ := ex_request ex in
  body (ex_chunks ex).

Definition phase_mapper {A} (ex : Exchange A) (e : RsError) : StackError :=
  if is_ok (ex_initiate ex) then map_err_established e else map_err e.

Definition run_exchange {A B} (secs : Z) (body : Chunks A -> Result B RsError) (fut : Timed (Exchange A)) :
    Result B StackError :=
  match fut with
  | Some (t, ex) => with_timeout_mapped secs (Some (t, on_exchange body ex)) (phase_mapper ex)
  | None => with_timeout_mapped secs None map_err
  end.

(** ** Requests and responses *)

Record WriteStatus : Type := {
  wst_endpoint : option Z; wst_cluster : option Z; wst_attr : option Z;
  wst_status : Z;  (* [status as u8] *)
}.

(** [IMStatusCode]: the codes told apart; any other by its value and name. *)
Inductive ImStatus : Type :=
| ImSuccess
| ImBusy
| ImTimeout
| ImOther (code : Z) (name : string).

Definition im_status_u8 (s : ImStatus) : Z :=
  match s with ImSuccess => 0x00 | ImBusy => 0x9c | ImTimeout => 0x94 | ImOther c _ => c end.
Definition im_status_name (s : ImStatus) : string :=
  match s with ImSuccess => "Success" | ImBusy => "Busy" | ImTimeout => "Timeout" | ImOther _ n => n end.

Inductive CmdResp : Type :=
| CmdData (data : Tlv)
| CmdStatus (status : ImStatus).

(** A chunk of an invoke response: [None] for a bare success. *)
Abbreviation InvokeResp := (option (option (list (Result CmdResp RsError)))).

Class ImDevices (D : Type) : Type := {
  im_read : Z -> list AttributePathSpec -> bool -> D -> Timed (Exchange ReportDataResp) * D;
  im_write : Z -> Z -> Z -> Z -> list Token -> D -> Timed (Exchange (list (Result WriteStatus RsError))) * D;
  im_invoke : Z -> Z -> Z -> Z -> option Z -> list Token -> D -> Timed (Exchange InvokeResp) * D;
}.

(** [WriteBuf] of [MAX_EXCHANGE_TX_BUF_SIZE] bytes: the calls made on it, or an
    error.  The bytes are represented by the calls. *)
Class TxBuf : Type := { wb_run : Tokens -> Result (list Token) RsError }.

Definition rs_of_tlv (e : TlvError) : RsError :=
  match e with
  | InvalidTlv => rs_error_of EInvalidData
  | ReadError what => rs_error_of (EOther what)
  end.

(** It writes what fits; running out of space is an error of its own. *)
Class TxBufLaws `{TxBuf} : Prop := {
  wb_ok : forall toks, wb_run (Ok toks) = Ok toks \/ exists e, wb_run (Ok toks) = Err e;
  wb_err : forall e, exists e', wb_run (Err e) = Err e';
}.

Definition DEFAULT_TIMED_MS : Z := 10000.

Definition normalize_timed (timed_ms : option Z) (cmd : Cmd) : option Z :=
  match timed_ms with
  | Some ms => if 0 <? ms then Some ms else if cmd_is_timed cmd then Some DEFAULT_TIMED_MS else None
  | None => if cmd_is_timed cmd then Some DEFAULT_TIMED_MS else None
  end.

Definition encode_anonymous `{TxBuf} (f : Tokens) : Result (list Token) RsError :=
  let? encoded := wb_run f in
  match encoded with
  | [] => Err (rs_error_of EInvalidData)
  | _ => Ok encoded
  end.

Definition command_failed (command_name : string) (status : ImStatus) : StackError :=
  let kind := match status with ImBusy => Busy | ImTimeout => Timeout | _ => Sdk end in
  StackError_new kind
    ("Command " +:+ dquote +:+ command_name +:+ dquote +:+ " failed with IM status " +:+ im_status_name status +:+
     " (0x" +:+ hex_digits false 2 (im_status_u8 status) +:+ ")").

Section interact.
Context `{Base64} `{Tables} `{TxBuf} {D : Type} `{!ImDevices D}.

(** ** Reading *)

Definition read_chunk (acc : AttrAccumulator) (resp : ReportDataResp) : Result AttrAccumulator RsError :=
  match absorb acc resp with
  | Some acc => Ok acc
  | None => Err (rs_error_of (EOther "panic"))
  end.

Definition read_attributes_inner (node_id : Z) (paths : list AttributePathSpec) (fabric_filtered : bool) (timeout_secs : Z)
    (d : D) : Result (list (string * Value)) StackError * D :=
  let '(fut, d) := im_read node_id paths fabric_filtered d in
  (result_map into_pairs 
    (run_exchange timeout_secs (fun cs => fold_chunks read_chunk cs AttrAccumulator_default) fut), d).

Definition read_attributes (node_id : Z) (paths : list AttributePathSpec) (fabric_filtered : bool) (d : D) :
    Result (list (string * Value)) StackError * D :=
  read_attributes_inner node_id paths fabric_filtered IM_TIMEOUT_SECS d.

Definition all_attributes : AttributePathSpec := {| StackApi.ap_endpoint := None; StackApi.ap_cluster := None; ap_attribute := None |}.

Definition interview (node_id : Z) (d : D) : Result Map StackError * D :=
  let '(r, d) := read_attributes_inner node_id [all_attributes] true INTERVIEW_TIMEOUT_SECS d in
  (result_map bt_from_iter r, d).

(** ** Writing *)

(** The walk over the statuses: what is known about our path, and whether the
    walk is over. *)
Fixpoint write_statuses (endpoint cl attribute : Z) (ours : option Z) (l : list (Result WriteStatus RsError)) :
    Result (option Z) RsError :=
  match l with
  | [] => Ok ours
  | Err e :: _ => Err e
  | Ok s :: l =>
      if bool_decide (wst_endpoint s = Some endpoint) && bool_decide (wst_cluster s = Some cl) &&
         bool_decide (wst_attr s = Some attribute)
      then if negb (wst_status s =? 0) then Ok (Some (wst_status s)) else write_statuses endpoint cl attribute (Some 0) l
      else write_statuses endpoint cl attribute ours l
  end.

Definition attr_hint (cl attribute : Z) : option TypeHint :=
  and_then (cluster cl) (fun c =>
    (fun a => {| th_ty := at_ty a; th_is_list := at_is_list a; th_cluster := Some c |}) <$> attr c attribute).

Definition path_name (endpoint cl attribute : Z) : string :=
  show endpoint +:+ "/" +:+ show cl +:+ "/" +:+ show attribute.

Definition write_attribute (node_id endpoint cl attribute : Z) (value : Value) (d : D) : Result Z StackError * D :=
  match encode_anonymous (write_json value Anonymous (attr_hint cl attribute)) with
  | Err e =>
      (Err (StackError_new StackInvalidArguments
        ("Invalid value for attribute " +:+ path_name endpoint cl attribute +:+ ": Error::" +:+ rse_display e)), d)
  | Ok encoded =>
      let '(fut, d) := im_write node_id endpoint cl attribute encoded d in
      let r := run_exchange IM_TIMEOUT_SECS (fun cs =>
        let? statuses := first_response cs in write_statuses endpoint cl attribute None statuses) fut in
      (let? ours := r in
       ok_or ours (StackError_new Sdk ("device returned no write status for " +:+ path_name endpoint cl attribute)), d)
  end.

(** ** Invoking *)

Definition encode_command_args (meta : Cluster) (cmd : Cmd) (payload : Value) : Result (list Token) RsError :=
  let obj := match payload with VNull => Some [] | VObject o => Some o | _ => None end in
  match obj with
  | None => Err (rs_error_of EInvalidData)
  | Some obj =>
      let fields := st_fields <$> and_then (cmd_input cmd) (find_struct meta) in
      encode_anonymous
        match fields with
        | Some fields => write_json_named Anonymous obj fields meta
        | None => Ok [WStartStruct Anonymous; WEnd]
        end
  end.

(** [result], [got_payload] and [seen]. *)
Record InvokeState : Type := { iv_result : Result Value StackError; iv_got_payload : bool; iv_seen : nat }.

Definition invoke_init : InvokeState := {| iv_result := Ok VNull; iv_got_payload := false; iv_seen := 0 |}.

Definition response_json (output : option Struct) (meta : Cluster) (data : Tlv) : Result Value RsError :=
  Prelude.map_err rs_of_tlv
    match output with
    | Some out => tlv_to_json_named data (st_fields out) meta
    | None => tlv_to_json data
    end.

Definition invoke_response (command_name : string) (output : option Struct) (meta : Cluster) (st : InvokeState)
    (r : Result CmdResp RsError) : Result InvokeState RsError :=
  let seen := S (iv_seen st) in
  let? r := r in
  match r with
  | CmdData data =>
      let? json := response_json output meta data in
      if is_ok (iv_result st) && negb (iv_got_payload st)
      then Ok {| iv_result := Ok json; iv_got_payload := true; iv_seen := seen |}
      else Ok {| iv_result := iv_result st; iv_got_payload := iv_got_payload st; iv_seen := seen |}
  | CmdStatus ImSuccess =>
      Ok {| iv_result := iv_result st; iv_got_payload := iv_got_payload st; iv_seen := seen |}
  | CmdStatus s =>
      Ok {| iv_result := Err (command_failed command_name s); iv_got_payload := iv_got_payload st; iv_seen := seen |}
  end.

Definition invoke_chunk (command_name : string) (output : option Struct) (meta : Cluster) (st : InvokeState)
    (resp : InvokeResp) : Result InvokeState RsError :=
  match resp with
  | Some (Some responses) => try_fold (fun r st => invoke_response command_name output meta st r) responses st
  | _ => Ok st
  end.

Definition quoted (s : string) : string := dquote +:+ s +:+ dquote.

Definition invoke (node_id endpoint cl : Z) (command_name : string) (payload : Value) (timed_ms : option Z) (d : D) :
    Result Value StackError * D :=
  match cluster cl with
  | None => (Err (StackError_new StackInvalidArguments ("Cluster Id " +:+ quoted (show cl) +:+ " unknown")), d)
  | Some meta =>
      match find_command_ci meta command_name with
      | None =>
          (Err (StackError_new StackInvalidArguments
            ("Command " +:+ quoted command_name +:+ " does not exist on cluster " +:+ quoted (cl_name meta))), d)
      | Some cmd =>
          let timed := normalize_timed timed_ms cmd in
          match encode_command_args meta cmd payload with
          | Err e =>
              (Err (StackError_new StackInvalidArguments
                ("Invalid payload for command " +:+ quoted command_name +:+ ": Error::" +:+ rse_display e)), d)
          | Ok args =>
              let output := and_then (cmd_output cmd) (find_struct meta) in
              let '(fut, d) := im_invoke node_id endpoint cl (cmd_code cmd) timed args d in
              let r := run_exchange IM_TIMEOUT_SECS
                (fun cs => fold_chunks (invoke_chunk command_name output meta) cs invoke_init) fut in
              (let? st := r in iv_result st, d)
          end
      end
  end.
End interact.

(** ** What the operations answer *)

(** The responses of an exchange up to its first error, and that error. *)
Fixpoint responses {A} (cs : Chunks A) : list A * option RsError :=
  match cs with
  | LastChunk (Err e) _ => ([], Some e)
  | LastChunk (Ok a) (Err e) => ([a], Some e)
  | LastChunk (Ok a) (Ok _) => ([a], None)
  | NextChunk (Err e) _ _ => ([], Some e)
  | NextChunk (Ok a) (Err e) _ => ([a], Some e)
  | NextChunk (Ok a) (Ok _) next => let '(l, e) := responses next in (a :: l, e)
  end.

(** Folding over an exchange is folding over its responses, and then failing
    where the exchange failed. *)
Lemma fold_chunks_spec {A B} (f : B -> A -> Result B RsError) cs b :
  fold_chunks f cs b =
  let '(l, e) := responses cs in
  let? b := try_fold (fun a b => f b a) l b in match e with Some e => Err e | None => Ok b end.
Proof.
  revert b. induction cs as [r c|r c next IH]; intros b; cbn [fold_chunks responses].
  - destruct r as [a|e]; [|done]. cbn [result_bind]. destruct c; cbn [try_fold]; by destruct (f b a).
  - destruct r as [a|e]; [|done]. cbn [result_bind]. destruct c as [|e]; cbn [try_fold].
    + destruct (responses next) as [l e]. cbn [try_fold]. destruct (f b a); [|done]. cbn [result_bind]. by rewrite IH.
    + by destruct (f b a).
Qed.

(** An operation that settles in time, seen from its exchange. *)
Definition settled {A} (secs : Z) (fut : Timed (Exchange A)) : option (Exchange A) := within (from_secs secs) fut.

Lemma run_exchange_spec {A B} secs (body : Chunks A -> Result B RsError) fut :
  run_exchange secs body fut =
  match settled secs fut with
  | None => Err (StackError_new Timeout ("IM operation timed out after " +:+ show secs +:+ "s"))
  | Some ex =>
      match ex_initiate ex with
      | Err e => Err (map_err e)
      | Ok _ => Prelude.map_err map_err_established (let? _ := ex_request ex in body (ex_chunks ex))
      end
  end.
Proof.
  unfold run_exchange, settled, with_timeout_mapped, within, on_exchange, phase_mapper.
  destruct fut as [[t ex]|]; [|done]. destruct (t <=? from_secs secs); [|done]. by destruct (ex_initiate ex).
Qed.

(** What statuses say about one path. *)
Definition own (endpoint cl attribute : Z) (s : WriteStatus) : Prop :=
  wst_endpoint s = Some endpoint /\ wst_cluster s = Some cl /\ wst_attr s = Some attribute.

Definition clean (endpoint cl attribute : Z) (r : Result WriteStatus RsError) : Prop :=
  match r with Ok s => own endpoint cl attribute s -> wst_status s = 0 | Err _ => False end.

(** What a walk that started out with [ours] says in the end: the first failure
    for the path, or what it knew when nothing was wrong. *)
Definition says (endpoint cl attribute : Z) (ours : option Z) (l : list (Result WriteStatus RsError)) (code : Z) : Prop :=
  (code <> 0 /\ exists pre s post, l = pre ++ Ok s :: post /\ Forall (clean endpoint cl attribute) pre /\
     own endpoint cl attribute s /\ wst_status s = code) \/
  (Forall (clean endpoint cl attribute) l /\
    ((ours = Some code /\
       (code = 0 \/ Forall (fun r => match r with Ok s => ~ own endpoint cl attribute s | Err _ => True end) l)) \/
     (code = 0 /\ exists s, Ok s ∈ l /\ own endpoint cl attribute s))).

Section walk.
Context (ep cl at_ : Z).
Implicit Types (l : list (Result WriteStatus RsError)) (s : WriteStatus).

Lemma says_nil ours code : says ep cl at_ ours [] code <-> ours = Some code.
Proof.
  split.
  - intros [(_ & pre & s & post & Hl & _)|(_ & [[-> _]|(_ & s & Hs & _)])]; [by destruct pre | done | by apply elem_of_nil in Hs].
  - intros ->. right. split; [done|]. left. split; [done|]. by right.
Qed.

Lemma says_err ours e l code : ~ says ep cl at_ ours (Err e :: l) code.
Proof.
  intros [(_ & pre & s & post & Hl & Hpre & _)|(Hall & _)].
  - destruct pre as [|r pre]; [done|]. injection Hl as <- Hl. by apply Forall_cons in Hpre as [Hf _].
  - by apply Forall_cons in Hall as [Hf _].
Qed.

(** The first failure decides. *)
Lemma says_failure ours s l code :
  own ep cl at_ s -> wst_status s <> 0 -> says ep cl at_ ours (Ok s :: l) code <-> wst_status s = code.
Proof.
  intros Ho Hz. split.
  - intros [(Hc & pre & s' & post & Hl & Hpre & Hs & Hsc)|([Hcl _]%Forall_cons & _)]; [|by destruct Hz; apply Hcl].
    destruct pre as [|r pre]; injection Hl as <- Hl; [congruence|]. apply Forall_cons in Hpre as [Hcl _].
    by destruct Hz; apply Hcl.
  - intros <-. left. split; [done|]. by exists [], s, l.
Qed.

(** A success for the path is remembered as one. *)
Lemma says_success ours s l code :
  own ep cl at_ s -> wst_status s = 0 -> says ep cl at_ ours (Ok s :: l) code <-> says ep cl at_ (Some 0) l code.
Proof.
  intros Ho Hz. assert (Hcl : clean ep cl at_ (Ok s)) by (intros _; exact Hz). split.
  - intros [(Hc & pre & s' & post & Hl & Hpre & Hs & Hsc)|([_ Hall]%Forall_cons & Hor)].
    + destruct pre as [|r pre]; injection Hl as <- Hl; [congruence|]. apply Forall_cons in Hpre as [_ Hpre].
      left. split; [done|]. by exists pre, s', post.
    + right. split; [done|]. destruct Hor as [[-> [->|Hno]]|[-> _]]; [by left; auto | | by left; auto].
      by apply Forall_cons in Hno as [Hno _].
  - intros [(Hc & pre & s' & post & -> & Hpre & Hs)|(Hall & Hor)].
    + left. split; [done|]. exists (Ok s :: pre), s', post. split; [done|]. split; [constructor; assumption|done].
    + right. split; [constructor; assumption|]. right.
      destruct Hor as [[[= <-] _]|[-> _]]; (split; [done|]; exists s; split; [apply elem_of_cons; by left | done]).
Qed.

(** A status of another path changes nothing. *)
Lemma says_other ours s l code :
  ~ own ep cl at_ s -> says ep cl at_ ours (Ok s :: l) code <-> says ep cl at_ ours l code.
Proof.
  intros Hno. assert (Hcl : clean ep cl at_ (Ok s)) by (intros Ho; by destruct (Hno Ho)). split.
  - intros [(Hc & pre & s' & post & Hl & Hpre & Hs & Hsc)|([_ Hall]%Forall_cons & Hor)].
    + destruct pre as [|r pre]; injection Hl as <- Hl; [done|]. apply Forall_cons in Hpre as [_ Hpre].
      left. split; [done|]. by exists pre, s', post.
    + right. split; [done|]. destruct Hor as [[-> Hc]|(-> & s' & Hs' & Ho')].
      * left. split; [done|]. destruct Hc as [->|Hc]; [by left|]. right. by apply Forall_cons in Hc as [_ Hc].
      * right. split; [done|]. exists s'. split; [|done]. apply elem_of_cons in Hs' as [[= ->]|Hs']; done.
  - intros [(Hc & pre & s' & post & -> & Hpre & Hs)|(Hall & Hor)].
    + left. split; [done|]. exists (Ok s :: pre), s', post. split; [done|]. split; [constructor; assumption|done].
    + right. split; [constructor; assumption|]. destruct Hor as [[-> Hc]|(-> & s' & Hs' & Ho')].
      * left. split; [done|]. destruct Hc as [->|Hc]; [by left|]. right. by constructor.
      * right. split; [done|]. exists s'. split; [apply elem_of_cons; by right | done].
Qed.

Lemma write_statuses_Some ours l code :
  write_statuses ep cl at_ ours l = Ok (Some code) <-> says ep cl at_ ours l code.
Proof.
  revert ours. induction l as [|[s|e] l IH]; intros ours; cbn [write_statuses].
  - rewrite says_nil. split; [by intros [= ->] | by intros ->].
  - assert (Hown : bool_decide (wst_endpoint s = Some ep) && bool_decide (wst_cluster s = Some cl) &&
      bool_decide (wst_attr s = Some at_) = true <-> own ep cl at_ s).
    { unfold own. rewrite !andb_true_iff, !bool_decide_eq_true. tauto. }
    destruct (bool_decide _ && _ && _).
    + pose proof (proj1 Hown eq_refl) as Ho. destruct (Z.eqb_spec (wst_status s) 0) as [Hz|Hz]; cbn [negb].
      * by rewrite IH, says_success.
      * rewrite says_failure by done. split; [by intros [= ->] | by intros ->].
    + rewrite IH, says_other; [done|]. intros Ho. by apply Hown in Ho.
  - split; [done|]. by intros []%says_err.
Qed.
End walk.

Section contracts.
Context `{Base64} `{Tables} `{TxBuf} {D : Type} `{!ImDevices D}.
Implicit Types d : D.

(** What becomes of an exchange: the responses it got, or how it failed. *)
Definition established {A} secs (fut : Timed (Exchange A)) : Result (Chunks A) StackError :=
  match settled secs fut with
  | None => Err (StackError_new Timeout ("IM operation timed out after " +:+ show secs +:+ "s"))
  | Some ex =>
      let? _ := Prelude.map_err map_err (ex_initiate ex) in
      let? _ := Prelude.map_err map_err_established (ex_request ex) in Ok (ex_chunks ex)
  end.

Lemma run_exchange_established {A B} secs (body : Chunks A -> Result B RsError) fut :
  run_exchange secs body fut = let? cs := established secs fut in Prelude.map_err map_err_established (body cs).
Proof.
  rewrite run_exchange_spec. unfold established. destruct (settled secs fut) as [ex|]; [|done].
  destruct (ex_initiate ex); [|done]. simpl. by destruct (ex_request ex).
Qed.

Lemma established_unreachable {A} secs (fut : Timed (Exchange A)) e :
  established secs fut = Err e -> se_kind e <> StackInvalidArguments.
Proof.
  unfold established. destruct (settled secs fut) as [ex|]; [|by intros [= <-]].
  destruct (ex_initiate ex) as [|e0]; simpl; [|intros [= <-]; rewrite map_err_kind; by destruct (rse_code e0)].
  destruct (ex_request ex) as [|e0]; simpl; [done|]. intros [= <-]. by apply map_err_established_args.
Qed.

(** *** Reading *)

Lemma read_chunks_spec rs acc ops :
  holds acc ops ->
  exists acc', try_fold (fun r acc => read_chunk acc r) rs acc = Ok acc' /\
    holds acc' (ops ++ omap decode_report (concat (map reports_of rs))).
Proof.
  revert acc ops. induction rs as [|r rs IH]; intros acc ops Ha; simpl; [exists acc; by rewrite app_nil_r|].
  unfold read_chunk at 1, absorb, reports_of at 1. rewrite omap_app, app_assoc.
  destruct (rd_attr_reports r) as [l|]; simpl.
  - destruct (absorb_all_spec l acc ops Ha) as (a & -> & Hh & _). simpl. by apply IH.
  - rewrite app_nil_r. by apply IH.
Qed.

(** A read returns the merge of everything the device reported, whatever
    the chunking: all attribute reports of all chunks in order, merged as one
    report; or else the error of the exchange, with a [NotFound] meaning an
    unresolved node only before the session exists. *)
Theorem read_attributes_spec node_id paths fabric_filtered d :
  let '(fut, d') := im_read node_id paths fabric_filtered d in
  read_attributes node_id paths fabric_filtered d =
  (let? cs := established IM_TIMEOUT_SECS fut in
   match responses cs with
   | (reports, None) => Ok (merged (omap decode_report (concat (map reports_of reports))))
   | (_, Some e) => Err (map_err_established e)
   end, d').
Proof.
  unfold read_attributes, read_attributes_inner. destruct (im_read node_id paths fabric_filtered d) as [fut d']. f_equal.
  rewrite run_exchange_established. destruct (established _ fut) as [cs|]; [|done]. cbn [result_bind].
  rewrite fold_chunks_spec. destruct (responses cs) as [reports e].
  destruct (read_chunks_spec reports _ _ default_holds) as (acc & -> & [_ Hout]). cbn [result_bind].
  destruct e; [done|]. simpl. unfold into_pairs. by rewrite Hout.
Qed.

(** *** Writing *)

(** C35: what a write reports about the device.  A write answers a code exactly
    when the value could be encoded, the exchange was established, and either
    the code is the first failure the device reports for the very path written -
    whatever it answered about that path or others before or answers after - or
    the code is 0, the device answered for this path, and nothing about this
    path is a failure and nothing in the answer is malformed.  Silence about the
    path is never success. *)
Theorem write_attribute_spec node_id endpoint cl attribute value d code d' :
  write_attribute node_id endpoint cl attribute value d = (Ok code, d') <->
  exists encoded fut cs statuses,
    encode_anonymous (write_json value Anonymous (attr_hint cl attribute)) = Ok encoded /\
    im_write node_id endpoint cl attribute encoded d = (fut, d') /\
    established IM_TIMEOUT_SECS fut = Ok cs /\ first_response cs = Ok statuses /\
    ((code <> 0 /\ exists pre s post, statuses = pre ++ Ok s :: post /\ Forall (clean endpoint cl attribute) pre /\
        own endpoint cl attribute s /\ wst_status s = code) \/
     (code = 0 /\ Forall (clean endpoint cl attribute) statuses /\
        exists s, Ok s ∈ statuses /\ own endpoint cl attribute s)).
Proof.
  unfold write_attribute. destruct (encode_anonymous _) as [encoded|e]; [|by split; [|intros (? & ? & ? & ? & ? & _)]].
  destruct (im_write node_id endpoint cl attribute encoded d) as [fut d1] eqn:Ew. rewrite run_exchange_established.
  transitivity (d1 = d' /\ exists cs statuses, established IM_TIMEOUT_SECS fut = Ok cs /\
    first_response cs = Ok statuses /\ write_statuses endpoint cl attribute None statuses = Ok (Some code)).
  - destruct (established _ fut) as [cs|e]; simpl; [|by split; [|intros (_ & ? & ? & ? & _)]].
    destruct (first_response cs) as [l|e] eqn:El; simpl; [|split; [done|]; intros (_ & ? & ? & [= <-] & ? & _); congruence].
    destruct (write_statuses _ _ _ _ l) as [[c|]|e] eqn:Es; simpl; (split; [|intros (<- & ? & ? & [= <-] & El' & Es'); congruence]);
      try done. intros [= <- <-]. split; [done|]. by exists cs, l.
  - split.
    + intros (-> & cs & l & Ecs & El & Es). exists encoded, fut, cs, l. do 4 (split; [done|]).
      apply write_statuses_Some in Es as [Es|(Hall & [[? _]|Hs])]; [by left | done | right; naive_solver].
    + intros (enc & fut' & cs & l & [= <-] & Ew' & Ecs & El & Hl). rewrite Ew in Ew'. injection Ew' as <- <-.
      split; [done|]. exists cs, l. do 2 (split; [done|]). apply write_statuses_Some.
      destruct Hl as [Hl|(Hz & Hall & Hs)]; [by left | right; auto].
Qed.

(** *** Invoking *)

(** One response, decoded: a payload as JSON or a status. *)
Definition decode_answer (output : option Struct) (meta : Cluster) (r : Result CmdResp RsError) :
    Result (Value + ImStatus) RsError :=
  let? r := r in
  match r with
  | CmdData data => let? json := response_json output meta data in Ok (inl json)
  | CmdStatus s => Ok (inr s)
  end.

Definition failure (a : Value + ImStatus) : option ImStatus :=
  match a with inr ImSuccess | inl _ => None | inr s => Some s end.
Definition payload_of (a : Value + ImStatus) : option Value :=
  match a with inl v => Some v | inr _ => None end.

(** What the answers amount to: the last failure, else the first payload, else
    nothing. *)
Definition outcome (command_name : string) (answers : list (Value + ImStatus)) : Result Value StackError :=
  match last (omap failure answers) with
  | Some s => Err (command_failed command_name s)
  | None => Ok (default VNull (head (omap payload_of answers)))
  end.

Definition responses_of (resp : InvokeResp) : list (Result CmdResp RsError) := default [] (default None resp).

Definition summarises (command_name : string) (answers : list (Value + ImStatus)) (st : InvokeState) : Prop :=
  iv_result st = outcome command_name answers /\
  (iv_got_payload st = true -> omap payload_of answers <> []) /\
  (is_ok (iv_result st) = true -> iv_got_payload st = false -> omap payload_of answers = []) /\
  iv_seen st = length answers.

Lemma outcome_snoc_failure name answers s :
  failure (inr s) = Some s -> outcome name (answers ++ [inr s]) = Err (command_failed name s).
Proof. intros Hs. unfold outcome. rewrite omap_app. cbn [omap list_omap]. rewrite Hs. by rewrite last_snoc. Qed.

Lemma invoke_response_spec name output meta st answers r :
  summarises name answers st ->
  match decode_answer output meta r with
  | Ok a => exists st', invoke_response name output meta st r = Ok st' /\ summarises name (answers ++ [a]) st'
  | Err e => invoke_response name output meta st r = Err e
  end.
Proof.
  intros (Hr & Hg & Hn & Hseen). unfold decode_answer, invoke_response.
  destruct r as [[data|s]|e]; cbn [result_bind]; [| |done].
  - destruct (response_json output meta data) as [json|e]; cbn [result_bind]; [|done].
    assert (Hlen : S (iv_seen st) = length (answers ++ [inl json])) by (rewrite length_app, Hseen; simpl; lia).
    assert (Hp : omap payload_of (answers ++ [inl json]) = omap payload_of answers ++ [json]) by by rewrite omap_app.
    assert (Hf : omap failure (answers ++ [inl json]) = omap failure answers) by (rewrite omap_app; simpl; by rewrite app_nil_r).
    destruct (is_ok (iv_result st)) eqn:Eok; destruct (iv_got_payload st) eqn:Eg; cbn [andb negb];
      (eexists; split; [done|]); unfold summarises; cbn [iv_result iv_got_payload iv_seen]; unfold outcome; rewrite Hf, Hp;
      (repeat split; [| by destruct (omap payload_of answers) | try done; try congruence | done]).
    + rewrite Hr. unfold outcome. destruct (last _); [done|]. specialize (Hg eq_refl). by destruct (omap payload_of answers).
    + rewrite Hr in Eok. unfold outcome in Eok. destruct (last _); [done|]. rewrite (Hn eq_refl eq_refl). done.
    + rewrite Hr in *. unfold outcome in *. by destruct (last _).
    + rewrite Hr in *. unfold outcome in *. by destruct (last _).
  - assert (Hlen : S (iv_seen st) = length (answers ++ [inr s])) by (rewrite length_app, Hseen; simpl; lia).
    assert (Hp : omap payload_of (answers ++ [inr s]) = omap payload_of answers) by (rewrite omap_app; simpl; by rewrite app_nil_r).
    destruct s eqn:Es; [|by eexists; split; [done|]; unfold summarises; rewrite outcome_snoc_failure, Hp by done..].
    eexists. split; [done|]. unfold summarises. rewrite Hp. cbn [iv_result iv_got_payload iv_seen].
    split; [|done]. unfold outcome. rewrite Hp, omap_app. simpl. by rewrite app_nil_r.
Qed.

Lemma invoke_responses_spec name output meta rs st answers :
  summarises name answers st ->
  match collect_results (decode_answer output meta) rs with
  | Ok l => exists st', try_fold (fun r st => invoke_response name output meta st r) rs st = Ok st' /\
      summarises name (answers ++ l) st'
  | Err e => try_fold (fun r st => invoke_response name output meta st r) rs st = Err e
  end.
Proof.
  revert st answers. induction rs as [|r rs IH]; intros st answers Hs; cbn [collect_results try_fold].
  { exists st. by rewrite app_nil_r. }
  pose proof (invoke_response_spec name output meta st answers r Hs) as Hr.
  destruct (decode_answer output meta r) as [a|e]; cbn [result_bind]; [|by rewrite Hr].
  destruct Hr as (st1 & -> & Hs1). cbn [result_bind]. specialize (IH st1 _ Hs1).
  destruct (collect_results _ rs) as [l|e]; cbn [result_bind]; [|done].
  destruct IH as (st2 & E & Hs2). exists st2. split; [done|]. by rewrite <- app_assoc in Hs2.
Qed.

Lemma invoke_chunks_flat name output meta resps st :
  try_fold (fun resp st => invoke_chunk name output meta st resp) resps st =
  try_fold (fun r st => invoke_response name output meta st r) (concat (map responses_of resps)) st.
Proof.
  revert st. induction resps as [|[[rs|]|] resps IH]; intros st; simpl; [done| |apply IH..].
  change (responses_of (Some (Some rs))) with rs. rewrite try_fold_app. destruct (try_fold _ rs st); [apply IH | done].
Qed.

(** What an invoke answers.  An unknown cluster, an unknown command or a
    payload that cannot be encoded is refused as invalid arguments without any
    exchange.  Otherwise the command goes out once, with its timed budget, and
    the answer summarises all responses of all chunks: the last failure the
    device reported, else the first payload, converted by the command's output
    structure, else null.  A malformed response or a broken exchange is that
    error instead, whichever comes first. *)
Theorem invoke_spec node_id endpoint cl command_name payload timed_ms d :
  invoke node_id endpoint cl command_name payload timed_ms d =
  match and_then (cluster cl) (fun meta => pair meta <$> find_command_ci meta command_name) with
  | Some (meta, cmd) =>
      match encode_command_args meta cmd payload with
      | Ok args =>
          let '(fut, d') := im_invoke node_id endpoint cl (cmd_code cmd) (normalize_timed timed_ms cmd) args d in
          (let? cs := established IM_TIMEOUT_SECS fut in
           let '(resps, e) := responses cs in
           match collect_results (decode_answer (and_then (cmd_output cmd) (find_struct meta)) meta)
                   (concat (map responses_of resps)), e with
           | Err e, _ | Ok _, Some e => Err (map_err_established e)
           | Ok answers, None => outcome command_name answers
           end, d')
      | Err e => (Err (StackError_new StackInvalidArguments
          ("Invalid payload for command " +:+ quoted command_name +:+ ": Error::" +:+ rse_display e)), d)
      end
  | None =>
      (Err (StackError_new StackInvalidArguments
        match cluster cl with
        | Some meta => "Command " +:+ quoted command_name +:+ " does not exist on cluster " +:+ quoted (cl_name meta)
        | None => "Cluster Id " +:+ quoted (show cl) +:+ " unknown"
        end), d)
  end.
Proof.
  unfold invoke. destruct (cluster cl) as [meta|]; [|done]. cbn [and_then].
  destruct (find_command_ci meta command_name) as [cmd|]; [|done]. cbn [fmap option_fmap option_map].
  destruct (encode_command_args meta cmd payload) as [args|e]; [|done].
  destruct (im_invoke _ _ _ _ _ _ d) as [fut d']. f_equal. rewrite run_exchange_established.
  destruct (established _ fut) as [cs|e]; [|done]. cbn [result_bind].
  rewrite fold_chunks_spec. destruct (responses cs) as [resps e]. rewrite invoke_chunks_flat.
  pose proof (invoke_responses_spec command_name (and_then (cmd_output cmd) (find_struct meta)) meta
    (concat (map responses_of resps)) invoke_init []) as Hspec.
  destruct (collect_results _ _) as [answers|e'].
  - destruct Hspec as (st & -> & [Hr _]); [by repeat split|]. cbn [result_bind]. by destruct e.
  - by rewrite Hspec by (by repeat split).
Qed.

(** *** Errors that tell the caller what happened *)

(** The error of an established exchange is neither of the two kinds that speak
    about the request or about resolution. *)
Definition device_error (e : StackError) : Prop := se_kind e <> NodeUnreachable /\ se_kind e <> StackInvalidArguments.

Lemma map_err_established_device e : device_error (map_err_established e).
Proof. split; [apply map_err_established_kind | apply map_err_established_args]. Qed.

Lemma outcome_device name answers e : outcome name answers = Err e -> device_error e.
Proof.
  unfold outcome. destruct (last _) as [s|]; [|done]. intros [= <-]. unfold command_failed, device_error. by destruct s.
Qed.

(** The exchange was tried and its node was not found. *)
Definition unresolved {A} secs (fut : Timed (Exchange A)) : Prop :=
  exists ex e, settled secs fut = Some ex /\ ex_initiate ex = Err e /\ rse_code e = ENotFound.

Lemma established_error {A} secs (fut : Timed (Exchange A)) e :
  established secs fut = Err e -> se_kind e <> StackInvalidArguments /\ (se_kind e = NodeUnreachable <-> unresolved secs fut).
Proof.
  intros He. split; [by eapply established_unreachable|]. revert He. unfold established, unresolved.
  destruct (settled secs fut) as [ex|]; [|intros [= <-]; split; [done | naive_solver]].
  destruct (ex_initiate ex) as [|e0] eqn:Ei; simpl.
  - destruct (ex_request ex) as [|e0]; simpl; [done|]. intros [= <-]. split.
    + by intros Hk%map_err_established_kind.
    + intros (ex' & e & [= <-] & Hi & _). congruence.
  - intros [= <-]. rewrite map_err_kind. split.
    + intros Hk. exists ex, e0. by destruct (rse_code e0).
    + intros (ex' & e & [= <-] & Hi & Hc). rewrite Ei in Hi. injection Hi as <-. by rewrite Hc.
Qed.

Lemma established_not_unresolved {A} secs (fut : Timed (Exchange A)) cs :
  established secs fut = Ok cs -> ~ unresolved secs fut.
Proof.
  unfold established, unresolved. intros He (ex & e & Hs & Hi & _). rewrite Hs, Hi in He. done.
Qed.

Lemma device_error_iff {A} secs (fut : Timed (Exchange A)) e :
  device_error e -> ~ unresolved secs fut ->
  se_kind e <> StackInvalidArguments /\ (se_kind e = NodeUnreachable <-> unresolved secs fut).
Proof. intros [Hn Ha] Hu. tauto. Qed.

(** The two error kinds callers act on mean what they say, for every
    operation.  A read, write or invoke answers "node unreachable" exactly when
    it opened an exchange and the node could not be resolved - never because a
    device answered NotFound, never because a command failed.  A write or invoke
    answers "invalid arguments" exactly when it did not touch the network at
    all: the devices are as before because no request was made. *)
Theorem error_kinds_mean_what_they_say node_id endpoint cl attribute command_name paths value timed_ms d e :
  (fst (read_attributes node_id paths true d) = Err e ->
     se_kind e <> StackInvalidArguments /\
     (se_kind e = NodeUnreachable <-> unresolved IM_TIMEOUT_SECS (im_read node_id paths true d).1)) /\
  (fst (write_attribute node_id endpoint cl attribute value d) = Err e ->
     match encode_anonymous (write_json value Anonymous (attr_hint cl attribute)) with
     | Err _ => se_kind e = StackInvalidArguments /\ snd (write_attribute node_id endpoint cl attribute value d) = d
     | Ok encoded =>
         se_kind e <> StackInvalidArguments /\
         (se_kind e = NodeUnreachable <->
            unresolved IM_TIMEOUT_SECS (im_write node_id endpoint cl attribute encoded d).1)
     end) /\
  (fst (invoke node_id endpoint cl command_name value timed_ms d) = Err e ->
     (se_kind e = StackInvalidArguments /\ snd (invoke node_id endpoint cl command_name value timed_ms d) = d) \/
     (exists meta cmd args, cluster cl = Some meta /\ find_command_ci meta command_name = Some cmd /\
        encode_command_args meta cmd value = Ok args /\ se_kind e <> StackInvalidArguments /\
        (se_kind e = NodeUnreachable <->
           unresolved IM_TIMEOUT_SECS
             (im_invoke node_id endpoint cl (cmd_code cmd) (normalize_timed timed_ms cmd) args d).1))).
Proof.
  split; [|split].
  - intros Hr. unfold read_attributes, read_attributes_inner in Hr. destruct (im_read node_id paths true d) as [fut d']. simpl in *.
    rewrite run_exchange_established in Hr. destruct (established _ fut) as [cs|e'] eqn:He.
    + cbn [result_bind] in Hr. destruct (fold_chunks _ _ _) as [|e1]; [done|]. injection Hr as <-.
      apply device_error_iff; [apply map_err_established_device | by eapply established_not_unresolved].
    + injection Hr as <-. by apply established_error.
  - unfold write_attribute. destruct (encode_anonymous _) as [encoded|e0]; [|by intros [= <-]].
    destruct (im_write node_id endpoint cl attribute encoded d) as [fut d']. cbn [fst snd]. rewrite run_exchange_established.
    destruct (established _ fut) as [cs|e'] eqn:He; [|intros [= <-]; by apply established_error].
    cbn [result_bind]. apply established_not_unresolved in He. intros Hr. apply device_error_iff; [|done].
    destruct (result_bind (first_response cs) _) as [[c|]|e1]; simpl in Hr; [done| |];
      injection Hr as <-; [done | apply map_err_established_device].
  - rewrite invoke_spec. destruct (cluster cl) as [meta|]; cbn [and_then]; [|intros [= <-]; by left].
    destruct (find_command_ci meta command_name) as [cmd|] eqn:Ec; cbn [fmap option_fmap option_map]; [|intros [= <-]; by left].
    destruct (encode_command_args meta cmd value) as [args|e0] eqn:Ea; [|intros [= <-]; by left].
    intros Hr. right. exists meta, cmd, args. do 3 (split; [done|]). revert Hr.
    destruct (im_invoke _ _ _ _ _ args d) as [fut d']. cbn [fst].
    destruct (established _ fut) as [cs|e'] eqn:He; [|intros [= <-]; by apply established_error].
    cbn [result_bind]. apply established_not_unresolved in He. destruct (responses cs) as [resps ce]. intros Hr.
    apply device_error_iff; [|done]. destruct (collect_results _ _) as [answers|e1].
    + destruct ce as [e1|]; [injection Hr as <-; apply map_err_established_device | by eapply outcome_device].
    + injection Hr as <-. apply map_err_established_device.
Qed.
End contracts.

(** A node that cannot be resolved, reached by nothing. *)
Definition Unreachable : ImDevices unit := {|
  im_read _ _ _ _ := (Some (1, {| ex_initiate := Err (rs_error_of ENotFound); ex_request := Ok tt;
    ex_chunks := LastChunk (Err (rs_error_of ENotFound)) (Ok tt) |}), tt);
  im_write _ _ _ _ _ _ := (None, tt);
  im_invoke _ _ _ _ _ _ _ := (None, tt) |}.

Definition RoomyBuf : TxBuf := {| wb_run toks := match toks with Ok l => Ok l | Err e => Err (rs_error_of EInvalidData) end |}.

Lemma error_kinds_witness :
  let e := StackError_new NodeUnreachable "could not resolve node via mDNS" in
  fst (@read_attributes HexBase64 EmptyTables unit Unreachable 5 [] true tt) = Err e /\
  (se_kind e = NodeUnreachable <-> unresolved IM_TIMEOUT_SECS (@im_read unit Unreachable 5 [] true tt).1).
Proof.
  intros e. split; [reflexivity|].
  destruct (@error_kinds_mean_what_they_say HexBase64 EmptyTables RoomyBuf unit Unreachable 5 0 6 0 "on" [] VNull None tt e)
    as [Hread _].
  destruct (Hread eq_refl) as [_ Hu]. exact Hu.
Defined.
