(* ===== verification/Reports.v ===== *)
(** * Subscription reports

    The second half of [crates/stack/src/reports.rs]: [ReportSink], the handler
    of unsolicited [ReportData] messages, with the conversion of events.  The
    attribute half of a message is [Accumulate]'s. *)

From S2P Require Import Prelude Json Prog Fs Text StackApi Gen TlvJson Accumulate Ctx.

Inductive IMStatusCode : Type := InvalidSubscription.

(** What the handler is told about the session a report arrived on; node and
    fabric are authenticated, the subscription id is the peer's claim. *)
Record Subscription : Type := {
  sub_subscription_id : option Z;
  sub_fabric_idx : Z;
  sub_peer_node_id : Z;
}.

(** A [SystemTime] as nanoseconds from the Unix epoch. *)
Definition unix_millis (t : Z) : Z :=
  if t <? 0 then 0 else unwrap_or 0 (try_from_i 64 (t / 1000000)).

Definition convert_timestamp (wall : Z) (ts : EventDataTimestamp) : Z * Z :=
  match ts with
  | EpochTimestamp ms => (unwrap_or i64_max (try_from_i 64 ms), 1)
  | SystemTimestamp ms => (unwrap_or i64_max (try_from_i 64 ms), 0)
  | DeltaEpochTimestamp _ | DeltaSystemTimestamp _ => (unix_millis wall, 2)
  end.

(** [f] on every event that parses, in wire order. *)
Definition parsed_events (report : ReportDataResp) : list EventData :=
  match rd_event_reports report with
  | None => []
  | Some events => omap (fun r => match r with Ok (EventRespData data) => Some data | _ => None end) events
  end.

Definition walk_events {S} (report : ReportDataResp) (f : S -> EventData -> S) (s : S) : S :=
  fold_left f (parsed_events report) s.

Section sink.
Context `{Base64} `{Tables}.

Definition event_json (cluster_id event_id : Z) (payload : option Tlv) : Value :=
  match payload with
  | None => VNull
  | Some payload =>
      let named := and_then (cluster cluster_id) (fun c => (fun e => (c, e)) <$> event c event_id) in
      let converted :=
        match named with
        | Some (c, e) => tlv_to_json_named payload (evt_fields e) c
        | None => tlv_to_json payload
        end in
      match converted with Ok v => v | Err _ => VNull end
  end.

Definition node_event (wall : Z) (data : EventData) : NodeEventData :=
  let '(timestamp, timestamp_type) := convert_timestamp wall (ed_timestamp data) in
  let cluster_id := unwrap_or 0 (ep_cluster (ed_path data)) in
  let event_id := unwrap_or 0 (ep_event (ed_path data)) in
  {| ev_endpoint_id := unwrap_or 0 (ep_endpoint (ed_path data));
     ev_cluster_id := cluster_id;
     ev_event_id := event_id;
     ev_event_number := ed_event_number data;
     ev_priority := ed_priority data;
     ev_timestamp := timestamp;
     ev_timestamp_type := timestamp_type;
     ev_data := event_json cluster_id event_id (ed_data data) |}.

(** Forward an event unless it is a replay. *)
Definition forward_event (wall node_id : Z) (c : StackCtx) (data : EventData) : StackCtx :=
  let '(fresh, last) := note_event (last_event c) node_id (ed_event_number data) in
  let c := with_last_event c last in
  if fresh then send c [NodeEvent node_id (node_event wall data)] else c.

(** [None] when absorbing panics. *)
Definition handle_report (now wall : Z) (c : StackCtx) (sub : Subscription) (report : ReportDataResp) :
    option (Result unit IMStatusCode * StackCtx) :=
  match sub_subscription_id sub with
  | None => Some (Err InvalidSubscription, c)
  | Some sub_id =>
      if negb (sub_fabric_idx sub =? fab_idx c) then Some (Err InvalidSubscription, c)
      else
        let node_id := sub_peer_node_id sub in
        if negb (bool_decide (subs c !! node_id = Some sub_id)) then Some (Err InvalidSubscription, c)
        else
          let c := with_liveness c (<[node_id := now]> (liveness c)) in
          match absorb_message (pending_reports c) node_id report with
          | None => None
          | Some (changes, pending) =>
              let c := with_pending c pending in
              let c :=
                match changes with
                | Some ((_ :: _) as changes) => send c [AttributesChanged node_id changes]
                | _ => c
                end in
              Some (Ok tt, walk_events report (forward_event wall node_id) c)
          end
  end.
End sink.

(** ** What the sink promises *)

(** The events among [evs] that are not replays, given the mark before. *)
Fixpoint fresh_events (mark : option Z) (evs : list EventData) : list EventData :=
  match evs with
  | [] => []
  | e :: evs =>
      if newer mark (ed_event_number e) then e :: fresh_events (Some (ed_event_number e)) evs
      else fresh_events mark evs
  end.

Fixpoint mark_after (mark : option Z) (evs : list EventData) : option Z :=
  match evs with
  | [] => mark
  | e :: evs => mark_after (if newer mark (ed_event_number e) then Some (ed_event_number e) else mark) evs
  end.

Lemma mark_after_ge mark evs m : mark = Some m -> exists m', mark_after mark evs = Some m' /\ m <= m'.
Proof.
  revert mark m. induction evs as [|e evs IH]; intros mark m ->; simpl; [exists m; split; [done | lia]|].
  destruct (Z.ltb_spec m (ed_event_number e)) as [Hlt|Hge].
  - destruct (IH (Some (ed_event_number e)) _ eq_refl) as (m' & -> & Hm). exists m'. split; [done | lia].
  - destruct (IH (Some m) _ eq_refl) as (m' & -> & Hm). by exists m'.
Qed.

(** Numbers of the forwarded events strictly increase, from above the mark. *)
Lemma fresh_events_sorted mark evs :
  StronglySorted Z.lt (map ed_event_number (fresh_events mark evs)) /\
  Forall (fun e => newer mark (ed_event_number e) = true) (fresh_events mark evs).
Proof.
  revert mark. induction evs as [|e evs IH]; intros mark; simpl; [by repeat constructor|].
  destruct (newer mark (ed_event_number e)) eqn:Hnew; [|apply IH].
  destruct (IH (Some (ed_event_number e))) as [Hs Hall]. simpl in Hall. split.
  - constructor; [done|]. apply (Forall_fmap _ _ (fresh_events _ _)). eapply Forall_impl; [exact Hall|]. intros x Hx. by apply Z.ltb_lt.
  - constructor; [done|]. eapply Forall_impl; [exact Hall|]. intros x Hx%Z.ltb_lt.
    destruct mark as [m|]; [|done]. simpl in *. z_bools. apply Z.ltb_lt. lia.
Qed.

(** Nothing new is held back: an event above the mark and above all earlier
    ones is forwarded. *)
Lemma fresh_events_complete mark pre e post :
  newer mark (ed_event_number e) = true ->
  Forall (fun x => ed_event_number x < ed_event_number e) pre ->
  e ∈ fresh_events mark (pre ++ e :: post).
Proof.
  revert mark. induction pre as [|x pre IH]; intros mark He Hpre; simpl; [rewrite He; set_solver|].
  apply Forall_cons in Hpre as [Hx Hpre]. destruct (newer mark (ed_event_number x)); [|by apply IH].
  apply elem_of_cons. right. apply IH; [|done]. by apply Z.ltb_lt.
Qed.

Section sink_facts.
Context `{Base64} `{Tables}.

Lemma forward_event_eq wall n c data :
  forward_event wall n c data =
  if newer (last_event c !! n) (ed_event_number data)
  then send (with_last_event c (<[n := ed_event_number data]> (last_event c))) [NodeEvent n (node_event wall data)]
  else c.
Proof. unfold forward_event. rewrite note_event_spec. destruct (newer _ _); [done | by destruct c]. Qed.

Lemma walk_forward wall n evs c :
  let c' := fold_left (forward_event wall n) evs c in
  c' = {| fab_idx := fab_idx c; subs := subs c; liveness := liveness c;
          last_event := last_event c'; pending_reports := pending_reports c; addrs := addrs c;
          supervisors := supervisors c;
          ctx_events := ctx_events c ++ map (fun e => NodeEvent n (node_event wall e)) (fresh_events (last_event c !! n) evs) |} /\
  last_event c' !! n = mark_after (last_event c !! n) evs /\
  forall m, m <> n -> last_event c' !! m = last_event c !! m.
Proof.
  revert c. induction evs as [|e evs IH]; intros c; cbn zeta.
  { simpl. rewrite app_nil_r. split; [by destruct c | done]. }
  cbn [fold_left fresh_events mark_after]. rewrite (forward_event_eq wall n c e). destruct (newer _ _).
  - set (c1 := send _ _). destruct (IH c1) as (E & M & O). rewrite M. split; [|split].
    + rewrite E at 1. unfold c1. cbn [send with_last_event last_event fab_idx subs liveness pending_reports addrs
        supervisors ctx_events map]. rewrite lookup_insert_eq, <- app_assoc. done.
    + unfold c1. cbn [send with_last_event last_event]. by rewrite lookup_insert_eq.
    + intros m Hm. rewrite O by done. unfold c1. cbn [send with_last_event last_event]. by rewrite lookup_insert_ne.
  - apply IH.
Qed.

Definition accepted (c : StackCtx) (sub : Subscription) (id : Z) : Prop :=
  sub_subscription_id sub = Some id /\ sub_fabric_idx sub = fab_idx c /\ subs c !! sub_peer_node_id sub = Some id.

Definition pending_ok (p : PendingReports) : Prop := forall n a, p !! n = Some a -> exists ops, holds a ops.

Lemma absorb_message_ok p n report :
  pending_ok p -> exists changes p', absorb_message p n report = Some (changes, p') /\ pending_ok p' /\
    forall m, m <> n -> p' !! m = p !! m.
Proof.
  intros Hp. unfold absorb_message, absorb.
  assert (exists ops, holds (default AttrAccumulator_default (p !! n)) ops) as [ops Ha].
  { destruct (p !! n) eqn:E; [by eapply Hp | exists []; apply default_holds]. }
  assert (exists a ops', match rd_attr_reports report with
      | Some reports => absorb_all (default AttrAccumulator_default (p !! n)) reports
      | None => Some (default AttrAccumulator_default (p !! n)) end = Some a /\ holds a ops') as (a & ops' & -> & Ha').
  { destruct (rd_attr_reports report) as [rs|]; [|eauto].
    destruct (absorb_all_spec rs _ _ Ha) as (a & E & Hh & _). eauto. }
  case_decide; eexists _, _; (split; [done|]); split.
  - intros m b [[<- <-]|[Hne Hb]]%lookup_insert_Some; [eauto|]. rewrite lookup_delete_ne in Hb by done. eauto.
  - intros m Hm. by rewrite lookup_insert_ne, lookup_delete_ne by done.
  - intros m b [Hne Hb]%lookup_delete_Some. eauto.
  - intros m Hm. by rewrite lookup_delete_ne by done.
Qed.

(** What [handle_report] can come to: the report is turned away, or taken. *)
Definition report_outcome now wall (c : StackCtx) sub report : Prop :=
  let n := sub_peer_node_id sub in
  ((~ exists id, accepted c sub id) /\
   handle_report now wall c sub report = Some (Err InvalidSubscription, c)) \/
  (exists id c' changes,
     accepted c sub id /\ handle_report now wall c sub report = Some (Ok tt, c') /\
     absorb_message (pending_reports c) n report = Some (changes, pending_reports c') /\
     liveness c' = <[n := now]> (liveness c) /\ subs c' = subs c /\ addrs c' = addrs c /\ supervisors c' = supervisors c /\
     ctx_events c' = ctx_events c ++
       match changes with Some ((_ :: _) as changes) => [AttributesChanged n changes] | _ => [] end ++
       map (fun e => NodeEvent n (node_event wall e)) (fresh_events (last_event c !! n) (parsed_events report)) /\
     last_event c' !! n = mark_after (last_event c !! n) (parsed_events report) /\
     forall m, m <> n -> last_event c' !! m = last_event c !! m /\ pending_reports c' !! m = pending_reports c !! m).

Lemma handle_report_outcome now wall (c : StackCtx) sub report :
  pending_ok (pending_reports c) -> report_outcome now wall c sub report.
Proof.
  intros Hp. unfold report_outcome. set (n := sub_peer_node_id sub). unfold handle_report, accepted. fold n.
  destruct (sub_subscription_id sub) as [id|]; [|left; split; [naive_solver | done]].
  destruct (Z.eqb_spec (sub_fabric_idx sub) (fab_idx c)) as [Hf|Hf]; [|left; split; [naive_solver | done]].
  case_bool_decide as Hs; [|left; split; [naive_solver | done]]. right. exists id. cbn [negb].
  destruct (absorb_message_ok _ n report Hp) as (changes & p' & Ha & Hp' & Hother).
  cbn [pending_reports with_liveness]. rewrite Ha. unfold walk_events.
  set (c1 := match changes with Some ((_ :: _) as ch) => send _ _ | _ => _ end).
  assert (Hc1 : c1 = {| fab_idx := fab_idx c; subs := subs c; liveness := <[n := now]> (liveness c);
      last_event := last_event c; pending_reports := p'; addrs := addrs c; supervisors := supervisors c;
      ctx_events := ctx_events c ++ match changes with Some ((_ :: _) as ch) => [AttributesChanged n ch] | _ => [] end |}).
  { unfold c1. destruct changes as [[|]|]; [| done |];
    unfold with_pending, with_liveness; simpl; by rewrite app_nil_r. }
  destruct (walk_forward wall n (parsed_events report) c1) as (E & M & O). rewrite Hc1 in E, M, O. simpl in E, M, O.
  eexists _, changes. split; [done|]. split; [done|]. rewrite Hc1, E. simpl.
  do 5 (split; [done|]). rewrite app_assoc. split; [done|]. split; [exact M|]. auto.
Qed.

(** C18: which reports are believed, and what they do.  A report is accepted
    exactly when it names a subscription, came over our fabric, and the
    authenticated peer is the node this very subscription was recorded for;
    every other report is answered [InvalidSubscription] and changes nothing
    at all.  An accepted report never panics, marks its node as alive, releases
    its completed attribute changes and then exactly its new events, and
    touches no other node: no other node's entry in any map, no event about
    any other node. *)
Theorem handle_report_spec now wall (c : StackCtx) sub report :
  pending_ok (pending_reports c) ->
  let n := sub_peer_node_id sub in
  ((~ exists id, accepted c sub id) /\
   handle_report now wall c sub report = Some (Err InvalidSubscription, c)) \/
  (exists id c' changes,
     accepted c sub id /\ handle_report now wall c sub report = Some (Ok tt, c') /\
     absorb_message (pending_reports c) n report = Some (changes, pending_reports c') /\
     liveness c' = <[n := now]> (liveness c) /\ subs c' = subs c /\ addrs c' = addrs c /\ supervisors c' = supervisors c /\
     ctx_events c' = ctx_events c ++
       match changes with Some ((_ :: _) as changes) => [AttributesChanged n changes] | _ => [] end ++
       map (fun e => NodeEvent n (node_event wall e)) (fresh_events (last_event c !! n) (parsed_events report)) /\
     last_event c' !! n = mark_after (last_event c !! n) (parsed_events report) /\
     forall m, m <> n -> last_event c' !! m = last_event c !! m /\ pending_reports c' !! m = pending_reports c !! m).
Proof. apply handle_report_outcome. Qed.
End sink_facts.

(** A report nobody asked for, on an otherwise empty context. *)
Lemma handle_report_spec_witness :
  let sub := {| sub_subscription_id := Some 1; sub_fabric_idx := 1; sub_peer_node_id := 5 |} in
  let report := {| rd_subscription_id := Some 1; rd_attr_reports := None; rd_event_reports := None; rd_more_chunks := None |} in
  @handle_report HexBase64 EmptyTables 0 0 (StackCtx_new 1) sub report = Some (Err InvalidSubscription, StackCtx_new 1).
Proof.
  intros sub report.
  destruct (@handle_report_spec HexBase64 EmptyTables 0 0 (StackCtx_new 1) sub report) as [[_ E]|(id & c' & ch & Hacc & _)].
  - intros n a Ha. discriminate Ha.
  - exact E.
  - destruct Hacc as (_ & _ & Hs). discriminate Hs.
Defined.
