(* ===== verification/Supervisor.v ===== *)
(** * Supervisors

    [crates/stack/src/supervisor.rs] and the control requests of
    [crates/stack/src/runtime.rs]: one task per commissioned node subscribes,
    publishes the priming snapshot, watches for silence and retries with
    backoff.  A task is its phase: between two awaits it runs one synchronous
    stretch of code, which is one step on the shared context.  Dropping a task
    only marks it; the executor drops its future, and with it the
    [SubscriptionGuard], in a step of its own.  The steps of all tasks, of the
    control requests and of [ReportSink] interleave in any order. *)

From S2P Require Import Prelude Json Prog Fs Text StackApi Gen TlvJson Accumulate Ctx Reports.

Definition MIN_INTERVAL_FLOOR_SECS : Z := 0.
Definition MAX_INTERVAL_CEIL_SECS : Z := 60.
Definition LIVENESS_SLACK_SECS : Z := 15.
Definition LIVENESS_POLL_SECS : Z := 5.
Definition BACKOFF_SCHEDULE_SECS : list Z := [2; 5; 10; 30; 60].
Definition usize_max : Z := 2 ^ 64 - 1.

Definition liveness_deadline (max_int : Z) : Z := from_secs (max_int + LIVENESS_SLACK_SECS).

Definition backoff_delay (idx : Z) : Z :=
  from_secs (default 0 (BACKOFF_SCHEDULE_SECS !! Z.to_nat (Z.min idx (Z.of_nat (length BACKOFF_SCHEDULE_SECS) - 1)))).

Definition saturating_add_usize (a b : Z) : Z := Z.min (a + b) usize_max.

Definition liveness_expired (last : option Z) (established_at now deadline : Z) : bool :=
  saturating_duration_since now (unwrap_or established_at last) >=? deadline.

Definition disown (subs : gmap Z Z) (node_id sub_id : Z) : gmap Z Z :=
  if bool_decide (subs !! node_id = Some sub_id) then delete node_id subs else subs.

(** [Drop for SubscriptionGuard] *)
Definition guard_drop (c : StackCtx) (node_id sub_id : Z) : StackCtx :=
  let c := with_subs c (disown (subs c) node_id sub_id) in
  with_liveness c (delete node_id (liveness c)).

Definition forget_node (c : StackCtx) (node_id : Z) : StackCtx :=
  let c := with_last_event c (delete node_id (last_event c)) in
  let c := with_addrs c (delete node_id (addrs c)) in
  with_pending c (forget (pending_reports c) node_id).

Record SubscribeEstablished : Type := { est_subscription_id : Z; est_max_int : Z }.

(** Where a supervisor is suspended.  [backoff_idx] is the loop variable; in
    [Watching] it has been reset. *)
Inductive Phase : Type :=
| Spawned
| Requesting (backoff_idx : Z)                            (* no chunk received yet *)
| Priming (backoff_idx : Z) (acc : AttrAccumulator)       (* in [chunk.complete().await] *)
| Watching (est : SubscribeEstablished) (established_at : Z)
| BackingOff (backoff_idx : Z) (until : Z).

Record Task : Type := { tk_node : Z; tk_phase : Phase; tk_cancelled : bool }.

(** What the await a task is suspended in has come back with. *)
Inductive Wake : Type :=
| Polled                                    (* the first poll of a spawned task *)
| GotChunk (report : ReportDataResp)        (* a response, or the next chunk *)
| Established (est : SubscribeEstablished)
| Failed (e : StackError)                   (* any error of the exchange, or the timeout *)
| TimerFired.

Record Sys : Type := { sys_ctx : StackCtx; sys_tasks : gmap nat Task; sys_next : nat; sys_open : bool }.

Definition sys_init (fab : Z) : Sys :=
  {| sys_ctx := StackCtx_new fab; sys_tasks := ∅; sys_next := 0; sys_open := true |}.

Section supervisor.
Context `{Base64} `{Tables}.

(** [establish] up to its first await. *)
Definition begin_establish (c : StackCtx) (node_id : Z) : StackCtx :=
  let c := reset_event_high_water c node_id in
  with_pending c (forget (pending_reports c) node_id).

(** A chunk of the priming report: absorb its attributes, note its events. *)
Definition absorb_priming (c : StackCtx) (node_id : Z) (acc : AttrAccumulator) (report : ReportDataResp) :
    option (AttrAccumulator * StackCtx) :=
  match absorb acc report with
  | None => None
  | Some acc =>
      Some (acc, walk_events report
        (fun c data => with_last_event c (note_event (last_event c) node_id (ed_event_number data)).2) c)
  end.

(** [establish] from [Established] to its return. *)
Definition finish_establish (c : StackCtx) (node_id : Z) (acc : AttrAccumulator) (est : SubscribeEstablished)
    (now : Z) : StackCtx :=
  let c := with_subs c (<[node_id := est_subscription_id est]> (subs c)) in
  let c := with_liveness c (<[node_id := now]> (liveness c)) in
  let attributes := bt_from_iter (into_pairs acc) in
  send c [NodeState node_id (Connected (est_max_int est)); PrimingSnapshot node_id attributes].

(** One round of [watch_liveness]: whether it returns. *)
Definition watch_poll (c : StackCtx) (node_id : Z) (est : SubscribeEstablished) (established_at now : Z) : bool :=
  liveness_expired (liveness c !! node_id) established_at now (liveness_deadline (est_max_int est)).

(** One resumption of [supervise]: [None] when the wake-up does not fit the
    await the task is in (or on a panic). *)
Definition supervise_step (now : Z) (wake : Wake) (c : StackCtx) (node_id : Z) (p : Phase) :
    option (StackCtx * Phase) :=
  let fail idx :=
    Some (send c [NodeState node_id Reconnecting], BackingOff idx (now + backoff_delay idx)) in
  match p, wake with
  | Spawned, Polled => Some (begin_establish c node_id, Requesting 0)
  | Requesting idx, GotChunk report =>
      match absorb_priming c node_id AttrAccumulator_default report with
      | Some (acc, c) => Some (c, Priming idx acc)
      | None => None
      end
  | Priming idx acc, GotChunk report =>
      match absorb_priming c node_id acc report with
      | Some (acc, c) => Some (c, Priming idx acc)
      | None => None
      end
  | Priming _ acc, Established est => Some (finish_establish c node_id acc est now, Watching est now)
  | Requesting idx, Failed _ => fail idx
  | Priming idx _, Failed _ => fail idx
  | Watching est at_, TimerFired =>
      if watch_poll c node_id est at_ now then
        let c := guard_drop c node_id (est_subscription_id est) in
        let c := send c [NodeState node_id Reconnecting] in
        Some (begin_establish c node_id, Requesting 0)
      else Some (c, p)
  | BackingOff idx until, TimerFired =>
      if until <=? now then Some (begin_establish c node_id, Requesting (saturating_add_usize idx 1)) else None
  | _, _ => None
  end.

(** The executor drops a cancelled task's future. *)
Definition drop_phase (c : StackCtx) (node_id : Z) (p : Phase) : StackCtx :=
  match p with Watching est _ => guard_drop c node_id (est_subscription_id est) | _ => c end.

(** ** The steps *)

Inductive Step : Type :=
| Start (node_id : Z)                                     (* [StackRequest::StartSupervisor] *)
| Stop (node_id : Z)                                      (* [StackRequest::StopSupervisor] *)
| ShutdownRequest                                         (* [StackRequest::Shutdown] *)
| Wakeup (t : nat) (now : Z) (wake : Wake)                (* a live task is resumed *)
| DropFuture (t : nat)                                    (* a cancelled task is dropped *)
| Report (now wall : Z) (sub : Subscription) (report : ReportDataResp)
| Commissioned (node_id : Z) (addresses : list string).   (* [ops::commission] records the address *)

Definition cancel (tasks : gmap nat Task) (t : nat) : gmap nat Task :=
  alter (fun k => {| tk_node := tk_node k; tk_phase := tk_phase k; tk_cancelled := true |}) t tasks.

Definition cancel_opt (tasks : gmap nat Task) (t : option nat) : gmap nat Task :=
  match t with Some t => cancel tasks t | None => tasks end.

Definition with_ctx (s : Sys) (c : StackCtx) (tasks : gmap nat Task) : Sys :=
  {| sys_ctx := c; sys_tasks := tasks; sys_next := sys_next s; sys_open := sys_open s |}.

Definition start_supervisor (s : Sys) (node_id : Z) : Sys :=
  let c := sys_ctx s in
  let t := sys_next s in
  let tasks := <[t := {| tk_node := node_id; tk_phase := Spawned; tk_cancelled := false |}]> (sys_tasks s) in
  let displaced := supervisors c !! node_id in
  {| sys_ctx := with_supervisors c (<[node_id := t]> (supervisors c));
     sys_tasks := cancel_opt tasks displaced; sys_next := S t; sys_open := sys_open s |}.

Definition stop_supervisor (s : Sys) (node_id : Z) : Sys :=
  let c := sys_ctx s in
  let task := supervisors c !! node_id in
  let c := with_supervisors c (delete node_id (supervisors c)) in
  with_ctx s (forget_node c node_id) (cancel_opt (sys_tasks s) task).

Definition shutdown (s : Sys) : Sys :=
  let c := sys_ctx s in
  {| sys_ctx := with_supervisors c ∅;
     sys_tasks := map_fold (fun _ t tasks => cancel tasks t) (sys_tasks s) (supervisors c);
     sys_next := sys_next s; sys_open := false |}.

Definition sys_step (l : Step) (s : Sys) : option Sys :=
  match l with
  | Start n => if sys_open s then Some (start_supervisor s n) else None
  | Stop n => if sys_open s then Some (stop_supervisor s n) else None
  | ShutdownRequest => if sys_open s then Some (shutdown s) else None
  | Wakeup t now wake =>
      match sys_tasks s !! t with
      | Some k =>
          if tk_cancelled k then None
          else
            match supervise_step now wake (sys_ctx s) (tk_node k) (tk_phase k) with
            | Some (c, p) =>
                Some (with_ctx s c
                  (<[t := {| tk_node := tk_node k; tk_phase := p; tk_cancelled := false |}]> (sys_tasks s)))
            | None => None
            end
      | None => None
      end
  | DropFuture t =>
      match sys_tasks s !! t with
      | Some k =>
          if tk_cancelled k then
            Some (with_ctx s (drop_phase (sys_ctx s) (tk_node k) (tk_phase k)) (delete t (sys_tasks s)))
          else None
      | None => None
      end
  | Report now wall sub report =>
      match handle_report now wall (sys_ctx s) sub report with
      | Some (_, c) => Some (with_ctx s c (sys_tasks s))
      | None => None
      end
  | Commissioned n l => Some (with_ctx s (with_addrs (sys_ctx s) (<[n := l]> (addrs (sys_ctx s)))) (sys_tasks s))
  end.

Fixpoint sys_run (ls : list Step) (s : Sys) : option Sys :=
  match ls with
  | [] => Some s
  | l :: ls => match sys_step l s with Some s => sys_run ls s | None => None end
  end.
End supervisor.

(** ** What one resumption does *)

Definition watching (p : Phase) : option Z :=
  match p with Watching est _ => Some (est_subscription_id est) | _ => None end.

Definition phase_ok (p : Phase) : Prop :=
  match p with Priming _ acc => exists ops, holds acc ops | _ => True end.

(** How a resumption moves the subscription, and what it announces. *)
Inductive Effect (n : Z) (c : StackCtx) (p : Phase) (c' : StackCtx) (p' : Phase) : Prop :=
| Quiet :
    subs c' = subs c -> liveness c' = liveness c -> ctx_events c' = ctx_events c -> watching p' = watching p ->
    Effect n c p c' p'
| AttemptFailed :
    subs c' = subs c -> liveness c' = liveness c ->
    ctx_events c' = ctx_events c ++ [NodeState n Reconnecting] -> watching p = None -> watching p' = None ->
    Effect n c p c' p'
| Subscribed (est : SubscribeEstablished) (now : Z) (attributes : Map) :
    watching p = None -> p' = Watching est now ->
    subs c' = <[n := est_subscription_id est]> (subs c) -> liveness c' = <[n := now]> (liveness c) ->
    ctx_events c' = ctx_events c ++ [NodeState n (Connected (est_max_int est)); PrimingSnapshot n attributes] ->
    Effect n c p c' p'
| Lost (id : Z) :
    watching p = Some id -> watching p' = None ->
    subs c' = disown (subs c) n id -> liveness c' = delete n (liveness c) ->
    ctx_events c' = ctx_events c ++ [NodeState n Reconnecting] ->
    Effect n c p c' p'.

(** Nothing of another node, and no registry entry, is touched. *)
Definition only_node (n : Z) (c c' : StackCtx) : Prop :=
  supervisors c' = supervisors c /\ addrs c' = addrs c /\ fab_idx c' = fab_idx c /\
  forall m, m <> n -> subs c' !! m = subs c !! m /\ liveness c' !! m = liveness c !! m /\
    last_event c' !! m = last_event c !! m /\ pending_reports c' !! m = pending_reports c !! m.

Lemma disown_lookup m n id : disown m n id !! n = if decide (m !! n = Some id) then None else m !! n.
Proof. unfold disown. case_bool_decide; case_decide; try done. by rewrite lookup_delete_eq. Qed.

Lemma disown_ne m n id j : j <> n -> disown m n id !! j = m !! j.
Proof. intros Hj. unfold disown. case_bool_decide; [|done]. by rewrite lookup_delete_ne. Qed.

Lemma disown_Some m n id j x : disown m n id !! j = Some x -> m !! j = Some x /\ (j = n -> x <> id).
Proof.
  destruct (decide (j = n)) as [->|Hj].
  - rewrite disown_lookup. case_decide as E; [done|]. intros Hx. split; [done|]. intros _ ->. done.
  - rewrite disown_ne by done. done.
Qed.

Section effects.
Context `{Base64} `{Tables}.

(** The mark after the events of a priming chunk. *)
Lemma priming_mark n evs c :
  let c' := fold_left (fun c data => with_last_event c (note_event (last_event c) n (ed_event_number data)).2) evs c in
  c' = with_last_event c (last_event c') /\
  last_event c' !! n = mark_after (last_event c !! n) evs /\
  forall m, m <> n -> last_event c' !! m = last_event c !! m.
Proof.
  revert c. induction evs as [|e evs IH]; intros c; cbn zeta; [by destruct c|].
  cbn [fold_left mark_after]. set (c1 := with_last_event c _). destruct (IH c1) as (E & M & O).
  assert (last_event c1 !! n =
    (if newer (last_event c !! n) (ed_event_number e) then Some (ed_event_number e) else last_event c !! n) /\
    forall m, m <> n -> last_event c1 !! m = last_event c !! m) as [H1 H2].
  { unfold c1. cbn [with_last_event last_event]. rewrite note_event_spec. destruct (newer _ _); simpl; [|done].
    split; [apply lookup_insert_eq | intros m Hm; by apply lookup_insert_ne]. }
  split; [rewrite E at 1; by destruct c | split].
  - by rewrite M, H1.
  - intros m Hm. by rewrite O, H2.
Qed.

Lemma absorb_priming_spec c n acc report ops :
  holds acc ops ->
  exists acc' c', absorb_priming c n acc report = Some (acc', c') /\
    holds acc' (ops ++ omap decode_report (reports_of report)) /\
    c' = with_last_event c (last_event c') /\
    last_event c' !! n = mark_after (last_event c !! n) (parsed_events report) /\
    forall m, m <> n -> last_event c' !! m = last_event c !! m.
Proof.
  intros Ha. unfold absorb_priming, absorb, reports_of.
  assert (exists acc', match rd_attr_reports report with
      | Some reports => absorb_all acc reports | None => Some acc end = Some acc' /\
      holds acc' (ops ++ omap decode_report (default [] (rd_attr_reports report)))) as (acc' & -> & Ha').
  { destruct (rd_attr_reports report) as [rs|]; simpl; [|exists acc; by rewrite app_nil_r].
    destruct (absorb_all_spec rs acc ops Ha) as (a & E & Hh & _). eauto. }
  eexists acc', _. split; [done|]. split; [done|]. apply priming_mark.
Qed.

Lemma begin_establish_only c n : only_node n c (begin_establish c n).
Proof.
  split; [done|]. split; [done|]. split; [done|]. intros m Hm. unfold begin_establish, forget, reset_event_high_water.
  cbn [with_pending with_last_event subs liveness last_event pending_reports].
  by rewrite !lookup_delete_ne by done.
Qed.

Lemma pending_ok_delete p n : pending_ok p -> pending_ok (delete n p).
Proof. intros Hp m a [_ Hm]%lookup_delete_Some. by eapply Hp. Qed.

(** Every resumption that happens keeps the phase and the pending reports well
    formed, stays within its node, and has one of the four effects. *)
Lemma supervise_step_effect now wake c n p c' p' :
  phase_ok p -> pending_ok (pending_reports c) -> supervise_step now wake c n p = Some (c', p') ->
  phase_ok p' /\ pending_ok (pending_reports c') /\ only_node n c c' /\ Effect n c p c' p'.
Proof.
  intros Hp Hpend. unfold supervise_step, watch_poll.
  assert (Hchunk : forall acc idx report r, (exists ops, holds acc ops) -> watching p = None ->
    match absorb_priming c n acc report with Some (acc, c) => Some (c, Priming idx acc) | None => None end = r ->
    r = Some (c', p') -> phase_ok p' /\ pending_ok (pending_reports c') /\ only_node n c c' /\ Effect n c p c' p').
  { intros acc idx report r [ops Ha] Hw <-.
    destruct (absorb_priming_spec c n acc report ops Ha) as (acc' & c1 & -> & Ha' & E & M & O).
    intros [= <- <-]. split; [by eexists|]. rewrite E. split; [done|]. split; [|by apply Quiet].
    do 3 (split; [done|]). intros m Hm. repeat split. by apply O. }
  assert (Hfail : forall idx, watching p = None ->
    Some (send c [NodeState n Reconnecting], BackingOff idx (now + backoff_delay idx)) = Some (c', p') ->
    phase_ok p' /\ pending_ok (pending_reports c') /\ only_node n c c' /\ Effect n c p c' p').
  { intros idx Hw [= <- <-]. split; [done|]. split; [done|]. split; [done|]. by apply AttemptFailed. }
  destruct p as [|idx|idx acc|est at_|idx until], wake as [|report|est'|e|]; try done.
  - intros [= <- <-]. split; [done|]. split; [by apply pending_ok_delete|]. split; [apply begin_establish_only | by apply Quiet].
  - eapply Hchunk; [exists []; apply default_holds | done | reflexivity].
  - by apply Hfail.
  - eapply Hchunk; [exact Hp | done | reflexivity].
  - intros [= <- <-]. split; [done|]. split; [done|]. split; [|by eapply Subscribed].
    do 3 (split; [done|]). intros m Hm. unfold finish_establish.
    cbn [send with_subs with_liveness subs liveness last_event pending_reports].
    by rewrite !lookup_insert_ne by done.
  - by apply Hfail.
  - destruct (liveness_expired _ _ _ _).
    + intros [= <- <-]. split; [done|]. split; [by apply pending_ok_delete|]. split; [|by eapply Lost].
      destruct (begin_establish_only (send (guard_drop c n (est_subscription_id est)) [NodeState n Reconnecting]) n)
        as (A & B & C & D). do 3 (split; [done|]). intros m Hm. destruct (D m Hm) as (-> & -> & -> & ->).
      cbn [send guard_drop with_subs with_liveness subs liveness last_event pending_reports].
      by rewrite disown_ne, lookup_delete_ne by done.
    + intros [= <- <-]. split; [done|]. split; [done|]. split; [done | by apply Quiet].
  - destruct (_ <=? _); [|done]. intros [= <- <-]. split; [done|]. split; [by apply pending_ok_delete|].
    split; [apply begin_establish_only | by apply Quiet].
Qed.
End effects.

(** ** The invariant of the system *)

(** The registry holds exactly the live tasks, one per node; a subscription
    entry is owned by a task that watches it; liveness is only kept for
    subscriptions; every accumulator is well formed. *)
Record Inv (s : Sys) : Prop := {
  inv_registry : forall n t,
    supervisors (sys_ctx s) !! n = Some t <->
    exists k, sys_tasks s !! t = Some k /\ tk_node k = n /\ tk_cancelled k = false;
  inv_subs : forall n id, subs (sys_ctx s) !! n = Some id ->
    exists t k, sys_tasks s !! t = Some k /\ tk_node k = n /\ watching (tk_phase k) = Some id;
  inv_liveness : forall n, is_Some (liveness (sys_ctx s) !! n) -> is_Some (subs (sys_ctx s) !! n);
  inv_pending : pending_ok (pending_reports (sys_ctx s));
  inv_phases : forall t k, sys_tasks s !! t = Some k -> phase_ok (tk_phase k);
  inv_fresh : forall t, is_Some (sys_tasks s !! t) -> (t < sys_next s)%nat;
}.

Definition mark (k : Task) : Task := {| tk_node := tk_node k; tk_phase := tk_phase k; tk_cancelled := true |}.

Lemma cancel_lookup tasks t t' :
  cancel tasks t !! t' = (if decide (t = t') then mark else id) <$> tasks !! t'.
Proof.
  unfold cancel. case_decide as E; [subst; by rewrite lookup_alter_eq|].
  rewrite lookup_alter_ne by done. by destruct (tasks !! t').
Qed.

(** Cancelling changes the mark of the cancelled tasks and nothing else. *)
Lemma cancelled_lookup (m : gmap Z nat) tasks t :
  exists b, map_fold (fun _ t tasks => cancel tasks t) tasks m !! t =
      (if b : bool then mark else id) <$> tasks !! t /\ (b = true <-> exists n, m !! n = Some t).
Proof.
  revert t. apply (map_fold_weak_ind (fun r m => forall t, exists b,
    r !! t = (if b : bool then mark else id) <$> tasks !! t /\ (b = true <-> exists n, m !! n = Some t))).
  - intros t. exists false. split; [by destruct (tasks !! t)|]. split; [done|]. intros [n Hn].
    by rewrite lookup_empty in Hn.
  - intros n t0 m' r Hn IH t. destruct (IH t) as (b & E & Hb). rewrite cancel_lookup, E.
    case_decide as Et.
    + subst t0. exists true. split; [destruct (tasks !! t), b; done|]. split; [|done]. intros _. exists n. by rewrite lookup_insert_eq.
    + exists b. split; [by destruct (tasks !! t)|]. rewrite Hb. split; intros [j Hj]; exists j.
      * rewrite lookup_insert_ne; [done|]. intros ->. congruence.
      * apply lookup_insert_Some in Hj as [[_ ?]|[_ Hj]]; [done | exact Hj].
Qed.

Lemma cancel_opt_lookup tasks o t :
  cancel_opt tasks o !! t = (if decide (o = Some t) then mark else id) <$> tasks !! t.
Proof.
  destruct o as [t0|]; simpl; [|by destruct (tasks !! t)]. rewrite cancel_lookup.
  repeat case_decide; congruence.
Qed.

Section invariant.
Context `{Base64} `{Tables}.

Lemma init_inv fab : Inv (sys_init fab).
Proof.
  split; simpl.
  - intros n t. rewrite !lookup_empty. split; [done | by intros (k & Hk & _)].
  - done.
  - intros n [x Hx]. by rewrite lookup_empty in Hx.
  - intros n a Ha. by rewrite lookup_empty in Ha.
  - intros t k Hk. by rewrite lookup_empty in Hk.
  - intros t [x Hx]. by rewrite lookup_empty in Hx.
Qed.

Lemma start_inv s n : Inv s -> Inv (start_supervisor s n).
Proof.
  intros [Hreg Hsubs Hlive Hpend Hph Hfr]. set (t := sys_next s).
  assert (Hnew : sys_tasks s !! t = None).
  { apply eq_None_not_Some. intros Ht%Hfr. unfold t in Ht. lia. }
  set (task0 := {| tk_node := n; tk_phase := Spawned; tk_cancelled := false |}).
  assert (Hl : forall t', sys_tasks (start_supervisor s n) !! t' =
    if decide (t' = t) then Some task0
    else (if decide (supervisors (sys_ctx s) !! n = Some t') then mark else id) <$> sys_tasks s !! t').
  { intros t'. unfold start_supervisor. cbn [sys_tasks]. rewrite cancel_opt_lookup. fold t task0.
    destruct (decide (t' = t)) as [->|Hne].
    - rewrite lookup_insert_eq, decide_False; [done|]. intros Hn%Hreg. destruct Hn as (k & Hk & _). congruence.
    - by rewrite lookup_insert_ne. }
  split; cbn [start_supervisor sys_ctx supervisors with_supervisors subs liveness pending_reports]; try done.
  - intros m t'. rewrite Hl, lookup_insert_Some. split.
    + intros [[<- <-]|[Hne Hm]]; [rewrite decide_True by done; by exists task0|].
      apply Hreg in Hm as (k & Hk & Hkn & Hkc). rewrite decide_False by congruence.
      rewrite decide_False; [rewrite Hk; by exists k|]. intros Hn%Hreg. destruct Hn as (k' & Hk' & Hkn' & _). congruence.
    + destruct (decide (t' = t)) as [->|Hne]; [intros (k & [= <-] & <- & _); by left|].
      intros (k & Hk & Hkn & Hkc). right. case_decide as Ed.
      * destruct (sys_tasks s !! t'); [|done]. simplify_eq/=.
      * assert (Hm : supervisors (sys_ctx s) !! m = Some t').
        { apply Hreg. exists k. by destruct (sys_tasks s !! t'). }
        split; [|exact Hm]. intros ->. done.
  - intros m id (t' & k & Hk & Hkn & Hw)%Hsubs. exists t'. rewrite Hl, decide_False by congruence.
    rewrite Hk. case_decide; eexists; by split.
  - intros t' k. rewrite Hl. case_decide; [by intros [= <-]|]. destruct (sys_tasks s !! t') as [k0|] eqn:E; [|done].
    apply Hph in E. case_decide; intros [= <-]; exact E.
  - intros t' Ht'. unfold start_supervisor. cbn [sys_next]. rewrite Hl in Ht'. case_decide; [unfold t in *; lia|].
    apply fmap_is_Some, Hfr in Ht'. lia.
Qed.

(** Marking tasks, removing their registry entries and touching no
    subscription keeps the invariant. *)
Lemma cancel_inv s c' tasks' next open (gone : nat -> Prop) :
  Inv s ->
  (forall t, exists b, tasks' !! t = (if b : bool then mark else id) <$> sys_tasks s !! t /\ (b = true <-> gone t)) ->
  (forall n t, supervisors c' !! n = Some t <-> supervisors (sys_ctx s) !! n = Some t /\ ~ gone t) ->
  subs c' = subs (sys_ctx s) -> liveness c' = liveness (sys_ctx s) -> pending_ok (pending_reports c') ->
  next = sys_next s ->
  Inv {| sys_ctx := c'; sys_tasks := tasks'; sys_next := next; sys_open := open |}.
Proof.
  intros [Hreg Hsubs Hlive Hpend Hph Hfr] Ht Hsup Es El Hp ->.
  split; cbn [sys_ctx sys_tasks sys_next]; try done.
  - intros n t. rewrite Hsup, Hreg. destruct (Ht t) as (b & -> & Hb). split.
    + intros [(k & -> & Hn & Hc) Hg]. destruct b; [naive_solver|]. by exists k.
    + intros (k & Hk & Hn & Hc). destruct (sys_tasks s !! t) as [k0|]; [|done]. destruct b; simplify_eq/=.
      split; [by exists k | naive_solver].
  - rewrite Es. intros n id (t & k & Hk & Hn & Hw)%Hsubs. destruct (Ht t) as (b & E & _). rewrite Hk in E.
    exists t. destruct b; eexists; by split.
  - by rewrite Es, El.
  - intros t k Hk. destruct (Ht t) as (b & E & _). rewrite E in Hk.
    destruct (sys_tasks s !! t) as [k0|] eqn:Ek; [|done]. apply Hph in Ek. by destruct b; simplify_eq/=.
  - intros t Hk. destruct (Ht t) as (b & E & _). rewrite E in Hk. by apply fmap_is_Some, Hfr in Hk.
Qed.

Lemma stop_inv s n : Inv s -> Inv (stop_supervisor s n).
Proof.
  intros Hinv. apply (cancel_inv s _ _ _ _ (fun t => supervisors (sys_ctx s) !! n = Some t)); try done.
  - intros t. exists (bool_decide (supervisors (sys_ctx s) !! n = Some t)). rewrite cancel_opt_lookup, bool_decide_eq_true.
    by case_decide; case_bool_decide.
  - intros m t. cbn [forget_node with_pending with_addrs with_last_event with_supervisors supervisors].
    rewrite lookup_delete_Some. pose proof (inv_registry s Hinv) as Hreg. split.
    + intros [Hne Hm]. split; [done|]. intros Hn. apply Hreg in Hm as (k & Hk & <- & _), Hn as (k' & Hk' & Hkn & _).
      congruence.
    + intros [Hm Hg]. split; [|done]. intros ->. done.
  - by apply pending_ok_delete, inv_pending.
Qed.

Lemma shutdown_inv s : Inv s -> Inv (shutdown s).
Proof.
  intros Hinv. apply (cancel_inv s _ _ _ _ (fun t => exists n, supervisors (sys_ctx s) !! n = Some t)); try done.
  - intros t. apply cancelled_lookup.
  - intros m t. cbn [with_supervisors supervisors]. rewrite lookup_empty. split; [done|]. intros [Hm Hg]. destruct Hg. eauto.
  - by apply inv_pending.
Qed.

Lemma report_inv s now wall sub report r c :
  Inv s -> handle_report now wall (sys_ctx s) sub report = Some (r, c) -> Inv (with_ctx s c (sys_tasks s)).
Proof.
  intros [Hreg Hsubs Hlive Hpend Hph Hfr] E.
  destruct (handle_report_outcome now wall (sys_ctx s) sub report Hpend) as [[_ E']|(id & c' & ch & Hacc & E' & Ha & El & Es & Ea & Esup & _)];
    rewrite E' in E; injection E as <- <-; [by split|].
  split; cbn [with_ctx sys_ctx sys_tasks sys_next]; try done.
  - by rewrite Esup.
  - by rewrite Es.
  - rewrite El, Es. intros m Hm. destruct (decide (m = sub_peer_node_id sub)) as [->|Hne].
    + exists id. apply Hacc.
    + rewrite lookup_insert_ne in Hm by done. by apply Hlive.
  - destruct (absorb_message_ok _ (sub_peer_node_id sub) report Hpend) as (ch' & p' & Ha' & Hp' & _).
    rewrite Ha' in Ha. by injection Ha as <- <-.
Qed.
End invariant.

Section preservation.
Context `{Base64} `{Tables}.

(** A step of one task that gives up the subscription [lost], if any. *)
Lemma release_inv s c' t k tasks' lost next open :
  Inv s -> sys_tasks s !! t = Some k -> watching (tk_phase k) = lost ->
  (forall t' k', sys_tasks s !! t' = Some k' -> t' <> t -> tasks' !! t' = Some k') ->
  match lost with
  | Some id => subs c' = disown (subs (sys_ctx s)) (tk_node k) id /\ liveness c' = delete (tk_node k) (liveness (sys_ctx s))
  | None => subs c' = subs (sys_ctx s) /\ liveness c' = liveness (sys_ctx s)
  end ->
  (forall n t, supervisors c' !! n = Some t <-> exists k, tasks' !! t = Some k /\ tk_node k = n /\ tk_cancelled k = false) ->
  pending_ok (pending_reports c') -> (forall t k, tasks' !! t = Some k -> phase_ok (tk_phase k)) ->
  (forall t, is_Some (tasks' !! t) -> (t < next)%nat) ->
  Inv {| sys_ctx := c'; sys_tasks := tasks'; sys_next := next; sys_open := open |}.
Proof.
  intros [Hreg Hsubs Hlive Hpend Hph Hfr] Hk Hw Hother Heff Hreg' Hp' Hph' Hfr'.
  split; cbn [sys_ctx sys_tasks sys_next]; try done.
  - assert (Hkept : forall n id, subs c' !! n = Some id ->
      subs (sys_ctx s) !! n = Some id /\ ~ (n = tk_node k /\ lost = Some id)).
    { intros n id Hn. destruct lost as [id0|]; destruct Heff as [Es _]; rewrite Es in Hn; [|naive_solver].
      apply disown_Some in Hn as [Hn Hne]. split; [done|]. intros [-> [= ->]]. by apply Hne. }
    intros n id Hn. apply Hkept in Hn as [Hn Hne]. apply Hsubs in Hn as (t' & k' & Hk' & <- & Hw').
    exists t', k'. split; [|done]. apply Hother; [done|]. intros ->. naive_solver.
  - intros n Hn. destruct lost as [id0|]; destruct Heff as [Es El]; rewrite El in Hn; rewrite Es; [|by apply Hlive].
    destruct (decide (n = tk_node k)) as [->|Hne]; [by rewrite lookup_delete_eq in Hn; destruct Hn|].
    rewrite lookup_delete_ne in Hn by done. rewrite disown_ne by done. by apply Hlive.
Qed.

Lemma wakeup_inv s t now wake k c' p' :
  Inv s -> sys_tasks s !! t = Some k -> tk_cancelled k = false ->
  supervise_step now wake (sys_ctx s) (tk_node k) (tk_phase k) = Some (c', p') ->
  Inv (with_ctx s c' (<[t := {| tk_node := tk_node k; tk_phase := p'; tk_cancelled := false |}]> (sys_tasks s))).
Proof.
  intros Hinv Hk Hc E. pose proof Hinv as [Hreg Hsubs Hlive Hpend Hph Hfr].
  apply supervise_step_effect in E as (Hp' & Hpend' & (Hsup & _ & _ & Hne) & Heff); [|by eapply Hph|done].
  assert (Hreg' : forall n t', supervisors c' !! n = Some t' <-> exists k', <[t := {| tk_node := tk_node k; tk_phase := p'; tk_cancelled := false |}]>
      (sys_tasks s) !! t' = Some k' /\ tk_node k' = n /\ tk_cancelled k' = false).
  { intros n t'. rewrite Hsup, Hreg. destruct (decide (t' = t)) as [->|Ht]; [rewrite lookup_insert_eq | by rewrite lookup_insert_ne].
    split; [intros (k' & Hk' & <- & _) | intros (k' & [= <-] & <- & _); by exists k].
    eexists. split; [done|]. simpl. by simplify_eq. }
  assert (Hph' : forall t' k', <[t := {| tk_node := tk_node k; tk_phase := p'; tk_cancelled := false |}]> (sys_tasks s) !! t' = Some k' ->
    phase_ok (tk_phase k')) by (intros t' k' [[<- <-]|[_ Hk']]%lookup_insert_Some; [done | by eapply Hph]).
  assert (Hfr' : forall t', is_Some (<[t := {| tk_node := tk_node k; tk_phase := p'; tk_cancelled := false |}]> (sys_tasks s) !! t') ->
    (t' < sys_next s)%nat) by (intros t' [<-|[_ Ht']]%lookup_insert_is_Some; [apply Hfr; eauto | by apply Hfr]).
  assert (Hoth : forall t' k', sys_tasks s !! t' = Some k' -> t' <> t ->
    <[t := {| tk_node := tk_node k; tk_phase := p'; tk_cancelled := false |}]> (sys_tasks s) !! t' = Some k')
    by (intros t' k' Hk' Ht; by rewrite lookup_insert_ne).
  destruct Heff as [Es El _ Hw|Es El _ Hw Hw'|est at_ attrs Hw -> Es El _|id Hw Hw' Es El _].
  - split; cbn [with_ctx sys_ctx sys_tasks sys_next]; try done; [|by rewrite Es, El].
    rewrite Es. intros n id (t' & k' & Hk' & <- & Hw')%Hsubs. destruct (decide (t' = t)) as [->|Ht].
    + exists t. eexists. rewrite lookup_insert_eq. split; [done|]. simplify_eq. simpl. by rewrite Hw.
    + exists t', k'. by rewrite lookup_insert_ne.
  - by apply (release_inv s c' t k _ None).
  - split; cbn [with_ctx sys_ctx sys_tasks sys_next]; try done.
    + rewrite Es. intros n id [[<- <-]|[Hn Hid]]%lookup_insert_Some.
      * exists t. eexists. rewrite lookup_insert_eq. by split.
      * apply Hsubs in Hid as (t' & k' & Hk' & <- & Hw'). exists t', k'. split; [|done]. apply Hoth; [done|].
        intros ->. naive_solver.
    + rewrite Es, El. intros n. destruct (decide (n = tk_node k)) as [->|Hn]; [by rewrite !lookup_insert_eq|].
      rewrite !lookup_insert_ne by done. apply Hlive.
  - by apply (release_inv s c' t k _ (Some id)).
Qed.

Lemma drop_inv s t k :
  Inv s -> sys_tasks s !! t = Some k -> tk_cancelled k = true ->
  Inv (with_ctx s (drop_phase (sys_ctx s) (tk_node k) (tk_phase k)) (delete t (sys_tasks s))).
Proof.
  intros Hinv Hk Hc. pose proof Hinv as [Hreg Hsubs Hlive Hpend Hph Hfr].
  apply (release_inv s _ t k _ (watching (tk_phase k))); try done.
  - intros t' k' Hk' Ht. by rewrite lookup_delete_ne.
  - by destruct (tk_phase k).
  - intros n t'. assert (Hs : supervisors (drop_phase (sys_ctx s) (tk_node k) (tk_phase k)) = supervisors (sys_ctx s)) by by destruct (tk_phase k).
    rewrite Hs, Hreg. destruct (decide (t' = t)) as [->|Ht]; [rewrite lookup_delete_eq | by rewrite lookup_delete_ne].
    split; [intros (k' & Hk' & _ & Hc'); congruence | by intros (k' & Hk' & _)].
  - by destruct (tk_phase k).
  - intros t' k' [_ Hk']%lookup_delete_Some. by eapply Hph.
  - intros t' [k' [_ Hk']%lookup_delete_Some]. apply Hfr. eauto.
Qed.

Lemma sys_step_inv l s s' : Inv s -> sys_step l s = Some s' -> Inv s'.
Proof.
  intros Hinv. destruct l as [n|n| |t now wake|t|now wall sub report|n l]; cbn [sys_step].
  - destruct (sys_open s); [|done]. intros [= <-]. by apply start_inv.
  - destruct (sys_open s); [|done]. intros [= <-]. by apply stop_inv.
  - destruct (sys_open s); [|done]. intros [= <-]. by apply shutdown_inv.
  - destruct (sys_tasks s !! t) as [k|] eqn:Hk; [|done]. destruct (tk_cancelled k) eqn:Hc; [done|].
    destruct (supervise_step _ _ _ _ _) as [[c' p']|] eqn:E; [|done]. intros [= <-]. by eapply wakeup_inv.
  - destruct (sys_tasks s !! t) as [k|] eqn:Hk; [|done]. destruct (tk_cancelled k) eqn:Hc; [|done].
    intros [= <-]. by apply drop_inv.
  - destruct (handle_report now wall (sys_ctx s) sub report) as [[r c]|] eqn:E; [|done]. intros [= <-]. by eapply report_inv.
  - intros [= <-]. by destruct Hinv.
Qed.

Lemma sys_run_app ls1 ls2 s :
  sys_run (ls1 ++ ls2) s = match sys_run ls1 s with Some s1 => sys_run ls2 s1 | None => None end.
Proof. revert s. induction ls1 as [|l ls1 IH]; intros s; [done|]. cbn [app sys_run]. by destruct (sys_step l s). Qed.

Lemma sys_run_inv ls s s' : Inv s -> sys_run ls s = Some s' -> Inv s'.
Proof.
  revert s. induction ls as [|l ls IH]; intros s Hinv; cbn [sys_run]; [by intros [= <-]|].
  destruct (sys_step l s) as [s1|] eqn:E; [|done]. apply IH. by eapply sys_step_inv.
Qed.
End preservation.

(** ** What supervision promises *)

Definition about (n : Z) (e : StackEvent) : bool :=
  match e with
  | NodeState m _ | PrimingSnapshot m _ | AttributesChanged m _ | NodeEvent m _ => m =? n
  end.

Definition events_about (n : Z) (s : Sys) : list StackEvent := List.filter (about n) (ctx_events (sys_ctx s)).

Definition no_task (n : Z) (s : Sys) : Prop := forall t k, sys_tasks s !! t = Some k -> tk_node k <> n.

(** What the context keeps for a node, the address cache apart. *)
Definition kept (n : Z) (s : Sys) : option Z * option Z * option Z * option AttrAccumulator :=
  (subs (sys_ctx s) !! n, liveness (sys_ctx s) !! n, last_event (sys_ctx s) !! n, pending_reports (sys_ctx s) !! n).

(** The executor runs what is scheduled before it waits for the network or a
    timer again: a cancelled future is scheduled to be dropped when it is
    cancelled, so that no task of its node is woken by the network or a timer
    before that.  A new task may be polled, and reports may arrive, in between. *)
Definition no_cancelled (n : Z) (s : Sys) : Prop :=
  forall t k, sys_tasks s !! t = Some k -> tk_node k = n -> tk_cancelled k = false.

Definition drops_first (s : Sys) (l : Step) : Prop :=
  match l with
  | Wakeup t _ wake => wake <> Polled -> forall k, sys_tasks s !! t = Some k -> no_cancelled (tk_node k) s
  | _ => True
  end.

Section promises.
Context `{Base64} `{Tables}.

Inductive Reachable (fab : Z) : Sys -> Prop :=
| reach_init : Reachable fab (sys_init fab)
| reach_step s l s' : Reachable fab s -> drops_first s l -> sys_step l s = Some s' -> Reachable fab s'.

Lemma sys_reachable_inv fab s : Reachable fab s -> Inv s.
Proof. induction 1; [apply init_inv | by eapply sys_step_inv]. Qed.

(** C12: no subscription is ever orphaned.  Whatever starts, stops, fails,
    reports and is cancelled, in any order: the registry holds exactly the live
    tasks, at most one per node; every recorded subscription belongs to a task
    that is watching this very subscription and releases it when it ends; a
    node is only tracked as alive while it has a subscription. *)
Theorem subscriptions_owned fab ls s :
  sys_run ls (sys_init fab) = Some s ->
  (forall n t, supervisors (sys_ctx s) !! n = Some t <->
    exists k, sys_tasks s !! t = Some k /\ tk_node k = n /\ tk_cancelled k = false) /\
  (forall n id, subs (sys_ctx s) !! n = Some id ->
    exists t k, sys_tasks s !! t = Some k /\ tk_node k = n /\ watching (tk_phase k) = Some id) /\
  (forall n, is_Some (liveness (sys_ctx s) !! n) -> is_Some (subs (sys_ctx s) !! n)).
Proof. intros Hr. apply sys_run_inv in Hr as [Hreg Hsubs Hlive _ _ _]; [done | apply init_inv]. Qed.

Lemma no_task_unsubscribed s n : Inv s -> no_task n s -> subs (sys_ctx s) !! n = None.
Proof.
  intros Hinv Hn. destruct (subs (sys_ctx s) !! n) as [id|] eqn:E; [|done].
  apply (inv_subs _ Hinv) in E as (t & k & Hk & Hkn & _). by destruct (Hn t k Hk).
Qed.

Lemma filter_about_ne n m evs :
  m <> n -> Forall (fun e => about m e = true) evs -> List.filter (about n) evs = [].
Proof.
  intros Hne. induction 1 as [|e evs He _ IH]; [done|]. simpl. rewrite IH.
  replace (about n e) with false; [done|]. symmetry. destruct e; simpl in *; apply Z.eqb_eq in He; apply Z.eqb_neq; congruence.
Qed.

(** What a report sends is about its sender. *)
Lemma report_events_about n changes evs :
  Forall (fun e => about n e = true)
    (match changes with Some ((_ :: _) as ch) => [AttributesChanged n ch] | _ => [] end ++ map (NodeEvent n) evs).
Proof.
  apply Forall_app. split.
  - destruct changes as [[|]|]; repeat constructor; simpl; apply Z.eqb_refl.
  - apply Forall_forall. intros e (x & -> & _)%list_elem_of_fmap. simpl. apply Z.eqb_refl.
Qed.

Lemma effect_events n c p c' p' :
  Effect n c p c' p' -> exists evs, ctx_events c' = ctx_events c ++ evs /\ Forall (fun e => about n e = true) evs.
Proof.
  intros [_ _ -> _| _ _ -> _ _|est now attrs _ _ _ _ ->|id _ _ _ _ ->].
  - exists []. by rewrite app_nil_r.
  - eexists. split; [done|]. repeat constructor. simpl. apply Z.eqb_refl.
  - eexists. split; [done|]. repeat constructor; simpl; apply Z.eqb_refl.
  - eexists. split; [done|]. repeat constructor. simpl. apply Z.eqb_refl.
Qed.

Lemma drop_phase_ne c n m p : m <> n ->
  subs (drop_phase c n p) !! m = subs c !! m /\ liveness (drop_phase c n p) !! m = liveness c !! m.
Proof.
  intros Hm. destruct p as [| | |est at_|]; try done. cbn [drop_phase guard_drop with_liveness with_subs subs liveness].
  by rewrite disown_ne, lookup_delete_ne by done.
Qed.

Lemma drop_phase_others c n p :
  last_event (drop_phase c n p) = last_event c /\ pending_reports (drop_phase c n p) = pending_reports c /\
  ctx_events (drop_phase c n p) = ctx_events c /\ supervisors (drop_phase c n p) = supervisors c /\
  addrs (drop_phase c n p) = addrs c.
Proof. by destruct p. Qed.

Lemma cancel_no_task n s c' (tasks' : gmap nat Task) next open :
  no_task n s -> (forall t, exists f, tasks' !! t = f <$> sys_tasks s !! t /\ forall k, tk_node (f k) = tk_node k) ->
  no_task n {| sys_ctx := c'; sys_tasks := tasks'; sys_next := next; sys_open := open |}.
Proof.
  intros Hn Ht t k. cbn [sys_tasks]. destruct (Ht t) as (f & -> & Hf). intros Hk.
  destruct (sys_tasks s !! t) as [k0|] eqn:E; [|done]. injection Hk as <-. rewrite Hf. by eapply Hn.
Qed.

(** A step that does not start a supervisor for a node without tasks leaves
    all that is known of the node as it is. *)
Lemma idle_step n s l s' :
  Inv s -> no_task n s -> l <> Start n -> sys_step l s = Some s' ->
  no_task n s' /\ events_about n s' = events_about n s /\ (l = Stop n \/ kept n s' = kept n s).
Proof.
  intros Hinv Hn Hl. unfold events_about, kept.
  destruct l as [m|m| |t now wake|t|now wall sub report|m l]; cbn [sys_step].
  - destruct (sys_open s); [|done]. intros [= <-]. split; [|by auto].
    intros t k. unfold start_supervisor. cbn [sys_tasks]. rewrite cancel_opt_lookup. intros Hk.
    apply fmap_Some in Hk as (k0 & Hk0 & ->). apply lookup_insert_Some in Hk0 as [[_ <-]|[_ Hk0]].
    + case_decide; cbn; congruence.
    + case_decide; cbn; by eapply Hn.
  - destruct (sys_open s); [|done]. intros [= <-]. split.
    + apply (cancel_no_task n s); [done|]. intros t.
      exists (if decide (supervisors (sys_ctx s) !! m = Some t) then Supervisor.mark else id).
      rewrite cancel_opt_lookup. split; [done|]. by case_decide.
    + split; [done|]. destruct (decide (m = n)) as [->|Hne]; [by left|]. right.
      cbn [stop_supervisor with_ctx forget_node sys_ctx with_pending with_addrs with_last_event with_supervisors
        subs liveness last_event pending_reports]. unfold forget. by rewrite !lookup_delete_ne.
  - destruct (sys_open s); [|done]. intros [= <-]. split; [|by auto].
    apply (cancel_no_task n s); [done|]. intros t.
    destruct (cancelled_lookup (supervisors (sys_ctx s)) (sys_tasks s) t) as (b & -> & _). eexists. split; [done|]. by destruct b.
  - destruct (sys_tasks s !! t) as [k|] eqn:Hk; [|done]. destruct (tk_cancelled k) eqn:Hc; [done|].
    destruct (supervise_step _ _ _ _ _) as [[c' p']|] eqn:E; [|done]. intros [= <-].
    apply supervise_step_effect in E as (_ & _ & (_ & _ & _ & Hne) & Heff); [|by eapply (inv_phases s)|by apply (inv_pending s)].
    pose proof (Hn t k Hk) as Hkn. split; [|split].
    + intros t' k'. cbn [with_ctx sys_tasks]. intros [[<- <-]|[_ Hk']]%lookup_insert_Some; [done | by eapply Hn].
    + apply effect_events in Heff as (evs & E & Hab). cbn [with_ctx sys_ctx]. rewrite E, List.filter_app.
      by rewrite (filter_about_ne n _ evs Hkn Hab), app_nil_r.
    + right. cbn [with_ctx sys_ctx]. destruct (Hne n) as (-> & -> & -> & ->); [congruence | done].
  - destruct (sys_tasks s !! t) as [k|] eqn:Hk; [|done]. destruct (tk_cancelled k) eqn:Hc; [|done]. intros [= <-].
    pose proof (Hn t k Hk) as Hkn. cbn [with_ctx sys_ctx].
    destruct (drop_phase_others (sys_ctx s) (tk_node k) (tk_phase k)) as (-> & -> & -> & _).
    destruct (drop_phase_ne (sys_ctx s) (tk_node k) n (tk_phase k)) as [-> ->]; [congruence|].
    split; [|by auto]. intros t' k'. cbn [with_ctx sys_tasks]. intros [_ Hk']%lookup_delete_Some. by eapply Hn.
  - destruct (handle_report_outcome now wall (sys_ctx s) sub report (inv_pending s Hinv))
      as [[_ ->]|(id & c' & ch & (_ & _ & Hs) & -> & _ & El & Es & _ & _ & Eev & _ & Hoth)]; intros [= <-].
    + split; [done|]. by auto.
    + assert (Hpn : sub_peer_node_id sub <> n) by (intros <-; by rewrite no_task_unsubscribed in Hs).
      split; [done|]. cbn [with_ctx sys_ctx]. split.
      * rewrite Eev, List.filter_app, (filter_about_ne n (sub_peer_node_id sub) (_ ++ _)), app_nil_r; [done | done |].
        rewrite <- (map_map (node_event wall) (NodeEvent (sub_peer_node_id sub))). apply report_events_about.
      * right. rewrite El, Es. destruct (Hoth n) as [-> ->]; [congruence|]. by rewrite lookup_insert_ne by congruence.
  - intros [= <-]. split; [done|]. by auto.
Qed.
End promises.
