(* ===== verification/SupervisorFacts.v ===== *)
(** * Properties of supervision

    What the supervisors, the control requests and the report handler of
    [Supervisor] guarantee together: a removed node leaves nothing behind, the
    client sees each node's events in order, establishing publishes the whole
    snapshot, silence and only silence ends a subscription, retries back off
    and never get stuck. *)

From S2P Require Import Prelude Json Prog Fs Text StackApi Gen TlvJson Accumulate Ctx Reports Supervisor.

Section removal.
Context `{Base64} `{Tables}.

Lemma idle_events n s ls s' :
  Inv s -> no_task n s -> Forall (fun l => l <> Start n) ls -> sys_run ls s = Some s' -> events_about n s' = events_about n s.
Proof.
  intros Hinv Hn Hls. revert s Hinv Hn. induction Hls as [|l ls Hl _ IH]; intros s Hinv Hn; cbn [sys_run]; [by intros [= <-]|].
  destruct (sys_step l s) as [s1|] eqn:E; [|done]. intros Hr. destruct (idle_step n s l s1 Hinv Hn Hl E) as (Hn1 & He1 & _).
  rewrite (IH s1); [done | by eapply sys_step_inv | done | done].
Qed.

Lemma idle_run n s ls s' :
  Inv s -> no_task n s -> kept n s = (None, None, None, None) -> Forall (fun l => l <> Start n) ls ->
  sys_run ls s = Some s' ->
  no_task n s' /\ events_about n s' = events_about n s /\ kept n s' = (None, None, None, None).
Proof.
  intros Hinv Hn Hk Hls. revert s Hinv Hn Hk. induction Hls as [|l ls Hl _ IH]; intros s Hinv Hn Hk; cbn [sys_run].
  - by intros [= <-].
  - destruct (sys_step l s) as [s1|] eqn:E; [|done]. intros Hr.
    destruct (idle_step n s l s1 Hinv Hn Hl E) as (Hn1 & He1 & Hk1).
    destruct (IH s1) as (Hn' & He' & Hk'); [by eapply sys_step_inv | done | | done |].
    + destruct Hk1 as [->|Hk1]; [|congruence]. cbn [sys_step] in E. destruct (sys_open s); [|done]. injection E as <-.
      unfold kept in *. cbn [stop_supervisor with_ctx forget_node sys_ctx with_pending with_addrs with_last_event
        with_supervisors subs liveness last_event pending_reports]. unfold forget. rewrite !lookup_delete_eq.
      by injection Hk as -> -> _ _.
    + by rewrite <- He1.
Qed.

(** All futures of the node are cancelled. *)
Definition stopped (n : Z) (s : Sys) : Prop :=
  forall t k, sys_tasks s !! t = Some k -> tk_node k = n -> tk_cancelled k = true.

(** Nothing is cached of the node. *)
Definition forgotten (n : Z) (s : Sys) : Prop :=
  last_event (sys_ctx s) !! n = None /\ pending_reports (sys_ctx s) !! n = None /\ addrs (sys_ctx s) !! n = None.

(** A report of the node, or its address recorded. *)
Definition hears (n : Z) (l : Step) : bool :=
  match l with Report _ _ sub _ => sub_peer_node_id sub =? n | Commissioned m _ => m =? n | _ => false end.

Definition is_update (e : StackEvent) : Prop :=
  match e with AttributesChanged _ _ | NodeEvent _ _ => True | _ => False end.

Lemma stopped_cancel n s s' :
  stopped n s -> (forall t, exists b : bool, sys_tasks s' !! t = (if b then Supervisor.mark else id) <$> sys_tasks s !! t) -> stopped n s'.
Proof.
  intros Hs Ht t k. destruct (Ht t) as ([] & ->); intros (k0 & Hk0 & ->)%fmap_Some; [done|].
  exact (Hs t k0 Hk0).
Qed.

Lemma stop_stopped s n : Inv s -> stopped n (stop_supervisor s n) /\ forgotten n (stop_supervisor s n).
Proof.
  intros Hinv. split.
  - intros t k. cbn [stop_supervisor with_ctx sys_tasks]. rewrite cancel_opt_lookup. intros (k0 & Hk0 & ->)%fmap_Some.
    case_decide as Hd; [done|]. intros Hn. cbn in *. destruct (tk_cancelled k0) eqn:Ec; [done|]. destruct Hd.
    apply (inv_registry s Hinv). by exists k0.
  - unfold forgotten. cbn [stop_supervisor with_ctx forget_node sys_ctx with_pending with_addrs with_last_event with_supervisors
      last_event pending_reports addrs]. unfold forget. by rewrite !lookup_delete_eq.
Qed.

(** What a report makes known of the node. *)
Lemma report_about n m changes evs wall :
  exists updates, List.filter (about n)
      (match changes with Some ((_ :: _) as ch) => [AttributesChanged m ch] | _ => [] end ++
       map (fun e => NodeEvent m (node_event wall e)) evs) = updates /\
    Forall is_update updates /\ ((m =? n) = false -> updates = []).
Proof.
  eexists. split; [done|]. split.
  - rewrite Forall_forall. intros e [He _]%list_elem_of_In%filter_In. apply list_elem_of_In, elem_of_app in He as [He|He].
    + destruct changes as [[|]|]; [by apply elem_of_nil in He | by apply list_elem_of_singleton in He as -> | by apply elem_of_nil in He].
    + by apply list_elem_of_fmap in He as (x & -> & _).
  - intros Hm%Z.eqb_neq. apply (filter_about_ne n m); [done|].
    rewrite <- (map_map (node_event wall) (NodeEvent m)). apply report_events_about.
Qed.

(** A step that does not start a supervisor for a stopped node. *)
Lemma stopped_step n s l s' :
  Inv s -> stopped n s -> l <> Start n -> sys_step l s = Some s' ->
  stopped n s' /\ (forgotten n s -> hears n l = false -> forgotten n s') /\
  exists updates, events_about n s' = events_about n s ++ updates /\ Forall is_update updates /\ (hears n l = false -> updates = []).
Proof.
  intros Hinv Hs Hl. assert (Hsilent : forall s', stopped n s' -> (forgotten n s -> hears n l = false -> forgotten n s') ->
      (ctx_events (sys_ctx s') = ctx_events (sys_ctx s) \/ events_about n s' = events_about n s) -> stopped n s' /\ (forgotten n s -> hears n l = false -> forgotten n s') /\
      exists updates, events_about n s' = events_about n s ++ updates /\ Forall is_update updates /\ (hears n l = false -> updates = [])).
  { intros s0 H1 H2 H3. split; [done|]. split; [done|]. exists []. rewrite app_nil_r. split; [|done].
    destruct H3 as [E|E]; [unfold events_about; by rewrite E | done]. }
  destruct l as [m|m| |t now wake|t|now wall sub report|m l]; cbn [sys_step hears] in *.
  - destruct (sys_open s); [|done]. intros [= <-]. apply Hsilent; [|done|by left].
    intros t k. unfold start_supervisor. cbn [sys_tasks]. rewrite cancel_opt_lookup.
    intros (k0 & Hk0 & ->)%fmap_Some Hn. apply lookup_insert_Some in Hk0 as [[_ <-]|[_ Hk0]].
    + exfalso. by case_decide; cbn in Hn; congruence.
    + case_decide; [done|]. by apply (Hs t).
  - destruct (sys_open s); [|done]. intros [= <-]. apply Hsilent; [| |by left].
    + apply (stopped_cancel n s); [done|]. intros t. exists (bool_decide (supervisors (sys_ctx s) !! m = Some t)).
      cbn [stop_supervisor with_ctx sys_tasks]. rewrite cancel_opt_lookup. by case_bool_decide; case_decide.
    + intros (H1 & H2 & H3) _. unfold forgotten. cbn [stop_supervisor with_ctx forget_node sys_ctx with_pending with_addrs with_last_event
        with_supervisors last_event pending_reports addrs]. unfold forget. rewrite !lookup_delete_None. auto.
  - destruct (sys_open s); [|done]. intros [= <-]. apply Hsilent; [|done|by left].
    apply (stopped_cancel n s); [done|]. intros t. cbn [shutdown sys_tasks].
    destruct (cancelled_lookup (supervisors (sys_ctx s)) (sys_tasks s) t) as (b & -> & _). by exists b.
  - destruct (sys_tasks s !! t) as [k|] eqn:Hk; [|done]. destruct (tk_cancelled k) eqn:Hc; [done|].
    destruct (supervise_step _ _ _ _ _) as [[c' p']|] eqn:E; [|done]. intros [= <-].
    apply supervise_step_effect in E as (_ & _ & (_ & Ha & _ & Hne) & Heff); [|by eapply (inv_phases s)|by apply (inv_pending s)].
    assert (Hkn : tk_node k <> n) by (intros Hn; rewrite (Hs t k Hk Hn) in Hc; done).
    apply Hsilent.
    + intros t' k'. cbn [with_ctx sys_tasks]. intros [[<- <-]|[_ Hk']]%lookup_insert_Some; [by intros ?%Hkn | by apply (Hs t')].
    + intros (H1 & H2 & H3) _. unfold forgotten. cbn [with_ctx sys_ctx]. rewrite Ha. destruct (Hne n) as (_ & _ & -> & ->); [congruence | done].
    + right. apply effect_events in Heff as (evs & E & Hab). unfold events_about. cbn [with_ctx sys_ctx].
      by rewrite E, List.filter_app, (filter_about_ne n _ evs Hkn Hab), app_nil_r.
  - destruct (sys_tasks s !! t) as [k|] eqn:Hk; [|done]. destruct (tk_cancelled k) eqn:Hc; [|done]. intros [= <-].
    destruct (drop_phase_others (sys_ctx s) (tk_node k) (tk_phase k)) as (El & Ep & Ee & _ & Ea). apply Hsilent; [| |by left].
    + intros t' k'. cbn [with_ctx sys_tasks]. intros [_ Hk']%lookup_delete_Some. by apply (Hs t').
    + unfold forgotten. cbn [with_ctx sys_ctx]. by rewrite El, Ep, Ea.
  - destruct (handle_report_outcome now wall (sys_ctx s) sub report (inv_pending s Hinv))
      as [[_ ->]|(id & c' & ch & _ & -> & _ & _ & _ & Ea & _ & Eev & _ & Hoth)]; intros [= <-].
    + apply Hsilent; [done|done|by left].
    + split; [done|]. cbn [with_ctx sys_ctx]. split.
      * intros (H1 & H2 & H3) Hn%Z.eqb_neq. unfold forgotten. cbn [with_ctx sys_ctx]. destruct (Hoth n) as [-> ->]; [congruence|]. by rewrite Ea.
      * pose proof (report_about n (sub_peer_node_id sub) ch (fresh_events (last_event (sys_ctx s) !! sub_peer_node_id sub) (parsed_events report)) wall) as (us & Hf & Hus & Hno).
        exists us. split; [|done]. unfold events_about. cbn [with_ctx sys_ctx]. by rewrite Eev, List.filter_app, Hf.
  - intros [= <-]. apply Hsilent; [done| |by left]. intros (H1 & H2 & H3) Hm%Z.eqb_neq. unfold forgotten. cbn [with_ctx sys_ctx with_addrs addrs last_event pending_reports].
    by rewrite lookup_insert_ne.
Qed.

Lemma stopped_run n ls s s' :
  Inv s -> stopped n s -> Forall (fun l => l <> Start n) ls -> sys_run ls s = Some s' ->
  Inv s' /\ stopped n s' /\ (forgotten n s -> Forall (fun l => hears n l = false) ls -> forgotten n s') /\
  exists updates, events_about n s' = events_about n s ++ updates /\ Forall is_update updates /\
    (Forall (fun l => hears n l = false) ls -> updates = []).
Proof.
  intros Hinv Hs Hls. revert s Hinv Hs. induction Hls as [|l ls Hl _ IH]; intros s Hinv Hs; cbn [sys_run].
  - intros [= <-]. split; [done|]. split; [done|]. split; [done|]. exists []. by rewrite app_nil_r.
  - destruct (sys_step l s) as [s1|] eqn:E; [|done]. intros Hr.
    destruct (stopped_step n s l s1 Hinv Hs Hl E) as (Hs1 & Hf1 & u1 & Eu1 & Hu1 & Hn1).
    destruct (IH s1 (sys_step_inv l s s1 Hinv E) Hs1 Hr) as (Hinv' & Hs' & Hf' & u2 & Eu2 & Hu2 & Hn2).
    split; [done|]. split; [done|]. split; [intros Hf [Hh Hhs]%Forall_cons; auto|].
    exists (u1 ++ u2). rewrite Eu2, Eu1, app_assoc. split; [done|]. split; [by apply Forall_app|].
    intros [Hh Hhs]%Forall_cons. by rewrite Hn1, Hn2.
Qed.

(** The cancelled futures of a stopped node can be dropped, one after the other. *)
Lemma futures_dropped n s :
  stopped n s -> exists drops s', Forall (fun l => exists t, l = DropFuture t) drops /\ sys_run drops s = Some s' /\ no_task n s'.
Proof.
  remember (size (filter (fun tk => tk_node tk.2 = n) (sys_tasks s))) as k eqn:Ek.
  revert s Ek. induction k as [|k IH]; intros s Ek Hs.
  - exists [], s. split; [constructor|]. split; [done|]. intros t k Hk Hn.
    symmetry in Ek. apply map_size_empty_inv in Ek. assert (Hx : filter (fun tk : nat * Task => tk_node tk.2 = n) (sys_tasks s) !! t = Some k)
      by (by apply map_lookup_filter_Some). by rewrite Ek, lookup_empty in Hx.
  - destruct (map_choose (filter (fun tk => tk_node tk.2 = n) (sys_tasks s))) as (t & k0 & Hx); [intros E; by rewrite E, map_size_empty in Ek|].
    pose proof Hx as [Hk Hn]%map_lookup_filter_Some. cbn [snd] in Hn. pose proof (Hs t k0 Hk Hn) as Hc.
    destruct (IH (with_ctx s (drop_phase (sys_ctx s) (tk_node k0) (tk_phase k0)) (delete t (sys_tasks s)))) as (drops & s' & Hd & Hr & Hno).
    + cbn [with_ctx sys_tasks]. rewrite map_filter_delete, map_size_delete_Some by by eexists. by rewrite <- Ek.
    + intros t' k'. cbn [with_ctx sys_tasks]. intros [_ Hk']%lookup_delete_Some. by apply (Hs t').
    + exists (DropFuture t :: drops), s'. split; [constructor; [by exists t | done]|]. split; [|done].
      cbn [sys_run sys_step]. by rewrite Hk, Hc.
Qed.

(** C34: a removed node leaves nothing behind.  Stop a node in any reachable
    state, and let anything happen but the start of a new supervisor for it.
    The node is not supervised any more; its futures can be dropped; all that
    can still be sent about it are attribute changes and events of reports that
    arrive before that, and without such a report nothing.  Once its futures
    are dropped, no subscription and no time of a last report is left; neither
    is an event mark, a half-received report or an address, unless a report or a
    commissioning of the node came in between; and from then on nothing is
    recorded for the node and no event about it is sent, reports of the device
    included. *)
Theorem removed_node_leaves_nothing fab ls0 s n s0 ls s' :
  sys_run ls0 (sys_init fab) = Some s -> sys_step (Stop n) s = Some s0 ->
  Forall (fun l => l <> Start n) ls -> sys_run ls s0 = Some s' ->
  supervisors (sys_ctx s') !! n = None /\
  (exists drops s1, Forall (fun l => exists t, l = DropFuture t) drops /\ sys_run drops s' = Some s1 /\ no_task n s1) /\
  (exists updates, events_about n s' = events_about n s ++ updates /\ Forall is_update updates /\
    (Forall (fun l => hears n l = false) ls -> updates = [])) /\
  (no_task n s' ->
    subs (sys_ctx s') !! n = None /\ liveness (sys_ctx s') !! n = None /\
    (Forall (fun l => hears n l = false) ls -> kept n s' = (None, None, None, None) /\ addrs (sys_ctx s') !! n = None) /\
    forall ls' s'', Forall (fun l => l <> Start n) ls' -> sys_run ls' s' = Some s'' ->
      events_about n s'' = events_about n s' /\ (kept n s' = (None, None, None, None) -> kept n s'' = (None, None, None, None))).
Proof.
  intros Hr Hstop Hls Hr'. assert (Hinv : Inv s) by (eapply sys_run_inv; [apply init_inv | exact Hr]).
  pose proof (sys_step_inv _ _ _ Hinv Hstop) as Hinv0. cbn [sys_step] in Hstop. destruct (sys_open s); [|done]. injection Hstop as <-.
  destruct (stop_stopped s n Hinv) as [Hs0 Hf0].
  destruct (stopped_run n ls _ s' Hinv0 Hs0 Hls Hr') as (Hinv' & Hs' & Hf' & updates & Eu & Hu & Hno).
  split; [|split; [by apply futures_dropped | split; [by exists updates|]]].
  - destruct (supervisors (sys_ctx s') !! n) as [t|] eqn:E; [|done].
    apply (inv_registry s' Hinv') in E as (k & Hk & Hn & Hc). by rewrite (Hs' t k Hk Hn) in Hc.
  - intros Hnt. pose proof (no_task_unsubscribed s' n Hinv' Hnt) as Hsub.
    assert (Hlive : liveness (sys_ctx s') !! n = None).
    { apply eq_None_not_Some. intros Hx%(inv_liveness s' Hinv'). rewrite Hsub in Hx. by destruct Hx. }
    split; [done|]. split; [done|]. split.
    + intros Hq. destruct (Hf' Hf0 Hq) as (H1 & H2 & H3). unfold kept. by rewrite Hsub, Hlive, H1, H2.
    + intros ls' s'' Hls' Hr''. split; [|intros Hk; by apply (idle_run n s' ls' s'' Hinv' Hnt Hk Hls' Hr'')].
      apply (idle_events n s' ls' s'' Hinv' Hnt Hls' Hr'').
Qed.
End removal.

(** ** The order of events *)

Inductive ConnState : Type := Down | Greeting | Up.

(** The protocol of one node: [Connected], then its snapshot, then changes and
    events, until [Reconnecting].  [None] is a violation. *)
Definition protocol_step (n : Z) (st : option ConnState) (e : StackEvent) : option ConnState :=
  if negb (about n e) then st
  else
    match st, e with
    | Some (Down | Up), NodeState _ (Connected _) => Some Greeting
    | Some (Down | Up), NodeState _ Reconnecting => Some Down
    | Some Greeting, PrimingSnapshot _ _ => Some Up
    | Some Up, (AttributesChanged _ _ | NodeEvent _ _) => Some Up
    | _, _ => None
    end.

Definition protocol (n : Z) (evs : list StackEvent) : option ConnState := fold_left (protocol_step n) evs (Some Down).

Section order.
Context `{Base64} `{Tables}.

Lemma protocol_app n a b : protocol n (a ++ b) = fold_left (protocol_step n) b (protocol n a).
Proof. apply fold_left_app. Qed.

Lemma protocol_other n m evs st :
  m <> n -> Forall (fun e => about m e = true) evs -> fold_left (protocol_step n) evs st = st.
Proof.
  intros Hne Hev. pose proof (filter_about_ne n m evs Hne Hev) as Hf. clear Hev. revert st Hf.
  induction evs as [|e evs IH]; intros st Hf; [done|]. simpl in *. unfold protocol_step at 2.
  destruct (about n e); [done|]. by apply IH.
Qed.

Lemma protocol_up n (changes : option (list (string * Value))) (evs : list NodeEventData) :
  fold_left (protocol_step n)
    (match changes with Some ((_ :: _) as ch) => [AttributesChanged n ch] | _ => [] end ++ map (NodeEvent n) evs) (Some Up) = Some Up.
Proof.
  assert (Hev : fold_left (protocol_step n) (map (NodeEvent n) evs) (Some Up) = Some Up).
  { induction evs as [|e evs IH]; [done|]. simpl. unfold protocol_step at 2. simpl. by rewrite Z.eqb_refl. }
  rewrite fold_left_app. destruct changes as [[|]|]; [exact Hev| |exact Hev].
  simpl. unfold protocol_step at 2. simpl. by rewrite Z.eqb_refl.
Qed.

Record OrderInv (s : Sys) : Prop := {
  oi_inv : Inv s;
  oi_protocol : forall n, exists st, protocol n (ctx_events (sys_ctx s)) = Some st /\ st <> Greeting /\
    (is_Some (subs (sys_ctx s) !! n) -> st = Up);
}.

(** Subscriptions only dropped, nothing sent. *)
Lemma order_shrink s s' :
  OrderInv s -> Inv s' -> ctx_events (sys_ctx s') = ctx_events (sys_ctx s) ->
  (forall n, is_Some (subs (sys_ctx s') !! n) -> is_Some (subs (sys_ctx s) !! n)) ->
  OrderInv s'.
Proof.
  intros [_ Hpro] Hinv' He Hs. split; [done|]. intros n. destruct (Hpro n) as (st & Hp & Hg & Hup). exists st. rewrite He. auto.
Qed.

(** Once the cancelled futures of its node are dropped, a live task owns the
    node's entry, if there is one. *)
Lemma own_entry s t k id :
  OrderInv s -> sys_tasks s !! t = Some k -> no_cancelled (tk_node k) s -> subs (sys_ctx s) !! tk_node k = Some id ->
  watching (tk_phase k) = Some id.
Proof.
  intros [Hinv _] Hk Hn Hid. apply (inv_subs s Hinv) in Hid as (t' & k' & Hk' & Hn' & Hw).
  assert (Hreg : forall t1 k1, sys_tasks s !! t1 = Some k1 -> tk_node k1 = tk_node k -> supervisors (sys_ctx s) !! tk_node k = Some t1).
  { intros t1 k1 H1 E1. apply (inv_registry s Hinv). exists k1. split; [done|]. split; [done|]. by apply (Hn t1). }
  assert (t' = t) as -> by (pose proof (Hreg t' k' Hk' Hn'); pose proof (Hreg t k Hk eq_refl); congruence). congruence.
Qed.

Lemma order_wakeup s t k c' p' n :
  OrderInv s -> sys_tasks s !! t = Some k -> no_cancelled (tk_node k) s -> Effect (tk_node k) (sys_ctx s) (tk_phase k) c' p' ->
  (forall m, m <> tk_node k -> subs c' !! m = subs (sys_ctx s) !! m) ->
  exists st, protocol n (ctx_events c') = Some st /\ st <> Greeting /\ (is_Some (subs c' !! n) -> st = Up).
Proof.
  intros Ho Hk Hcan Heff Hne. pose proof Ho as [Hinv Hpro]. destruct (Hpro n) as (st & Hp & Hg & Hup).
  destruct (decide (tk_node k = n)) as [Hn|Hn].
  2:{ exists st. apply effect_events in Heff as (evs & -> & Hab). rewrite protocol_app, (protocol_other n _ evs _ Hn Hab).
      split; [done|]. split; [done|]. rewrite Hne by congruence. done. }
  subst n. destruct Heff as [Es _ -> _|Es _ -> Hw _|est now attrs _ _ Es _ ->|id Hw _ Es _ ->].
  - exists st. by rewrite Es.
  - exists Down. rewrite protocol_app, Hp, Es. simpl. unfold protocol_step. simpl. rewrite Z.eqb_refl. simpl.
    split; [by destruct st|]. split; [done|]. intros [id Hid].
    pose proof (own_entry s t k id Ho Hk Hcan Hid). congruence.
  - exists Up. rewrite protocol_app, Hp. simpl. unfold protocol_step. simpl. rewrite Z.eqb_refl. simpl.
    split; [by destruct st|]. done.
  - exists Down. rewrite protocol_app, Hp. simpl. unfold protocol_step. simpl. rewrite Z.eqb_refl. simpl.
    split; [by destruct st|]. split; [done|]. rewrite Es. intros [id' [Hid' Hdiff]%disown_Some].
    pose proof (own_entry s t k id' Ho Hk Hcan Hid'). destruct (Hdiff eq_refl). congruence.
Qed.

(** The first poll of a task says nothing yet. *)
Lemma polled_quiet now c n p c' p' :
  supervise_step now Polled c n p = Some (c', p') -> subs c' = subs c /\ ctx_events c' = ctx_events c.
Proof. by destruct p; intros [= <- _]. Qed.

Lemma order_step s l s' : OrderInv s -> drops_first s l -> sys_step l s = Some s' -> OrderInv s'.
Proof.
  intros Ho Hdrop E. pose proof Ho as [Hinv Hpro]. pose proof (sys_step_inv l s s' Hinv E) as Hinv'.
  destruct l as [n|n| |t now wake|t|now wall sub report|n l]; cbn [sys_step drops_first] in *.
  1-3: destruct (sys_open s); [|done]; injection E as <-; by apply (order_shrink s).
  - destruct (sys_tasks s !! t) as [k|] eqn:Hk; [|done]. destruct (tk_cancelled k) eqn:Hc; [done|].
    destruct (supervise_step _ _ _ _ _) as [[c' p']|] eqn:E'; [|done]. injection E as <-.
    assert (Hquiet : wake = Polled \/ wake <> Polled) by (destruct wake; by auto). destruct Hquiet as [->|Hw].
    + apply polled_quiet in E' as [Es Ee]. apply (order_shrink s); [done..|]. intros n. cbn [with_ctx sys_ctx]. by rewrite Es.
    + apply supervise_step_effect in E' as (_ & _ & (_ & _ & _ & Hne) & Heff); [|by eapply (inv_phases s)|by apply (inv_pending s)].
      split; [done|]. intros n. cbn [with_ctx sys_ctx].
      eapply order_wakeup; [exact Ho | exact Hk | by apply Hdrop | exact Heff |]. intros m Hm. by apply Hne.
  - destruct (sys_tasks s !! t) as [k|] eqn:Hk; [|done]. destruct (tk_cancelled k); [|done]. injection E as <-.
    apply (order_shrink s); try done; cbn [with_ctx sys_ctx].
    + apply (drop_phase_others (sys_ctx s) (tk_node k) (tk_phase k)).
    + intros n. destruct (tk_phase k) as [| | |est at_|]; try done.
      cbn [drop_phase guard_drop with_liveness with_subs subs]. intros [id [Hid _]%disown_Some]. eauto.
  - destruct (handle_report_outcome now wall (sys_ctx s) sub report (inv_pending s Hinv))
      as [[_ E']|(id & c' & ch & (_ & _ & Hs) & E' & _ & _ & Es & _ & _ & Eev & _)]; rewrite E' in E; injection E as <-.
    + by apply (order_shrink s).
    + split; [done|]. intros n. cbn [with_ctx sys_ctx]. destruct (Hpro n) as (st & Hp & Hg & Hup).
      exists st. rewrite Es, Eev, protocol_app, Hp. split; [|done].
      rewrite <- (map_map (node_event wall) (NodeEvent (sub_peer_node_id sub))).
      destruct (decide (sub_peer_node_id sub = n)) as [Hn|Hn].
      * rewrite Hn in *. rewrite Hup by eauto. apply protocol_up.
      * by apply (protocol_other n (sub_peer_node_id sub)), report_events_about.
  - injection E as <-. by apply (order_shrink s).
Qed.

(** The events of the supervision system only grow. *)
Lemma sys_step_sends l s s' :
  Inv s -> sys_step l s = Some s' -> exists evs, ctx_events (sys_ctx s') = ctx_events (sys_ctx s) ++ evs.
Proof.
  intros Hinv. destruct l as [n|n| |t now wake|t|now wall sub report|n l]; cbn [sys_step].
  1-3: destruct (sys_open s); [|done]; intros [= <-]; exists []; by rewrite app_nil_r.
  - destruct (sys_tasks s !! t) as [k|] eqn:Hk; [|done]. destruct (tk_cancelled k); [done|].
    destruct (supervise_step _ _ _ _ _) as [[c' p']|] eqn:E; [|done]. intros [= <-].
    apply supervise_step_effect in E as (_ & _ & _ & Heff); [|by eapply (inv_phases s)|by apply (inv_pending s)].
    apply effect_events in Heff as (evs & He & _). by exists evs.
  - destruct (sys_tasks s !! t) as [k|]; [|done]. destruct (tk_cancelled k); [|done]. intros [= <-]. exists [].
    cbn [with_ctx sys_ctx]. rewrite app_nil_r. apply (drop_phase_others (sys_ctx s) (tk_node k) (tk_phase k)).
  - destruct (handle_report_outcome now wall (sys_ctx s) sub report (inv_pending s Hinv))
      as [[_ ->]|(id & c' & ch & _ & -> & _ & _ & _ & _ & _ & He & _)]; intros [= <-]; cbn [with_ctx sys_ctx].
    + exists []. by rewrite app_nil_r.
    + by eexists.
  - intros [= <-]. exists []. by rewrite app_nil_r.
Qed.

Lemma sys_run_sends ls s s' :
  Inv s -> sys_run ls s = Some s' -> exists evs, ctx_events (sys_ctx s') = ctx_events (sys_ctx s) ++ evs.
Proof.
  revert s. induction ls as [|l ls IH]; intros s Hinv; cbn [sys_run]; [intros [= <-]; exists []; by rewrite app_nil_r|].
  destruct (sys_step l s) as [s1|] eqn:E; [|done]. intros Hr. destruct (sys_step_sends l s s1 Hinv E) as [e1 E1].
  destruct (IH s1 (sys_step_inv l s s1 Hinv E) Hr) as [e2 E2]. exists (e1 ++ e2). by rewrite E2, E1, app_assoc.
Qed.

(** Steps that resume no task. *)
Lemma reachable_run fab ls s s' :
  Reachable fab s -> Forall (fun l => forall s, drops_first s l) ls -> sys_run ls s = Some s' -> Reachable fab s'.
Proof.
  intros Hr Hls. revert s Hr. induction Hls as [|l ls Hl _ IH]; intros s Hr; cbn [sys_run]; [by intros [= <-]|].
  destruct (sys_step l s) as [s1|] eqn:E; [|done]. apply IH. by eapply reach_step.
Qed.

Lemma reachable_order fab s : Reachable fab s -> OrderInv s.
Proof.
  induction 1 as [|s l s' _ IH Hf E]; [|by eapply order_step].
  split; [apply init_inv|]. intros m. exists Down. split; [done|]. split; [done|]. simpl. rewrite lookup_empty. by intros [x Hx].
Qed.

(** C15: the client sees each node's events in a consistent order.  In every
    reachable state the events sent about a node follow the protocol: it is
    announced connected, at once followed by its complete snapshot, and only
    then come attribute changes and events, until it is announced lost; while
    the context holds a subscription for it, the last announcement is that it
    is up.  Supervisors may be stopped, restarted and replaced at any time; the
    one thing required of the executor is that it drops the cancelled futures of
    a node before a task of this node is resumed by the network or a timer. *)
Theorem events_follow_protocol fab s n :
  Reachable fab s ->
  exists st, protocol n (ctx_events (sys_ctx s)) = Some st /\ st <> Greeting /\
    (is_Some (subs (sys_ctx s) !! n) -> st = Up).
Proof.
  intros Hr. destruct (reachable_order fab s Hr) as [_ Hp]. destruct (Hp n) as (st & Hst & Hg & Hup). by exists st.
Qed.
End order.

(** ** Establishing, watching, retrying *)

Section establishing.
Context `{Base64} `{Tables}.

(** A supervisor resumed several times in a row. *)
Fixpoint supervise_run (ws : list (Z * Wake)) (c : StackCtx) (n : Z) (p : Phase) : option (StackCtx * Phase) :=
  match ws with
  | [] => Some (c, p)
  | (now, w) :: ws =>
      match supervise_step now w c n p with
      | Some (c, p) => supervise_run ws c n p
      | None => None
      end
  end.

Lemma supervise_run_app ws1 ws2 c n p :
  supervise_run (ws1 ++ ws2) c n p =
  match supervise_run ws1 c n p with Some (c, p) => supervise_run ws2 c n p | None => None end.
Proof.
  revert c p. induction ws1 as [|[now w] ws1 IH]; intros c p; [done|]. simpl.
  destruct (supervise_step now w c n p) as [[c' p']|]; [apply IH | done].
Qed.

Definition chunk (r : Z * ReportDataResp) : Z * Wake := (r.1, GotChunk r.2).

Lemma mark_after_app m a b : mark_after m (a ++ b) = mark_after (mark_after m a) b.
Proof. revert m. induction a as [|e a IH]; intros m; [done|]. simpl. apply IH. Qed.

Lemma priming_run rs c n idx acc ops :
  holds acc ops ->
  exists acc' c', supervise_run (map chunk rs) c n (Priming idx acc) = Some (c', Priming idx acc') /\
    holds acc' (ops ++ omap decode_report (concat (map (fun r => reports_of r.2) rs))) /\
    c' = with_last_event c (last_event c') /\
    last_event c' !! n = mark_after (last_event c !! n) (concat (map (fun r => parsed_events r.2) rs)).
Proof.
  revert c acc ops. induction rs as [|[now r] rs IH]; intros c acc ops Ha.
  - exists acc, c. rewrite app_nil_r. split; [done|]. split; [done|]. split; [by destruct c | done].
  - cbn [map supervise_run chunk fst snd supervise_step].
    destruct (absorb_priming_spec c n acc r ops Ha) as (acc1 & c1 & -> & H1 & E1 & M1 & _).
    destruct (IH c1 acc1 _ H1) as (acc' & c' & -> & H' & E' & M'). exists acc', c'. split; [done|].
    rewrite <- app_assoc, <- omap_app in H'. split; [exact H'|]. split.
    + rewrite E', E1. by destruct c.
    + cbn [concat map]. by rewrite M', M1, mark_after_app.
Qed.

(** C14: establishing publishes the whole node, in the documented order.  From a
    fresh supervisor, through any number of priming chunks (at least one), to
    the subscription: nothing is sent before it is established; then the node
    is announced connected and its snapshot is the merge of all chunks; the
    subscription is recorded with the time; the events of the priming report
    are not forwarded but set the replay mark, which was cleared before; a
    report left half-sent by an earlier subscription is gone. *)
Theorem establish_publishes (c : StackCtx) n t0 r0 rs est now :
  exists c', supervise_run ((t0, Polled) :: map chunk (r0 :: rs) ++ [(now, Established est)]) c n Spawned =
      Some (c', Watching est now) /\
    ctx_events c' = ctx_events c ++
      [NodeState n (Connected (est_max_int est));
       PrimingSnapshot n (bt_from_iter (merged (omap decode_report (concat (map (fun r => reports_of r.2) (r0 :: rs))))))] /\
    subs c' = <[n := est_subscription_id est]> (subs c) /\ liveness c' = <[n := now]> (liveness c) /\
    last_event c' !! n = mark_after None (concat (map (fun r => parsed_events r.2) (r0 :: rs))) /\
    pending_reports c' = delete n (pending_reports c).
Proof.
  destruct r0 as [now0 r0]. cbn [map app supervise_run supervise_step chunk fst snd].
  set (c0 := begin_establish c n).
  destruct (absorb_priming_spec c0 n AttrAccumulator_default r0 [] default_holds) as (acc1 & c1 & -> & H1 & E1 & M1 & _).
  rewrite supervise_run_app.
  destruct (priming_run rs c1 n 0 acc1 _ H1) as (acc' & c' & -> & [_ Hout] & E' & M').
  cbn [supervise_run supervise_step]. eexists. split; [done|].
  unfold finish_establish, into_pairs. cbn [send with_subs with_liveness ctx_events subs liveness last_event pending_reports].
  rewrite Hout, M', M1, E', E1. cbn [with_last_event subs liveness ctx_events pending_reports].
  assert (last_event c0 !! n = None) as -> by apply lookup_delete_eq.
  cbn [concat]. rewrite omap_app, mark_after_app. done.
Qed.

(** A subscription is given up exactly when its device has been silent for
    the interval it promised plus the slack.  A watchdog poll ends the watch
    iff that much time has passed since the last report (or, without one,
    since establishment); it then releases the subscription before it announces
    the loss, and starts over without delay; otherwise it changes nothing.  A
    time stamp from the future counts as just heard from. *)
Theorem watch_poll_spec (c : StackCtx) n est at_ now :
  0 <= est_max_int est ->
  let last := unwrap_or at_ (liveness c !! n) in
  let silent := last + from_secs (est_max_int est + LIVENESS_SLACK_SECS) <= now in
  (silent ->
    exists c', supervise_step now TimerFired c n (Watching est at_) = Some (c', Requesting 0) /\
      (subs c !! n = Some (est_subscription_id est) -> subs c' !! n = None) /\ liveness c' !! n = None /\
      last_event c' !! n = None /\ pending_reports c' !! n = None /\
      ctx_events c' = ctx_events c ++ [NodeState n Reconnecting]) /\
  (~ silent -> supervise_step now TimerFired c n (Watching est at_) = Some (c, Watching est at_)).
Proof.
  intros Hm last silent.
  assert (Hexp : liveness_expired (liveness c !! n) at_ now (liveness_deadline (est_max_int est)) = true <-> silent).
  { unfold liveness_expired, liveness_deadline, saturating_duration_since, silent, from_secs, LIVENESS_SLACK_SECS.
    fold last. rewrite Z.geb_leb, Z.leb_le. lia. }
  cbn [supervise_step]. unfold watch_poll. destruct (liveness_expired _ _ _ _).
  - split; [|tauto]. intros _. eexists. split; [done|].
    unfold begin_establish, reset_event_high_water, forget, guard_drop.
    cbn [with_pending with_last_event send with_subs with_liveness subs liveness last_event pending_reports ctx_events].
    rewrite !lookup_delete_eq. split; [|done]. intros Hs. rewrite disown_lookup. by case_decide.
  - split; [|done]. intros Hs. destruct Hexp as [_ Hb]. by specialize (Hb Hs).
Qed.

(** Failed attempts back off along the schedule and never get stuck.  The
    k-th attempt in a row that fails (from 0) announces the node as
    reconnecting and waits the k-th delay of 2, 5, 10, 30, 60 seconds, the last
    one from then on: neither earlier nor later wake-ups do anything else; the
    counter never overflows and a success resets it. *)
Theorem retry_spec (c : StackCtx) n idx now e :
  0 <= idx <= usize_max ->
  exists delay, backoff_delay idx = from_secs delay /\
    nth_error [2; 5; 10; 30; 60] (Z.to_nat (Z.min idx 4)) = Some delay /\ 2 <= delay <= 60 /\
    (forall idx', 0 <= idx' <= idx -> backoff_delay idx' <= backoff_delay idx) /\
    supervise_step now (Failed e) c n (Requesting idx) =
      Some (send c [NodeState n Reconnecting], BackingOff idx (now + from_secs delay)) /\
    (forall at_, supervise_step at_ TimerFired c n (BackingOff idx (now + from_secs delay)) =
      if decide (now + from_secs delay <= at_)
      then Some (begin_establish c n, Requesting (Z.min (idx + 1) usize_max)) else None) /\
    0 <= Z.min (idx + 1) usize_max <= usize_max.
Proof.
  intros Hidx.
  assert (Hd : forall i, 0 <= i -> exists d, backoff_delay i = from_secs d /\
      nth_error [2; 5; 10; 30; 60] (Z.to_nat (Z.min i 4)) = Some d /\
      (i = 0 /\ d = 2 \/ i = 1 /\ d = 5 \/ i = 2 /\ d = 10 \/ i = 3 /\ d = 30 \/ 4 <= i /\ d = 60)).
  { intros i Hi. unfold backoff_delay, BACKOFF_SCHEDULE_SECS. change (Z.of_nat (length [2; 5; 10; 30; 60]) - 1) with 4.
    destruct (decide (i = 0)) as [->|]; [exists 2; split; [done|]; split; [done | lia]|].
    destruct (decide (i = 1)) as [->|]; [exists 5; split; [done|]; split; [done | lia]|].
    destruct (decide (i = 2)) as [->|]; [exists 10; split; [done|]; split; [done | lia]|].
    destruct (decide (i = 3)) as [->|]; [exists 30; split; [done|]; split; [done | lia]|].
    rewrite Z.min_r by lia. exists 60. split; [done|]. split; [done | lia]. }
  destruct (Hd idx) as (d & Eb & En & Hcase); [lia|]. exists d. rewrite Eb. split; [done|]. split; [done|].
  split; [lia|]. split.
  - intros i Hi. destruct (Hd i) as (d' & -> & _ & Hcase'); [lia|]. unfold from_secs. lia.
  - cbn [supervise_step]. rewrite Eb. split; [done|]. split.
    + intros at_. case_decide as Hle; destruct (Z.leb_spec (now + from_secs d) at_); (done || lia).
    + unfold usize_max in *. lia.
Qed.

(** The wake-ups that fit the await a supervisor is suspended in. *)
Definition fits (now : Z) (p : Phase) (w : Wake) : Prop :=
  match p, w with
  | Spawned, Polled | Requesting _, GotChunk _ | Requesting _, Failed _ | Priming _ _, GotChunk _
  | Priming _ _, Established _ | Priming _ _, Failed _ | Watching _ _, TimerFired => True
  | BackingOff _ until, TimerFired => until <= now
  | _, _ => False
  end.

(** Nothing on the stack thread gets stuck or panics.  In every reachable
    state, every live supervisor can be resumed by whatever the await it is in
    comes back with, every report (however malformed) is answered, and every
    cancelled future can be dropped. *)
Theorem never_stuck fab ls s :
  sys_run ls (sys_init fab) = Some s ->
  (forall t k now w, sys_tasks s !! t = Some k -> tk_cancelled k = false -> fits now (tk_phase k) w ->
    is_Some (sys_step (Wakeup t now w) s)) /\
  (forall now wall sub report, is_Some (sys_step (Report now wall sub report) s)) /\
  (forall t k, sys_tasks s !! t = Some k -> tk_cancelled k = true -> is_Some (sys_step (DropFuture t) s)).
Proof.
  intros Hr. assert (Hinv : Inv s) by (eapply sys_run_inv; [apply init_inv | exact Hr]). split; [|split].
  - intros t k now w Hk Hc Hf. cbn [sys_step]. rewrite Hk, Hc.
    assert (is_Some (supervise_step now w (sys_ctx s) (tk_node k) (tk_phase k))) as [[c p] ->]; [|eauto].
    pose proof (inv_phases s Hinv t k Hk) as Hp. unfold fits in Hf. unfold supervise_step, watch_poll.
    destruct (tk_phase k) as [|idx|idx acc|est at_|idx until], w as [|report|est'|e|]; try done; eauto.
    + destruct (absorb_priming_spec (sys_ctx s) (tk_node k) AttrAccumulator_default report [] default_holds)
        as (acc & c & -> & _). eauto.
    + destruct Hp as [ops Ha]. destruct (absorb_priming_spec (sys_ctx s) (tk_node k) acc report ops Ha)
        as (acc' & c & -> & _). eauto.
    + destruct (liveness_expired _ _ _ _); eauto.
    + apply Z.leb_le in Hf as ->. eauto.
  - intros now wall sub report. cbn [sys_step].
    destruct (handle_report_outcome now wall (sys_ctx s) sub report (inv_pending s Hinv))
      as [[_ ->]|(id & c' & ch & _ & -> & _)]; eauto.
  - intros t k Hk Hc. cbn [sys_step]. rewrite Hk, Hc. eauto.
Qed.
End establishing.

(** ** A run *)

Definition demo_report : ReportDataResp :=
  {| rd_subscription_id := Some 7;
     rd_attr_reports := Some [Ok (AttrRespData {|
       ad_path := {| ap_endpoint := Some 0; ap_cluster := Some 40; ap_attr := Some 2; ap_list_index := None |};
       ad_data := TUnsigned 65521 |})];
     rd_event_reports := None; rd_more_chunks := None |}.

Definition demo_sub : Subscription :=
  {| sub_subscription_id := Some 7; sub_fabric_idx := 1; sub_peer_node_id := 5 |}.

Definition demo_steps : list Step :=
  [Start 5; Wakeup 0 0 Polled; Wakeup 0 10 (GotChunk demo_report);
   Wakeup 0 20 (Established {| est_subscription_id := 7; est_max_int := 60 |});
   Report 30 0 demo_sub demo_report].

Definition demo_run : option Sys := @sys_run HexBase64 EmptyTables demo_steps (sys_init 1).
Definition demo_sys : Sys := default (sys_init 1) demo_run.

Lemma demo_ok : @sys_run HexBase64 EmptyTables demo_steps (sys_init 1) = Some demo_sys.
Proof. vm_compute. reflexivity. Qed.

Lemma subscriptions_owned_witness :
  subs (sys_ctx demo_sys) !! 5 = Some 7 /\
  exists t k, sys_tasks demo_sys !! t = Some k /\ tk_node k = 5 /\ watching (tk_phase k) = Some 7.
Proof.
  split; [vm_compute; reflexivity|].
  apply (@subscriptions_owned HexBase64 EmptyTables 1 demo_steps demo_sys demo_ok). vm_compute. reflexivity.
Defined.

(** After the stop another node is started; then the old future is dropped; a
    last report is not heard any more. *)
Definition stopped_sys : Sys := default (sys_init 1) (@sys_step HexBase64 EmptyTables (Stop 5) demo_sys).
Definition dropped_sys : Sys := default (sys_init 1) (@sys_run HexBase64 EmptyTables [Start 6; DropFuture 0] stopped_sys).
Definition later_sys : Sys := default (sys_init 1) (@sys_run HexBase64 EmptyTables [Report 50 0 demo_sub demo_report] dropped_sys).

Lemma removed_node_leaves_nothing_witness :
  sys_tasks dropped_sys !! 0%nat = None /\ kept 5 dropped_sys = (None, None, None, None) /\
  addrs (sys_ctx dropped_sys) !! 5 = None /\ kept 5 later_sys = (None, None, None, None).
Proof.
  destruct (@removed_node_leaves_nothing HexBase64 EmptyTables 1 demo_steps demo_sys 5 stopped_sys [Start 6; DropFuture 0] dropped_sys demo_ok)
    as (_ & _ & _ & Hnt); [by vm_compute | repeat constructor; discriminate | by vm_compute |].
  assert (Hno : no_task 5 dropped_sys).
  { intros t k Hk. assert (Hall : forallb (fun tk => negb (tk_node tk.2 =? 5)) (map_to_list (sys_tasks dropped_sys)) = true) by by vm_compute.
    rewrite forallb_forall in Hall. specialize (Hall (t, k)). intros Hn. cbn [snd] in Hall. rewrite Hn in Hall.
    assert (Hx : negb (5 =? 5) = true); [|discriminate Hx]. apply Hall, list_elem_of_In. by apply elem_of_map_to_list. }
  destruct (Hnt Hno) as (_ & _ & Hq & Hlater). destruct Hq as [Hk Ha]; [by repeat constructor|].
  split; [by vm_compute|]. split; [exact Hk|]. split; [exact Ha|].
  apply (Hlater [Report 50 0 demo_sub demo_report] later_sys); [repeat constructor; discriminate | by vm_compute | exact Hk].
Defined.

(** A report that arrives between the stop and the drop is still taken: the
    rest of it can be awaited for a removed node for ever. *)
Lemma late_report_is_remembered :
  exists s', @sys_run HexBase64 EmptyTables [Stop 5; Report 50 0 demo_sub {| rd_subscription_id := Some 7; rd_attr_reports := None;
      rd_event_reports := None; rd_more_chunks := Some true |}; DropFuture 0] demo_sys = Some s' /\
    sys_tasks s' = ∅ /\ is_Some (pending_reports (sys_ctx s') !! 5).
Proof. eexists. split; [vm_compute; reflexivity|]. split; [reflexivity | by eexists]. Qed.

(** [drops_first], decided. *)
Definition drops_first_b (s : Sys) (l : Step) : bool :=
  match l with
  | Wakeup _ _ Polled => true
  | Wakeup t _ _ =>
      match sys_tasks s !! t with
      | Some k => forallb (fun tk => negb (tk_node tk.2 =? tk_node k) || negb (tk_cancelled tk.2)) (map_to_list (sys_tasks s))
      | None => true
      end
  | _ => true
  end.

Lemma drops_first_b_spec s l : drops_first_b s l = true -> drops_first s l.
Proof.
  destruct l as [n|n| |t now wake|t|now wall sub report|n l]; try done. cbn [drops_first drops_first_b].
  intros Hb Hw k Hk t' k' Hk' Hn. rewrite Hk in Hb.
  assert (Hall : forallb (fun tk => negb (tk_node tk.2 =? tk_node k) || negb (tk_cancelled tk.2)) (map_to_list (sys_tasks s)) = true)
    by by destruct wake.
  rewrite forallb_forall in Hall. specialize (Hall (t', k')). cbn [snd] in Hall. rewrite Hn, Z.eqb_refl in Hall. simpl in Hall.
  destruct (tk_cancelled k'); [|done]. symmetry. apply Hall, list_elem_of_In. by apply elem_of_map_to_list.
Qed.

Fixpoint orderly (ls : list Step) (s : Sys) : bool :=
  match ls with
  | [] => true
  | l :: ls => drops_first_b s l && match @sys_step HexBase64 EmptyTables l s with Some s => orderly ls s | None => true end
  end.

Lemma orderly_reachable fab ls s s' :
  @Reachable HexBase64 EmptyTables fab s -> orderly ls s = true -> @sys_run HexBase64 EmptyTables ls s = Some s' ->
  @Reachable HexBase64 EmptyTables fab s'.
Proof.
  revert s. induction ls as [|l ls IH]; intros s Hs; cbn [orderly sys_run]; [by intros _ [= <-]|].
  intros [Hl Hls]%andb_true_iff. destruct (sys_step l s) as [s1|] eqn:E; [|done]. apply (IH s1); [|done].
  eapply reach_step; [exact Hs | by apply drops_first_b_spec | exact E].
Qed.

Lemma demo_reachable : @Reachable HexBase64 EmptyTables 1 demo_sys.
Proof. apply (orderly_reachable 1 demo_steps (sys_init 1)); [apply reach_init | vm_compute; reflexivity | exact demo_ok]. Qed.

(** The supervisor is replaced while subscribed; a report still arrives for the
    old subscription; the old future is dropped, then the new one fails. *)
Definition replaced_steps : list Step :=
  demo_steps ++ [Start 5; Report 40 0 demo_sub demo_report; Wakeup 1 50 Polled; DropFuture 0; Wakeup 1 60 (Failed (StackError_new Timeout ""))].

Definition replaced_sys : Sys := default (sys_init 1) (@sys_run HexBase64 EmptyTables replaced_steps (sys_init 1)).

Lemma events_follow_protocol_witness :
  (length (events_about 5 demo_sys) = 3%nat /\ protocol 5 (ctx_events (sys_ctx demo_sys)) = Some Up) /\
  length (events_about 5 replaced_sys) = 5%nat /\ is_Some (protocol 5 (ctx_events (sys_ctx replaced_sys))).
Proof.
  split; (split; [vm_compute; reflexivity|]).
  - destruct (@events_follow_protocol HexBase64 EmptyTables 1 demo_sys 5 demo_reachable) as (st & -> & _ & Hup).
    rewrite Hup; [done|]. exists 7. vm_compute. reflexivity.
  - destruct (@events_follow_protocol HexBase64 EmptyTables 1 replaced_sys 5) as (st & -> & _); [|by eexists].
    apply (orderly_reachable 1 replaced_steps (sys_init 1)); [apply reach_init | vm_compute; reflexivity | vm_compute; reflexivity].
Defined.

Lemma watch_poll_spec_witness :
  let est := {| est_subscription_id := 7; est_max_int := 60 |} in
  @supervise_step HexBase64 EmptyTables (from_secs 74) TimerFired (sys_ctx demo_sys) 5 (Watching est 20) =
    Some (sys_ctx demo_sys, Watching est 20) /\
  exists c', @supervise_step HexBase64 EmptyTables (from_secs 76) TimerFired (sys_ctx demo_sys) 5 (Watching est 20) =
    Some (c', Requesting 0).
Proof.
  intros est. split.
  - apply (@watch_poll_spec HexBase64 EmptyTables (sys_ctx demo_sys) 5 est 20 (from_secs 74)); vm_compute; congruence.
  - destruct (@watch_poll_spec HexBase64 EmptyTables (sys_ctx demo_sys) 5 est 20 (from_secs 76)) as [Hs _];
      [vm_compute; congruence|]. destruct Hs as (c' & Hc & _); [vm_compute; congruence|]. by exists c'.
Defined.

Lemma retry_spec_witness : backoff_delay 7 = from_secs 60.
Proof.
  destruct (@retry_spec HexBase64 EmptyTables (StackCtx_new 1) 5 7 0 (StackError_new Sdk "x")) as (d & -> & Hd & _).
  - unfold usize_max. lia.
  - by injection Hd as <-.
Defined.

Lemma never_stuck_witness :
  is_Some (@sys_step HexBase64 EmptyTables (Report 40 0 demo_sub demo_report) demo_sys).
Proof. apply (@never_stuck HexBase64 EmptyTables 1 demo_steps demo_sys demo_ok). Defined.
