(* ===== verification/Ws.v ===== *)
(** * The WebSocket connection

    [crates/server/src/ws.rs]: one connection as a state machine.  The socket
    and [tokio]'s broadcast channel are modelled by what they are documented to
    do: a receiver is a queue of at most [capacity] events, and one that falls
    behind loses the oldest and is told how many on its next receive.  Events
    are published by other threads, so a [Publish] step can come between any
    two steps of the connection, also between the answer of the controller and
    the draining of the queue.  The controller is whatever answers a command. *)

From S2P Require Import Prelude Json Wire Controller.

(** ** The broadcast receiver *)

Record Rx : Type := { rx_queue : list EventMessage; rx_missed : nat }.

Definition rx_new : Rx := {| rx_queue := []; rx_missed := 0 |}.

Definition rx_publish (capacity : nat) (ev : EventMessage) (rx : Rx) : Rx :=
  if (length (rx_queue rx) <? capacity)%nat
  then {| rx_queue := rx_queue rx ++ [ev]; rx_missed := rx_missed rx |}
  else {| rx_queue := tail (rx_queue rx) ++ [ev]; rx_missed := S (rx_missed rx) |}.

Inductive RecvError : Type := Lagged (n : nat) | RxEmpty.

(** [try_recv]; [recv] is the same but waits instead of [RxEmpty]. *)
Definition try_recv (rx : Rx) : Result EventMessage RecvError * Rx :=
  match rx_missed rx with
  | S _ => (Err (Lagged (rx_missed rx)), {| rx_queue := rx_queue rx; rx_missed := 0 |})
  | O =>
      match rx_queue rx with
      | [] => (Err RxEmpty, rx)
      | ev :: q => (Ok ev, {| rx_queue := q; rx_missed := 0 |})
      end
  end.

(** [while events.try_recv().is_ok() {}]; one round more than the queue is long
    is enough. *)
Fixpoint drain_loop (fuel : nat) (rx : Rx) : Rx :=
  match fuel with
  | O => rx
  | S fuel => match try_recv rx with (Ok _, rx) => drain_loop fuel rx | (Err _, rx) => rx end
  end.
Definition drain (rx : Rx) : Rx := drain_loop (S (length (rx_queue rx))) rx.

(** ** Frames *)

Inductive Frame : Type :=
| FInfo (info : Value)
| FReply (doc : Value)
| FEvent (ev : EventMessage)
| FShutdown.

Definition shutdown_document : Value := VObject [("data", VNull); ("event", VString "server_shutdown")].

(** What a frame says on the wire. *)
Definition frame_document (f : Frame) : Value :=
  match f with
  | FInfo info => info
  | FReply doc => doc
  | FEvent ev => event_document ev
  | FShutdown => shutdown_document
  end.

Section ws.
Context `{SerdeJson}.

Definition parse_frame (text : string) : Result CommandMessage string :=
  match json_from_str text with
  | Err e => Err e
  | Ok v => map_err de_message (de_command_message v)
  end.

Definition bad_frame (e : string) : Value := error_document (ErrorResult_new "" InvalidArguments e).

(** [handle_text_frame] from the controller's answer on: the reply, whether
    the connection listens now, and whether that is new. *)
Definition answer_frame (cmd : CommandMessage) (listening : bool) (r : Result Value CommandError) :
    Value * bool * bool :=
  let is_start_listening := String.eqb (cm_command cmd) "start_listening" in
  match r with
  | Ok result =>
      (success_document {| sr_message_id := cm_message_id cmd; sr_result := result |},
       is_start_listening || listening, is_start_listening && negb listening)
  | Err e => (error_document (ErrorResult_new (cm_message_id cmd) (ce_code e) (ce_details e)), listening, false)
  end.

(** ** The connection *)

Inductive Phase : Type :=
| Connecting
| Idle                                          (* in [tokio::select!] *)
| Handling (cmd : CommandMessage)               (* the controller works on a command *)
| Replying (doc : Value) (started : bool)       (* its answer is here, not sent yet *)
| Closed.

(** The last three fields are history: the text frames received, the events
    published since the receiver was subscribed, and whether it ever lagged. *)
Record Conn : Type := {
  ws_phase : Phase;
  ws_listening : bool;
  ws_rx : Rx;
  ws_sent : list Frame;
  ws_closed_calls : nat;
  ws_requests : list string;
  ws_published : list EventMessage;
  ws_lagged : bool;
}.

Definition conn_init : Conn :=
  {| ws_phase := Connecting; ws_listening := false; ws_rx := rx_new; ws_sent := []; ws_closed_calls := 0;
     ws_requests := []; ws_published := []; ws_lagged := false |}.

Inductive WsStep : Type :=
| Connect (info : Value) (ok : bool)             (* server info sent; [ok]: the send succeeded *)
| Publish (ev : EventMessage)
| Inbound (text : string)
| InboundOther                                   (* a frame that is not text *)
| InboundEnd                                     (* the socket ended or failed *)
| Answer (r : Result Value CommandError)         (* the controller answers *)
| Flush (ok : bool)                              (* drain if just started, then send the reply *)
| RecvEvent (ok : bool)                          (* the event branch *)
| ShutdownChanged (value : option bool)          (* the shutdown branch; [None]: sender dropped *)
| Abort.                                         (* the task panics or is dropped *)

Definition with_phase (s : Conn) (p : Phase) : Conn :=
  {| ws_phase := p; ws_listening := ws_listening s; ws_rx := ws_rx s; ws_sent := ws_sent s;
     ws_closed_calls := ws_closed_calls s; ws_requests := ws_requests s; ws_published := ws_published s;
     ws_lagged := ws_lagged s |}.
Definition with_rx (s : Conn) (rx : Rx) : Conn :=
  {| ws_phase := ws_phase s; ws_listening := ws_listening s; ws_rx := rx; ws_sent := ws_sent s;
     ws_closed_calls := ws_closed_calls s; ws_requests := ws_requests s; ws_published := ws_published s;
     ws_lagged := ws_lagged s |}.
Definition with_listening (s : Conn) (b : bool) : Conn :=
  {| ws_phase := ws_phase s; ws_listening := b; ws_rx := ws_rx s; ws_sent := ws_sent s;
     ws_closed_calls := ws_closed_calls s; ws_requests := ws_requests s; ws_published := ws_published s;
     ws_lagged := ws_lagged s |}.
Definition with_request (s : Conn) (text : string) : Conn :=
  {| ws_phase := ws_phase s; ws_listening := ws_listening s; ws_rx := ws_rx s; ws_sent := ws_sent s;
     ws_closed_calls := ws_closed_calls s; ws_requests := ws_requests s ++ [text]; ws_published := ws_published s;
     ws_lagged := ws_lagged s |}.

(** Returning from [handle_connection] drops the guard. *)
Definition close (s : Conn) : Conn :=
  {| ws_phase := Closed; ws_listening := ws_listening s; ws_rx := ws_rx s; ws_sent := ws_sent s;
     ws_closed_calls := S (ws_closed_calls s); ws_requests := ws_requests s; ws_published := ws_published s;
     ws_lagged := ws_lagged s |}.

Definition push_frame (s : Conn) (f : Frame) : Conn :=
  {| ws_phase := ws_phase s; ws_listening := ws_listening s; ws_rx := ws_rx s; ws_sent := ws_sent s ++ [f];
     ws_closed_calls := ws_closed_calls s; ws_requests := ws_requests s; ws_published := ws_published s;
     ws_lagged := ws_lagged s |}.

(** [socket.send(..).await.is_err()]: a failed send ends the connection. *)
Definition send_or_close (s : Conn) (f : Frame) (ok : bool) (p : Phase) : Conn :=
  if ok then with_phase (push_frame s f) p else close s.

Definition publish (capacity : nat) (ev : EventMessage) (s : Conn) : Conn :=
  match ws_phase s with
  | Connecting | Closed => s
  | _ =>
      {| ws_phase := ws_phase s; ws_listening := ws_listening s; ws_rx := rx_publish capacity ev (ws_rx s);
         ws_sent := ws_sent s; ws_closed_calls := ws_closed_calls s; ws_requests := ws_requests s;
         ws_published := ws_published s ++ [ev];
         ws_lagged := ws_lagged s || negb (length (rx_queue (ws_rx s)) <? capacity)%nat |}
  end.

Definition ws_step (capacity : nat) (l : WsStep) (s : Conn) : option Conn :=
  match l, ws_phase s with
  | Publish ev, _ => Some (publish capacity ev s)
  | Abort, (Connecting | Idle | Handling _ | Replying _ _) => Some (close s)
  | Connect info ok, Connecting => Some (send_or_close s (FInfo info) ok Idle)
  | InboundEnd, Idle => Some (close s)
  | InboundOther, Idle => Some s
  | Inbound text, Idle =>
      let s := with_request s text in
      Some (with_phase s (match parse_frame text with
                          | Err e => Replying (bad_frame e) false
                          | Ok cmd => Handling cmd
                          end))
  | Answer r, Handling cmd =>
      let '(doc, listening, started) := answer_frame cmd (ws_listening s) r in
      Some (with_phase (with_listening s listening) (Replying doc started))
  | Flush ok, Replying doc started =>
      let s := if started then with_rx s (drain (ws_rx s)) else s in
      Some (send_or_close s (FReply doc) ok Idle)
  | RecvEvent ok, Idle =>
      match try_recv (ws_rx s) with
      | (Err RxEmpty, _) => None
      | (Err (Lagged _), rx) => Some (with_rx s rx)
      | (Ok ev, rx) =>
          let s := with_rx s rx in
          if ws_listening s then Some (send_or_close s (FEvent ev) ok Idle) else Some s
      end
  | ShutdownChanged value, Idle =>
      match value with
      | Some false => Some s
      | _ => Some (close (push_frame s FShutdown))
      end
  | _, _ => None
  end.

Fixpoint ws_run (capacity : nat) (ls : list WsStep) (s : Conn) : option Conn :=
  match ls with
  | [] => Some s
  | l :: ls => match ws_step capacity l s with Some s => ws_run capacity ls s | None => None end
  end.
End ws.

(** ** What a client can rely on *)

Definition replies (fs : list Frame) : list Value := omap (fun f => match f with FReply doc => Some doc | _ => None end) fs.
Definition delivered (fs : list Frame) : list EventMessage := omap (fun f => match f with FEvent ev => Some ev | _ => None end) fs.

(** A reply or an event. *)
Definition payload (f : Frame) : bool := match f with FReply _ | FEvent _ => true | _ => false end.

Section client.
Context `{SerdeJson}.

(** [doc] answers the request [text]: a success or an error with its message
    id, or the error for a frame that does not parse. *)
Definition answers (text : string) (doc : Value) : Prop :=
  match parse_frame text with
  | Err e => doc = bad_frame e
  | Ok cmd =>
      (exists v, doc = success_document {| sr_message_id := cm_message_id cmd; sr_result := v |}) \/
      (exists c details, doc = error_document (ErrorResult_new (cm_message_id cmd) c details))
  end.

Definition all_answered (requests : list string) (fs : list Frame) : Prop := Forall2 answers requests (replies fs).

Definition replies_ok (s : Conn) : Prop :=
  match ws_phase s with
  | Connecting | Idle => all_answered (ws_requests s) (ws_sent s)
  | Handling cmd =>
      exists before text, ws_requests s = before ++ [text] /\ parse_frame text = Ok cmd /\ all_answered before (ws_sent s)
  | Replying doc _ =>
      exists before text, ws_requests s = before ++ [text] /\ answers text doc /\ all_answered before (ws_sent s)
  | Closed => exists k, all_answered (take k (ws_requests s)) (ws_sent s)
  end.

Definition shape_ok (s : Conn) : Prop :=
  match ws_phase s with
  | Connecting => ws_sent s = []
  | Closed =>
      ws_sent s = [] \/ exists info mid, Forall (fun f => payload f = true) mid /\
        (ws_sent s = FInfo info :: mid \/ ws_sent s = FInfo info :: mid ++ [FShutdown])
  | _ => exists info mid, Forall (fun f => payload f = true) mid /\ ws_sent s = FInfo info :: mid
  end.

Definition stream_ok (s : Conn) : Prop :=
  (ws_listening s = false -> delivered (ws_sent s) = []) /\
  match ws_phase s with
  | Connecting => ws_rx s = rx_new /\ ws_published s = [] /\ delivered (ws_sent s) = []
  | Replying _ true => delivered (ws_sent s) = []
  | _ => True
  end /\
  (ws_lagged s = false ->
    rx_missed (ws_rx s) = O /\
    exists skipped rest, ws_published s = skipped ++ delivered (ws_sent s) ++ rest /\
      (ws_phase s <> Closed -> rest = rx_queue (ws_rx s))).

Record WsInv (s : Conn) : Prop := {
  wi_replies : replies_ok s;
  wi_shape : shape_ok s;
  wi_closed : ws_closed_calls s = match ws_phase s with Closed => 1%nat | _ => 0%nat end;
  wi_stream : stream_ok s;
}.

Lemma replies_snoc fs f : replies (fs ++ [f]) = replies fs ++ match f with FReply doc => [doc] | _ => [] end.
Proof. unfold replies. rewrite omap_app. by destruct f. Qed.

Lemma delivered_snoc fs f : delivered (fs ++ [f]) = delivered fs ++ match f with FEvent ev => [ev] | _ => [] end.
Proof. unfold delivered. rewrite omap_app. by destruct f. Qed.

Lemma shape_snoc s f p :
  shape_ok s -> match ws_phase s with Idle | Handling _ | Replying _ _ => True | _ => False end -> payload f = true ->
  match p with Idle | Handling _ | Replying _ _ => True | _ => False end ->
  shape_ok (with_phase (push_frame s f) p).
Proof.
  unfold shape_ok. cbn [with_phase push_frame ws_phase ws_sent]. intros Hs Hp Hf Hq.
  assert (exists info mid, Forall (fun f => payload f = true) mid /\ ws_sent s = FInfo info :: mid) as (info & mid & Hm & ->)
    by (destruct (ws_phase s); first [exact Hs | done]).
  assert (exists info0 mid0, Forall (fun f => payload f = true) mid0 /\ (FInfo info :: mid) ++ [f] = FInfo info0 :: mid0) as Hx.
  { exists info, (mid ++ [f]). split; [|done]. apply Forall_app. split; [done | by repeat constructor]. }
  by destruct p.
Qed.

(** Draining a receiver that never lagged empties it. *)
Lemma drain_loop_clean fuel rx :
  rx_missed rx = O -> (length (rx_queue rx) < fuel)%nat -> drain_loop fuel rx = rx_new.
Proof.
  revert rx. induction fuel as [|fuel IH]; intros [q m] Hm Hf; simpl in *; [lia|]. subst m. unfold try_recv. simpl.
  destruct q as [|ev q]; [done|]. apply IH; [done|]. simpl in *. lia.
Qed.

Lemma drain_clean rx : rx_missed rx = O -> drain rx = rx_new.
Proof. intros Hm. apply drain_loop_clean; [done | lia]. Qed.

(** Closing keeps what has been established. *)
Lemma close_inv s : WsInv s -> ws_phase s <> Closed -> WsInv (close s).
Proof.
  intros [Hr Hs Hc (Hl & Hp & Hst)] Hne. split.
  - unfold replies_ok in *. cbn [close ws_phase ws_requests ws_sent]. destruct (ws_phase s) as [| |cmd|doc st|]; [| | | |done].
    1,2: exists (length (ws_requests s)); by rewrite firstn_all.
    + destruct Hr as (before & text & -> & _ & Ha). exists (length before). by rewrite take_app_length.
    + destruct Hr as (before & text & -> & _ & Ha). exists (length before). by rewrite take_app_length.
  - unfold shape_ok in *. cbn [close ws_phase ws_sent].
    destruct (ws_phase s); try done; [by left | | |]; destruct Hs as (info & mid & Hm & Hsent); right; eauto 6.
  - cbn [close ws_closed_calls ws_phase]. rewrite Hc. by destruct (ws_phase s).
  - split; [done|]. split; [done|]. intros Hlag. destruct (Hst Hlag) as [Hm (sk & rest & Hpub & _)].
    split; [done|]. exists sk, rest. split; [done|]. done.
Qed.

Lemma publish_inv capacity ev s : WsInv s -> WsInv (publish capacity ev s).
Proof.
  intros Hinv. pose proof Hinv as [Hr Hs Hc (Hl & Hp & Hst)]. unfold publish.
  assert (Hmain : ws_phase s <> Connecting -> ws_phase s <> Closed ->
    WsInv {| ws_phase := ws_phase s; ws_listening := ws_listening s; ws_rx := rx_publish capacity ev (ws_rx s);
      ws_sent := ws_sent s; ws_closed_calls := ws_closed_calls s; ws_requests := ws_requests s;
      ws_published := ws_published s ++ [ev];
      ws_lagged := ws_lagged s || negb (length (rx_queue (ws_rx s)) <? capacity)%nat |}).
  { intros Hn1 Hn2. split; [exact Hr | exact Hs | exact Hc |]. split; [exact Hl|]. split; [by destruct (ws_phase s)|].
    cbn [ws_lagged ws_rx ws_published ws_sent ws_phase]. intros [Hlag Hlen]%orb_false_iff.
    apply negb_false_iff in Hlen. destruct (Hst Hlag) as [Hm (sk & rest & Hpub & Hrest)].
    unfold rx_publish. rewrite Hlen. split; [done|]. exists sk, (rest ++ [ev]). split.
    - by rewrite Hpub, <- !app_assoc.
    - intros _. cbn [rx_queue]. by rewrite Hrest. }
  destruct (ws_phase s) eqn:E; [exact Hinv| | | |exact Hinv]; by apply Hmain.
Qed.

Lemma answer_frame_answers cmd listening r doc l st text :
  parse_frame text = Ok cmd -> answer_frame cmd listening r = (doc, l, st) -> answers text doc.
Proof.
  unfold answers, answer_frame. intros ->. destruct r as [v|e]; intros [= <- _ _]; [left | right]; eauto.
Qed.

(** A sent frame, in the three places where one is sent. *)
Lemma flush_inv s doc started ok :
  WsInv s -> ws_phase s = Replying doc started ->
  WsInv (send_or_close (if started then with_rx s (drain (ws_rx s)) else s) (FReply doc) ok Idle).
Proof.
  intros Hinv Hph. pose proof Hinv as [Hr Hs Hc (Hl & Hp & Hst)]. unfold replies_ok in Hr. rewrite Hph in Hr, Hc, Hp.
  destruct Hr as (before & text & Hreq & Hans & Hall).
  set (s1 := if started then with_rx s (drain (ws_rx s)) else s).
  assert (H1 : WsInv s1).
  { unfold s1. destruct started; [|done]. split; [apply Hinv | apply Hinv | cbn [with_rx ws_closed_calls ws_phase]; by rewrite Hph |].
    split; [exact Hl|]. split; [cbn [with_rx ws_phase]; by rewrite Hph|]. cbn [with_rx ws_lagged ws_rx ws_published ws_sent ws_phase]. intros Hlag.
    destruct (Hst Hlag) as [Hm (sk & rest & Hpub & Hrest)]. rewrite drain_clean by done. split; [done|].
    exists (sk ++ rest), []. split; [|done]. rewrite Hpub, Hp. by rewrite !app_nil_r. }
  assert (E1 : ws_phase s1 = Replying doc started /\ ws_requests s1 = ws_requests s /\ ws_sent s1 = ws_sent s)
    by (unfold s1; by destruct started). destruct E1 as (Hph1 & Hreq1 & Hsent1).
  unfold send_or_close. destruct ok; [|apply close_inv; [done | by rewrite Hph1]].
  destruct H1 as [_ Hs1 Hc1 (Hl1 & _ & Hst1)]. split.
  - unfold replies_ok, all_answered. cbn [with_phase push_frame ws_phase ws_requests ws_sent].
    rewrite replies_snoc, Hreq1, Hsent1, Hreq. apply Forall2_app; [done | by repeat constructor].
  - apply shape_snoc; [done | by rewrite Hph1 | done | done].
  - cbn [with_phase push_frame ws_closed_calls ws_phase]. by rewrite Hc1, Hph1.
  - unfold stream_ok. cbn [with_phase push_frame ws_listening ws_sent ws_phase ws_lagged ws_rx ws_published].
    rewrite delivered_snoc, app_nil_r. split; [exact Hl1|]. split; [done|]. intros Hlag.
    destruct (Hst1 Hlag) as [Hm (sk & rest & Hpub & Hrest)]. split; [done|]. exists sk, rest. split; [done|].
    intros _. apply Hrest. by rewrite Hph1.
Qed.

Lemma recv_inv s ok s' :
  WsInv s -> ws_phase s = Idle ->
  match try_recv (ws_rx s) with
  | (Err RxEmpty, _) => None
  | (Err (Lagged _), rx) => Some (with_rx s rx)
  | (Ok ev, rx) =>
      let s := with_rx s rx in
      if ws_listening s then Some (send_or_close s (FEvent ev) ok Idle) else Some s
  end = Some s' -> WsInv s'.
Proof.
  intros [Hr Hs Hc (Hl & Hp & Hst)] Hph. unfold try_recv. destruct (ws_rx s) as [q m] eqn:Erx. cbn [rx_missed rx_queue].
  destruct m as [|m].
  - destruct q as [|ev q]; [done|]. cbn zeta. cbn [with_rx ws_listening]. unfold stream_ok, replies_ok, shape_ok in *. rewrite Hph in *.
    assert (Hpub' : ws_lagged s = false -> exists sk, ws_published s = sk ++ delivered (ws_sent s) ++ ev :: q).
    { intros Hlag. destruct (Hst Hlag) as [_ (sk & rest & Hpub & Hrest)]. exists sk. by rewrite Hpub, Hrest. }
    destruct (ws_listening s) eqn:El; unfold send_or_close; [destruct ok|]; intros [= <-]; split;
      unfold replies_ok, shape_ok, stream_ok, all_answered in *;
      cbn [with_phase push_frame with_rx close ws_phase ws_requests ws_sent ws_closed_calls ws_listening ws_lagged ws_rx ws_published
        rx_missed rx_queue]; rewrite ?Hph, ?replies_snoc, ?delivered_snoc, ?app_nil_r; try done.
    + destruct Hs as (info & mid & Hm & ->). exists info, (mid ++ [FEvent ev]). split; [|done].
      apply Forall_app. split; [done | by repeat constructor].
    + split; [congruence|]. split; [done|]. intros Hlag. split; [done|]. destruct (Hpub' Hlag) as [sk ->].
      exists sk, q. by rewrite <- app_assoc.
    + exists (length (ws_requests s)). by rewrite firstn_all.
    + destruct Hs as (info & mid & Hm & ->). right. eauto 6.
    + by rewrite Hc.
    + split; [congruence|]. split; [done|]. intros Hlag. split; [done|]. destruct (Hpub' Hlag) as [sk ->].
      exists sk, (ev :: q). split; [done|]. done.
    + split; [intros _; by apply Hl|]. split; [done|]. intros Hlag. split; [done|]. destruct (Hpub' Hlag) as [sk ->].
      exists (sk ++ [ev]), q. rewrite (Hl eq_refl). by rewrite <- app_assoc.
  - intros [= <-]. split; [done | done | done |]. split; [done|]. split; [cbn; by rewrite Hph|].
    cbn [with_rx ws_lagged]. intros Hlag. destruct (Hst Hlag) as [Hm _]. done.
Qed.

Lemma answered_inv s cmd r doc listening started :
  WsInv s -> ws_phase s = Handling cmd -> answer_frame cmd (ws_listening s) r = (doc, listening, started) ->
  WsInv (with_phase (with_listening s listening) (Replying doc started)).
Proof.
  intros [Hr Hs Hc (Hl & Hp & Hst)] Hph Ea.
  assert (Hkeep : listening = false -> ws_listening s = false).
  { unfold answer_frame in Ea. destruct r; injection Ea as <- <- <-; [|done]. by intros [_ ?]%orb_false_iff. }
  assert (Hstart : started = true -> ws_listening s = false).
  { unfold answer_frame in Ea. destruct r; injection Ea as <- <- <-; [|done]. by intros [_ ?%negb_true_iff]%andb_true_iff. }
  unfold replies_ok, shape_ok, stream_ok, all_answered in *. rewrite Hph in *.
  split; unfold replies_ok, shape_ok, stream_ok, all_answered;
    cbn [with_phase with_listening ws_phase ws_requests ws_sent ws_closed_calls ws_listening ws_lagged ws_rx ws_published].
  - destruct Hr as (before & text & Hreq & Hparse & Hall). exists before, text. split; [done|]. split; [|done].
    by eapply answer_frame_answers.
  - done.
  - done.
  - split; [auto|]. split; [destruct started; auto|]. intros Hlag. destruct (Hst Hlag) as [Hm (sk & rest & Hpub & Hrest)].
    split; [done|]. exists sk, rest. split; [done|]. intros _. by apply Hrest.
Qed.

Lemma goodbye_inv s : WsInv s -> ws_phase s = Idle -> WsInv (close (push_frame s FShutdown)).
Proof.
  intros [Hr Hs Hc (Hl & Hp & Hst)] Hph. unfold replies_ok, shape_ok, stream_ok, all_answered in *. rewrite Hph in *.
  split; unfold replies_ok, shape_ok, stream_ok, all_answered; cbn [close push_frame ws_phase ws_requests ws_sent
    ws_closed_calls ws_listening ws_lagged ws_rx ws_published]; rewrite ?replies_snoc, ?delivered_snoc, ?app_nil_r.
  - exists (length (ws_requests s)). by rewrite firstn_all.
  - destruct Hs as (info & mid & Hm & ->). right. exists info, mid. split; [done|]. by right.
  - by rewrite Hc.
  - split; [done|]. split; [done|]. intros Hlag. destruct (Hst Hlag) as [Hm (sk & rest & Hpub & _)].
    split; [done|]. exists sk, rest. by split.
Qed.

Lemma ws_step_inv capacity l s s' : WsInv s -> ws_step capacity l s = Some s' -> WsInv s'.
Proof.
  intros Hinv. pose proof Hinv as [Hr Hs Hc (Hl & Hp & Hst)].
  unfold ws_step. destruct l as [info ok|ev|text| | |r|ok|ok|value|]; destruct (ws_phase s) as [| |cmd|doc started|] eqn:Hph; try done;
    try (intros [= <-]; first [by apply publish_inv | by apply close_inv; [|rewrite Hph] | done]).
  - (* Connect *) intros [= <-]. unfold send_or_close. destruct ok; [|apply close_inv; [done | by rewrite Hph]].
    unfold replies_ok, shape_ok, stream_ok, all_answered in *. rewrite Hph in *. destruct Hp as (Hrx & Hpub & Hd).
    split; unfold replies_ok, shape_ok, stream_ok, all_answered; cbn [with_phase push_frame ws_phase ws_requests ws_sent
      ws_closed_calls ws_listening ws_lagged ws_rx ws_published]; rewrite ?replies_snoc, ?delivered_snoc, ?app_nil_r; try done.
    + rewrite Hs. by exists info, [].
    + split; [done|]. split; [done|]. intros Hlag. rewrite Hrx, Hpub, Hd. split; [done|]. by exists [], [].
  - (* Inbound *) intros [= <-]. unfold replies_ok, shape_ok, stream_ok, all_answered in *. rewrite Hph in *.
    split; unfold replies_ok, shape_ok, stream_ok, all_answered;
      cbn [with_phase with_request ws_phase ws_requests ws_sent ws_closed_calls ws_listening ws_lagged ws_rx ws_published].
    + destruct (parse_frame text) as [cmd|e] eqn:E; exists (ws_requests s), text; (split; [done|]); (split; [|done]); [done|].
      unfold answers. by rewrite E.
    + by destruct (parse_frame text).
    + rewrite Hc. by destruct (parse_frame text).
    + split; [done|]. split; [by destruct (parse_frame text)|]. intros Hlag. destruct (Hst Hlag) as [Hm (sk & rest & Hpub & Hrest)].
      split; [done|]. exists sk, rest. split; [done|]. intros _. by apply Hrest.
  - (* Answer *) destruct (answer_frame cmd (ws_listening s) r) as [[doc listening] started] eqn:Ea. intros [= <-].
    by eapply answered_inv.
  - (* Flush *) intros [= <-]. by apply flush_inv.
  - (* RecvEvent *) by apply recv_inv.
  - (* ShutdownChanged *) destruct value as [[]|]; intros [= <-]; (done || by apply goodbye_inv).
Qed.

Lemma ws_run_inv capacity ls s s' : WsInv s -> ws_run capacity ls s = Some s' -> WsInv s'.
Proof.
  revert s. induction ls as [|l ls IH]; intros s Hinv; cbn [ws_run]; [by intros [= <-]|].
  destruct (ws_step capacity l s) as [s1|] eqn:E; [|done]. apply IH. by eapply ws_step_inv.
Qed.

Lemma conn_init_inv : WsInv conn_init.
Proof.
  split; [constructor | done | done |]. split; [done|]. split; [done|]. intros _. split; [done|]. by exists [], [].
Qed.
End client.

Section promises.
Context `{SerdeJson}.

(** C24: every request gets exactly one answer, in order, and the conversation
    has the documented shape.  Whatever frames arrive and whatever the
    controller answers, the replies sent are, one for one and in order, answers
    to the text frames received, each with its request's message id (all of
    them answered but the one being worked on, as long as the connection is
    open); the first frame is the server info, after the shutdown frame nothing
    is sent, and [connection_closed] is called exactly once, when the
    connection ends, however it ends. *)
Theorem conversation_well_formed capacity ls s :
  ws_run capacity ls conn_init = Some s ->
  (exists k, all_answered (take k (ws_requests s)) (ws_sent s) /\
    (ws_phase s = Idle -> k = length (ws_requests s))) /\
  (ws_sent s = [] \/ exists info mid, Forall (fun f => payload f = true) mid /\
    (ws_sent s = FInfo info :: mid \/ ws_phase s = Closed /\ ws_sent s = FInfo info :: mid ++ [FShutdown])) /\
  ws_closed_calls s = match ws_phase s with Closed => 1%nat | _ => 0%nat end.
Proof.
  intros Hr. apply ws_run_inv in Hr as [Hr Hs Hc _]; [|apply conn_init_inv]. split; [|split; [|done]].
  - unfold replies_ok in Hr. destruct (ws_phase s) as [| |cmd|doc st|].
    1,2: exists (length (ws_requests s)); by rewrite firstn_all.
    1,2: destruct Hr as (before & text & -> & _ & Ha); exists (length before); by rewrite take_app_length.
    destruct Hr as [k Ha]. by exists k.
  - unfold shape_ok in Hs. destruct (ws_phase s); [by left | | | |];
      [destruct Hs as (info & mid & Hm & Hs); right; eauto 6 .. |].
    destruct Hs as [Hs|(info & mid & Hm & [Hs|Hs])]; [by left | right; eauto 6 ..].
Qed.

(** A connection that keeps up gets an unbroken stream of events.  Unless
    it fell behind by more than the channel holds, the events it was sent are a
    contiguous stretch of those published, each exactly once and in order, and
    the next ones are still queued for it; and while it has not asked to listen
    it is sent none. *)
Theorem events_contiguous capacity ls s :
  ws_run capacity ls conn_init = Some s ->
  (ws_listening s = false -> delivered (ws_sent s) = []) /\
  (ws_lagged s = false ->
    exists skipped rest, ws_published s = skipped ++ delivered (ws_sent s) ++ rest /\
      (ws_phase s <> Closed -> rest = rx_queue (ws_rx s))).
Proof.
  intros Hr. apply ws_run_inv in Hr as [_ _ _ (Hl & _ & Hst)]; [|apply conn_init_inv]. split; [done|].
  intros Hlag. by destruct (Hst Hlag).
Qed.

(** An event published while [start_listening] is being answered is lost.
    The reply holds the nodes as the controller saw them; an event that another
    thread publishes after that and before the connection drains its queue is
    discarded as if it were older, so the client keeps a stale node and is
    never told.  From any idle connection that does not listen yet, for any
    event: *)
Theorem start_listening_loses_event capacity text cmd result ev (s : Conn) :
  ws_phase s = Idle -> ws_listening s = false -> rx_missed (ws_rx s) = 0%nat ->
  (length (rx_queue (ws_rx s)) < capacity)%nat ->
  parse_frame text = Ok cmd -> cm_command cmd = "start_listening" ->
  exists s', ws_run capacity [Inbound text; Answer (Ok result); Publish ev; Flush true] s = Some s' /\
    ws_sent s' = ws_sent s ++ [FReply (success_document {| sr_message_id := cm_message_id cmd; sr_result := result |})] /\
    ws_listening s' = true /\ ws_rx s' = rx_new /\ ws_published s' = ws_published s ++ [ev].
Proof.
  intros Hph Hl Hm Hlen Hparse Hcmd. cbn [ws_run]. unfold ws_step at 1. rewrite Hph, Hparse.
  unfold ws_step at 1. cbn [with_phase with_request ws_phase ws_listening]. rewrite Hl. unfold answer_frame. rewrite Hcmd. cbn [String.eqb].
  eexists. split; [reflexivity|]. cbn. split; [done|]. split; [done|]. split; [|done].
  apply Nat.ltb_lt in Hlen. unfold rx_publish. rewrite Hlen. apply drain_clean. exact Hm.
Qed.

(** Draining stops at a lag, so old events survive it.  [try_recv] reports
    a lag as an error, and the drain loop ends at the first error: on a
    receiver that fell behind, everything still queued from before
    [start_listening] stays, and is forwarded to the client as new. *)
Theorem lagged_drain_keeps_old_events (rx : Rx) :
  (0 < rx_missed rx)%nat -> drain rx = {| rx_queue := rx_queue rx; rx_missed := 0 |}.
Proof. intros Hm. unfold drain. cbn [drain_loop]. unfold try_recv. by destruct (rx_missed rx); [lia|]. Qed.

Lemma lagged_drain_keeps_old_events_witness :
  let ev n := {| em_event := n; em_data := VNull |} in
  drain (rx_publish 2 (ev "c") (rx_publish 2 (ev "b") (rx_publish 2 (ev "a") rx_new))) =
    {| rx_queue := [ev "b"; ev "c"]; rx_missed := 0 |}.
Proof. intros ev. apply lagged_drain_keeps_old_events. vm_compute. lia. Defined.
End promises.

(** A JSON library that knows one request. *)
Definition start_text : string := "start".
Definition start_command : Value :=
  VObject [("args", VObject []); ("command", VString "start_listening"); ("message_id", VString "1")].
Definition OneRequest : SerdeJson := {|
  de_message := fun _ => "bad"; json_to_string := fun _ => ""; json_chunks := fun _ => [];
  json_from_str := fun s => if String.eqb s start_text then Ok start_command else Err "bad" |}.

Definition demo_event : EventMessage := {| em_event := "node_updated"; em_data := VNull |}.
Definition demo_steps : list WsStep :=
  [Connect VNull true; Inbound "?"; Flush true; Inbound start_text; Answer (Ok VNull); Flush true;
   Publish demo_event; RecvEvent true].
Definition demo_conn : Conn := default conn_init (@ws_run OneRequest 4 demo_steps conn_init).

Lemma demo_conn_ok : @ws_run OneRequest 4 demo_steps conn_init = Some demo_conn.
Proof. vm_compute. reflexivity. Qed.

Lemma conversation_well_formed_witness :
  length (ws_requests demo_conn) = 2%nat /\ @all_answered OneRequest (ws_requests demo_conn) (ws_sent demo_conn).
Proof.
  split; [vm_compute; reflexivity|].
  destruct (@conversation_well_formed OneRequest 4 demo_steps demo_conn demo_conn_ok) as [(k & Ha & Hk) _].
  rewrite Hk in Ha by (vm_compute; reflexivity). by rewrite firstn_all in Ha.
Defined.

Lemma events_contiguous_witness :
  delivered (ws_sent demo_conn) = [demo_event] /\
  exists skipped rest, ws_published demo_conn = skipped ++ delivered (ws_sent demo_conn) ++ rest.
Proof.
  split; [vm_compute; reflexivity|].
  destruct (@events_contiguous OneRequest 4 demo_steps demo_conn demo_conn_ok) as [_ Hs].
  destruct Hs as (sk & rest & Hp & _); [vm_compute; reflexivity|]. by exists sk, rest.
Defined.

Lemma start_listening_loses_event_witness :
  exists s', @ws_run OneRequest 4 [Inbound start_text; Answer (Ok VNull); Publish demo_event; Flush true]
      (with_phase conn_init Idle) = Some s' /\ ws_listening s' = true /\ ws_rx s' = rx_new.
Proof.
  destruct (@start_listening_loses_event OneRequest 4 start_text {| cm_message_id := "1"; cm_command := "start_listening"; cm_args := [] |}
    VNull demo_event (with_phase conn_init Idle)) as (s' & Hs & _ & Hl & Hrx & _);
    [reflexivity | reflexivity | reflexivity | vm_compute; lia | vm_compute; reflexivity | reflexivity|].
  by exists s'.
Defined.
