(* ===== verification/Server.v ===== *)
(** * The running server

    The parts put together: the controller with its locks, the node manager,
    and any number of WebSocket connections, each with its own receiver of the
    one event channel and at most one command in the works ([handle_connection]
    of [crates/server/src/ws.rs], [MatterController] of [real.rs],
    [NodeManager::run]).  A step is one operation of one of them, so anything
    can happen between any two operations of a command or of the node manager. *)

From S2P Require Import Prelude Json Wire Prog Fs Storage Registry StackApi NodeManager ManagerOps Controller Commands Dispatch Sched CommandFacts Progress Mirror Ws.

(** [broadcast::channel(1024)] *)
Definition CAPACITY : nat := 1024.

(** The first connection's number. *)
Definition FIRST_CONN : ConnId := 1.

Section server.
Context {S L : Type} `{SerdeJson} `{NodeDate} `{Processes} `{!Stack S} `{!LogLevels L} (c : Ctrl).
Abbreviation CProg A := (Prog (COp S L) A).

Record Server : Type := {
  sv_world : World S L;
  sv_timers : Timers;                                   (* of the node manager *)
  sv_stack_events : list StackEvent;
  sv_expired : list Z;
  sv_handler : MgProg unit;                             (* what is left of the manager's current handler *)
  sv_boot : CProg unit;                                 (* the task [MatterController::new] spawns *)
  sv_conns : gmap ConnId Conn;
  sv_infos : gmap ConnId Value;                         (* the server info taken at the start of a connection *)
  sv_tasks : gmap ConnId (CProg CommandResult);         (* the command a connection waits for *)
  sv_next : ConnId;                                     (* NEXT_CONN_ID *)
  sv_stopping : bool;                                   (* the shutdown watch *)
}.

Definition set_world (w : World S L) (sv : Server) : Server :=
  {| sv_world := w; sv_timers := sv_timers sv; sv_stack_events := sv_stack_events sv; sv_expired := sv_expired sv; sv_handler := sv_handler sv; sv_boot := sv_boot sv;
     sv_conns := sv_conns sv; sv_infos := sv_infos sv; sv_tasks := sv_tasks sv; sv_next := sv_next sv;
     sv_stopping := sv_stopping sv |}.
Definition set_conns (conns : gmap ConnId Conn) (sv : Server) : Server :=
  {| sv_world := sv_world sv; sv_timers := sv_timers sv; sv_stack_events := sv_stack_events sv; sv_expired := sv_expired sv; sv_handler := sv_handler sv; sv_boot := sv_boot sv;
     sv_conns := conns; sv_infos := sv_infos sv; sv_tasks := sv_tasks sv; sv_next := sv_next sv;
     sv_stopping := sv_stopping sv |}.
Definition set_tasks (tasks : gmap ConnId (CProg CommandResult)) (sv : Server) : Server :=
  {| sv_world := sv_world sv; sv_timers := sv_timers sv; sv_stack_events := sv_stack_events sv; sv_expired := sv_expired sv; sv_handler := sv_handler sv; sv_boot := sv_boot sv;
     sv_conns := sv_conns sv; sv_infos := sv_infos sv; sv_tasks := tasks; sv_next := sv_next sv;
     sv_stopping := sv_stopping sv |}.

Definition set_manager (tm : Timers) (events : list StackEvent) (expired : list Z) (handler : MgProg unit) (sv : Server) : Server :=
  {| sv_world := sv_world sv; sv_timers := tm; sv_stack_events := events; sv_expired := expired; sv_handler := handler; sv_boot := sv_boot sv;
     sv_conns := sv_conns sv; sv_infos := sv_infos sv; sv_tasks := sv_tasks sv; sv_next := sv_next sv;
     sv_stopping := sv_stopping sv |}.

Definition set_boot (boot : CProg unit) (sv : Server) : Server :=
  {| sv_world := sv_world sv; sv_timers := sv_timers sv; sv_stack_events := sv_stack_events sv; sv_expired := sv_expired sv;
     sv_handler := sv_handler sv; sv_boot := boot; sv_conns := sv_conns sv; sv_infos := sv_infos sv; sv_tasks := sv_tasks sv;
     sv_next := sv_next sv; sv_stopping := sv_stopping sv |}.

(** All messages ever sent. *)
Definition sv_events (sv : Server) : list EventMessage := sh_events (w_shared (sv_world sv)).

(** The world after an operation: what it sent reaches every receiver. *)
Definition publish_all (evs : list EventMessage) (s : Conn) : Conn := fold_left (fun s ev => publish CAPACITY ev s) evs s.

Definition advance (w : World S L) (sv : Server) : Server :=
  let sent := drop (length (sv_events sv)) (sh_events (w_shared w)) in
  set_conns (publish_all sent <$> sv_conns sv) (set_world w sv).

Definition is_closed (s : Conn) : bool := match ws_phase s with Closed => true | _ => false end.

(** One step of one connection.  Leaving [handle_connection] runs the guard,
    and the command it may have been waiting for is dropped with it. *)
Definition conn_step (id : ConnId) (l : WsStep) (sv : Server) : option Server :=
  match sv_conns sv !! id with
  | None => None
  | Some s =>
      match ws_step CAPACITY l s with
      | None => None
      | Some s =>
          let sv := set_conns (<[id := s]> (sv_conns sv)) sv in
          Some (if is_closed s
                then advance (run_ctrl (connection_closed id) (sv_world sv)).2 (set_tasks (delete id (sv_tasks sv)) sv)
                else sv)
      end
  end.

Inductive SvStep : Type :=
| Accept                                   (* a client connects: its task starts *)
| Opened (id : ConnId) (ok : bool)         (* the server info is sent *)
| TextFrame (id : ConnId) (text : string)
| OtherFrame (id : ConnId)
| EndOfFrames (id : ConnId)
| Operate (id : ConnId)                    (* one operation of the command being handled *)
| Respond (id : ConnId)                    (* the handler returns *)
| SendReply (id : ConnId) (ok : bool)
| TakeEvent (id : ConnId) (ok : bool)
| Stop                                     (* [shutdown_tx.send(true)] *)
| SeeStop (id : ConnId)
| Manage (l : Label)                       (* the node manager's timers and queue, or a handler in one go *)
| TakeStackEvent                           (* the node manager takes an event: its handler starts *)
| TakeExpired
| Handle                                   (* one operation of the handler *)
| Boot.                                    (* one operation of the task that starts the supervisors *)

Definition accept (sv : Server) : Server :=
  let '(info, w) := run_ctrl (build_server_info c) (sv_world sv) in
  {| sv_world := w; sv_timers := sv_timers sv; sv_stack_events := sv_stack_events sv; sv_expired := sv_expired sv; sv_handler := sv_handler sv; sv_boot := sv_boot sv;
     sv_conns := <[sv_next sv := conn_init]> (sv_conns sv);
     sv_infos := <[sv_next sv := server_info_value info]> (sv_infos sv);
     sv_tasks := sv_tasks sv; sv_next := sv_next sv + 1; sv_stopping := sv_stopping sv |}.

(** What the connection receives; a command starts its handler. *)
Definition text_frame (id : ConnId) (text : string) (sv : Server) : option Server :=
  match conn_step id (Inbound text) sv with
  | None => None
  | Some sv =>
      Some (match parse_frame text with
            | Ok cmd => set_tasks (<[id := handle_command c id cmd]> (sv_tasks sv)) sv
            | Err _ => sv
            end)
  end.

Definition operate (id : ConnId) (sv : Server) : option Server :=
  match sv_tasks sv !! id with
  | Some p =>
      match task_step p (sv_world sv) with
      | Some (p, w) => Some (set_tasks (<[id := p]> (sv_tasks sv)) (advance w sv))
      | None => None
      end
  | None => None
  end.

(** A panic of the handler unwinds the connection's task. *)
Definition answer_step (r : CommandResult) : WsStep :=
  match r with
  | Ok v => Answer (Ok v)
  | Err (Failed e) => Answer (Err e)
  | Err Panicked => Abort
  end.

Definition respond (id : ConnId) (sv : Server) : option Server :=
  match sv_tasks sv !! id with
  | Some (Ret r) => conn_step id (answer_step r) (set_tasks (delete id (sv_tasks sv)) sv)
  | _ => None
  end.

(** The loop takes the next event or expiry when it is done with the last. *)
Definition handler_idle (sv : Server) : bool := match sv_handler sv with Ret _ => true | Do _ _ => false end.

Definition takes (l : Label) : bool := match l with NodeManager.RecvEvent | RecvExpiry => true | Push _ | Fire _ => false end.

Definition manage (l : Label) (sv : Server) : option Server :=
  if takes l && negb (handler_idle sv) then None else
  match manager_step (c_storage c) l
          {| mg_shared := w_shared (sv_world sv); mg_timers := sv_timers sv; mg_rx := sv_stack_events sv;
             mg_grace_rx := sv_expired sv |} with
  | None => None
  | Some m =>
      Some (set_manager (mg_timers m) (mg_rx m) (mg_grace_rx m) (sv_handler sv)
              (advance (with_shared (mg_shared m) (sv_world sv)) sv))
  end.

Definition take_stack_event (sv : Server) : option Server :=
  match sv_stack_events sv with
  | ev :: rest =>
      if handler_idle sv then Some (set_manager (sv_timers sv) rest (sv_expired sv) (event_ops (c_storage c) ev) sv) else None
  | [] => None
  end.

Definition take_expired (sv : Server) : option Server :=
  match sv_expired sv with
  | n :: rest =>
      if handler_idle sv then Some (set_manager (sv_timers sv) (sv_stack_events sv) rest (expiry_ops n) sv) else None
  | [] => None
  end.

Definition handle (sv : Server) : option Server :=
  match sv_handler sv with
  | Ret _ => None
  | Do op k =>
      let '(b, (s, tm)) := mg_step _ op (w_shared (sv_world sv), sv_timers sv) in
      Some (set_manager tm (sv_stack_events sv) (sv_expired sv) (k b) (advance (with_shared s (sv_world sv)) sv))
  end.

Definition boot (sv : Server) : option Server :=
  match sv_boot sv with
  | Ret _ => None
  | Do op k => let '(b, w) := ctrl_step _ op (sv_world sv) in Some (set_boot (k b) (advance w sv))
  end.

Definition stop (sv : Server) : Server :=
  {| sv_world := sv_world sv; sv_timers := sv_timers sv; sv_stack_events := sv_stack_events sv; sv_expired := sv_expired sv; sv_handler := sv_handler sv; sv_boot := sv_boot sv;
     sv_conns := sv_conns sv; sv_infos := sv_infos sv; sv_tasks := sv_tasks sv; sv_next := sv_next sv; sv_stopping := true |}.

Definition server_step (l : SvStep) (sv : Server) : option Server :=
  match l with
  | Accept => Some (accept sv)
  | Opened id ok =>
      match sv_infos sv !! id with Some info => conn_step id (Connect info ok) sv | None => None end
  | TextFrame id text => text_frame id text sv
  | OtherFrame id => conn_step id InboundOther sv
  | EndOfFrames id => conn_step id InboundEnd sv
  | Operate id => operate id sv
  | Respond id => respond id sv
  | SendReply id ok => conn_step id (Flush ok) sv
  | TakeEvent id ok => conn_step id (RecvEvent ok) sv
  | Stop => Some (stop sv)
  | SeeStop id => if sv_stopping sv then conn_step id (ShutdownChanged (Some true)) sv else None
  | Manage l => manage l sv
  | TakeStackEvent => take_stack_event sv
  | TakeExpired => take_expired sv
  | Handle => handle sv
  | Boot => boot sv
  end.

Fixpoint server_run (ls : list SvStep) (sv : Server) : option Server :=
  match ls with
  | [] => Some sv
  | l :: ls => match server_step l sv with Some sv => server_run ls sv | None => None end
  end.

(** [MatterController::new] on what is stored, and no connection yet. *)
Definition start (fs : FS) (now : Z) (log : L) (st : S) : Server :=
  {| sv_world := new c fs now log st; sv_timers := {| tm_grace := ∅; tm_tasks := ∅; tm_next := 0 |};
     sv_stack_events := []; sv_expired := []; sv_handler := Ret tt; sv_boot := start_supervisors; sv_conns := ∅; sv_infos := ∅; sv_tasks := ∅; sv_next := FIRST_CONN;
     sv_stopping := false |}.
End server.

(** ** What an operation of a command can do to the others

    It only adds messages, it only takes or gives up the fabric label in the
    name of its own connection, and it reaches the stack only by calling it. *)

Definition extends (s s' : Shared) : Prop := exists evs, sh_events s' = sh_events s ++ evs.

Lemma stream_refl s s' : sh_events s' = sh_events s -> extends s s'.
Proof. intros E. exists []. by rewrite E, app_nil_r. Qed.

Lemma stream_trans s1 s2 s3 : extends s1 s2 -> extends s2 s3 -> extends s1 s3.
Proof. intros [a E1] [b E2]. exists (a ++ b). by rewrite E2, E1, app_assoc. Qed.

Lemma extends_send event data s : extends s (send_event event data s).
Proof. by eexists. Qed.

Section polite.
Context {S L : Type} `{SerdeJson} `{NodeDate} `{Processes} `{!Stack S} `{!LogLevels L} (conn : ConnId).
Abbreviation CProg A := (Prog (COp S L) A).

Definition polite_world (w w' : World S L) : Prop :=
  extends (w_shared w) (w_shared w') /\ w_label_owner w' ∈ [w_label_owner w; Some conn; None].

Definition polite_op (B : Type) (op : COp S L B) : Prop :=
  match op with Atom f => forall w, polite_world w (f w).2 /\ w_stack (f w).2 = w_stack w | _ => True end.

Definition polite {A} (p : CProg A) : Prop := all_ops polite_op p.

Lemma polite_shared w w' :
  extends (w_shared w) (w_shared w') -> w_label_owner w' = w_label_owner w -> polite_world w w'.
Proof. intros He Ho. split; [done | rewrite Ho; by left]. Qed.

Lemma polite_ret {A} (a : A) : polite (Ret a).
Proof. apply all_ops_ret. Qed.
Lemma polite_bind {A B} (p : CProg A) (f : A -> CProg B) : polite p -> (forall a, polite (f a)) -> polite (prog_bind p f).
Proof. apply all_ops_bind. Qed.
Lemma polite_try {A B E} (p : CProg (Result A E)) (f : A -> CProg (Result B E)) :
  polite p -> (forall a, polite (f a)) -> polite (try_bind p f).
Proof. apply all_ops_try. Qed.
Lemma polite_atom {B} (f : World S L -> B * World S L) :
  (forall w, polite_world w (f w).2) -> (forall w, w_stack (f w).2 = w_stack w) -> polite (do_op (Atom f)).
Proof. intros Hf Hs. by apply all_ops_op. Qed.
Lemma polite_lift {A E} (r : Result A E) : polite (lift_result r).
Proof. apply polite_ret. Qed.
Lemma polite_acquire l : polite (do_op (Acquire l)).
Proof. by apply all_ops_op. Qed.
Lemma polite_release l : polite (do_op (Release l)).
Proof. by apply all_ops_op. Qed.
Lemma polite_stack {B} (op : StackOp B) : polite (stack op).
Proof. by apply all_ops_op. Qed.
Lemma polite_command argv : polite (do_op (Command argv)).
Proof. by apply all_ops_op. Qed.
Lemma polite_modify (f : World S L -> World S L) :
  (forall w, w_shared (f w) = w_shared w) -> (forall w, w_label_owner (f w) = w_label_owner w) ->
  (forall w, w_stack (f w) = w_stack w) -> polite (modify_world f).
Proof. intros Hf Ho Hs. apply polite_atom; [|done]. intros w. apply polite_shared; simpl; [|done]. apply stream_refl. by rewrite Hf. Qed.
Lemma polite_on_shared (g : Shared -> Shared) : (forall s, extends s (g s)) -> polite (modify_world (on_shared g)).
Proof. intros Hg. apply polite_atom; [|done]. intros w. by apply polite_shared; [apply Hg|]. Qed.
Lemma polite_read {A} (f : World S L -> A) : polite (read_world f).
Proof. apply polite_atom; [|done]. intros w. apply polite_shared; [|done]. by apply stream_refl. Qed.
Lemma polite_emit event data : polite (emit event data).
Proof. apply polite_on_shared. intros s. apply extends_send. Qed.
Lemma polite_persist c rec : polite (persist_record c rec).
Proof.
  apply polite_atom; intros w; destruct (run_io (save_node (c_storage c) rec) (sh_fs (w_shared w))); [|done].
  apply polite_shared; [by apply stream_refl | done].
Qed.
Lemma polite_ensure n : polite (ensure_node n).
Proof. apply polite_bind; [apply polite_read | intros; apply polite_ret]. Qed.
Lemma polite_server_info c : polite (build_server_info c).
Proof. apply polite_bind; [apply polite_read | intros; apply polite_ret]. Qed.
Lemma polite_broadcast c : polite (broadcast_server_info_updated c).
Proof. apply polite_bind; [apply polite_server_info | intros; apply polite_emit]. Qed.
Lemma polite_update {R} c (f : World S L -> ConfigData -> R * ConfigData) : polite (update_config c f).
Proof.
  apply polite_bind; [apply polite_acquire|]. intros _. apply polite_bind; [apply polite_read|]. intros cfg.
  apply polite_bind; [apply polite_read|]. intros x. apply polite_bind.
  { apply polite_atom; intros w; destruct (run_io (save_config (c_storage c) x.2) (sh_fs (w_shared w))); [|done].
    apply polite_shared; [by apply stream_refl | done]. }
  intros r. apply polite_bind; [by apply polite_modify|]. intros _. apply polite_bind; [apply polite_release | intros; apply polite_ret].
Qed.
Lemma polite_claim : polite (do_op (Atom (fun w : World S L =>
  let '(cl, owner) := Fabrics.claim_label conn (w_label_owner w) in (cl, with_owner owner w)))).
Proof.
  apply polite_atom; intros w; unfold Fabrics.claim_label; destruct (w_label_owner w) as [o|] eqn:E;
    [| |by destruct (o =? conn)|done].
  - destruct (o =? conn); (split; [by apply stream_refl|]; cbn; rewrite E; by left).
  - split; [by apply stream_refl|]. cbn. right. by left.
Qed.
Lemma polite_give_up : polite (modify_world (fun w : World S L => with_owner (Fabrics.release_label conn (w_label_owner w)) w)).
Proof.
  apply polite_atom; [|done]. intros w. split; [by apply stream_refl|]. cbn. unfold Fabrics.release_label.
  destruct (w_label_owner w) as [o|]; [destruct (o =? conn) | by left]; [by right; right; left | by left].
Qed.
End polite.

Create HintDb polite.
#[export] Hint Constants Opaque : polite.
#[export] Hint Resolve polite_ret polite_lift polite_acquire polite_release polite_stack polite_command polite_modify polite_read
  polite_persist polite_ensure polite_server_info polite_broadcast polite_update polite_emit polite_claim polite_give_up : polite.

Ltac polite_step :=
  lazymatch goal with
  | |- polite _ (prog_bind _ _) => apply polite_bind
  | |- polite _ (try_bind _ _) => apply polite_try
  | |- polite _ (match ?x with _ => _ end) => destruct x
  | |- polite _ (modify_world (fun w => on_shared _ w)) => apply polite_on_shared; intros; by apply stream_refl
  | |- polite _ (modify_world (on_shared _)) => apply polite_on_shared; intros; by apply stream_refl
  | |- polite _ _ => solve [eauto 3 with polite]
  end.
Ltac polite_auto := repeat (intros; cbv beta zeta; polite_step).

Section polite_handlers.
Context {S L : Type} `{SerdeJson} `{NodeDate} `{Processes} `{!Stack S} `{!LogLevels L} (c : Ctrl) (conn : ConnId).

Lemma polite_ping_all addrs n : polite (S := S) (L := L) conn (Nodes.ping_all addrs n).
Proof. induction addrs as [|a addrs IH]; cbn [Nodes.ping_all]; [apply polite_ret|]. unfold Nodes.ping_one. polite_auto. Qed.

Lemma polite_do_commission t : polite (S := S) (L := L) conn (Commissioning.do_commission c t).
Proof.
  unfold Commissioning.do_commission, Commissioning.commission_body, Commissioning.finish_commission, config_snapshot, get_node_data.
  polite_auto.
Qed.
#[local] Hint Resolve polite_ping_all polite_do_commission : polite.

Lemma polite_handlers args : Forall (fun h => polite (S := S) (L := L) conn h.2) (handlers c conn args).
Proof.
  unfold handlers. repeat first [apply Forall_nil_2 | apply Forall_cons_2]; cbn [snd];
    unfold Nodes.get_node, Nodes.diagnostics, Nodes.get_nodes, Nodes.interview_node, Nodes.remove_node, Nodes.ping_node,
      Nodes.get_node_ip_addresses, Nodes.merged_addresses, snapshot_record, get_node_data,
      Interaction.read_attribute, Interaction.write_attribute, Interaction.device_command,
      Commissioning.commission_with_code, Commissioning.commission_on_network,
      Commissioning.open_commissioning_window, Commissioning.discover, Credentials.set_wifi,
      Credentials.set_thread, Credentials.remove_wifi, Credentials.remove_thread, Credentials.get_all,
      Credentials.mutate_config, Fabrics.set_default_fabric_label, Fabrics.get_fabric_label, Fabrics.get_matter_fabrics,
      Fabrics.remove_matter_fabric, Fabrics.set_acl_entry, Fabrics.set_node_binding, Misc.get_vendor_names,
      Misc.set_loglevel, Misc.icd_state, Misc.resync_icd, Misc.check_node_update, Misc.update_node, Misc.get_loglevel,
      Misc.known_node, config_snapshot;
    polite_auto.
Qed.

Lemma polite_handle_command cmd : polite (S := S) (L := L) conn (handle_command c conn cmd).
Proof.
  unfold handle_command. destruct (lookup_command _ _) as [p|] eqn:E; [|apply polite_ret].
  apply lookup_command_In in E. pose proof (polite_handlers (cm_args cmd)) as Hk.
  rewrite Forall_forall in Hk. apply (Hk _ E).
Qed.
End polite_handlers.

(** ** Receivers *)

(** The connection has a receiver. *)
Definition receiving (s : Conn) : bool := match ws_phase s with Idle | Handling _ | Replying _ _ => true | _ => false end.

(** The messages published to it are those sent from some moment on, up to now
    or to when it closed. *)
Definition stretch (evs : list EventMessage) (s : Conn) : Prop :=
  exists k n, ws_published s = take n (drop k evs) /\ (k + n <= length evs)%nat /\
    (receiving s = true -> (k + n)%nat = length evs).

Section receivers.
Context `{SerdeJson}.

Definition conn_reached (s : Conn) : Prop := exists ls, ws_run CAPACITY ls conn_init = Some s.
Definition conn_ok (evs : list EventMessage) (s : Conn) : Prop := conn_reached s /\ stretch evs s.

Lemma ws_run_app ls l s s1 s2 : ws_run CAPACITY ls s = Some s1 -> ws_step CAPACITY l s1 = Some s2 -> ws_run CAPACITY (ls ++ [l]) s = Some s2.
Proof.
  revert s. induction ls as [|l0 ls IH]; intros s; cbn [ws_run app].
  - intros [= ->] Hs. by rewrite Hs.
  - destruct (ws_step CAPACITY l0 s) as [s'|]; [apply IH | done].
Qed.

Lemma conn_reached_step l s s' : conn_reached s -> ws_step CAPACITY l s = Some s' -> conn_reached s'.
Proof. intros [ls Hr] Hs. exists (ls ++ [l]). by eapply ws_run_app. Qed.

Lemma publish_phase ev s : ws_phase (publish CAPACITY ev s) = ws_phase s.
Proof. unfold publish. destruct (ws_phase s) eqn:E; by rewrite ?E. Qed.

Lemma publish_published ev s : ws_published (publish CAPACITY ev s) = ws_published s ++ (if receiving s then [ev] else []).
Proof. unfold publish, receiving. destruct (ws_phase s) eqn:E; by rewrite ?app_nil_r. Qed.

Lemma publish_all_phase evs s : ws_phase (publish_all evs s) = ws_phase s.
Proof.
  unfold publish_all. revert s. induction evs as [|ev evs IH]; intros s; cbn [fold_left]; [done|]. by rewrite IH, publish_phase.
Qed.

Lemma publish_all_receiving evs s : receiving (publish_all evs s) = receiving s.
Proof. unfold receiving. by rewrite publish_all_phase. Qed.

Lemma publish_all_published evs s :
  ws_published (publish_all evs s) = ws_published s ++ (if receiving s then evs else []).
Proof.
  unfold publish_all. revert s. induction evs as [|ev evs IH]; intros s; cbn [fold_left]; [by destruct (receiving s); rewrite app_nil_r|].
  rewrite IH, publish_published. unfold receiving. rewrite publish_phase. fold (receiving s).
  destruct (receiving s); [by rewrite <- app_assoc | by rewrite !app_nil_r].
Qed.

Lemma publish_all_reached evs s : conn_reached s -> conn_reached (publish_all evs s).
Proof.
  unfold publish_all. revert s. induction evs as [|ev evs IH]; intros s Hs; cbn [fold_left]; [done|].
  apply IH. by apply (conn_reached_step (Publish ev) s).
Qed.

Lemma publish_all_ok evs more s : conn_ok evs s -> conn_ok (evs ++ more) (publish_all more s).
Proof.
  intros [Hr (k & n & Hp & Hk & Hopen)]. split; [by apply publish_all_reached|].
  rewrite <- (publish_all_receiving more) in Hopen.
  destruct (receiving (publish_all more s)) eqn:E; rewrite publish_all_receiving in E.
  - exists k, (n + length more)%nat. rewrite publish_all_published, E, length_app. specialize (Hopen eq_refl).
    split; [|split; [lia | intros _; lia]]. rewrite Hp, drop_app_le, take_app by lia.
    rewrite length_drop. replace (n + length more - (length evs - k))%nat with (length more) by lia.
    rewrite firstn_all. f_equal. rewrite !take_ge; [done | rewrite length_drop; lia ..].
  - exists k, n. rewrite publish_all_published, E, app_nil_r, length_app, publish_all_receiving, E. split; [|split; [lia | done]].
    rewrite Hp, drop_app_le, take_app_le; [done | rewrite length_drop; lia | lia].
Qed.

(** A step of the connection itself does not change what was published, and
    a receiver starts with nothing. *)
Lemma ws_step_published l s s' :
  (forall ev, l <> Publish ev) -> ws_step CAPACITY l s = Some s' -> ws_published s' = ws_published s.
Proof.
  intros Hl. unfold ws_step, send_or_close. destruct l as [info ok|ev|text| | |r|ok|ok|value|]; [|by destruct (Hl ev)|..];
    destruct (ws_phase s) as [| |cmd|doc started|]; try done;
    repeat case_match; intros; simplify_eq; done.
Qed.

Lemma ws_step_receiving l s s' :
  (forall ev, l <> Publish ev) -> ws_step CAPACITY l s = Some s' ->
  (receiving s = true \/ ws_phase s = Connecting) /\ (receiving s' = true \/ ws_phase s' = Closed).
Proof.
  intros Hl. unfold ws_step, send_or_close, receiving. destruct l as [info ok|ev|text| | |r|ok|ok|value|]; [|by destruct (Hl ev)|..];
    destruct (ws_phase s) as [| |cmd|doc started|] eqn:E; try done;
    repeat case_match; intros; simplify_eq; cbn in *; try rewrite E; auto; congruence.
Qed.

Lemma conn_connecting s : conn_reached s -> ws_phase s = Connecting -> ws_published s = [].
Proof.
  intros [ls Hr] Hp. destruct (ws_run_inv _ _ _ _ conn_init_inv Hr) as [_ _ _ (_ & Hs & _)]. rewrite Hp in Hs. apply Hs.
Qed.

Lemma ws_step_ok evs l s s' :
  (forall ev, l <> Publish ev) -> conn_ok evs s -> ws_step CAPACITY l s = Some s' -> conn_ok evs s'.
Proof.
  intros Hl [Hr (k & n & Hp & Hk & Hopen)] Hs. split; [by eapply conn_reached_step|].
  destruct (ws_step_receiving l s s' Hl Hs) as [[Ho|Hc] Hafter].
  - exists k, n. rewrite (ws_step_published l s s' Hl Hs). split; [done|]. split; [done|]. intros _. by apply Hopen.
  - exists (length evs), 0%nat. rewrite (ws_step_published l s s' Hl Hs), (conn_connecting s Hr Hc). split; [done|]. split; [lia|]. intros _. lia.
Qed.
End receivers.

(** ** The node manager only adds messages *)

Section manager.
Context `{SerdeJson} `{NodeDate} (storage : Storage).

Lemma extends_change s s' : mg_change storage s s' -> extends s s'.
Proof. intros []; try (by apply stream_refl). apply extends_send. Qed.

Lemma handler_extends p st : handler_ok storage p -> extends st.1 (mg_run p st).2.1.
Proof.
  intros Hp. revert st. induction Hp as [a|B op k Hop _ IH]; intros [s tm]; [by apply stream_refl|]. unfold mg_run in *. cbn [run].
  destruct op as [X f|X f]; cbn [mg_step fst snd].
  - specialize (Hop s). destruct (f s) as [b s1]. eapply stream_trans; [by apply extends_change | apply (IH b (s1, tm))].
  - destruct (f tm) as [b tm1]. apply (IH b (s, tm1)).
Qed.

Lemma extends_manager_step s l m m' : manager_step storage l m = Some m' -> extends s (mg_shared m) -> extends s (mg_shared m').
Proof.
  intros Hm Hs. eapply (manager_step_inv storage (extends s)); [| | exact Hs | exact Hm].
  - intros ev s1 tm H1. eapply stream_trans; [exact H1|].
    pose proof (handler_extends _ (s1, tm) (event_ops_ok storage ev)) as He. by rewrite event_ops_at_once in He.
  - intros n s1 tm H1. eapply stream_trans; [exact H1|].
    pose proof (handler_extends _ (s1, tm) (expiry_ops_ok storage n)) as He. by rewrite expiry_ops_at_once in He.
Qed.
End manager.

(** ** The invariant of the whole *)

Section invariant.
Context {S L : Type} `{SerdeJson} `{NodeDate} `{Processes} `{!Stack S} `{!LogLevels L} (c : Ctrl).
Abbreviation Server := (@Server S L).
Abbreviation Tasks := (gmap ConnId (Prog (COp S L) CommandResult)).

Definition handling (conns : gmap ConnId Conn) (id : ConnId) : Prop :=
  exists s cmd, conns !! id = Some s /\ ws_phase s = Handling cmd.

Definition pool (tasks : Tasks) : list (Prog (COp S L) CommandResult) := (map_to_list tasks).*2.

(** The task of [MatterController::new] only reads and starts supervisors. *)
Definition starts (B : Type) (op : COp S L B) : Prop :=
  match op with
  | Atom f => forall w, (f w).2 = w
  | CallStack (StartSupervisor _) => True
  | _ => False
  end.
Definition starting (p : Prog (COp S L) unit) : Prop := all_ops starts p.

(** [except]: the connection whose command is just being started or answered. *)
Record SvInv (except : option ConnId) (sv : Server) : Prop := {
  iv_conns : forall id s, sv_conns sv !! id = Some s -> conn_ok (sv_events sv) s;
  iv_tasks : forall id, Some id <> except -> handling (sv_conns sv) id <-> is_Some (sv_tasks sv !! id);
  iv_polite : forall id p, sv_tasks sv !! id = Some p -> polite id p;
  iv_owned : owned (pool (sv_tasks sv), sv_world sv);
  iv_owner : forall id, w_label_owner (sv_world sv) = Some id -> exists s, sv_conns sv !! id = Some s /\ receiving s = true;
  iv_next : forall id s, sv_conns sv !! id = Some s -> id < sv_next sv;
  iv_handler : handler_ok (c_storage c) (sv_handler sv);
  iv_boot : starting (sv_boot sv);
}.

Lemma starts_supervisors : starting start_supervisors.
Proof.
  apply all_ops_bind; [by apply all_ops_op|]. intros ids. induction ids as [|n ids IH]; cbn [prog_for]; [constructor|].
  apply all_ops_bind; [by apply all_ops_op | intros _; exact IH].
Qed.

Lemma pool_insert (tasks : Tasks) id p : tasks !! id = None -> pool (<[id := p]> tasks) ≡ₚ p :: pool tasks.
Proof. intros Hid. unfold pool. by rewrite map_to_list_insert. Qed.

Lemma pool_lookup (tasks : Tasks) id p : tasks !! id = Some p -> pool tasks ≡ₚ p :: pool (delete id tasks).
Proof. intros Hid. rewrite <- pool_insert by apply lookup_delete_eq. by rewrite insert_delete_id. Qed.

Lemma pool_replace (tasks : Tasks) id p : pool (<[id := p]> tasks) ≡ₚ p :: pool (delete id tasks).
Proof. rewrite <- insert_delete_eq. apply pool_insert, lookup_delete_eq. Qed.

(** A new world: the messages sent reach everybody, nothing else changes. *)
Lemma advance_conns w (sv : Server) :
  extends (w_shared (sv_world sv)) (w_shared w) ->
  exists more, sv_events (advance w sv) = sv_events sv ++ more /\
    forall id, sv_conns (advance w sv) !! id = publish_all more <$> sv_conns sv !! id.
Proof.
  intros [more Hm]. exists more. split; [done|]. intros id. unfold advance. cbn [sv_conns set_conns set_world].
  unfold sv_events at 1. rewrite Hm, drop_app_length. by rewrite lookup_fmap.
Qed.

Lemma handling_advance w (sv : Server) id :
  extends (w_shared (sv_world sv)) (w_shared w) -> handling (sv_conns (advance w sv)) id <-> handling (sv_conns sv) id.
Proof.
  intros He. destruct (advance_conns w sv He) as (more & _ & Hc). unfold handling. rewrite Hc. split.
  - intros (s & cmd & (s0 & -> & ->)%fmap_Some & Hp). exists s0, cmd. by rewrite publish_all_phase in Hp.
  - intros (s & cmd & -> & Hp). exists (publish_all more s), cmd. by rewrite publish_all_phase.
Qed.

(** The owner of the label is unchanged, nobody, or a given open connection. *)
Lemma advance_inv except w (sv : Server) :
  SvInv except sv -> extends (w_shared (sv_world sv)) (w_shared w) -> owned (pool (sv_tasks sv), w) ->
  (forall id, w_label_owner w = Some id -> exists s, sv_conns sv !! id = Some s /\ receiving s = true) ->
  SvInv except (advance w sv).
Proof.
  intros [Hc Ht Hp Ho Hw Hn Hm Hb] He Hown Howner. destruct (advance_conns w sv He) as (more & Hev & Hcs). split.
  - intros id s Hs. rewrite Hcs in Hs. apply fmap_Some in Hs as (s0 & Hs & ->). rewrite Hev. apply publish_all_ok. by eapply Hc.
  - intros id Hid. rewrite handling_advance by done. by apply Ht.
  - exact Hp.
  - exact Hown.
  - intros id Hid. destruct (Howner id Hid) as (s & Hs & Hr). exists (publish_all more s). rewrite Hcs, Hs. split; [done|].
    by rewrite publish_all_receiving.
  - intros id s Hs. rewrite Hcs in Hs. apply fmap_Some in Hs as (s0 & Hs & ->). by eapply Hn.
  - exact Hm.
  - exact Hb.
Qed.

(** The locks of the others do not notice a world with the same locks. *)
Lemma advance_quiet except w (sv : Server) :
  SvInv except sv -> extends (w_shared (sv_world sv)) (w_shared w) -> w_held w = w_held (sv_world sv) ->
  (w_label_owner w = w_label_owner (sv_world sv)) -> SvInv except (advance w sv).
Proof.
  intros Hi He Hh Ho. apply advance_inv; [done | done | |].
  - apply (owned_world _ (sv_world sv)); [done | apply (iv_owned _ _ Hi)].
  - intros id Hid. apply (iv_owner _ _ Hi). by rewrite <- Ho.
Qed.

(** One connection after a step of its own, in a world where at most the label
    changed hands. *)
Lemma set_conn_inv id l s s' w (sv : Server) :
  (forall ev, l <> Publish ev) -> SvInv (Some id) sv -> sv_conns sv !! id = Some s -> ws_step CAPACITY l s = Some s' ->
  w_shared w = w_shared (sv_world sv) -> w_held w = w_held (sv_world sv) ->
  (forall i, w_label_owner w = Some i ->
     w_label_owner (sv_world sv) = Some i /\ (i <> id \/ receiving s' = true)) ->
  SvInv (Some id) (set_world w (set_conns (<[id := s']> (sv_conns sv)) sv)).
Proof.
  intros Hl [Hc Ht Hp Ho Hw Hn Hm Hb] Hid Hstep Hsh Hh How. split; cbn.
  - intros i s0. unfold sv_events. cbn. rewrite Hsh. fold (sv_events sv). destruct (decide (i = id)) as [->|Hne].
    + rewrite lookup_insert_eq. intros [= <-]. eapply ws_step_ok; [done | by eapply Hc | done].
    + rewrite lookup_insert_ne by done. apply Hc.
  - intros i Hne. unfold handling. rewrite lookup_insert_ne by congruence. by apply Ht.
  - exact Hp.
  - by apply (owned_world _ (sv_world sv)).
  - intros i [Hsame Hi]%How. destruct (decide (i = id)) as [->|Hii].
    + exists s'. rewrite lookup_insert_eq. split; [done|]. by destruct Hi.
    + rewrite lookup_insert_ne by done. by apply Hw.
  - intros i s0. destruct (decide (i = id)) as [->|Hne]; [intros _; by eapply Hn|].
    rewrite lookup_insert_ne by done. apply Hn.
  - exact Hm.
  - exact Hb.
Qed.

(** A step of one connection. *)
Lemma conn_step_inv id l (sv sv' : Server) :
  (forall ev, l <> Publish ev) -> sv_tasks sv !! id = None -> SvInv (Some id) sv -> conn_step id l sv = Some sv' ->
  SvInv (Some id) sv' /\ sv_tasks sv' = sv_tasks sv /\
  exists s s', sv_conns sv !! id = Some s /\ ws_step CAPACITY l s = Some s' /\
    exists s'', sv_conns sv' !! id = Some s'' /\ ws_phase s'' = ws_phase s'.
Proof.
  intros Hl Htask Hi Hs. unfold conn_step in Hs.
  destruct (sv_conns sv !! id) as [s|] eqn:Hid; [|done]. destruct (ws_step CAPACITY l s) as [s'|] eqn:Hstep; [|done].
  destruct (ws_step_receiving l s s' Hl Hstep) as [_ Hafter].
  pose proof (fun w => set_conn_inv id l s s' w sv Hl Hi Hid Hstep) as Hset.
  set (sv1 := set_conns (<[id := s']> (sv_conns sv)) sv) in *.
  destruct (is_closed s') eqn:Hclosed; injection Hs as <-.
  - set (w := with_owner (Fabrics.release_label id (w_label_owner (sv_world sv))) (sv_world sv)).
    assert (Htasks : set_tasks (delete id (sv_tasks sv)) sv1 = set_world (sv_world sv) sv1).
    { unfold set_tasks, set_world, sv1. cbn. by rewrite delete_id. }
    rewrite Htasks. assert (E : advance w (set_world (sv_world sv) sv1) = advance w (set_world w sv1)) by done.
    rewrite E. clear E Htasks.
    assert (Hi1 : SvInv (Some id) (set_world w sv1)).
    { apply Hset; [done | done |]. intros i. unfold w. cbn. unfold Fabrics.release_label.
      destruct (w_label_owner (sv_world sv)) as [o|]; [|done]. destruct (Z.eqb_spec o id); [done|].
      intros [= ->]. split; [done | by left]. }
    destruct (advance_conns w (set_world w sv1)) as (more & _ & Hcs); [by apply stream_refl|].
    split; [apply advance_quiet; [done | by apply stream_refl | done | done]|]. split; [done|].
    exists s, s'. split; [done|]. split; [done|]. exists (publish_all more s').
    rewrite Hcs. cbn. rewrite lookup_insert_eq. split; [done | apply publish_all_phase].
  - split; [|split; [done|]].
    + apply (Hset (sv_world sv)); [done | done|]. intros i Hii. split; [done|]. right.
      destruct Hafter as [?|Hcl]; [done|]. unfold is_closed in Hclosed. by rewrite Hcl in Hclosed.
    + exists s, s'. split; [done|]. split; [done|]. exists s'. cbn. by rewrite lookup_insert_eq.
Qed.

Lemma sv_weaken id (sv : Server) : SvInv None sv -> SvInv (Some id) sv.
Proof. intros [Hc Ht Hp Ho Hw Hn Hm Hb]. split; try done. intros i _. by apply Ht. Qed.

Lemma sv_settle id (sv : Server) :
  SvInv (Some id) sv -> (handling (sv_conns sv) id <-> is_Some (sv_tasks sv !! id)) -> SvInv None sv.
Proof.
  intros [Hc Ht Hp Ho Hw Hn Hm Hb] Hid. split; try done. intros i _. destruct (decide (i = id)) as [->|Hne]; [done|]. apply Ht. congruence.
Qed.

Lemma not_handling (sv : Server) id s :
  sv_conns sv !! id = Some s -> (forall cmd, ws_phase s <> Handling cmd) -> ~ handling (sv_conns sv) id.
Proof. intros Hs Hp (s0 & cmd & Hs0 & Hc). simplify_eq. by apply (Hp cmd). Qed.

(** The steps of a connection between commands. *)
Definition plain (l : WsStep) : Prop :=
  match l with Connect _ _ | InboundOther | InboundEnd | Flush _ | Ws.RecvEvent _ | ShutdownChanged _ => True | _ => False end.

Lemma plain_phases `{SerdeJson} l s s' :
  plain l -> ws_step CAPACITY l s = Some s' ->
  (forall cmd, ws_phase s <> Handling cmd) /\ (forall cmd, ws_phase s' <> Handling cmd).
Proof.
  intros Hl. unfold ws_step, send_or_close. destruct l; try done; destruct (ws_phase s) eqn:E; try done;
    repeat case_match; intros; simplify_eq; (split; intros; cbn; congruence).
Qed.

(** Only a connection that waits for no command takes such a step, or receives
    a frame. *)
Lemma idle_no_task id l (sv sv' : Server) :
  (forall s s' cmd, ws_step CAPACITY l s = Some s' -> ws_phase s <> Handling cmd) ->
  SvInv None sv -> conn_step id l sv = Some sv' -> sv_tasks sv !! id = None.
Proof.
  intros Hl Hi Hs. destruct (sv_tasks sv !! id) as [p|] eqn:Et; [|done]. unfold conn_step in Hs.
  destruct (sv_conns sv !! id) as [s|] eqn:Hid; [|done]. destruct (ws_step CAPACITY l s) as [s'|] eqn:Hw; [|done].
  destruct (proj2 (iv_tasks _ _ Hi id ltac:(done)) (ex_intro _ p Et)) as (s0 & cmd & Hs0 & Hc).
  rewrite Hid in Hs0. injection Hs0 as ->. by destruct (Hl s0 s' cmd Hw).
Qed.

Lemma plain_no_task id l (sv sv' : Server) : plain l -> SvInv None sv -> conn_step id l sv = Some sv' -> sv_tasks sv !! id = None.
Proof. intros Hl. apply idle_no_task. intros s s' cmd Hw. by apply (plain_phases l s s'). Qed.

Lemma frame_no_task id text (sv sv' : Server) : SvInv None sv -> conn_step id (Inbound text) sv = Some sv' -> sv_tasks sv !! id = None.
Proof. apply idle_no_task. intros s s' cmd Hw Hp. unfold ws_step in Hw. by rewrite Hp in Hw. Qed.

Lemma plain_step_inv id l (sv sv' : Server) :
  plain l -> SvInv None sv -> conn_step id l sv = Some sv' -> SvInv None sv'.
Proof.
  intros Hl Hi Hs.
  assert (Hpub : forall ev, l <> Publish ev) by (intros ev ->; done).
  pose proof (plain_no_task id l sv sv' Hl Hi Hs) as Htask.
  destruct (conn_step_inv id l sv sv' Hpub Htask (sv_weaken id sv Hi) Hs) as (Hi' & Et & s & s' & Hid & Hw & s'' & Hid' & Hph).
  apply (sv_settle id); [done|]. rewrite Et, Htask. split; [|by intros []].
  intros Hh. exfalso. revert Hh. apply (not_handling _ _ s'' Hid'). rewrite Hph. apply (plain_phases l s s' Hl Hw).
Qed.

(** A command arrives. *)
Lemma text_frame_inv id text (sv sv' : Server) : SvInv None sv -> text_frame c id text sv = Some sv' -> SvInv None sv'.
Proof.
  intros Hi. unfold text_frame. destruct (conn_step id (Inbound text) sv) as [sv1|] eqn:Hs; [|done].
  pose proof (frame_no_task id text sv sv1 Hi Hs) as Htask.
  destruct (conn_step_inv id (Inbound text) sv sv1) as (Hi' & Et & s & s' & Hid & Hw & s'' & Hid' & Hph); [done..| by apply sv_weaken | done |].
  assert (Hphase : ws_phase s' = match parse_frame text with Err e => Replying (bad_frame e) false | Ok cmd => Handling cmd end).
  { unfold ws_step in Hw. destruct (ws_phase s); try done. by injection Hw as <-. }
  rewrite <- Hph in Hphase. intros [= <-]. destruct (parse_frame text) as [cmd|e] eqn:Hparse.
  - apply (sv_settle id).
    + destruct Hi' as [Hc Ht Hp Ho How Hn Hm Hb]. split; cbn; try done.
      * intros i Hne. rewrite lookup_insert_ne by congruence. by apply Ht.
      * intros i p. destruct (decide (i = id)) as [->|Hne].
        -- rewrite lookup_insert_eq. intros [= <-]. apply polite_handle_command.
        -- rewrite lookup_insert_ne by done. apply Hp.
      * apply (owned_Permutation (handle_command c id cmd :: pool (sv_tasks sv1))).
        { symmetry. apply pool_insert. by rewrite Et. }
        apply owned_cons; [apply keeps_handle_command | done].
    + cbn. rewrite lookup_insert_eq. split; [by eexists|]. intros _. by exists s'', cmd.
  - apply (sv_settle id); [done|]. rewrite Et, Htask. split; [|by intros []].
    intros Hh. exfalso. revert Hh. apply (not_handling _ _ s'' Hid'). rewrite Hphase. done.
Qed.

(** An operation of a command. *)
Lemma polite_task_step id (p p' : Prog (COp S L) CommandResult) w w' :
  polite id p -> task_step p w = Some (p', w') -> polite id p' /\ polite_world id w w'.
Proof.
  intros Hp. destruct Hp as [a|B op k Hop Hk]; [done|]. simpl. destruct (enabled op w); [|done].
  destruct (ctrl_step B op w) as [b w1] eqn:E. intros [= <- <-]. split; [apply Hk|].
  destruct op as [X f|l|l|X op|argv]; simpl in *.
  - specialize (Hop w). rewrite E in Hop. apply Hop.
  - injection E as _ <-. apply polite_shared; [by apply stream_refl | done].
  - injection E as _ <-. apply polite_shared; [by apply stream_refl | done].
  - destruct (stack_call X op (w_stack w)). injection E as _ <-. apply polite_shared; [by apply stream_refl | done].
  - injection E as _ <-. apply polite_shared; [by apply stream_refl | done].
Qed.

Lemma operate_inv id (sv sv' : Server) : SvInv None sv -> operate id sv = Some sv' -> SvInv None sv'.
Proof.
  intros Hi. unfold operate. destruct (sv_tasks sv !! id) as [p|] eqn:Et; [|done].
  destruct (task_step p (sv_world sv)) as [[p' w]|] eqn:Es; [|done]. intros [= <-].
  destruct (polite_task_step id p p' _ w (iv_polite _ _ Hi id p Et) Es) as [Hp' [Hext Howner]].
  assert (Hh : handling (sv_conns sv) id) by (apply (iv_tasks _ _ Hi); [done | by rewrite Et]).
  assert (Hown : owned (p' :: pool (delete id (sv_tasks sv)), w)).
  { apply (owned_head p p' _ (sv_world sv)); [|done]. apply (owned_Permutation (pool (sv_tasks sv))); [by apply pool_lookup | apply (iv_owned _ _ Hi)]. }
  set (sv1 := set_tasks (<[id := p']> (sv_tasks sv)) sv).
  assert (E : set_tasks (<[id := p']> (sv_tasks sv)) (advance w sv) = advance w sv1) by done. rewrite E. clear E.
  pose proof Hi as [Hc Ht Hp Ho Hw Hn Hm Hb].
  assert (Hpool : owned (pool (sv_tasks sv1), w)).
  { apply (owned_Permutation (p' :: pool (delete id (sv_tasks sv)))); [|done]. symmetry. apply pool_replace. }
  assert (Hsv1 : forall w0, w_shared w0 = w_shared (sv_world sv) -> w_held w0 = w_held w ->
    w_label_owner w0 = w_label_owner (sv_world sv) -> SvInv None (set_world w0 sv1)).
  { intros w0 Hsh Hh0 Ho0. split; cbn.
    - intros i s Hs. unfold sv_events. cbn. rewrite Hsh. by eapply Hc.
    - intros i _. destruct (decide (i = id)) as [->|Hne].
      + rewrite lookup_insert_eq. split; [by eexists | done].
      + rewrite lookup_insert_ne by done. by apply Ht.
    - intros i q. destruct (decide (i = id)) as [->|Hne]; [rewrite lookup_insert_eq; by intros [= <-]|].
      rewrite lookup_insert_ne by done. apply Hp.
    - by apply (owned_world _ w).
    - rewrite Ho0. apply Hw.
    - apply Hn.
    - exact Hm.
    - exact Hb. }
  set (w0 := with_held (w_held w) (sv_world sv)).
  assert (E : advance w sv1 = advance w (set_world w0 sv1)) by done. rewrite E.
  apply advance_inv; [by apply Hsv1 | exact Hext | exact Hpool |].
  intros i Hio. rewrite Hio in Howner. cbn.
  assert (Hcase : w_label_owner (sv_world sv) = Some i \/ i = id).
  { rewrite !elem_of_cons in Howner. destruct Howner as [?|[[= ?]|[?|Hx]]]; [by left | by right | done | by apply elem_of_nil in Hx]. }
  destruct Hcase as [Hold| ->]; [by apply Hw|]. destruct Hh as (s & cmd & Hs & Hph). exists s. split; [done|].
  unfold receiving. by rewrite Hph.
Qed.

(** A handler returns. *)
Lemma respond_inv id (sv sv' : Server) : SvInv None sv -> respond id sv = Some sv' -> SvInv None sv'.
Proof.
  intros Hi. unfold respond. destruct (sv_tasks sv !! id) as [[r|]|] eqn:Et; [|done..]. intros Hs.
  set (sv1 := set_tasks (delete id (sv_tasks sv)) sv) in *.
  assert (Hi1 : SvInv (Some id) sv1).
  { destruct Hi as [Hc Ht Hp Ho Hw Hn Hm Hb]. split; cbn; try done.
    - intros i Hne. rewrite lookup_delete_ne by congruence. by apply Ht.
    - intros i p [_ Hi]%lookup_delete_Some. by apply Hp.
    - apply (owned_uncons r). apply (owned_Permutation (pool (sv_tasks sv))); [by apply pool_lookup | done]. }
  assert (Hpub : forall ev, answer_step r <> Publish ev) by (destruct r as [|[]]; done).
  destruct (conn_step_inv id (answer_step r) sv1 sv' Hpub (lookup_delete_eq _ _) Hi1 Hs) as (Hi' & E & s & s' & Hid & Hw & s'' & Hid' & Hph).
  apply (sv_settle id); [done|]. rewrite E. unfold sv1. cbn. rewrite lookup_delete_eq. split; [|by intros []].
  intros Hh. exfalso. revert Hh. apply (not_handling _ _ s'' Hid'). rewrite Hph. intros cmd.
  unfold ws_step in Hw. destruct r as [v|[e|]]; cbn [answer_step] in Hw; destruct (ws_phase s); try done.
  - destruct (answer_frame _ _ _) as [[doc li] st]. by injection Hw as <-.
  - destruct (answer_frame _ _ _) as [[doc li] st]. by injection Hw as <-.
  - by injection Hw as <-.
  - by injection Hw as <-.
  - by injection Hw as <-.
  - by injection Hw as <-.
Qed.

(** Only the world, the connections, the tasks, the counter and the manager's
    handler matter. *)
Lemma sv_same except (sv sv' : Server) :
  sv_world sv' = sv_world sv -> sv_conns sv' = sv_conns sv -> sv_tasks sv' = sv_tasks sv -> sv_next sv' = sv_next sv ->
  handler_ok (c_storage c) (sv_handler sv') -> starting (sv_boot sv') -> SvInv except sv -> SvInv except sv'.
Proof.
  intros Ew Ec Et En Hh Hb [Hc Ht Hp Ho Hw Hn _ _]. split; unfold sv_events in *; rewrite ?Ew, ?Ec, ?Et, ?En; done.
Qed.

Lemma manage_effect l (sv sv' : Server) :
  manage c l sv = Some sv' ->
  exists m, manager_step (c_storage c) l
    {| mg_shared := w_shared (sv_world sv); mg_timers := sv_timers sv; mg_rx := sv_stack_events sv; mg_grace_rx := sv_expired sv |} = Some m /\
    sv' = set_manager (mg_timers m) (mg_rx m) (mg_grace_rx m) (sv_handler sv) (advance (with_shared (mg_shared m) (sv_world sv)) sv).
Proof.
  unfold manage. destruct (takes l && negb (handler_idle sv)); [done|].
  destruct (manager_step _ _ _) as [m|]; [|done]. intros [= <-]. by exists m.
Qed.

Lemma manage_inv l (sv sv' : Server) : SvInv None sv -> manage c l sv = Some sv' -> SvInv None sv'.
Proof.
  intros Hi (m & Hm & ->)%manage_effect.
  apply (sv_same _ (advance (with_shared (mg_shared m) (sv_world sv)) sv)); [done..|apply (iv_handler _ _ Hi)|apply (iv_boot _ _ Hi)|].
  apply advance_quiet; [done | | done | done].
  apply (extends_manager_step (c_storage c) (w_shared (sv_world sv)) _ _ _ Hm). by apply stream_refl.
Qed.

(** The next event or expiry is taken. *)
Lemma take_effect (sv sv' : Server) :
  take_stack_event c sv = Some sv' \/ take_expired sv = Some sv' ->
  exists events expired p, sv' = set_manager (sv_timers sv) events expired p sv /\ handler_ok (c_storage c) p.
Proof.
  unfold take_stack_event, take_expired. intros [Ht|Ht].
  - destruct (sv_stack_events sv) as [|ev rest]; [done|]. destruct (handler_idle sv); [|done]. injection Ht as <-.
    exists rest, (sv_expired sv), (event_ops (c_storage c) ev). split; [done | apply event_ops_ok].
  - destruct (sv_expired sv) as [|n rest]; [done|]. destruct (handler_idle sv); [|done]. injection Ht as <-.
    exists (sv_stack_events sv), rest, (expiry_ops n). split; [done | apply expiry_ops_ok].
Qed.

Lemma take_inv (sv sv' : Server) :
  SvInv None sv -> take_stack_event c sv = Some sv' \/ take_expired sv = Some sv' -> SvInv None sv'.
Proof. intros Hi (events & expired & p & -> & Hp)%take_effect. apply (sv_same _ sv); [done..|apply (iv_boot _ _ Hi) | done]. Qed.

(** One operation of the manager's handler. *)
Lemma handle_effect (sv sv' : Server) :
  SvInv None sv -> handle sv = Some sv' ->
  exists s tm p, mg_change (c_storage c) (w_shared (sv_world sv)) s /\ handler_ok (c_storage c) p /\
    sv' = set_manager tm (sv_stack_events sv) (sv_expired sv) p (advance (with_shared s (sv_world sv)) sv).
Proof.
  intros Hi. pose proof (iv_handler _ _ Hi) as Hm. unfold handle. destruct Hm as [a|B op k Hop Hk]; [done|].
  destruct op as [X f|X f]; cbn [mg_step fst snd].
  - specialize (Hop (w_shared (sv_world sv))). destruct (f (w_shared (sv_world sv))) as [b s]. intros [= <-].
    exists s, (sv_timers sv), (k b). split; [done|]. split; [apply Hk | done].
  - destruct (f (sv_timers sv)) as [b tm]. intros [= <-]. exists (w_shared (sv_world sv)), tm, (k b).
    split; [constructor|]. split; [apply Hk | done].
Qed.

Lemma handle_inv (sv sv' : Server) : SvInv None sv -> handle sv = Some sv' -> SvInv None sv'.
Proof.
  intros Hi (s & tm & p & Hc & Hp & ->)%handle_effect; [|done].
  apply (sv_same _ (advance (with_shared s (sv_world sv)) sv)); [done..|apply (iv_boot _ _ Hi)|].
  apply advance_quiet; [done | by apply (extends_change (c_storage c)) | done | done].
Qed.

(** One operation of the task that starts the supervisors. *)
Lemma boot_effect (sv sv' : Server) :
  SvInv None sv -> boot sv = Some sv' ->
  exists st p, starting p /\ (st = w_stack (sv_world sv) \/ exists n, st = (stack_call _ (StartSupervisor n) (w_stack (sv_world sv))).2) /\
    sv' = set_boot p (advance (with_stack st (sv_world sv)) sv).
Proof.
  intros Hi. pose proof (iv_boot _ _ Hi) as Hb. unfold boot. destruct Hb as [a|B op k Hop Hk]; [done|].
  destruct op as [X f|l|l|X op|argv]; try done.
  - cbn [ctrl_step]. specialize (Hop (sv_world sv)). destruct (f (sv_world sv)) as [b w]. cbn in Hop. subst w. intros [= <-].
    exists (w_stack (sv_world sv)), (k b). split; [apply Hk|]. split; [by left|]. by destruct (sv_world sv).
  - destruct op; try done. cbn [ctrl_step]. destruct (stack_call _ (StartSupervisor node_id) (w_stack (sv_world sv))) as [b st] eqn:E.
    intros [= <-]. exists st, (k b). split; [apply Hk|]. split; [right; exists node_id; by rewrite E | done].
Qed.

Lemma boot_inv (sv sv' : Server) : SvInv None sv -> boot sv = Some sv' -> SvInv None sv'.
Proof.
  intros Hi (st & p & Hp & _ & ->)%boot_effect; [|done].
  apply (sv_same _ (advance (with_stack st (sv_world sv)) sv)); [done..|apply (iv_handler _ _ Hi) | done|].
  apply advance_quiet; [done | by apply stream_refl | done | done].
Qed.

Lemma accept_inv (sv : Server) : SvInv None sv -> SvInv None (accept c sv).
Proof.
  intros [Hc Ht Hp Ho Hw Hn Hm Hb].
  assert (Hnew : sv_conns sv !! sv_next sv = None).
  { destruct (sv_conns sv !! sv_next sv) as [s|] eqn:E; [|done]. apply Hn in E. lia. }
  assert (E : forall w : World S L, run_ctrl (build_server_info c) w = (server_info c (w_config w), w)) by done.
  split; unfold accept; rewrite E; cbn; try done.
  - intros id s. destruct (decide (id = sv_next sv)) as [->|Hne].
    + rewrite lookup_insert_eq. intros [= <-]. split; [by exists []|]. exists 0%nat, 0%nat. split; [done|]. split; [lia | done].
    + rewrite lookup_insert_ne by done. apply Hc.
  - intros id _. destruct (decide (id = sv_next sv)) as [->|Hne].
    + rewrite <- Ht by done. unfold handling. rewrite lookup_insert_eq, Hnew. split; [intros (s & cmd & [= <-] & Hph); done | by intros (? & ? & ? & _)].
    + unfold handling. rewrite lookup_insert_ne by done. by apply Ht.
  - intros id Hid. destruct (decide (id = sv_next sv)) as [->|Hne]; [apply Hw in Hid as (s & Hs & _); congruence|].
    rewrite lookup_insert_ne by done. by apply Hw.
  - intros id s. destruct (decide (id = sv_next sv)) as [->|Hne]; [intros _; lia|].
    rewrite lookup_insert_ne by done. intros Hs. apply Hn in Hs. lia.
Qed.

Lemma server_step_inv l (sv sv' : Server) : SvInv None sv -> server_step c l sv = Some sv' -> SvInv None sv'.
Proof.
  intros Hi. destruct l as [|id ok|id text|id|id|id|id|id ok|id ok| |id|l| | | |]; cbn [server_step].
  - intros [= <-]. by apply accept_inv.
  - destruct (sv_infos sv !! id); [|done]. by apply plain_step_inv.
  - by apply text_frame_inv.
  - by apply plain_step_inv.
  - by apply plain_step_inv.
  - by apply operate_inv.
  - by apply respond_inv.
  - by apply plain_step_inv.
  - by apply plain_step_inv.
  - intros [= <-]. apply (sv_same _ sv); [done..|apply (iv_handler _ _ Hi) | apply (iv_boot _ _ Hi) | done].
  - destruct (sv_stopping sv); [|done]. by apply plain_step_inv.
  - by apply manage_inv.
  - intros Ht. apply (take_inv sv); [done | by left].
  - intros Ht. apply (take_inv sv); [done | by right].
  - by apply handle_inv.
  - by apply boot_inv.
Qed.

Lemma server_run_inv ls (sv sv' : Server) : SvInv None sv -> server_run c ls sv = Some sv' -> SvInv None sv'.
Proof.
  revert sv. induction ls as [|l ls IH]; intros sv Hi; cbn [server_run]; [by intros [= <-]|].
  destruct (server_step c l sv) as [sv1|] eqn:E; [|done]. apply IH. by eapply server_step_inv.
Qed.

Lemma started_inv fs now log st : SvInv None (start c fs now log st).
Proof.
  assert (Ew : w_label_owner (new c fs now log st : World S L) = None /\ w_held (new c fs now log st : World S L) = []).
  { unfold new. destruct (run_io (load_nodes (c_storage c)) fs) as [records fs1].
    by destruct (run_io (load_config (c_storage c)) fs1) as [config fs2]. }
  destruct Ew as [Eo Eh]. split; cbn; try done.
  - intros id _. rewrite lookup_empty. split; [by intros (? & ? & ? & _) | by intros []].
  - by apply owned_start.
  - rewrite Eo. done.
  - constructor.
  - apply starts_supervisors.
Qed.
End invariant.

(** ** What a step of one connection does to the whole *)

Section effects.
Context {S L : Type} `{SerdeJson} `{NodeDate} `{Processes} `{!Stack S} `{!LogLevels L} (c : Ctrl).
Abbreviation Server := (@Server S L).

Lemma advance_silent w (sv : Server) :
  w_shared w = w_shared (sv_world sv) -> advance w sv = set_world w sv.
Proof.
  intros E. unfold advance. unfold sv_events. rewrite E, drop_all.
  destruct sv as [w0 tm se ex hd bt cs inf ts nx stp]. unfold set_conns, set_world. cbn. f_equal.
  rewrite <- (map_fmap_id cs) at 2. by apply map_fmap_ext.
Qed.

Lemma conn_step_effect id l (sv sv' : Server) :
  conn_step id l sv = Some sv' ->
  exists s s' w, sv_conns sv !! id = Some s /\ ws_step CAPACITY l s = Some s' /\
    w_shared w = w_shared (sv_world sv) /\ w_held w = w_held (sv_world sv) /\
    sv' = set_tasks (if is_closed s' then delete id (sv_tasks sv) else sv_tasks sv)
            (set_world w (set_conns (<[id := s']> (sv_conns sv)) sv)).
Proof.
  unfold conn_step. destruct (sv_conns sv !! id) as [s|]; [|done]. destruct (ws_step CAPACITY l s) as [s'|] eqn:Hs; [|done].
  intros [= <-]. destruct (is_closed s') eqn:Hc.
  - exists s, s', (run_ctrl (connection_closed id) (sv_world sv)).2. split; [done|]. split; [done|]. split; [done|]. split; [done|].
    rewrite advance_silent by done. by rewrite Hc.
  - exists s, s', (sv_world sv). split; [done|]. split; [done|]. split; [done|]. split; [done|]. rewrite Hc. by destruct sv.
Qed.

Lemma server_run_app ls1 ls2 (sv sv1 sv2 : Server) :
  server_run c ls1 sv = Some sv1 -> server_run c ls2 sv1 = Some sv2 -> server_run c (ls1 ++ ls2) sv = Some sv2.
Proof.
  revert sv. induction ls1 as [|l ls1 IH]; intros sv; cbn [server_run app]; [by intros [= ->]|].
  destruct (server_step c l sv); [apply IH | done].
Qed.

(** Only the last of two worlds is seen. *)
Lemma advance_advance w1 w2 (sv : Server) :
  extends (w_shared (sv_world sv)) (w_shared w1) -> extends (w_shared w1) (w_shared w2) ->
  advance w2 (advance w1 sv) = advance w2 sv.
Proof.
  intros [a Ea] [b Eb]. unfold advance, sv_events. cbn [sv_world set_conns set_world sv_conns]. rewrite Eb.
  rewrite drop_app_length, Ea, drop_app_length. rewrite <- app_assoc, drop_app_length.
  unfold set_conns, set_world. cbn. f_equal. rewrite <- map_fmap_compose. apply map_fmap_ext. intros id s _. unfold publish_all. cbn.
  by rewrite fold_left_app.
Qed.

(** A handler of the node manager in one go is a schedule of its operations. *)
Lemma handle_all p (sv : Server) :
  handler_ok (c_storage c) p -> sv_handler sv = p ->
  exists n, server_run c (replicate n Handle) sv =
    let '(_, (s, tm)) := mg_run p (w_shared (sv_world sv), sv_timers sv) in
    Some (set_manager tm (sv_stack_events sv) (sv_expired sv) (Ret tt) (advance (with_shared s (sv_world sv)) sv)).
Proof.
  intros Hp. revert sv. induction Hp as [[]|B op k Hop Hk IH]; intros sv Hh.
  - exists 0%nat. cbn. f_equal. rewrite advance_silent by done. by destruct sv as [[] tm se ex hd bt cs inf ts nx stp]; cbn in *; subst hd.
  - unfold mg_run in *. cbn [run]. destruct (mg_step B op (w_shared (sv_world sv), sv_timers sv)) as [b [s tm]] eqn:Es.
    set (sv1 := set_manager tm (sv_stack_events sv) (sv_expired sv) (k b) (advance (with_shared s (sv_world sv)) sv)).
    assert (He : extends (w_shared (sv_world sv)) s).
    { destruct op as [X f|X f]; cbn [mg_step fst snd] in Es.
      - specialize (Hop (w_shared (sv_world sv))). destruct (f (w_shared (sv_world sv))). injection Es as <- <- <-. by apply (extends_change (c_storage c)).
      - destruct (f (sv_timers sv)). injection Es as <- <- <-. by apply stream_refl. }
    destruct (IH b sv1 eq_refl) as [n Hn]. exists (Datatypes.S n). cbn [replicate server_run server_step]. unfold handle. rewrite Hh, Es.
    fold sv1. rewrite Hn. cbn [sv_world sv_timers sv1 set_manager advance set_conns set_world with_shared w_shared].
    pose proof (handler_extends (c_storage c) (k b) (s, tm) (Hk b)) as He'. unfold mg_run in He'.
    destruct (run mg_step (k b) (s, tm)) as [[] [s2 tm2]]. cbn [fst snd] in He'. f_equal.
    rewrite <- (advance_advance (with_shared s (sv_world sv)) (with_shared s2 (sv_world sv)) sv He He'). done.
Qed.

(** Taking an event or expiry and handling it, with nothing in between, is the
    step of [NodeManager]. *)
Theorem manage_in_one_go l (sv sv' : Server) :
  takes l = true -> manage c l sv = Some sv' ->
  exists n, server_run c ((match l with NodeManager.RecvEvent => TakeStackEvent | _ => TakeExpired end) :: replicate n Handle) sv = Some sv'.
Proof.
  intros Hl. unfold manage. rewrite Hl. destruct (handler_idle sv) eqn:Hi; [|done]. cbn [andb negb].
  assert (Hh : sv_handler sv = Ret tt) by (unfold handler_idle in Hi; by destruct (sv_handler sv) as [[]|]).
  destruct l as [ev|t| |]; try done; cbn [manager_step mg_rx mg_grace_rx mg_shared mg_timers].
  - destruct (sv_stack_events sv) as [|ev rest] eqn:Ee; [done|].
    destruct (handle_all (event_ops (c_storage c) ev) (set_manager (sv_timers sv) rest (sv_expired sv) (event_ops (c_storage c) ev) sv)
      (event_ops_ok _ ev) eq_refl) as [n Hn].
    intros Hs. exists n. cbn [server_run server_step]. unfold take_stack_event. rewrite Ee, Hi, Hn. cbn [sv_world sv_timers set_manager].
    rewrite event_ops_at_once. destruct (handle_event (c_storage c) ev (w_shared (sv_world sv)) (sv_timers sv)) as [s tm].
    cbn [mg_timers mg_rx mg_grace_rx mg_shared] in Hs. by rewrite Hh in Hs.
  - destruct (sv_expired sv) as [|m rest] eqn:Ee; [done|].
    destruct (handle_all (expiry_ops m) (set_manager (sv_timers sv) (sv_stack_events sv) rest (expiry_ops m) sv)
      (expiry_ops_ok _ m) eq_refl) as [n Hn].
    intros Hs. exists n. cbn [server_run server_step]. unfold take_expired. rewrite Ee, Hi, Hn. cbn [sv_world sv_timers set_manager].
    rewrite expiry_ops_at_once. destruct (handle_grace_expiry m (w_shared (sv_world sv)) (sv_timers sv)) as [s tm].
    cbn [mg_timers mg_rx mg_grace_rx mg_shared] in Hs. by rewrite Hh in Hs.
Qed.
End effects.

(** ** Every command comes to its answer *)

Section answers.
Context {S L : Type} `{SerdeJson} `{NodeDate} `{Processes} `{!Stack S} `{!LogLevels L} (c : Ctrl).
Abbreviation Server := (@Server S L).
Abbreviation Tasks := (gmap ConnId (Prog (COp S L) CommandResult)).

Definition tasks_continuation (ts' ts : Tasks) : Prop :=
  exists id p p', ts !! id = Some p /\ continuation p' p /\ ts' = <[id := p']> ts.

Lemma tasks_continuation_wf : well_founded tasks_continuation.
Proof.
  intros ts. induction ts as [|id p ts Hid IH] using map_ind; [constructor; by intros ? (? & ? & ? & ? & _)|].
  revert p. revert Hid. induction IH as [ts _ IHts]. intros Hid p. induction (continuation_wf p) as [p Hp IHp].
  constructor. intros ts' (i & q & q' & Hq & Hc & ->). destruct (decide (i = id)) as [->|Hne].
  - rewrite lookup_insert_eq in Hq. injection Hq as <-. rewrite insert_insert_eq. by apply IHp.
  - rewrite lookup_insert_ne in Hq by done. rewrite insert_insert_ne by done. apply IHts; [by exists i, q, q'|].
    by rewrite lookup_insert_ne.
Qed.

Definition operates (l : SvStep) : Prop := exists id, l = Operate id.

(** All handlers have returned. *)
Definition all_returned (sv : Server) : Prop := forall id p, sv_tasks sv !! id = Some p -> exists r, p = Ret r.

Lemma tasks_progress (sv : Server) :
  SvInv c None sv -> all_returned sv \/ exists id sv', operate id sv = Some sv' /\ tasks_continuation (sv_tasks sv') (sv_tasks sv).
Proof.
  intros Hi. destruct (owned_progress (pool (sv_tasks sv), sv_world sv) (iv_owned _ _ _ Hi)) as [Hf|(i & pw & Hs)].
  - left. intros id p Hp. unfold finished in Hf. rewrite Forall_forall in Hf. apply Hf. simpl. unfold pool.
    apply list_elem_of_fmap. exists (id, p). split; [done|]. by apply elem_of_map_to_list.
  - right. destruct pw as [pool' w']. apply pool_step_inv in Hs as (B & op & k & b & Hp & Hen & Hs & _).
    unfold pool in Hp. rewrite list_lookup_fmap in Hp. apply fmap_Some in Hp as ([id p] & Hid & Hp). cbn in Hp. subst p.
    apply list_elem_of_lookup_2, elem_of_map_to_list in Hid. exists id.
    unfold operate. rewrite Hid. simpl. rewrite Hen, Hs. eexists. split; [reflexivity|].
    exists id, (Do op k), (k b). split; [done|]. split; [by exists b | done].
Qed.

Lemma tasks_return (sv : Server) :
  SvInv c None sv -> exists ls sv', Forall operates ls /\ server_run c ls sv = Some sv' /\ all_returned sv' /\ SvInv c None sv' /\
    (forall id, is_Some (sv_tasks sv' !! id) <-> is_Some (sv_tasks sv !! id)).
Proof.
  remember (sv_tasks sv) as ts eqn:Ets. revert sv Ets. induction (tasks_continuation_wf ts) as [ts _ IH]. intros sv -> Hi.
  destruct (tasks_progress sv Hi) as [Hr|(id & sv1 & Hs & Hc)].
  - exists [], sv. split; [constructor|]. by split.
  - destruct (IH _ Hc sv1 eq_refl (operate_inv c id sv sv1 Hi Hs)) as (ls & sv' & Hls & Hrun & Hret & Hi' & Hsame).
    exists (Operate id :: ls), sv'. split; [constructor; [by eexists | done]|]. cbn [server_run server_step]. rewrite Hs.
    split; [done|]. split; [done|]. split; [done|]. intros i. rewrite Hsame.
    destruct Hc as (j & p & p' & Hp & _ & ->). destruct (decide (i = j)) as [->|Hne].
    + rewrite lookup_insert_eq, Hp. by split; eexists.
    + by rewrite lookup_insert_ne.
Qed.

(** C9: no connection waits for ever.  In every state the running server can
    reach, with any number of connections in the middle of commands and
    whatever their operations, the node manager and the clients did so far, the
    commands can be run to their ends, one operation after the other: there is
    a way to go on after which every connection that was handling a command has
    its handler's answer and takes it as its next step. *)
Theorem server_answers fs now log st ls (sv : Server) :
  server_run c ls (start c fs now log st) = Some sv ->
  exists more sv', Forall operates more /\ server_run c more sv = Some sv' /\
    forall id, handling (sv_conns sv) id ->
      (exists r, sv_tasks sv' !! id = Some (Ret r)) /\ exists sv'', server_step c (Respond id) sv' = Some sv''.
Proof.
  intros Hr. pose proof (server_run_inv c ls _ sv (started_inv c fs now log st) Hr) as Hi.
  destruct (tasks_return sv Hi) as (more & sv' & Hm & Hrun & Hret & Hi' & Hsame). exists more, sv'.
  split; [done|]. split; [done|]. intros id Hh.
  assert (Ht : is_Some (sv_tasks sv' !! id)) by (apply Hsame; by apply (iv_tasks _ _ _ Hi)).
  destruct Ht as [p Hp]. destruct (Hret id p Hp) as [r ->]. split; [by exists r|].
  assert (Hh' : handling (sv_conns sv') id) by (apply (iv_tasks _ _ _ Hi'); [done | by rewrite Hp]).
  destruct Hh' as (s & cmd & Hs & Hph). cbn [server_step]. unfold respond. rewrite Hp. unfold conn_step. cbn [set_tasks sv_conns].
  rewrite Hs. unfold ws_step. rewrite Hph. destruct r as [v|[e|]]; cbn [answer_step];
    try (destruct (answer_frame _ _ _) as [[doc li] started]); by eexists.
Qed.

(** C8: every client sees one and the same stream.  The messages a connection
    was sent, as long as it never fell behind by more than the channel holds,
    are a contiguous stretch of the messages the server has sent since it
    started, each once and in the order in which they were sent; while the
    connection is open everything after that stretch is queued for it, so two
    clients never disagree about the order of two events.  And the conversation
    of every connection is one of [Ws], whatever the others do. *)
Theorem one_stream fs now log st ls (sv : Server) (id : ConnId) (s : Conn) :
  server_run c ls (start c fs now log st) = Some sv -> sv_conns sv !! id = Some s ->
  (exists steps, ws_run CAPACITY steps conn_init = Some s) /\
  (ws_lagged s = false ->
    exists before after, sv_events sv = before ++ delivered (ws_sent s) ++ after /\
      (receiving s = true -> after = rx_queue (ws_rx s))).
Proof.
  intros Hr Hs. pose proof (server_run_inv c ls _ sv (started_inv c fs now log st) Hr) as Hi.
  destruct (iv_conns _ _ _ Hi id s Hs) as [[steps Hsteps] (k & n & Hp & Hk & Hopen)]. split; [by exists steps|]. intros Hlag.
  destruct (ws_run_inv _ _ _ _ conn_init_inv Hsteps) as [_ _ _ (_ & _ & Hst)]. destruct (Hst Hlag) as [_ (sk & rest & Hpub & Hrest)].
  assert (Hev : sv_events sv = take k (sv_events sv) ++ (sk ++ delivered (ws_sent s) ++ rest) ++ drop n (drop k (sv_events sv))).
  { rewrite <- Hpub, Hp. by rewrite !take_drop. }
  exists (take k (sv_events sv) ++ sk), (rest ++ drop n (drop k (sv_events sv))). split; [by rewrite Hev at 1; rewrite <- !app_assoc|].
  intros Hrec. rewrite drop_drop, drop_ge, app_nil_r by (rewrite (Hopen Hrec); lia). apply Hrest. intros Hcl.
  unfold receiving in Hrec. by rewrite Hcl in Hrec.
Qed.

(** C21: the fabric label is never held by somebody who left: in every state
    the running server can reach, the connection that owns the default fabric
    label is open, so a client that goes away, even in the middle of a command
    or by a failing send, frees it for the others. *)
Theorem label_owner_is_connected fs now log st ls (sv : Server) (id : ConnId) :
  server_run c ls (start c fs now log st) = Some sv -> w_label_owner (sv_world sv) = Some id ->
  exists s, sv_conns sv !! id = Some s /\ receiving s = true.
Proof.
  intros Hr Ho. apply (iv_owner _ _ _ (server_run_inv c ls _ sv (started_inv c fs now log st) Hr) id Ho).
Qed.
End answers.

(** ** Two clients and a new node *)

Section demo.
(** A JSON library that knows four requests. *)
Definition commission_text : string := "commission".
Definition label_text : string := "label".
Definition remove_text : string := "remove".
Definition request_value (mid name : string) (args : Map) : Value :=
  VObject [("args", VObject args); ("command", VString name); ("message_id", VString mid)].
Definition DemoRequests : SerdeJson := {|
  de_message := @de_message TreeJson; json_to_string := @json_to_string TreeJson; json_chunks := @json_chunks TreeJson;
  json_from_str := fun s =>
    if String.eqb s start_text then Ok start_command
    else if String.eqb s commission_text then Ok (request_value "2" "commission_with_code" [("code", VString "MT:X")])
    else if String.eqb s label_text then Ok (request_value "3" "set_default_fabric_label" [("label", VString "Home")])
    else if String.eqb s remove_text then Ok (request_value "4" "remove_node" [("node_id", json_u 1)])
    else @json_from_str TreeJson s |}.
#[local] Existing Instances DemoRequests demo_processes demo_date.

Definition demo_stack : FakeStack :=
  {| fk_calls := []; fk_read := None; fk_invoke := None; fk_write := None;
     fk_commission := Some (Ok {| co_device_fabric_index := 2; co_address := "10.0.0.5:5540" |});
     fk_interview := None; fk_window := None; fk_fabrics := None; fk_addresses := None; fk_browse := None; fk_label := None |}.

Abbreviation DemoServer := (@Server FakeStack (string * option string)).
Definition demo_start : DemoServer := start demo_ctrl demo_fs 0 ("info", None) demo_stack.

(** A run and what there is to see in its last state. *)
Definition seen {A} (f : DemoServer -> A) (steps : list SvStep) : option A := f <$> server_run demo_ctrl steps demo_start.

Lemma seen_run {A} (f : DemoServer -> A) steps a :
  seen f steps = Some a -> exists sv, server_run demo_ctrl steps demo_start = Some sv /\ f sv = a.
Proof. unfold seen. intros (sv & Hr & ->)%fmap_Some. by exists sv. Qed.

Definition is_handling (id : ConnId) (sv : DemoServer) : bool :=
  match sv_conns sv !! id with Some s => match ws_phase s with Handling _ => true | _ => false end | None => false end.

Lemma is_handling_spec id sv : is_handling id sv = true -> handling (sv_conns sv) id.
Proof.
  unfold is_handling, handling. destruct (sv_conns sv !! id) as [s|]; [|done].
  destruct (ws_phase s) as [| |cmd|doc st|] eqn:E; try done. intros _. by exists s, cmd.
Qed.

(** One client is in the middle of commissioning, holding [alloc_lock], when
    another asks to listen. *)
Definition middle_steps : list SvStep :=
  [Accept; Opened 1 true; Accept; Opened 2 true; TextFrame 1 commission_text; Operate 1; TextFrame 2 start_text].

Lemma server_answers_witness :
  exists sv, server_run demo_ctrl middle_steps demo_start = Some sv /\ w_held (sv_world sv) = [AllocLock] /\
    exists more sv', Forall operates more /\ server_run demo_ctrl more sv = Some sv' /\
      (exists r, sv_tasks sv' !! 1 = Some (Ret r)) /\ (exists r, sv_tasks sv' !! 2 = Some (Ret r)).
Proof.
  destruct (seen_run (fun sv => (w_held (sv_world sv), is_handling 1 sv, is_handling 2 sv)) middle_steps ([AllocLock], true, true))
    as (sv & Hr & E); [by vm_compute|]. injection E as Eh E1 E2. exists sv. split; [exact Hr|]. split; [exact Eh|].
  destruct (server_answers demo_ctrl demo_fs 0 ("info", None) demo_stack middle_steps sv Hr) as (more & sv' & Hm & Hrun & Hall).
  exists more, sv'. split; [exact Hm|]. split; [exact Hrun|].
  split; [exact (proj1 (Hall 1 (is_handling_spec 1 sv E1))) | exact (proj1 (Hall 2 (is_handling_spec 2 sv E2)))].
Defined.

(** A client listens and commissions a node, and is told. *)
Definition commission_steps : list SvStep :=
  [Accept; Opened 1 true; TextFrame 1 start_text; Operate 1; Respond 1; SendReply 1 true; TextFrame 1 commission_text] ++
  replicate 17 (Operate 1) ++ [Respond 1; SendReply 1 true].

Lemma one_stream_witness :
  exists sv s, server_run demo_ctrl (commission_steps ++ [TakeEvent 1 true]) demo_start = Some sv /\
    sv_conns sv !! 1 = Some s /\ em_event <$> delivered (ws_sent s) = ["node_added"] /\
    exists before after, sv_events sv = before ++ delivered (ws_sent s) ++ after.
Proof.
  destruct (seen_run (fun sv => (fun s => (ws_lagged s, em_event <$> delivered (ws_sent s))) <$> sv_conns sv !! 1)
    (commission_steps ++ [TakeEvent 1 true]) (Some (false, ["node_added"]))) as (sv & Hr & E); [by vm_compute|].
  apply fmap_Some in E as (s & Hs & E). injection E as El Ed. exists sv, s. split; [exact Hr|]. split; [exact Hs|]. split; [by symmetry|].
  destruct (one_stream demo_ctrl demo_fs 0 ("info", None) demo_stack _ sv 1 s Hr Hs) as [_ Hstream].
  destruct (Hstream (eq_sym El)) as (before & after & Hev & _). by exists before, after.
Defined.

(** A client has claimed the label and its command is not finished. *)
Definition label_steps : list SvStep := [Accept; Opened 1 true; TextFrame 1 label_text; Operate 1].

Lemma label_owner_is_connected_witness :
  exists sv s, server_run demo_ctrl label_steps demo_start = Some sv /\ w_label_owner (sv_world sv) = Some 1 /\
    sv_conns sv !! 1 = Some s /\ receiving s = true.
Proof.
  destruct (seen_run (fun sv => w_label_owner (sv_world sv)) label_steps (Some 1)) as (sv & Hr & E); [by vm_compute|].
  destruct (label_owner_is_connected demo_ctrl demo_fs 0 ("info", None) demo_stack label_steps sv 1 Hr E) as (s & Hs & Hrec).
  by exists sv, s.
Defined.
End demo.
