(* ===== verification/Records.v ===== *)
(** * A known node is never replaced

    What commissioning stored of a node (when it was commissioned, the index
    the device gave this controller's fabric, which [remove_node] must send
    back) lasts as long as the node is known, however commands and stack events
    interleave on the running server; and two commissionings never run side by
    side.

    The proof is by rely and guarantee.  Commissioning inserts under an id that
    nobody had when it was allocated.  That nobody has it when the device has
    been commissioned, seconds later, follows from [alloc_lock]: a task relies
    on the others to insert no node while it holds that lock, and guarantees to
    insert none itself without it, and none that is known. *)

From S2P Require Import Prelude Json Wire Prog Fs Storage Registry StackApi NodeManager ManagerOps Controller Commands Dispatch Sched CommandFacts Progress Mirror Ws Server.

(** ** What a step may do to the registry *)

(** What commissioning stored. *)
Definition same_node (e e' : NodeEntry) : Prop :=
  nr_node_id (ne_record e') = nr_node_id (ne_record e) /\
  nr_date_commissioned (ne_record e') = nr_date_commissioned (ne_record e) /\
  nr_device_fabric_index (ne_record e') = nr_device_fabric_index (ne_record e) /\
  nr_addresses (ne_record e') = nr_addresses (ne_record e).

#[export] Instance same_node_preorder : PreOrder same_node.
Proof.
  split; [by intros e|]. intros e1 e2 e3 (? & ? & ? & ?) (? & ? & ? & ?).
  split; [congruence|]. split; [congruence|]. split; congruence.
Qed.

Definition all_same (_ : Z) : NodeEntry -> NodeEntry -> Prop := same_node.

#[export] Instance all_same_preorder n : PreOrder (all_same n).
Proof. exact same_node_preorder. Qed.

(** Known nodes are removed or changed within [R]. *)
Definition lasts (R : Z -> NodeEntry -> NodeEntry -> Prop) (r r' : Registry) : Prop :=
  forall n e, bt_get r n = Some e -> bt_get r' n = None \/ exists e', bt_get r' n = Some e' /\ R n e e'.

Definition inserts_none (r r' : Registry) : Prop := forall n, bt_get r n = None -> bt_get r' n = None.

Definition tame (R : Z -> NodeEntry -> NodeEntry -> Prop) (r r' : Registry) : Prop := lasts R r r' /\ inserts_none r r'.

Section tame.
Context (R : Z -> NodeEntry -> NodeEntry -> Prop) `{!forall n, PreOrder (R n)}.

Lemma tame_refl r : tame R r r.
Proof. split; [|by intros n]. intros n e He. right. by exists e. Qed.

Lemma tame_trans r1 r2 r3 : tame R r1 r2 -> tame R r2 r3 -> tame R r1 r3.
Proof.
  intros [L1 I1] [L2 I2]. split; [|intros n Hn; by apply I2, I1]. intros n e He.
  destruct (L1 n e He) as [Hn|(e2 & He2 & S1)]; [left; by apply I2|].
  destruct (L2 n e2 He2) as [Hn|(e3 & He3 & S2)]; [by left|]. right. exists e3. split; [done|]. by trans e2.
Qed.

Lemma tame_with_entry {A} n (f : NodeEntry -> A * NodeEntry) r : (forall e, R n e (f e).2) -> tame R r (Registry.with_entry n f r).2.
Proof.
  intros Hf. unfold Registry.with_entry. destruct (bt_get r n) as [e|] eqn:E; [|apply tame_refl]. specialize (Hf e).
  destruct (f e) as [x e']. simpl in *. split.
  - intros k ek Hk. right. rewrite bt_get_insert. case_decide as Hkn; [|by exists ek]. exists e'. split; [done|]. subst. by simplify_eq.
  - intros k Hk. rewrite bt_get_insert. case_decide; [congruence | done].
Qed.

Lemma tame_remove n r : tame R r (Registry.remove n r).2.
Proof.
  assert (G : forall k, bt_get (bt_remove n r) k = None \/ bt_get (bt_remove n r) k = bt_get r k).
  { intros k. destruct (decide (n = k)) as [->|Hne]; [left; apply bt_get_remove_eq | right; by apply bt_get_remove_ne]. }
  split; simpl.
  - intros k e He. destruct (G k) as [?|E]; [by left|]. right. exists e. by rewrite E.
  - intros k Hk. destruct (G k) as [?|E]; [done | by rewrite E].
Qed.

(** An id nobody has. *)
Lemma lasts_insert record r : bt_get r (nr_node_id record) = None -> lasts R r (Registry.insert record r).
Proof.
  intros Hn k e He. right. exists e. unfold Registry.insert. rewrite bt_get_insert, decide_False by congruence. done.
Qed.
End tame.

(** ** The node manager *)

Section manager.
Context `{SerdeJson} `{NodeDate} (storage : Storage).

Definition tame_shared (s s' : Shared) : Prop := tame all_same (sh_registry s) (sh_registry s').

(** One operation of a handler. *)
Lemma tame_change s s' : mg_change storage s s' -> tame_shared s s'.
Proof.
  intros []; try apply (tame_refl all_same); apply (tame_with_entry all_same); try done.
Qed.

(** A handler in one go is its operations. *)
Lemma tame_handler p s tm : handler_ok storage p -> tame_shared s (mg_run p (s, tm)).2.1.
Proof.
  intros Hp. revert s tm. induction Hp as [a|B op k Hop _ IH]; intros s tm; [apply (tame_refl all_same)|].
  unfold mg_run in *. cbn [run]. destruct op as [X f|X f]; cbn [mg_step fst snd].
  - specialize (Hop s). destruct (f s) as [b s1]. eapply (tame_trans all_same); [by apply tame_change | apply IH].
  - destruct (f tm) as [b tm1]. apply IH.
Qed.

Lemma tame_manager_step l m m' : manager_step storage l m = Some m' -> tame_shared (mg_shared m) (mg_shared m').
Proof.
  intros Hm. eapply (manager_step_inv storage (tame_shared (mg_shared m))); [| | | exact Hm].
  - intros ev s1 tm H1. eapply (tame_trans all_same); [exact H1|].
    pose proof (tame_handler _ s1 tm (event_ops_ok storage ev)) as Ht. by rewrite event_ops_at_once in Ht.
  - intros n s1 tm H1. eapply (tame_trans all_same); [exact H1|].
    pose proof (tame_handler _ s1 tm (expiry_ops_ok storage n)) as Ht. by rewrite expiry_ops_at_once in Ht.
  - apply (tame_refl all_same).
Qed.
End manager.

(** ** Commands, one operation at a time *)

Section programs.
Context {S L : Type} `{SerdeJson} `{NodeDate} `{Processes} `{!Stack S} `{!LogLevels L} (c : Ctrl).
Context (N : Z -> NodeEntry -> NodeEntry -> Prop) `{!forall n, PreOrder (N n)}.
Abbreviation CProg A := (Prog (COp S L) A).
Abbreviation tame := (tame N).
Abbreviation tame_refl := (tame_refl N).

(** What a task that holds the locks [h] guarantees of each operation. *)
Definition guarantee (h : list LockName) (w w' : World S L) : Prop :=
  lasts N (w_registry w) (w_registry w') /\ (AllocLock ∉ h -> inserts_none (w_registry w) (w_registry w')).

(** What it knows: an id it may insert under.  Only the holder of [alloc_lock]
    can rely on that. *)
Definition free (f : option Z) (w : World S L) : Prop :=
  match f with Some n => bt_get (w_registry w) n = None | None => True end.

(** The operation asks the stack to commission a device. *)
Definition commissions {B} (op : COp S L B) : bool := match op with CallStack op => is_commission op | _ => false end.

(** Holding [h] and knowing [f], the program commissions only under the lock, keeps its guarantee, and ends
    holding [h'] and with [Q] of its reply and of what it knows then. *)
Fixpoint guards (f : option Z) (h h' : list LockName) {A} (p : CProg A) (Q : A -> option Z -> Prop) : Prop :=
  (f <> None -> AllocLock ∈ h) /\
  match p with
  | Ret a => h = h' /\ Q a f
  | Do op k =>
      op_ok op h /\ (commissions op = true -> AllocLock ∈ h) /\
      forall w, free f w ->
        guarantee h w (ctrl_step _ op w).2 /\
        exists f', free f' (ctrl_step _ op w).2 /\ guards f' (held_after op h) h' (k (ctrl_step _ op w).1) Q
  end.

Lemma guards_ret f h {A} (a : A) (Q : A -> option Z -> Prop) : (f <> None -> AllocLock ∈ h) -> Q a f -> guards f h h (Ret a) Q.
Proof. done. Qed.

Lemma guards_bind f h1 h2 h3 {A B} (p : CProg A) (k : A -> CProg B) Q R :
  guards f h1 h2 p R -> (forall a f, R a f -> (f <> None -> AllocLock ∈ h2) -> guards f h2 h3 (k a) Q) ->
  guards f h1 h3 (prog_bind p k) Q.
Proof.
  revert f h1. induction p as [a|X op cont IH]; intros f h1; simpl.
  - intros [Hf [-> Ha]] Hk. by apply Hk.
  - intros (Hf & Hop & Hc & Hp) Hk. split; [done|]. split; [done|]. split; [done|]. intros w Hw. destruct (Hp w Hw) as (Hg & f' & Hf' & Hcont).
    split; [done|]. exists f'. split; [done|]. by apply IH.
Qed.

(** Operations that insert nothing whatever the state. *)
Definition tame_atom {B} (op : COp S L B) : Prop :=
  match op with Atom f => forall w, tame (w_registry w) (w_registry (f w).2) | _ => True end.

Definition tame_op (B : Type) (op : COp S L B) : Prop := tame_atom op /\ commissions op = false.

Lemma tame_op_step {B} (op : COp S L B) w :
  tame_atom op -> tame (w_registry w) (w_registry (ctrl_step B op w).2).
Proof.
  intros Hop. destruct op as [X f|l|l|X op|argv]; simpl; [by apply Hop | apply tame_refl | apply tame_refl | | apply tame_refl].
  destruct (stack_call X op (w_stack w)). apply tame_refl.
Qed.

Lemma tame_guarantee h w w' : tame (w_registry w) (w_registry w') -> guarantee h w w'.
Proof. intros [Hl Hi]. by split. Qed.

(** A program of such operations needs to know nothing. *)
Lemma guards_tame h h' {A} (p : CProg A) : all_ops tame_op p -> disciplined h h' p -> guards None h h' p (fun _ f => f = None).
Proof.
  intros Hp. revert h. induction Hp as [a|B op k Hop Hk IH]; intros h; simpl; [by intros ->|].
  intros [Hok Hd]. split; [done|]. split; [done|]. split; [by rewrite (proj2 Hop)|]. intros w _.
  split; [apply tame_guarantee, tame_op_step, Hop|]. exists None. split; [done|]. by apply IH.
Qed.

(** One operation that inserts nothing preserves what is known. *)
Lemma guards_op f h {B} (op : COp S L B) :
  tame_atom op -> op_ok op h -> (commissions op = true -> AllocLock ∈ h) ->
  (f <> None -> AllocLock ∈ h /\ AllocLock ∈ held_after op h) ->
  guards f h (held_after op h) (do_op op) (fun _ f' => f' = f).
Proof.
  intros Hop Hok Hc Hf. split; [intros Hn; by apply Hf|]. split; [done|]. split; [done|]. intros w Hw. pose proof (tame_op_step op w Hop) as Ht.
  split; [by apply tame_guarantee|]. exists f. split; [|split; [intros Hn; by apply Hf | done]].
  destruct f as [n|]; [|done]. by apply Ht.
Qed.

Lemma guards_read f h {A} (g : World S L -> A) :
  (f <> None -> AllocLock ∈ h) -> guards f h h (read_world g) (fun _ f' => f' = f).
Proof.
  intros Hf. apply (guards_op f h (Atom _)); [intros w; apply tame_refl | done | done | intros Hn; split; by apply Hf].
Qed.

Lemma guards_stack f h {B} (op : StackOp B) :
  (is_commission op = true -> AllocLock ∈ h) -> (f <> None -> AllocLock ∈ h) ->
  guards f h h (stack op) (fun _ f' => f' = f).
Proof. intros Hc Hf. apply (guards_op f h (CallStack op)); [done | done | done | intros Hn; split; by apply Hf]. Qed.

(** [allocate] answers an id that nobody has. *)
Lemma skip_in_use_free fuel f n id : skip_in_use fuel f n = Some id -> f id = false.
Proof.
  revert n. induction fuel as [|fuel IH]; intros n; simpl; [done|]. destruct (f n) eqn:E; [apply IH|]. by intros [= <-].
Qed.

Lemma allocate_free (w : World S L) cfg id cfg' :
  Commissioning.allocate c w cfg = (Some id, cfg') -> bt_get (w_registry w) id = None.
Proof.
  unfold Commissioning.allocate, allocate_node_id. destruct (skip_in_use _ _ _) as [n|] eqn:E; [|done]. intros [= <- _].
  apply skip_in_use_free in E. unfold Commissioning.id_in_use in E. apply orb_false_iff in E as [E _].
  unfold Registry.contains, bt_contains in E. by destruct (bt_get (w_registry w) n).
Qed.

(** Allocation under both locks: the id stays free while [alloc_lock] is held. *)
Lemma guards_allocate :
  guards None [AllocLock] [AllocLock] (update_config c (Commissioning.allocate c)) (fun a f => f = a.1).
Proof.
  unfold update_config, config_snapshot.
  eapply guards_bind; [apply (guards_op None [AllocLock] (Acquire ConfigWrite)); [done | | done | done]|].
  { intros l Hl. apply list_elem_of_singleton in Hl as ->. simpl. lia. }
  intros _ f -> _. eapply guards_bind; [by apply guards_read|]. intros cfg f -> _.
  eapply (guards_bind _ _ [ConfigWrite; AllocLock] _ _ _ _ (fun a f => f = a.1)).
  { split; [done|]. split; [done|]. split; [done|]. intros w _. split; [apply tame_guarantee, tame_refl|]. cbn [ctrl_step fst snd].
    exists (Commissioning.allocate c w cfg).1. split; [|split; [|done]].
    - destruct (Commissioning.allocate c w cfg) as [[id|] cfg'] eqn:E; [|done]. by eapply allocate_free.
    - intros _. by right; left. }
  intros a f -> Hf. cbv zeta.
  eapply (guards_bind _ _ [ConfigWrite; AllocLock] _ _ _ _ (fun _ f => f = a.1)).
  { apply (guards_op a.1 [ConfigWrite; AllocLock] (Atom _)); [| | done | intros Hn; split; by apply Hf].
    - intros w. destruct (run_io (save_config (c_storage c) a.2) (sh_fs (w_shared w))). apply tame_refl.
    - intros w. by destruct (run_io (save_config (c_storage c) a.2) (sh_fs (w_shared w))). }
  intros r f -> _.
  eapply (guards_bind _ _ [ConfigWrite; AllocLock] _ _ _ _ (fun _ f => f = a.1)).
  { apply (guards_op a.1 [ConfigWrite; AllocLock] (Atom _)); [intros w; apply tame_refl | done | done | intros Hn; split; by apply Hf]. }
  intros _ f -> _.
  eapply (guards_bind _ _ [AllocLock] _ _ _ _ (fun _ f => f = a.1)).
  { apply (guards_op a.1 [ConfigWrite; AllocLock] (Release ConfigWrite)); [done | by left | done |].
    intros Hn. split; [by apply Hf | by left]. }
  intros _ f -> Hf'. by apply guards_ret.
Qed.

Lemma guards_post f h h' {A} (p : CProg A) (Q R : A -> option Z -> Prop) :
  (forall a f, Q a f -> R a f) -> guards f h h' p Q -> guards f h h' p R.
Proof.
  intros HQ. revert f h. induction p as [a|X op k IH]; intros f h; simpl.
  - intros (Hf & -> & Ha). split; [done|]. split; [done | by apply HQ].
  - intros (Hf & Hop & Hc & Hp). split; [done|]. split; [done|]. split; [done|]. intros w Hw. destruct (Hp w Hw) as (Hg & f' & Hf' & Hk).
    split; [done|]. exists f'. split; [done|]. by apply IH.
Qed.

(** What is known can be forgotten. *)
Lemma guards_forget f h h' {A} (p : CProg A) :
  (f <> None -> AllocLock ∈ h) -> guards None h h' p (fun _ _ => True) -> guards f h h' p (fun _ _ => True).
Proof.
  intros Hf. destruct p as [a|X op k]; simpl; [by intros (_ & -> & _)|].
  intros (_ & Hop & Hc & Hp). split; [done|]. split; [done|]. split; [done|]. intros w _. by apply Hp.
Qed.

Lemma guards_quiet h h' {A} (p : CProg A) :
  all_ops tame_op p -> disciplined h h' p -> guards None h h' p (fun _ _ => True).
Proof. intros Ht Hd. eapply guards_post; [|by apply guards_tame]. done. Qed.

Lemma tame_aloof {A} (p : CProg A) : aloof c p -> all_ops tame_op p.
Proof.
  intros Hp. induction Hp as [a|B op k Hop _ IH]; constructor; [|done]. destruct op as [X f|l|l|X op|argv]; try done.
  split; [|done]. intros w. destruct (Hop w) as [Hr _]. unfold w_registry. rewrite Hr. apply tame_refl.
Qed.

Lemma tame_persist rec : all_ops tame_op (persist_record c rec).
Proof.
  apply all_ops_op. split; [|done]. intros w. destruct (run_io (save_node (c_storage c) rec) (sh_fs (w_shared w))). apply tame_refl.
Qed.

(** Whatever is known, a disciplined quiet program may follow. *)
Lemma guards_rest f h {A} (p : CProg A) :
  (f <> None -> AllocLock ∈ h) -> all_ops tame_op p -> keeps h p -> guards f h h p (fun _ _ => True).
Proof. intros Hf Ht Hk. apply guards_forget; [done|]. by apply guards_quiet. Qed.

Lemma tame_emit_op event data : all_ops tame_op (emit event data).
Proof. apply all_ops_op. split; [|done]. intros w. apply tame_refl. Qed.

(** The insertion, under the id that is free. *)
Lemma guards_finish n o attributes :
  guards (Some n) [AllocLock] [AllocLock] (Commissioning.finish_commission c n o attributes) (fun _ _ => True).
Proof.
  unfold Commissioning.finish_commission.
  eapply guards_bind; [apply guards_read; by left|]. intros now f -> _. cbv zeta. set (rec := {| nr_node_id := n |}).
  eapply (guards_bind _ _ [AllocLock] _ _ _ _ (fun _ f => f = None)).
  { split; [by left|]. split; [done|]. split; [done|]. intros w Hw. split; [|by exists None].
    split; [by apply lasts_insert|]. intros Hl. destruct Hl. by left. }
  intros _ f -> _. apply guards_quiet.
  - apply all_ops_bind; [apply tame_persist|]. intros _.
    apply all_ops_bind; [apply tame_aloof, aloof_read|]. intros nd.
    apply all_ops_try; [apply all_ops_ret|]. intros nd'. apply all_ops_bind; [apply tame_emit_op|]. intros _.
    apply all_ops_bind; [by apply all_ops_op | intros; apply all_ops_ret].
  - apply keeps_bind; [apply keeps_persist|]. keeps_auto.
Qed.

Lemma guards_do_commission target : guards None [] [] (Commissioning.do_commission c target) (fun _ _ => True).
Proof.
  unfold Commissioning.do_commission, Commissioning.commission_body, config_snapshot.
  eapply guards_bind; [apply (guards_op None [] (Acquire AllocLock)); [done | | done | done]|].
  { intros l Hl. by apply elem_of_nil in Hl. }
  intros _ f -> _.
  eapply (guards_bind _ _ [AllocLock] _ _ _ _ (fun _ _ => True)).
  2: { intros r f _ Hf. split; [done|]. split; [by left|]. split; [done|]. intros w _. split; [apply tame_guarantee, tame_refl|]. by exists None. }
  eapply guards_bind; [apply guards_allocate|]. intros [[id|] x] f -> Hf; cbn [fst] in *; [|by apply guards_ret].
  eapply guards_bind; [by apply guards_read|]. intros cfg f -> _.
  eapply guards_bind; [apply guards_stack; [by left | done]|]. intros r f -> _.
  destruct r as [o|e]; [|by apply guards_ret]. unfold try_bind, lift_result. cbn [map_err prog_bind].
  eapply guards_bind; [by apply guards_stack|]. intros [attributes|e] f -> _; [apply guards_finish|].
  apply guards_rest; [done| |keeps_auto]. apply all_ops_bind; [by apply all_ops_op | intros; apply all_ops_ret].
Qed.

(** An interview replaces what is known of a node's attributes. *)
Definition refreshes (n : Z) : Prop := forall attributes now e, N n e (refresh_record attributes now e).2.

Lemma tame_interview args :
  (forall n, require_u64 args "node_id" = Ok n -> refreshes n) -> all_ops tame_op (Nodes.interview_node c args).
Proof.
  intros Hfresh. unfold Nodes.interview_node. destruct (require_u64 args "node_id") as [n|] eqn:E; [|apply all_ops_ret].
  specialize (Hfresh n eq_refl). unfold try_bind at 1. unfold lift_result at 1. cbn [prog_bind].
  apply all_ops_try; [apply tame_aloof, aloof_ensure|]. intros _.
  apply all_ops_bind; [by apply all_ops_op|]. intros r. apply all_ops_try; [apply all_ops_ret|]. intros attributes.
  apply all_ops_bind; [apply all_ops_op; split; [intros w; apply (tame_with_entry N); intros e; apply Hfresh | done]|]. intros _.
  apply all_ops_bind; [apply tame_aloof, aloof_read|]. intros rec.
  apply all_ops_bind; [destruct rec; [apply all_ops_bind; [apply tame_persist | intros; apply all_ops_ret] | apply all_ops_ret]|].
  intros _. apply all_ops_bind; [apply tame_aloof, aloof_read|]. intros nd.
  apply all_ops_bind; [destruct nd; [apply tame_emit_op | apply all_ops_ret] | intros; apply all_ops_ret].
Qed.

Lemma tame_remove_node args : all_ops tame_op (Nodes.remove_node c args).
Proof.
  apply all_ops_try; [apply all_ops_ret|]. intros n. apply all_ops_try; [apply tame_aloof, aloof_ensure|]. intros _.
  apply all_ops_bind; [apply tame_aloof, aloof_read|]. intros rec. cbv zeta.
  do 2 (apply all_ops_bind; [by apply all_ops_op|]; intros ?).
  apply all_ops_bind; [apply all_ops_op; split; [intros w; apply (tame_remove N) | done]|]. intros _.
  apply all_ops_bind; [apply all_ops_op; split; [intros w; apply tame_refl | done]|]. intros _.
  apply all_ops_bind; [apply tame_emit_op | intros; apply all_ops_ret].
Qed.

Lemma guards_handle_command conn cmd :
  (cm_command cmd = "interview_node" -> forall n, require_u64 (cm_args cmd) "node_id" = Ok n -> refreshes n) ->
  guards None [] [] (handle_command c conn cmd) (fun _ _ => True).
Proof.
  intros Hfresh.
  destruct (aloof_handle_command (S := S) (L := L) c conn cmd) as [Hin|Ha].
  2: apply guards_quiet; [by apply tame_aloof | apply keeps_handle_command].
  pose proof (keeps_handle_command (S := S) (L := L) c conn cmd) as Hk.
  destruct cmd as [mid name args]. unfold handle_command in *. simpl in *.
  unfold node_changing in Hin. repeat (apply elem_of_cons in Hin as [->|Hin]); [..| by apply elem_of_nil in Hin];
    cbn [handlers lookup_command String.eqb Ascii.eqb Bool.eqb] in *.
  - apply guards_quiet; [apply tame_interview; by apply Hfresh | done].
  - apply guards_quiet; [apply tame_remove_node | done].
  - unfold Commissioning.commission_with_code. case_match; [by apply guards_ret | apply guards_do_commission].
  - unfold Commissioning.commission_on_network. destruct (Commissioning.commission_target args) as [t|e];
      [apply guards_do_commission | by apply guards_ret].
Qed.
End programs.

(** ** The whole server *)

Section server.
Context {S L : Type} `{SerdeJson} `{NodeDate} `{Processes} `{!Stack S} `{!LogLevels L} (c : Ctrl).
Context (N : Z -> NodeEntry -> NodeEntry -> Prop) `{!forall n, PreOrder (N n)}.
Abbreviation Server := (@Server S L).

(** Every task keeps its guarantee with the locks it holds, and no lock is held
    twice. *)
Record Guarded (hs : gmap ConnId (list LockName)) (sv : Server) : Prop := {
  gd_tasks : forall id p, sv_tasks sv !! id = Some p ->
    exists h f, hs !! id = Some h /\ free f (sv_world sv) /\ guards N f h [] p (fun _ _ => True);
  gd_held : forall id h l, hs !! id = Some h -> l ∈ h -> l ∈ w_held (sv_world sv);
  gd_once : forall i j hi hj l, hs !! i = Some hi -> hs !! j = Some hj -> l ∈ hi -> l ∈ hj -> i = j;
}.

(** The locks taken after an operation, as the others see them. *)
Lemma held_step {B} (op : COp S L B) h (w : World S L) l :
  op_ok op h -> (l ∈ w_held w /\ (l ∉ h \/ l ∈ held_after op h)) \/ (l ∈ held_after op h /\ (forall l', l' ∈ h -> l' ∈ w_held w)) ->
  l ∈ w_held (ctrl_step B op w).2.
Proof.
  intros Hop Hl. destruct op as [X f|k|k|X op|argv]; simpl in *.
  - rewrite Hop. destruct Hl as [[? _]|[? Hin]]; auto.
  - destruct Hl as [[? _]|[Hl Hin]]; [by right|]. apply elem_of_cons in Hl as [->|Hl]; [by left | right; by apply Hin].
  - fold (remove_lock k (w_held w)). rewrite elem_of_remove_lock in *. destruct Hl as [[Hw [Hn|[? ?]]]|[[? ?] Hin]]; [|by split|].
    + split; [done|]. intros ->. by apply Hn.
    + split; [by apply Hin | done].
  - destruct (stack_call X op (w_stack w)). destruct Hl as [[? _]|[? Hin]]; simpl; auto.
  - destruct Hl as [[? _]|[? Hin]]; auto.
Qed.

Lemma held_after_new {B} (op : COp S L B) h (w : World S L) l :
  enabled op w = true -> l ∈ held_after op h -> l ∈ h \/ l ∉ w_held w.
Proof.
  intros Hen Hl. destruct op as [X f|k|k|X op|argv]; simpl in *; auto.
  - apply elem_of_cons in Hl as [->|Hl]; [right | by left]. by apply negb_true_iff, bool_decide_eq_false in Hen.
  - apply elem_of_remove_lock in Hl as [? _]. by left.
Qed.

Lemma guarded_operate hs id (sv sv' : Server) :
  Guarded hs sv -> operate id sv = Some sv' ->
  (exists hs', Guarded hs' sv') /\ lasts N (w_registry (sv_world sv)) (w_registry (sv_world sv')).
Proof.
  intros [Ht Hh Ho]. unfold operate. destruct (sv_tasks sv !! id) as [p|] eqn:Hp; [|done].
  destruct (Ht id p Hp) as (h & f & Hid & Hf & Hg). destruct p as [a|B op k]; [done|]. destruct Hg as (_ & Hop & _ & Hk).
  simpl. destruct (enabled op (sv_world sv)) eqn:Hen; [|done]. destruct (Hk _ Hf) as (Hgu & f' & Hf' & Hg').
  pose proof (fun l => held_step op h (sv_world sv) l Hop) as Hstep.
  destruct (ctrl_step B op (sv_world sv)) as [b w1] eqn:Es. cbn [fst snd] in *. intros [= <-].
  cbn [sv_world set_tasks advance set_conns set_world]. split; [|apply Hgu].
  exists (<[id := held_after op h]> hs). split; cbn [sv_world sv_tasks set_tasks advance set_conns set_world].
  - intros j q. destruct (decide (j = id)) as [->|Hne].
    + rewrite !lookup_insert_eq. intros [= <-]. by exists (held_after op h), f'.
    + rewrite !lookup_insert_ne by done. intros Hq. destruct (Ht j q Hq) as (hj & fj & Hj & Hfj & Hgj).
      exists hj, fj. split; [done|]. split; [|done]. destruct fj as [n|]; [|done].
      assert (Hal : AllocLock ∈ hj) by (destruct q; simpl in Hgj; by apply (proj1 Hgj)). apply Hgu; [|done]. intros Hal'. apply Hne. by apply (Ho j id hj h AllocLock).
  - intros j hj l. destruct (decide (j = id)) as [->|Hne].
    + rewrite lookup_insert_eq. intros [= <-] Hl. apply Hstep. right. split; [done|]. intros l' Hl'. by apply (Hh id h).
    + rewrite lookup_insert_ne by done. intros Hj Hl. apply Hstep. left. split; [by apply (Hh j hj)|]. left. intros Hl'.
      apply Hne. by apply (Ho j id hj h l).
  - assert (Hown : forall j hj l, j <> id -> hs !! j = Some hj -> l ∈ hj -> l ∉ held_after op h).
    { intros j hj l Hne Hj Hl Hl'. destruct (held_after_new op h _ l Hen Hl') as [Hin|Hin]; [apply Hne; by apply (Ho j id hj h l)|].
      apply Hin. by apply (Hh j hj). }
    intros i j hi hj l. destruct (decide (i = id)) as [->|Hi], (decide (j = id)) as [->|Hj]; [done | | |].
    + rewrite lookup_insert_eq, lookup_insert_ne by done. intros [= <-] Hhj Hl Hl'. by destruct (Hown j hj l Hj Hhj Hl').
    + rewrite lookup_insert_eq, lookup_insert_ne by done. intros Hhi [= <-] Hl Hl'. by destruct (Hown i hi l Hi Hhi Hl).
    + rewrite !lookup_insert_ne by done. apply Ho.
Qed.

(** A step that runs no operation of a command. *)
Lemma guarded_calm hs (sv sv' : Server) :
  Guarded hs sv -> w_held (sv_world sv') = w_held (sv_world sv) ->
  inserts_none (w_registry (sv_world sv)) (w_registry (sv_world sv')) ->
  (forall id p, sv_tasks sv' !! id = Some p -> sv_tasks sv !! id = Some p) -> Guarded hs sv'.
Proof.
  intros [Ht Hh Ho] Hheld Hreg Htasks. split; [|by rewrite Hheld | done]. intros id p Hp%Htasks.
  destruct (Ht id p Hp) as (h & f & Hid & Hf & Hg). exists h, f. split; [done|]. split; [|done].
  destruct f as [n|]; [|done]. by apply Hreg.
Qed.

(** The effect of a connection's step on the world: at most the label. *)
Lemma conn_step_world id l (sv sv' : Server) :
  conn_step id l sv = Some sv' ->
  w_registry (sv_world sv') = w_registry (sv_world sv) /\ w_held (sv_world sv') = w_held (sv_world sv) /\
  (forall i p, sv_tasks sv' !! i = Some p -> sv_tasks sv !! i = Some p).
Proof.
  unfold conn_step. destruct (sv_conns sv !! id) as [s|]; [|done]. destruct (ws_step CAPACITY l s) as [s'|]; [|done].
  intros [= <-]. destruct (is_closed s'); [|done]. split; [done|]. split; [done|]. intros i p Hp. cbn in Hp. by apply lookup_delete_Some in Hp as [_ ?].
Qed.

Lemma guarded_conn hs id l (sv sv' : Server) :
  Guarded hs sv -> conn_step id l sv = Some sv' ->
  (exists hs', Guarded hs' sv') /\ lasts N (w_registry (sv_world sv)) (w_registry (sv_world sv')).
Proof.
  intros Hg (Hr & Hh & Ht)%conn_step_world. rewrite Hr. split; [|apply (tame_refl N)]. exists hs. apply (guarded_calm hs sv); [done..| | done].
  rewrite Hr. by intros n.
Qed.

(** Commands are such that they change known nodes within [N]. *)
Definition permitted (l : SvStep) : Prop :=
  match l with
  | TextFrame _ text =>
      forall cmd, parse_frame text = Ok cmd -> cm_command cmd = "interview_node" ->
      forall n, require_u64 (cm_args cmd) "node_id" = Ok n -> refreshes N n
  | _ => True
  end.

(** The steps that belong to no connection. *)
Definition managing (l : SvStep) : bool := match l with Manage _ | TakeStackEvent | TakeExpired | Handle | Boot => true | _ => false end.

Lemma guarded_text hs id text (sv sv' : Server) :
  permitted (TextFrame id text) -> SvInv c None sv -> Guarded hs sv -> text_frame c id text sv = Some sv' ->
  (exists hs', Guarded hs' sv') /\ lasts N (w_registry (sv_world sv)) (w_registry (sv_world sv')).
Proof.
  intros Hperm Hi Hg. unfold text_frame. destruct (conn_step id (Inbound text) sv) as [sv1|] eqn:Hs; [|done].
  destruct (guarded_conn hs id _ sv sv1 Hg Hs) as [_ Hl]. pose proof (conn_step_world _ _ _ _ Hs) as (Hr & Hh & Ht).
  assert (Hg1 : Guarded hs sv1) by (apply (guarded_calm hs sv); [done..| rewrite Hr; by intros n | done]).
  intros [= <-]. destruct (parse_frame text) as [cmd|e] eqn:Hparse; [|split; [by exists hs | done]]. split; [|done].
  destruct Hg1 as [Ht1 Hh1 Ho1]. exists (<[id := []]> hs). split; cbn [sv_world sv_tasks set_tasks].
  - intros j q. destruct (decide (j = id)) as [->|Hne].
    + rewrite !lookup_insert_eq. intros [= <-]. exists [], None. split; [done|]. split; [done|]. by apply guards_handle_command, Hperm.
    + rewrite !lookup_insert_ne by done. apply Ht1.
  - intros j hj l. destruct (decide (j = id)) as [->|Hne].
    + rewrite lookup_insert_eq. intros [= <-] Hl'. by apply elem_of_nil in Hl'.
    + rewrite lookup_insert_ne by done. apply Hh1.
  - intros i j hi hj l. destruct (decide (i = id)) as [->|Hne1], (decide (j = id)) as [->|Hne2]; [done | | |];
      rewrite ?lookup_insert_eq, ?lookup_insert_ne by done.
    + intros [= <-] _ Hl'. by apply elem_of_nil in Hl'.
    + intros _ [= <-] _ Hl'. by apply elem_of_nil in Hl'.
    + apply Ho1.
Qed.

(** They insert no node. *)
Lemma managing_effect l (sv sv' : Server) :
  SvInv c None sv -> managing l = true -> server_step c l sv = Some sv' ->
  w_held (sv_world sv') = w_held (sv_world sv) /\ tame all_same (w_registry (sv_world sv)) (w_registry (sv_world sv')) /\
  sv_tasks sv' = sv_tasks sv.
Proof.
  intros Hi. destruct l as [|id ok|id text|id|id|id|id|id ok|id ok| |id|l| | | |]; try done; cbn [server_step]; intros _.
  - intros (m & Hm & ->)%manage_effect. split; [done|]. split; [|done]. apply (tame_manager_step _ _ _ _ Hm).
  - intros Ht. destruct (take_effect c sv sv' (or_introl Ht)) as (events & expired & p & -> & _).
    split; [done|]. split; [apply (Records.tame_refl all_same) | done].
  - intros Ht. destruct (take_effect c sv sv' (or_intror Ht)) as (events & expired & p & -> & _).
    split; [done|]. split; [apply (Records.tame_refl all_same) | done].
  - intros (s & tm & p & Hc & _ & ->)%(handle_effect c); [|done]. split; [done|]. split; [|done]. apply (tame_change _ _ _ Hc).
  - intros (st & p & _ & _ & ->)%(boot_effect c); [|done]. split; [done|]. split; [apply (Records.tame_refl all_same) | done].
Qed.

Lemma guarded_step hs l (sv sv' : Server) :
  permitted l -> SvInv c None sv -> Guarded hs sv -> server_step c l sv = Some sv' ->
  (exists hs', Guarded hs' sv') /\ (managing l = false -> lasts N (w_registry (sv_world sv)) (w_registry (sv_world sv'))).
Proof.
  intros Hperm Hi Hg Hs. destruct (managing l) eqn:Em.
  { split; [|done]. destruct (managing_effect l sv sv' Hi Em Hs) as (Hh & [_ Hn] & Ht). exists hs.
    apply (guarded_calm hs sv); [done..|]. by rewrite Ht. }
  assert (G : (exists hs', Guarded hs' sv') /\ lasts N (w_registry (sv_world sv)) (w_registry (sv_world sv'))); [|by split; [|intros _]; apply G].
  revert Hs. destruct l as [|id ok|id text|id|id|id|id|id ok|id ok| |id|l| | | |]; try done; cbn [server_step].
  - intros [= <-]. split; [|apply (tame_refl N)]. exists hs. apply (guarded_calm hs sv); [done | done | by intros n | done].
  - destruct (sv_infos sv !! id); [|done]. by apply (guarded_conn hs).
  - by apply (guarded_text hs).
  - by apply (guarded_conn hs).
  - by apply (guarded_conn hs).
  - by apply (guarded_operate hs).
  - unfold respond. destruct (sv_tasks sv !! id) as [[r|]|]; [|done..].
    apply (guarded_conn hs id (answer_step r) (set_tasks (delete id (sv_tasks sv)) sv)).
    apply (guarded_calm hs sv); [done | done | by intros n |]. intros i p Hp. cbn in Hp. by apply lookup_delete_Some in Hp as [_ Hp].
  - by apply (guarded_conn hs).
  - by apply (guarded_conn hs).
  - intros [= <-]. split; [|apply (tame_refl N)]. exists hs. apply (guarded_calm hs sv); [done | done | by intros n | done].
  - destruct (sv_stopping sv); [|done]. by apply (guarded_conn hs).
Qed.

Lemma guarded_run ls hs (sv sv' : Server) :
  Forall permitted ls -> SvInv c None sv -> Guarded hs sv -> server_run c ls sv = Some sv' -> exists hs', Guarded hs' sv'.
Proof.
  revert sv hs. induction ls as [|l ls IH]; intros sv hs Hl Hi Hg; cbn [server_run]; [intros [= <-]; by exists hs|].
  apply Forall_cons in Hl as [Hp Hl].
  destruct (server_step c l sv) as [sv1|] eqn:E; [|done]. destruct (guarded_step hs l sv sv1 Hp Hi Hg E) as [[hs1 Hg1] _].
  apply (IH sv1 hs1); [done | by eapply server_step_inv | done].
Qed.

Lemma guarded_start fs now log st : Guarded ∅ (start c fs now log st).
Proof. by split; cbn. Qed.
End server.

(** ** A node that no client asks to remove *)

(** The command does not ask to remove the node. *)
Definition leaves (n : Z) (cmd : CommandMessage) : Prop :=
  cm_command cmd = "remove_node" -> require_u64 (cm_args cmd) "node_id" <> Ok n.

(** No client asks to remove the node. *)
Definition keeps_node `{SerdeJson} (n : Z) (l : SvStep) : Prop :=
  match l with TextFrame _ text => forall cmd, parse_frame text = Ok cmd -> leaves n cmd | _ => True end.

Definition known_in (n : Z) (r : Registry) : Prop := is_Some (bt_get r n).

Lemma with_entry_knows {R} n m (f : NodeEntry -> R * NodeEntry) r : known_in n r -> known_in n (Registry.with_entry m f r).2.
Proof.
  unfold known_in, Registry.with_entry. destruct (bt_get r m) as [e|] eqn:E; [|done]. destruct (f e) as [x e']. simpl.
  rewrite bt_get_insert. case_decide; [by eexists | done].
Qed.

(** The node manager removes nothing. *)
Section manager.
Context `{SerdeJson} `{NodeDate} (storage : Storage) (n : Z).

Lemma change_knows s s' : mg_change storage s s' -> known_in n (sh_registry s) -> known_in n (sh_registry s').
Proof. intros []; try done; apply with_entry_knows. Qed.

Lemma handler_knows p s tm : handler_ok storage p -> known_in n (sh_registry s) -> known_in n (sh_registry (mg_run p (s, tm)).2.1).
Proof.
  intros Hp Hs. apply (states_inv mg_step (fun st => known_in n (sh_registry st.1)) (mg_ok storage) p (s, tm)); [|exact Hp | exact Hs].
  intros B op [s1 tm1] Hop Hs1. destruct op as [X f|X f]; cbn [mg_step fst snd].
  - specialize (Hop s1). destruct (f s1) as [b s2]. by eapply change_knows.
  - by destruct (f tm1).
Qed.

Lemma manager_step_knows l m m' :
  manager_step storage l m = Some m' -> known_in n (sh_registry (mg_shared m)) -> known_in n (sh_registry (mg_shared m')).
Proof.
  intros Hm Hs. revert Hs. eapply (manager_step_inv storage (fun s => known_in n (sh_registry (mg_shared m)) -> known_in n (sh_registry s))); [| | |exact Hm].
  - intros ev s1 tm H1 Hs. pose proof (handler_knows _ s1 tm (event_ops_ok storage ev) (H1 Hs)) as Hk. by rewrite event_ops_at_once in Hk.
  - intros k s1 tm H1 Hs. pose proof (handler_knows _ s1 tm (expiry_ops_ok storage k) (H1 Hs)) as Hk. by rewrite expiry_ops_at_once in Hk.
  - done.
Qed.
End manager.

Section retained.
Context {S L : Type} `{SerdeJson} `{NodeDate} `{Processes} `{!Stack S} `{!LogLevels L} (c : Ctrl) (n : Z).
Abbreviation CProg A := (Prog (COp S L) A).
Abbreviation Server := (@Server S L).

Abbreviation knows w := (known_in n (w_registry w)).
Definition retains (B : Type) (op : COp S L B) : Prop := forall w, knows w -> knows (ctrl_step B op w).2.

Lemma retains_same {B} (op : COp S L B) : (forall w, w_registry (ctrl_step B op w).2 = w_registry w) -> retains B op.
Proof. intros Hr w. by rewrite Hr. Qed.

Lemma retains_aloof {A} (p : CProg A) : aloof c p -> all_ops retains p.
Proof.
  intros Hp. induction Hp as [a|B op k Hop _ IH]; [constructor|]. constructor; [|done]. apply retains_same. intros w.
  destruct op as [X f|l|l|X op|argv]; cbn [ctrl_step]; [|done..| by destruct (stack_call X op (w_stack w)) | done].
  destruct (Hop w) as (Hr & _). unfold w_registry. by rewrite Hr.
Qed.

Lemma retains_other {B} (op : COp S L B) : match op with Atom _ => False | _ => True end -> all_ops retains (do_op op).
Proof.
  intros Hop. apply all_ops_op, retains_same. intros w. destruct op as [X f|l|l|X op|argv]; cbn [ctrl_step]; try done.
  by destruct (stack_call X op (w_stack w)).
Qed.

Lemma retains_stack {B} (op : StackOp B) : all_ops retains (stack op).
Proof. by apply retains_other. Qed.

Lemma retains_read {A} (f : World S L -> A) : all_ops retains (read_world f).
Proof. by apply all_ops_op, retains_same. Qed.

Lemma retains_emit event data : all_ops retains (emit event data).
Proof. by apply all_ops_op, retains_same. Qed.

Lemma retains_persist rec : all_ops retains (persist_record c rec).
Proof. apply all_ops_op, retains_same. intros w. cbn [ctrl_step]. by destruct (run_io _ _). Qed.

Lemma retains_finish m o attributes : all_ops retains (Commissioning.finish_commission c m o attributes).
Proof.
  unfold Commissioning.finish_commission. apply all_ops_bind; [apply retains_read|]. intros now. cbv zeta.
  apply all_ops_bind.
  { apply all_ops_op. intros w. unfold known_in, w_registry. cbn. unfold Registry.insert. rewrite bt_get_insert. case_decide; [by eexists | done]. }
  intros _. apply all_ops_bind; [apply retains_persist|]. intros _. apply all_ops_bind; [apply retains_read|]. intros nd.
  apply all_ops_try; [apply all_ops_ret|]. intros nd'. apply all_ops_bind; [apply retains_emit|]. intros _.
  apply all_ops_bind; [apply retains_stack | intros; apply all_ops_ret].
Qed.

Lemma retains_do_commission target : all_ops retains (Commissioning.do_commission c target).
Proof.
  unfold Commissioning.do_commission, Commissioning.commission_body, config_snapshot.
  apply all_ops_bind; [by apply retains_other|]. intros _.
  apply all_ops_bind; [|intros r; apply all_ops_bind; [by apply retains_other | intros; apply all_ops_ret]].
  apply all_ops_bind; [apply retains_aloof, aloof_update|]. intros [[id|] x]; cbn [fst]; [|apply all_ops_ret].
  apply all_ops_bind; [apply retains_read|]. intros cfg. apply all_ops_bind; [apply retains_stack|]. intros r.
  apply all_ops_try; [apply all_ops_ret|]. intros o. apply all_ops_bind; [apply retains_stack|]. intros [attributes|e]; [apply retains_finish|].
  apply all_ops_bind; [apply retains_stack | intros; apply all_ops_ret].
Qed.

Lemma retains_interview args : all_ops retains (Nodes.interview_node c args).
Proof.
  apply all_ops_try; [apply all_ops_ret|]. intros m. apply all_ops_try; [apply retains_aloof, aloof_ensure|]. intros _.
  apply all_ops_bind; [apply retains_stack|]. intros r. apply all_ops_try; [apply all_ops_ret|]. intros attributes.
  apply all_ops_bind; [apply all_ops_op; intros w; by apply with_entry_knows|]. intros _.
  apply all_ops_bind; [apply retains_read|]. intros rec.
  apply all_ops_bind; [destruct rec; [apply all_ops_bind; [apply retains_persist | intros; apply all_ops_ret] | apply all_ops_ret]|].
  intros _. apply all_ops_bind; [apply retains_read|]. intros nd.
  apply all_ops_bind; [destruct nd; [apply retains_emit | apply all_ops_ret] | intros; apply all_ops_ret].
Qed.

Lemma retains_remove args : require_u64 args "node_id" <> Ok n -> all_ops retains (Nodes.remove_node c args).
Proof.
  intros Hne. unfold Nodes.remove_node. destruct (require_u64 args "node_id") as [m|]; [|apply all_ops_ret].
  assert (Hm : m <> n) by congruence. unfold try_bind at 1. unfold lift_result at 1. cbn [prog_bind].
  apply all_ops_try; [apply retains_aloof, aloof_ensure|]. intros _. apply all_ops_bind; [apply retains_read|]. intros rec. cbv zeta.
  do 2 (apply all_ops_bind; [apply retains_stack|]; intros ?).
  apply all_ops_bind; [apply all_ops_op; intros w; unfold known_in, w_registry; cbn; by rewrite bt_get_remove_ne|]. intros _.
  apply all_ops_bind; [by apply all_ops_op, retains_same|]. intros _.
  apply all_ops_bind; [apply retains_emit | intros; apply all_ops_ret].
Qed.

Lemma retains_command conn cmd : leaves n cmd -> all_ops retains (handle_command c conn cmd).
Proof.
  intros Hleaves. destruct (aloof_handle_command (S := S) (L := L) c conn cmd) as [Hin|Ha]; [|by apply retains_aloof].
  destruct cmd as [mid name args]. unfold handle_command, leaves in *. simpl in *.
  unfold node_changing in Hin. repeat (apply elem_of_cons in Hin as [->|Hin]); [..| by apply elem_of_nil in Hin];
    cbn [handlers lookup_command String.eqb Ascii.eqb Bool.eqb].
  - apply retains_interview.
  - by apply retains_remove, Hleaves.
  - unfold Commissioning.commission_with_code. case_match; [apply all_ops_ret | apply retains_do_commission].
  - unfold Commissioning.commission_on_network. destruct (Commissioning.commission_target args) as [t|e];
      [apply retains_do_commission | apply all_ops_ret].
Qed.

(** On the server: all commands in flight are such. *)
Definition Retaining (sv : Server) : Prop := forall id p, sv_tasks sv !! id = Some p -> all_ops retains p.

Lemma retaining_step l (sv sv' : Server) :
  keeps_node n l -> SvInv c None sv -> Retaining sv -> server_step c l sv = Some sv' ->
  Retaining sv' /\ (knows (sv_world sv) -> knows (sv_world sv')).
Proof.
  intros Hl Hi Hr Hs. destruct (managing l) eqn:Em.
  { destruct (managing_effect c l sv sv' Hi Em Hs) as (_ & _ & Ht). split; [intros id p; rewrite Ht; apply Hr|].
    destruct l as [|id ok|id text|id|id|id|id|id ok|id ok| |id|l| | | |]; try done; cbn [server_step] in Hs.
    - apply manage_effect in Hs as (m & Hm & ->). apply (manager_step_knows _ n _ _ _ Hm).
    - by destruct (take_effect c sv sv' (or_introl Hs)) as (events & expired & p & -> & _).
    - by destruct (take_effect c sv sv' (or_intror Hs)) as (events & expired & p & -> & _).
    - apply (handle_effect c) in Hs as (s & tm & p & Hc & _ & ->); [|done]. by apply (change_knows _ n _ _ Hc).
    - by apply (boot_effect c) in Hs as (st & p & _ & _ & ->). }
  assert (G : forall l id (sv sv' : Server), Retaining sv -> conn_step id l sv = Some sv' -> Retaining sv' /\ (knows (sv_world sv) -> knows (sv_world sv'))).
  { intros l0 id sv0 sv1 Hr0 (E & _ & Ht)%conn_step_world. split; [intros i p Hp; by apply (Hr0 i), Ht|]. by rewrite E. }
  destruct l as [|id ok|id text|id|id|id|id|id ok|id ok| |id|l| | | |]; try done; cbn [server_step] in Hs; try by apply (G _ _ _ _ Hr Hs).
  - by injection Hs as <-.
  - destruct (sv_infos sv !! id); [|done]. by apply (G _ _ _ _ Hr Hs).
  - unfold text_frame in Hs. destruct (conn_step id (Inbound text) sv) as [sv1|] eqn:E; [|done]. destruct (G _ _ _ _ Hr E) as [Hr1 Hk].
    injection Hs as <-. destruct (parse_frame text) as [cmd|e] eqn:Hparse; [|by split]. split; [|exact Hk].
    intros i p. cbn [sv_tasks set_tasks]. intros [[<- <-]|[_ Hp]]%lookup_insert_Some; [by apply retains_command, Hl | by apply (Hr1 i)].
  - unfold operate in Hs. destruct (sv_tasks sv !! id) as [p|] eqn:Hp; [|done]. pose proof (Hr id p Hp) as Ha.
    destruct Ha as [a|B op k Hop Hk]; [done|]. simpl in Hs. destruct (enabled op (sv_world sv)); [|done].
    specialize (Hop (sv_world sv)). destruct (ctrl_step B op (sv_world sv)) as [b w]. injection Hs as <-. split; [|exact Hop].
    intros i p. cbn [sv_tasks set_tasks]. intros [[<- <-]|[_ Hq]]%lookup_insert_Some; [apply Hk | by apply (Hr i)].
  - unfold respond in Hs. destruct (sv_tasks sv !! id) as [[r|]|]; [|done..].
    refine (G _ _ (set_tasks (delete id (sv_tasks sv)) sv) _ _ Hs). intros i p. cbn [sv_tasks set_tasks]. intros [_ Hp]%lookup_delete_Some. by apply (Hr i).
  - by injection Hs as <-.
  - destruct (sv_stopping sv); [|done]. by apply (G _ _ _ _ Hr Hs).
Qed.

Lemma retaining_start fs now log st : Retaining (start c fs now log st).
Proof. intros id p Hp. cbn in Hp. by rewrite lookup_empty in Hp. Qed.
End retained.

Section theorems.
Context {S L : Type} `{SerdeJson} `{NodeDate} `{Processes} `{!Stack S} `{!LogLevels L} (c : Ctrl).
Abbreviation Server := (@Server S L).

Lemma all_permitted ls : Forall (permitted all_same) ls.
Proof. apply Forall_true. by intros []. Qed.

Lemma guarded_reached fs now log st ls (sv : Server) :
  server_run c ls (start c fs now log st) = Some sv -> exists hs, Guarded all_same hs sv.
Proof.
  apply (guarded_run c all_same ls ∅ _ sv (all_permitted ls) (started_inv c fs now log st)). apply guarded_start.
Qed.

(** C3: what commissioning stored of a node is never overwritten.  In every
    state the running server can reach, with any number of commands in flight,
    whatever operation comes next (an operation of any command, two
    commissionings among them, or of the node manager, or anything a client or
    the stack does): a known node is afterwards either gone (it was removed) or
    still has the id, the date of commissioning, the device's index of this
    controller's fabric and the address it was commissioned with. *)
Theorem known_node_lasts fs now log st ls l (sv sv' : Server) (n : Z) (e : NodeEntry) :
  server_run c ls (start c fs now log st) = Some sv -> server_step c l sv = Some sv' ->
  bt_get (w_registry (sv_world sv)) n = Some e ->
  bt_get (w_registry (sv_world sv')) n = None \/
  exists e', bt_get (w_registry (sv_world sv')) n = Some e' /\ same_node e e'.
Proof.
  intros Hr Hs He. pose proof (server_run_inv c ls _ sv (started_inv c fs now log st) Hr) as Hi.
  destruct (guarded_reached fs now log st ls sv Hr) as [hs Hg].
  destruct (managing l) eqn:Em; [by apply (managing_effect c l sv sv' Hi Em Hs)|].
  pose proof (all_permitted [l]) as [Hp _]%Forall_cons.
  by apply (guarded_step c all_same hs l sv sv' Hp Hi Hg Hs).
Qed.

(** The task's next operation asks the stack to commission a device. *)
Definition about_to_commission (p : Prog (COp S L) CommandResult) : bool :=
  match p with Do op _ => commissions op | Ret _ => false end.

(** C19: one commissioning at a time.  Whenever a command is about to ask the
    stack to commission a device, it holds [alloc_lock], and no other
    connection's command is about to: however commands interleave, the stack is
    never asked for a second commissioning while one holds the lock. *)
Theorem one_commissioning_at_a_time fs now log st ls (sv : Server) (i j : ConnId) p q :
  server_run c ls (start c fs now log st) = Some sv ->
  sv_tasks sv !! i = Some p -> about_to_commission p = true -> sv_tasks sv !! j = Some q -> about_to_commission q = true ->
  i = j /\ AllocLock ∈ w_held (sv_world sv).
Proof.
  intros Hr Hp Hap Hq Haq.
  destruct (guarded_reached fs now log st ls sv Hr) as [hs [Ht Hh Ho]].
  destruct (Ht i p Hp) as (hi & fi & Hi & _ & Hgi), (Ht j q Hq) as (hj & fj & Hj & _ & Hgj).
  destruct p as [a|B op k]; [done|]. destruct q as [a|B' op' k']; [done|]. simpl in Hap, Haq.
  destruct Hgi as (_ & _ & Hci & _), Hgj as (_ & _ & Hcj & _). specialize (Hci Hap). specialize (Hcj Haq).
  split; [by apply (Ho i j hi hj AllocLock) | by apply (Hh i hi)].
Qed.
End theorems.

(** ** A report about a commissioned node *)

Section demo.
#[local] Existing Instances DemoRequests demo_processes demo_date.

Definition report_steps : list SvStep := commission_steps ++ [Manage (Push (AttributesChanged 1 [("1/6/0", VBool true)]))].

Lemma known_node_lasts_witness :
  exists sv sv' e e', server_run demo_ctrl report_steps demo_start = Some sv /\
    server_step demo_ctrl (Manage NodeManager.RecvEvent) sv = Some sv' /\
    bt_get (w_registry (sv_world sv)) 1 = Some e /\ bt_get (w_registry (sv_world sv')) 1 = Some e' /\ same_node e e'.
Proof.
  destruct (seen_run (fun sv => (nr_device_fabric_index ∘ ne_record <$> bt_get (w_registry (sv_world sv)) 1,
      match server_step demo_ctrl (Manage NodeManager.RecvEvent) sv with
      | Some sv' => Registry.contains (w_registry (sv_world sv')) 1 | None => false end)) report_steps (Some 2, true))
    as (sv & Hr & E); [by vm_compute|].
  pose proof (f_equal fst E) as Eb. pose proof (f_equal snd E) as Ec. cbn [fst snd] in Eb, Ec. clear E.
  apply fmap_Some in Eb as (e & He & _).
  destruct (server_step demo_ctrl (Manage NodeManager.RecvEvent) sv) as [sv'|] eqn:Es; [|discriminate Ec].
  destruct (known_node_lasts demo_ctrl demo_fs 0 ("info", None) demo_stack report_steps (Manage NodeManager.RecvEvent) sv sv' 1 e Hr Es He)
    as [Hn|(e' & He' & Hsame)].
  - unfold Registry.contains, bt_contains in Ec. rewrite Hn in Ec. discriminate Ec.
  - exists sv, sv', e, e'. split; [exact Hr|]. split; [exact Es|]. split; [exact He|]. split; [exact He' | exact Hsame].
Defined.

(** Two clients ask to commission; one waits for the lock. *)
Definition two_commissionings : list SvStep :=
  [Accept; Opened 1 true; Accept; Opened 2 true; TextFrame 1 commission_text; TextFrame 2 commission_text] ++
  replicate 8 (Operate 2).

Lemma one_commissioning_at_a_time_witness :
  exists sv, server_run demo_ctrl two_commissionings demo_start = Some sv /\ is_handling 1 sv = true /\ is_handling 2 sv = true /\
    AllocLock ∈ w_held (sv_world sv) /\
    forall i p, sv_tasks sv !! i = Some p -> about_to_commission p = true -> i = 2.
Proof.
  destruct (seen_run (fun sv => (is_handling 1 sv, is_handling 2 sv,
      match sv_tasks sv !! 2 with Some p => about_to_commission p | None => false end)) two_commissionings (true, true, true))
    as (sv & Hr & E); [by vm_compute|].
  injection E as E1 E2 E3. destruct (sv_tasks sv !! 2) as [q|] eqn:Eq; [|discriminate E3].
  exists sv. split; [exact Hr|]. split; [exact E1|]. split; [exact E2|]. split.
  - exact (proj2 (one_commissioning_at_a_time demo_ctrl demo_fs 0 ("info", None) demo_stack two_commissionings sv 2 2 q q Hr Eq E3 Eq E3)).
  - intros i p Hp Ha.
    exact (proj1 (one_commissioning_at_a_time demo_ctrl demo_fs 0 ("info", None) demo_stack two_commissionings sv i 2 p q Hr Hp Ha Eq E3)).
Defined.
End demo.
