(* ===== verification/Durable.v ===== *)
(** * A known node is on file

    What a restart needs of a node is its file.  On the running server, with
    commands, the node manager and other clients at work side by side, a node
    that is known is on file with what commissioning stored of it, from the
    operation that writes it until a client asks to remove it. *)

From S2P Require Import Prelude Json Wire Prog Fs Storage Registry StackApi NodeManager ManagerOps Controller Commands Dispatch Sched CommandFacts Progress Mirror Ws Server Records.

(** ** The node's file *)

Section files.
Context `{SerdeJson} (st : Storage).

Lemma node_name_first n : exists a s, show n = String a s /\ a <> "."%char.
Proof.
  destruct (show n) as [|a s] eqn:E; [by destruct (show_nonempty n)|]. exists a, s. split; [done|]. intros ->.
  destruct (decide (0 <= n)) as [Hn|Hn].
  - destruct (show_digits n Hn) as [_ Hd]. by rewrite E in Hd.
  - destruct n; [lia | lia | discriminate E].
Qed.

Lemma node_name_ok n : show n +:+ ".json" <> "..".
Proof. destruct (node_name_first n) as (a & s & -> & Ha). simpl. congruence. Qed.

Lemma tmp_name_is_no_node name pid seq n : tmp_name name pid seq <> show n +:+ ".json".
Proof. destruct (node_name_first n) as (a & s & -> & Ha). unfold tmp_name. simpl. congruence. Qed.

Lemma node_file_inj n m : node_file st n = node_file st m -> n = m.
Proof.
  unfold node_file, join. intros [_ [= E]]%app_inj_2; [|done]. apply show_inj. revert E. generalize (show n), (show m).
  induction s as [|a s IH]; intros [|b t]; simpl; try done.
  - intros [= -> E]. apply (f_equal String.length) in E. rewrite !str_length_app in E. simpl in E. lia.
  - intros [= -> E]. apply (f_equal String.length) in E. rewrite !str_length_app in E. simpl in E. lia.
  - intros [= -> E]. f_equal. by apply IH.
Qed.

(** A write leaves every path but its own and its temporary one alone. *)
Lemma atomic_write_others dir name value secret fs q :
  name <> ".." -> q <> join dir name -> (forall pid seq, q <> join dir (tmp_name name pid seq)) ->
  fs_files (run_io (write_json_atomic (join dir name) value secret) fs).2 !! q = fs_files fs !! q.
Proof.
  intros Hn Hq Ht. destruct (write_json_atomic_triple dir name value secret fs Hn fs eq_refl) as [_ HQ]. unfold run_io.
  destruct (run fs_step (write_json_atomic (join dir name) value secret) fs) as [[[]|e] fs']; destruct HQ as (_ & _ & Ho); by apply Ho.
Qed.

Lemma clean_run {A} dir (p : Io A) fs : clean dir fs -> clean dir (run_io p fs).2.
Proof.
  intros Hc. apply (states_inv fs_step (clean dir) (fun _ _ => True)); [intros B op s _; apply clean_step | | exact Hc].
  clear. induction p; by constructor.
Qed.

Lemma save_config_keeps n cfg fs :
  fs_files (run_io (save_config st cfg) fs).2 !! node_file st n = fs_files fs !! node_file st n.
Proof.
  unfold save_config, node_file, nodes_dir. apply atomic_write_others; [done | | intros pid seq];
    unfold join; intros [E _]%app_inj_2; try done; by apply (f_equal length) in E; rewrite length_app in E; simpl in E; lia.
Qed.

Lemma save_node_keeps n rec fs :
  nr_node_id rec <> n -> fs_files (run_io (save_node st rec) fs).2 !! node_file st n = fs_files fs !! node_file st n.
Proof.
  intros Hne. unfold save_node. unfold node_file at 1. apply atomic_write_others; [apply node_name_ok | | intros pid seq].
  - intros E. apply Hne. by apply node_file_inj.
  - apply join_ne. intros E. by apply (tmp_name_is_no_node (show (nr_node_id rec) +:+ ".json") pid seq n).
Qed.

Lemma delete_node_keeps n m fs :
  m <> n -> fs_files (run_io (delete_node st m) fs).2 !! node_file st n = fs_files fs !! node_file st n.
Proof.
  intros Hne. apply (states_inv fs_step (fun s => fs_files s !! node_file st n = fs_files fs !! node_file st n) (touches (fun p => p = node_file st m))); [| |done].
  - intros B op s Hop <-. apply (fs_step_files _ _ _ _ _ Hop). intros E. apply Hne. symmetry. by apply node_file_inj.
  - unfold delete_node. apply all_ops_bind; [by apply all_ops_op|]. intros [[]|e]; [by apply all_ops_op | constructor..].
Qed.

(** The file holds the complete document of a record with the entry's identity. *)
Definition on_file (n : Z) (e : NodeEntry) (fs : FS) : Prop :=
  exists rec x, fs_files fs !! node_file st n = Some x /\ complete (node_document rec) false x /\
    nr_node_id rec = n /\ same_node e (new_entry rec).

Lemma on_file_kept n e fs fs' :
  fs_files fs' !! node_file st n = fs_files fs !! node_file st n -> on_file n e fs -> on_file n e fs'.
Proof. intros E (rec & x & Hx & Hrest). exists rec, x. by rewrite E. Qed.

Lemma save_node_files n e rec fs :
  clean (nodes_dir st) fs -> nr_node_id rec = n -> same_node e (new_entry rec) -> on_file n e (run_io (save_node st rec) fs).2.
Proof.
  intros Hc Hn Hs. unfold save_node, node_file.
  pose proof (write_json_atomic_succeeds (nodes_dir st) (show (nr_node_id rec) +:+ ".json") (node_document rec) false fs (node_name_ok _) Hc) as Hw.
  destruct (run_io _ fs) as [r fs']. destruct Hw as (_ & _ & (x & Hx & Hcomp) & _). subst n.
  exists rec, x. split; [exact Hx|]. split; [exact Hcomp|]. by split.
Qed.

Lemma node_file_extension n : extension (show n +:+ ".json") = Some "json".
Proof.
  assert (E : forall p, rsplit_once "." (p +:+ ".json") = Some (p, "json")).
  { induction p as [|b p IH]; [done|]. simpl. by rewrite IH. }
  unfold extension. rewrite E. destruct (node_name_first n) as (a & s & -> & _). done.
Qed.

Lemma registry_new_knows rec records : rec ∈ records -> is_Some (bt_get (Registry.new records) (nr_node_id rec)).
Proof.
  unfold Registry.new, bt_from_iter. generalize (@nil (Z * NodeEntry)).
  assert (G : forall records acc, is_Some (bt_get acc (nr_node_id rec)) \/ rec ∈ records ->
    is_Some (bt_get (fold_left (fun m kv => bt_insert kv.1 kv.2 m) (map (fun record => (nr_node_id record, new_entry record)) records) acc) (nr_node_id rec))).
  { clear. induction records as [|r records IH]; intros acc [Hacc|Hin]; cbn [map fold_left]; [done | by apply elem_of_nil in Hin | |].
    - apply IH. left. cbn [fst snd]. rewrite bt_get_insert. case_decide; [by eexists | done].
    - apply elem_of_cons in Hin as [->|Hin]; [|apply IH; by right]. apply IH. left. cbn [fst snd]. rewrite bt_get_insert_eq. by eexists. }
  intros acc Hin. apply G. by right.
Qed.

(** A node on file is known after a restart. *)
Lemma restart_knows `{!SerdeJsonLaws} n e fs :
  clean (nodes_dir st) fs -> on_file n e fs ->
  exists rec x, fs_files fs !! node_file st n = Some x /\ complete (node_document rec) false x /\ same_node e (new_entry rec) /\
    (node_ok rec -> is_Some (bt_get (Registry.new (run_io (load_nodes st) fs).1) n)).
Proof.
  intros [Hf Hd] (rec & x & Hx & Hcomp & Hn & Hs). exists rec, x. do 3 (split; [done|]). intros Hok.
  destruct (load_nodes_spec st fs Hf Hd) as [_ Hload]. destruct (node_document_ok rec Hok) as [Hu Hff].
  rewrite <- Hn. apply registry_new_knows, Hload. exists (show n +:+ ".json"), x.
  split; [apply node_file_extension|]. split; [exact Hx|]. destruct Hcomp as [-> _]. split; [by apply json_utf8|].
  unfold parse_as. rewrite json_roundtrip by done. cbn [result_bind]. by rewrite de_node_document.
Qed.
End files.

(** ** What is known of the node, and what can happen to it *)

Inductive Phase : Type :=
| Absent                     (* not known *)
| Fresh (e : NodeEntry)      (* known; the command that made it known is about to write its file *)
| Filed (e : NodeEntry).     (* known and on file *)

Definition phase_entry (p : Phase) : option NodeEntry := match p with Absent => None | Fresh e | Filed e => Some e end.
Definition is_fresh (p : Phase) : bool := match p with Fresh _ => true | _ => false end.

Inductive later : Phase -> Phase -> Prop :=
| later_refl p : later p p
| later_known e : later Absent (Fresh e)
| later_filed e : later Absent (Filed e)
| later_saved e : later (Fresh e) (Filed e).

#[export] Instance later_preorder : PreOrder later.
Proof. split; [exact later_refl|]. intros p1 p2 p3 [] H23; inversion H23; constructor. Qed.

Lemma later_entry p p' e : later p p' -> phase_entry p = Some e -> phase_entry p' = Some e.
Proof. by intros []. Qed.

Section phases.
Context `{SerdeJson} (st : Storage) (n : Z).

Definition stands_entry (e : NodeEntry) (r : Registry) : Prop :=
  nr_node_id (ne_record e) = n /\ exists e', bt_get r n = Some e' /\ same_node e e'.

Record stands (p : Phase) (s : Shared) : Prop := {
  sd_clean : clean (nodes_dir st) (sh_fs s);
  sd_wf : registry_wf (sh_registry s);
  sd_phase : match p with
             | Absent => bt_get (sh_registry s) n = None
             | Fresh e => stands_entry e (sh_registry s)
             | Filed e => stands_entry e (sh_registry s) /\ on_file st n e (sh_fs s)
             end;
}.

Definition harmless (s s' : Shared) : Prop := forall p, stands p s -> stands p s'.

Lemma harmless_same s s' : sh_registry s' = sh_registry s -> sh_fs s' = sh_fs s -> harmless s s'.
Proof. intros Hr Hf p [Hc Hw Hp]. split; rewrite ?Hr, ?Hf; done. Qed.

Lemma harmless_files s fs :
  (clean (nodes_dir st) (sh_fs s) -> clean (nodes_dir st) fs) -> fs_files fs !! node_file st n = fs_files (sh_fs s) !! node_file st n ->
  harmless s (set_fs fs s).
Proof.
  intros Hc Hf p [Hc0 Hw Hp]. split; [by apply Hc | exact Hw |]. destruct p as [|e|e]; [exact Hp..|].
  destruct Hp as [He Ho]. split; [exact He|]. by apply (on_file_kept st n e (sh_fs s)).
Qed.

Lemma harmless_entry {R} m (f : NodeEntry -> R * NodeEntry) s :
  (forall e, same_node e (f e).2) -> harmless s (set_registry (Registry.with_entry m f (sh_registry s)).2 s).
Proof.
  intros Hf. assert (G : forall e, stands_entry e (sh_registry s) -> stands_entry e (Registry.with_entry m f (sh_registry s)).2).
  { intros e (Hn & e' & He' & Hs). split; [done|].
    destruct (tame_with_entry all_same m f (sh_registry s) Hf) as [Hl _].
    unfold Registry.with_entry in *. destruct (bt_get (sh_registry s) m) as [em|] eqn:Em; [|by exists e'].
    pose proof (Hf em) as Hfe. destruct (f em) as [x em']. simpl in *. rewrite bt_get_insert. case_decide as Hm.
    - exists em'. split; [done|]. subst m. rewrite He' in Em. injection Em as ->. by trans em.
    - by exists e'. }
  intros p [Hc Hw Hp]. split; [exact Hc | |].
  - cbn [set_registry sh_registry]. apply registry_wf_with_entry; [done|]. intros e. apply Hf.
  - cbn [set_registry sh_registry sh_fs]. destruct p as [|e|e]; [|by apply G|].
    + by apply (tame_with_entry all_same m f (sh_registry s) Hf).
    + destruct Hp as [He Ho]. split; [by apply G | exact Ho].
Qed.

Lemma harmless_remove m s : m <> n -> harmless s (set_registry (Registry.remove m (sh_registry s)).2 s).
Proof.
  intros Hm p [Hc Hw Hp]. split; [exact Hc | by apply registry_wf_remove |]. cbn [set_registry sh_registry sh_fs Registry.remove snd].
  unfold stands_entry in *. by rewrite bt_get_remove_ne.
Qed.

Lemma harmless_insert rec s : nr_node_id rec <> n -> harmless s (set_registry (Registry.insert rec (sh_registry s)) s).
Proof.
  intros Hm p [Hc Hw Hp]. split; [exact Hc | by apply registry_wf_insert |]. cbn [set_registry sh_registry sh_fs].
  unfold stands_entry, Registry.insert in *. by rewrite bt_get_insert_ne.
Qed.

Lemma harmless_aside c s s' : c_storage c = st -> aloof_shared c s s' -> harmless s s'.
Proof.
  intros Hst (Hr & _ & Hf) p [Hc Hw Hp]. rewrite <- Hr in Hw, Hp. destruct Hf as [Hf|[cfg Hf]].
  - rewrite <- Hf in Hc, Hp. by split.
  - assert (Hk : fs_files (sh_fs s') !! node_file st n = fs_files (sh_fs s) !! node_file st n) by (rewrite Hf, Hst; apply save_config_keeps).
    split; [rewrite Hf; by apply clean_run | exact Hw |]. destruct p as [|e|e]; [exact Hp..|]. destruct Hp as [He Ho].
    split; [exact He|]. by apply (on_file_kept st n e (sh_fs s)).
Qed.

(** A copy of the node's record, as far as it is one. *)
Definition true_record (p : Phase) (rec : NodeRecord) : Prop :=
  nr_node_id rec = n -> exists e, phase_entry p = Some e /\ same_node e (new_entry rec).

Lemma true_record_later p p' rec : later p p' -> true_record p rec -> true_record p' rec.
Proof. intros Hl Ht Hn. destruct (Ht Hn) as (e & He & Hs). exists e. split; [by eapply later_entry | done]. Qed.

Lemma snapshot_true p s m rec : stands p s -> Registry.snapshot_record (sh_registry s) m = Some rec -> true_record p rec.
Proof.
  intros [_ Hw Hp] Hrec Hn. unfold Registry.snapshot_record in Hrec. apply fmap_Some in Hrec as (e' & He' & ->).
  assert (m = n) as ->.
  { rewrite <- Hn. symmetry. by apply Hw. }
  destruct p as [|e|e]; [by rewrite He' in Hp| |]; exists e; (split; [done|]).
  - destruct Hp as (_ & e2 & He2 & Hs). rewrite He' in He2. by injection He2 as <-.
  - destruct Hp as [(_ & e2 & He2 & Hs) _]. rewrite He' in He2. by injection He2 as <-.
Qed.

(** Saving it. *)
Lemma save_stands p s rec :
  true_record p rec -> stands p s ->
  exists p', later p p' /\ stands p' (set_fs (run_io (save_node st rec) (sh_fs s)).2 s) /\
    (is_fresh p' = true -> p' = p) /\ (nr_node_id rec = n -> exists e, p' = Filed e).
Proof.
  intros Ht Hs. pose proof Hs as [Hc Hw Hp]. destruct (decide (nr_node_id rec = n)) as [Hn|Hn].
  - destruct (Ht Hn) as (e & He & Hsame). exists (Filed e). split; [destruct p; simplify_eq/=; constructor|]. split; [|split; [done | by exists e]].
    split; [by apply clean_run | exact Hw |]. cbn [set_fs sh_registry sh_fs]. split; [destruct p; simplify_eq/=; [done | apply Hp]|].
    by apply save_node_files.
  - exists p. split; [done|]. split; [|done]. apply harmless_files; [apply clean_run | by apply save_node_keeps | done].
Qed.
(** ** What a task guarantees *)

Section tasks.
Context {Op : Type -> Type} {St : Type} (step : forall B, Op B -> St -> B * St) (sh : St -> Shared).

(** From a phase on, whatever the others do in between, the program brings the
    node only to later phases, and writes the file it owes ([o]) at once.  The
    registry replaces no known node: that is [Records]. *)
Fixpoint files (o : bool) (p : Phase) {A} (prog : Prog Op A) (Q : A -> Phase -> Prop) : Prop :=
  match prog with
  | Ret a => o = false /\ Q a p
  | Do op k =>
      forall p1 s, later p p1 -> stands p1 (sh s) ->
      lasts all_same (sh_registry (sh s)) (sh_registry (sh (step _ op s).2)) ->
      exists o' p2, later p1 p2 /\ stands p2 (sh (step _ op s).2) /\ (o = true -> exists e, p2 = Filed e) /\
        (is_fresh p2 = true -> p1 = p2 \/ o' = true) /\ files o' p2 (k (step _ op s).1) Q
  end.

Lemma files_ret p {A} (a : A) (Q : A -> Phase -> Prop) : Q a p -> files false p (Ret a) Q.
Proof. done. Qed.

Lemma files_bind o p {A B} (prog : Prog Op A) (f : A -> Prog Op B) R Q :
  files o p prog R -> (forall a p', R a p' -> files false p' (f a) Q) -> files o p (prog_bind prog f) Q.
Proof.
  revert o p. induction prog as [a|X op k IH]; intros o p; simpl.
  - intros [-> Ha] Hf. by apply Hf.
  - intros Hp Hf p1 s Hl Hs Hlast. destruct (Hp p1 s Hl Hs Hlast) as (o' & p2 & Hl2 & Hs2 & Ho & Hfresh & Hk).
    exists o', p2. do 4 (split; [done|]). by apply IH.
Qed.

Lemma files_try o p {A B E} (prog : Prog Op (Result A E)) (f : A -> Prog Op (Result B E)) R (Q : Result B E -> Phase -> Prop) :
  files o p prog R -> (forall a p', R (Ok a) p' -> files false p' (f a) Q) -> (forall e p', R (Err e) p' -> Q (Err e) p') ->
  files o p (try_bind prog f) Q.
Proof. intros Hp Hf He. eapply files_bind; [exact Hp|]. intros [a|e] p' HR; [by apply Hf | by apply files_ret, He]. Qed.

Lemma files_post o p {A} (prog : Prog Op A) (Q R : A -> Phase -> Prop) :
  (forall a p, Q a p -> R a p) -> files o p prog Q -> files o p prog R.
Proof.
  intros HQ. revert o p. induction prog as [a|X op k IH]; intros o p; simpl.
  - intros [-> Ha]. split; [done | by apply HQ].
  - intros Hp p1 s Hl Hs Hlast. destruct (Hp p1 s Hl Hs Hlast) as (o' & p2 & Hl2 & Hs2 & Ho & Hfresh & Hk).
    exists o', p2. do 4 (split; [done|]). by apply IH.
Qed.

(** The others move on. *)
Lemma files_later o p p' {A} (prog : Prog Op A) : later p p' -> files o p prog (fun _ _ => True) -> files o p' prog (fun _ _ => True).
Proof. intros Hl. destruct prog as [a|X op k]; [done|]. intros Hp p1 s Hl1. apply Hp. by trans p'. Qed.

Definition harmless_op (B : Type) (op : Op B) : Prop := forall s, harmless (sh s) (sh (step B op s).2).

Lemma files_harmless_op p {B} (op : Op B) : harmless_op B op -> files false p (do_op op) (fun _ => later p).
Proof.
  intros Hop p1 s Hl Hs _. exists false, p1. split; [done|]. split; [by apply Hop|]. split; [done|]. split; [by left | by split].
Qed.

Lemma files_harmless p {A} (prog : Prog Op A) : all_ops harmless_op prog -> files false p prog (fun _ => later p).
Proof.
  intros Hp. revert p. induction Hp as [a|B op k Hop _ IH]; intros p; [by split|]. intros p1 s Hl Hs _.
  exists false, p1. split; [done|]. split; [by apply Hop|]. split; [done|]. split; [by left|].
  eapply files_post; [|apply IH]. intros a p2 Hl2. by trans p1.
Qed.

(** A copy of a record is read. *)
Lemma files_snapshot m p (op : Op (option NodeRecord)) :
  (forall s, step _ op s = (Registry.snapshot_record (sh_registry (sh s)) m, s)) ->
  files false p (do_op op) (fun rec p' => later p p' /\ forall r, rec = Some r -> true_record p' r).
Proof.
  intros Hop p1 s Hl Hs _. rewrite Hop. exists false, p1. cbn [fst snd]. do 2 (split; [done|]). split; [done|]. split; [by left|].
  split; [done|]. split; [done|]. intros r Hr. by apply (snapshot_true p1 (sh s) m).
Qed.

(** It is saved. *)
Lemma files_save o p rec {B} (op : Op B) :
  (forall s, sh (step _ op s).2 = set_fs (run_io (save_node st rec) (sh_fs (sh s))).2 (sh s)) ->
  true_record p rec -> (o = true -> nr_node_id rec = n) -> files o p (do_op op) (fun _ => later p).
Proof.
  intros Hop Ht Ho p1 s Hl Hs _. rewrite Hop.
  destruct (save_stands p1 (sh s) rec (true_record_later p p1 rec Hl Ht) Hs) as (p2 & Hl2 & Hs2 & Hfresh & Hfiled).
  exists false, p2. do 2 (split; [done|]). split; [intros Hot; by apply Hfiled, Ho|].
  split; [intros Hf; left; symmetry; by apply Hfresh|]. split; [done | by trans p1].
Qed.
End tasks.
End phases.

(** ** The node manager *)

Section manager.
Context `{SerdeJson} `{NodeDate} (st : Storage) (n : Z).
Abbreviation MgOk := (harmless_op st n mg_step fst).

Lemma harmless_mg_op {B} (f : Shared -> B * Shared) : (forall s, harmless st n s (f s).2) -> MgOk B (OnShared f).
Proof. intros Hf [s tm]. specialize (Hf s). cbn [mg_step fst snd]. by destruct (f s). Qed.

Lemma mg_read_ok {A} (f : Shared -> A) : all_ops MgOk (mg_read f).
Proof. apply all_ops_op, harmless_mg_op. intros s. by intros p. Qed.

Lemma mg_modify_ok f : (forall s, harmless st n s (f s)) -> all_ops MgOk (mg_modify f).
Proof. intros Hf. by apply all_ops_op, harmless_mg_op. Qed.

Lemma mg_timers_ok {A} (f : Timers -> A * Timers) : all_ops MgOk (do_op (OnTimers f)).
Proof. apply all_ops_op. intros [s tm]. cbn [mg_step fst snd]. destruct (f tm). by intros p. Qed.

Lemma mg_send_ok event data : all_ops MgOk (mg_modify (send_event event data)).
Proof. apply mg_modify_ok. intros s. by apply harmless_same. Qed.

Lemma mg_emit_ok m : all_ops MgOk (emit_ops m).
Proof. apply all_ops_bind; [apply mg_read_ok|]. intros [nd|]; [apply mg_send_ok | constructor]. Qed.

Lemma mg_available_ok m a : all_ops MgOk (availability_ops m a).
Proof.
  apply all_ops_bind; [|intros [[]|]; [apply mg_emit_ok | constructor..]]. apply all_ops_op, harmless_mg_op. intros s.
  pose proof (harmless_entry st n m (fun e => (negb (eqb (ne_available e) a), {| ne_record := ne_record e; ne_available := a |})) s) as Hh.
  unfold Registry.set_available. destruct (Registry.with_entry _ _ _) as [ch r]. by apply Hh.
Qed.

Lemma mg_changes_ok m changes : all_ops MgOk (changes_ops m changes).
Proof.
  induction changes as [|[path value] changes IH]; [constructor|]. cbn [changes_ops].
  apply all_ops_bind; [apply mg_modify_ok; intros s; by apply harmless_entry|]. intros _.
  apply all_ops_bind; [apply mg_send_ok | by intros _].
Qed.

Abbreviation mg_files := (files st n mg_step fst).

Lemma mg_persist_files p m : mg_files false p (persist_ops st m) (fun _ => later p).
Proof.
  unfold persist_ops. eapply files_bind; [apply (files_snapshot st n mg_step fst m); by intros []|].
  intros [rec|] p' [Hl Hrec]; [|by apply files_ret].
  eapply files_post; [|apply (files_save st n mg_step fst false p' rec); [by intros [] | by apply Hrec | done]].
  intros a p2 Hl2. by trans p'.
Qed.

Lemma mg_then p {A B} (prog : MgProg A) (f : A -> MgProg B) :
  all_ops MgOk prog -> (forall a p', mg_files false p' (f a) (fun _ _ => True)) -> mg_files false p (prog_bind prog f) (fun _ _ => True).
Proof. intros Hp Hf. eapply files_bind; [by apply files_harmless|]. intros a p' _. apply Hf. Qed.

Lemma mg_just p {A} (prog : MgProg A) : all_ops MgOk prog -> mg_files false p prog (fun _ _ => True).
Proof. intros Hp. eapply files_post; [|by apply files_harmless]. done. Qed.

Lemma mg_event_files p ev : mg_files false p (event_ops st ev) (fun _ _ => True).
Proof.
  apply mg_then; [apply mg_read_ok|]. intros [] p1; [|by apply files_ret]. destruct ev as [m [i|]|m attrs|m changes|m e]; cbn [known_ops state_ops].
  - apply mg_just, all_ops_bind; [apply mg_timers_ok | intros _; apply mg_available_ok].
  - apply mg_just, all_ops_bind; [apply mg_read_ok | intros available; apply mg_timers_ok].
  - apply mg_then; [apply mg_modify_ok; intros s; by apply harmless_entry|]. intros _ p2.
    eapply files_bind; [apply mg_persist_files|]. intros _ p3 _. apply mg_just, mg_emit_ok.
  - apply mg_then; [apply mg_changes_ok|]. intros _ p2. eapply files_post; [|apply mg_persist_files]. done.
  - apply mg_then; [apply mg_modify_ok; intros s; by apply harmless_same|]. intros _ p2. apply mg_just, mg_send_ok.
Qed.

Lemma mg_expiry_files p m : mg_files false p (expiry_ops m) (fun _ _ => True).
Proof. apply mg_then; [apply mg_timers_ok|]. intros [] p1; [apply mg_just, mg_available_ok | by apply files_ret]. Qed.
End manager.

(** ** Commands *)

Section commands.
Context {S L : Type} `{SerdeJson} `{NodeDate} `{Processes} `{!Stack S} `{!LogLevels L} (c : Ctrl) (n : Z).
Abbreviation CProg A := (Prog (COp S L) A).
Abbreviation COk := (harmless_op (c_storage c) n (ctrl_step (S := S) (L := L)) w_shared).
Abbreviation c_files := (files (c_storage c) n (ctrl_step (S := S) (L := L)) w_shared).
Abbreviation ends := (fun _ (_ : Phase) => True).

Lemma ok_atom {B} (f : World S L -> B * World S L) :
  (forall w, harmless (c_storage c) n (w_shared w) (w_shared (f w).2)) -> all_ops COk (do_op (Atom f)).
Proof. intros Hf. by apply all_ops_op. Qed.

Lemma ok_shared (g : Shared -> Shared) : (forall s, harmless (c_storage c) n s (g s)) -> all_ops COk (modify_world (on_shared g)).
Proof. intros Hg. apply ok_atom. intros w. apply Hg. Qed.

Lemma ok_other {B} (op : COp S L B) : match op with Atom _ => False | _ => True end -> all_ops COk (do_op op).
Proof.
  intros Hop. apply all_ops_op. intros w. destruct op as [X f|l|l|X op|argv]; cbn [ctrl_step]; [done | by intros p..| | by intros p].
  destruct (stack_call X op (w_stack w)). by intros p.
Qed.

Lemma ok_aloof {A} (p : CProg A) : aloof c p -> all_ops COk p.
Proof.
  intros Hp. induction Hp as [a|B op k Hop _ IH]; [constructor|]. constructor; [|done]. intros w.
  destruct op as [X f|l|l|X op|argv]; cbn [ctrl_step]; [by eapply harmless_aside | by intros p..| | by intros p].
  destruct (stack_call X op (w_stack w)). by intros p.
Qed.

Lemma ok_stack {B} (op : StackOp B) : all_ops COk (stack op).
Proof. by apply ok_other. Qed.

Lemma cok_read {A} (f : World S L -> A) : all_ops COk (read_world f).
Proof. apply ok_atom. intros w. by intros p. Qed.

Lemma cok_emit event data : all_ops COk (emit event data).
Proof. apply ok_shared. intros s. by apply harmless_same. Qed.

Lemma then_files p {A B} (prog : CProg A) (f : A -> CProg B) :
  all_ops COk prog -> (forall a p', later p p' -> c_files false p' (f a) ends) -> c_files false p (prog_bind prog f) ends.
Proof. intros Hp Hf. eapply files_bind; [by apply files_harmless | exact Hf]. Qed.

Lemma try_files p {A B E} (prog : CProg (Result A E)) (f : A -> CProg (Result B E)) :
  all_ops COk prog -> (forall a p', later p p' -> c_files false p' (f a) ends) -> c_files false p (try_bind prog f) ends.
Proof. intros Hp Hf. apply then_files; [done|]. intros [a|e] p' Hl; [by apply Hf | by apply files_ret]. Qed.

Lemma just_files p {A} (prog : CProg A) : all_ops COk prog -> c_files false p prog ends.
Proof. intros Hp. eapply files_post; [|by apply files_harmless]. done. Qed.

Lemma persist_step rec (w : World S L) :
  w_shared (ctrl_step _ (Atom (fun w => let '(r, fs) := run_io (save_node (c_storage c) rec) (sh_fs (w_shared w)) in (r, on_shared (set_fs fs) w))) w).2 =
  set_fs (run_io (save_node (c_storage c) rec) (sh_fs (w_shared w))).2 (w_shared w).
Proof. cbn [ctrl_step]. by destruct (run_io (save_node (c_storage c) rec) (sh_fs (w_shared w))). Qed.

Lemma persist_files o p rec :
  true_record n p rec -> (o = true -> nr_node_id rec = n) -> c_files o p (persist_record c rec) (fun _ => later p).
Proof. apply (files_save (c_storage c) n (ctrl_step (S := S) (L := L)) w_shared o p rec). apply persist_step. Qed.

(** A commissioned node is inserted and written. *)
Lemma finish_files p m o attributes : c_files false p (Commissioning.finish_commission c m o attributes) ends.
Proof.
  unfold Commissioning.finish_commission. apply then_files; [apply cok_read|]. intros now p0 _. cbv zeta. set (rec := {| nr_node_id := m |}).
  assert (Hrest : forall ob p2, true_record n p2 rec -> (ob = true -> m = n) -> c_files ob p2
    (do! _ := persist_record c rec in do! nd := get_node_data m in
     do? nd := lift_result (ok_or nd (err SdkStackError "node vanished immediately after commissioning (internal error)")) in
     do! _ := emit "node_added" (node_data_value nd) in do! _ := stack (StartSupervisor m) in Ret (Ok (node_data_value nd))) ends).
  { intros ob p2 Ht Hob. eapply files_bind; [by apply persist_files|]. intros _ p3 _.
    apply just_files, all_ops_bind; [apply cok_read|]. intros nd. apply all_ops_try; [apply all_ops_ret|]. intros nd'.
    apply all_ops_bind; [apply cok_emit|]. intros _. apply all_ops_bind; [apply ok_stack | intros; apply all_ops_ret]. }
  destruct (decide (m = n)) as [Hm|Hm].
  2: { apply then_files; [apply ok_shared; intros s; by apply harmless_insert|]. intros _ p1 _.
    apply Hrest; [intros Hn; by destruct Hm | done]. }
  intros p1 w Hl [Hc Hw Hp] Hlast. cbn [ctrl_step fst snd w_shared with_shared on_shared set_registry sh_registry sh_fs] in *.
  assert (Hget : bt_get (Registry.insert rec (sh_registry (w_shared w))) n = Some (new_entry rec)).
  { unfold Registry.insert. cbn [nr_node_id rec]. rewrite Hm. apply bt_get_insert_eq. }
  assert (Hwf : registry_wf (Registry.insert rec (sh_registry (w_shared w)))) by by apply registry_wf_insert.
  assert (Hsame : forall e, stands_entry n e (sh_registry (w_shared w)) -> same_node e (new_entry rec)).
  { intros e (_ & e0 & He0 & Hs). destruct (Hlast n e0 He0) as [Hn|(e1 & He1 & Hs1)]; [by rewrite Hget in Hn|].
    rewrite Hget in He1. injection He1 as <-. by trans e0. }
  assert (Hstands : forall e, stands_entry n e (sh_registry (w_shared w)) -> stands_entry n e (Registry.insert rec (sh_registry (w_shared w)))).
  { intros e He. split; [apply He|]. exists (new_entry rec). split; [exact Hget | by apply Hsame]. }
  destruct p1 as [|e|e].
  - exists true, (Fresh (new_entry rec)). split; [constructor|]. split.
    { split; [exact Hc | exact Hwf |]. split; [exact Hm|]. exists (new_entry rec). by split. }
    split; [done|]. split; [by right|]. apply Hrest; [|done]. intros _. by exists (new_entry rec).
  - exists false, (Fresh e). split; [done|]. split; [split; [exact Hc | exact Hwf | by apply Hstands]|].
    split; [done|]. split; [by left|]. apply Hrest; [|done]. intros _. exists e. split; [done | by apply Hsame].
  - destruct Hp as [He Ho]. exists false, (Filed e). split; [done|]. split; [split; [exact Hc | exact Hwf | by split; [apply Hstands|]]|].
    split; [done|]. split; [by left|]. apply Hrest; [|done]. intros _. exists e. split; [done | by apply Hsame].
Qed.

Lemma do_commission_files p target : c_files false p (Commissioning.do_commission c target) ends.
Proof.
  unfold Commissioning.do_commission, Commissioning.commission_body, config_snapshot.
  apply then_files; [by apply ok_other|]. intros _ p1 _.
  apply (files_bind _ _ _ _ _ _ _ _ ends); [|intros r p2 _; apply just_files, all_ops_bind; [by apply ok_other | intros; apply all_ops_ret]].
  apply then_files; [apply ok_aloof, aloof_update|]. intros [[id|] x] p2 _; cbn [fst]; [|by apply files_ret].
  apply then_files; [apply cok_read|]. intros cfg p3 _. apply then_files; [apply ok_stack|]. intros r p4 _.
  apply try_files; [apply all_ops_ret|]. intros o p5 _. apply then_files; [apply ok_stack|]. intros [attributes|e] p6 _; [apply finish_files|].
  apply just_files, all_ops_bind; [apply ok_stack | intros; apply all_ops_ret].
Qed.

Lemma interview_files p args : c_files false p (Nodes.interview_node c args) ends.
Proof.
  apply try_files; [apply all_ops_ret|]. intros m p1 _. apply try_files; [apply ok_aloof, aloof_ensure|]. intros _ p2 _.
  apply then_files; [apply ok_stack|]. intros r p3 _. apply try_files; [apply all_ops_ret|]. intros attributes p4 _.
  apply then_files; [apply ok_atom; intros w; by apply harmless_entry|]. intros _ p5 _.
  eapply files_bind; [by apply (files_snapshot (c_storage c) n (ctrl_step (S := S) (L := L)) w_shared m)|]. intros rec p6 [_ Hrec].
  apply (files_bind _ _ _ _ _ _ _ _ ends).
  { destruct rec as [rec|]; [|by apply files_ret]. eapply files_bind; [apply persist_files; [by apply Hrec | done]|]. intros; by apply files_ret. }
  intros _ p7 _. apply just_files, all_ops_bind; [apply cok_read|]. intros nd.
  apply all_ops_bind; [destruct nd; [apply cok_emit | apply all_ops_ret] | intros; apply all_ops_ret].
Qed.

Lemma remove_files p args : require_u64 args "node_id" <> Ok n -> c_files false p (Nodes.remove_node c args) ends.
Proof.
  intros Hne. unfold Nodes.remove_node. destruct (require_u64 args "node_id") as [m|]; [|by apply files_ret].
  assert (Hm : m <> n) by congruence. unfold try_bind at 1. unfold lift_result at 1. cbn [prog_bind].
  apply try_files; [apply ok_aloof, aloof_ensure|]. intros _ p1 _. apply then_files; [apply cok_read|]. intros rec p2 _. cbv zeta.
  do 2 (apply then_files; [apply ok_stack|]; intros ? ? ?).
  apply then_files; [apply ok_shared; intros s; by apply harmless_remove|]. intros _ p3 _.
  apply then_files; [apply ok_shared; intros s; apply harmless_files; [apply clean_run | by apply delete_node_keeps]|]. intros _ p4 _.
  apply just_files, all_ops_bind; [apply cok_emit | intros; apply all_ops_ret].
Qed.

Lemma command_files p conn cmd : leaves n cmd -> c_files false p (handle_command c conn cmd) ends.
Proof.
  intros Hleaves. destruct (aloof_handle_command (S := S) (L := L) c conn cmd) as [Hin|Ha]; [|by apply just_files, ok_aloof].
  destruct cmd as [mid name args]. unfold handle_command, leaves in *. simpl in *.
  unfold node_changing in Hin. repeat (apply elem_of_cons in Hin as [->|Hin]); [..| by apply elem_of_nil in Hin];
    cbn [handlers lookup_command String.eqb Ascii.eqb Bool.eqb].
  - apply interview_files.
  - by apply remove_files, Hleaves.
  - unfold Commissioning.commission_with_code. case_match; [by apply files_ret | apply do_commission_files].
  - unfold Commissioning.commission_on_network. destruct (Commissioning.commission_target args) as [t|e];
      [apply do_commission_files | by apply files_ret].
Qed.
End commands.

(** ** The whole server *)

Section server.
Context {S L : Type} `{SerdeJson} `{NodeDate} `{Processes} `{!Stack S} `{!LogLevels L} (c : Ctrl) (n : Z).
Abbreviation Server := (@Server S L).
Abbreviation c_files := (files (c_storage c) n (ctrl_step (S := S) (L := L)) w_shared).
Abbreviation mg_files := (files (c_storage c) n mg_step fst).
Abbreviation ends := (fun _ (_ : Phase) => True).

(** Whoever made the node known without writing its file yet is about to. *)
Record Durable (p : Phase) (sv : Server) : Prop := {
  du_stands : stands (c_storage c) n p (w_shared (sv_world sv));
  du_tasks : forall id t, sv_tasks sv !! id = Some t -> exists o, c_files o p t ends;
  du_owed : is_fresh p = true -> exists id t, sv_tasks sv !! id = Some t /\ c_files true p t ends;
  du_handler : mg_files false p (sv_handler sv) ends;
}.

Lemma durable_calm p (sv sv' : Server) :
  Durable p sv -> w_shared (sv_world sv') = w_shared (sv_world sv) -> sv_tasks sv' = sv_tasks sv ->
  mg_files false p (sv_handler sv') ends -> Durable p sv'.
Proof. intros [Hs Ht Ho _] Ew Et Hh. split; rewrite ?Ew, ?Et; done. Qed.

Lemma conn_step_shared id l (sv sv' : Server) :
  conn_step id l sv = Some sv' -> w_shared (sv_world sv') = w_shared (sv_world sv) /\ sv_handler sv' = sv_handler sv.
Proof.
  unfold conn_step. destruct (sv_conns sv !! id) as [s|]; [|done]. destruct (ws_step CAPACITY l s) as [s'|]; [|done].
  intros [= <-]. by destruct (is_closed s').
Qed.

Lemma plain_tasks id l (sv sv' : Server) :
  plain l -> SvInv c None sv -> conn_step id l sv = Some sv' -> sv_tasks sv' = sv_tasks sv.
Proof.
  intros Hl Hi Hs. assert (Hpub : forall ev, l <> Publish ev) by (intros ev ->; done).
  pose proof (plain_no_task c id l sv sv' Hl Hi Hs) as Htask.
  by destruct (conn_step_inv c id l sv sv' Hpub Htask (sv_weaken c id sv Hi) Hs) as (_ & Et & _).
Qed.

Lemma durable_plain p id l (sv sv' : Server) :
  plain l -> SvInv c None sv -> Durable p sv -> conn_step id l sv = Some sv' -> Durable p sv'.
Proof.
  intros Hl Hi Hd Hs. destruct (conn_step_shared id l sv sv' Hs) as [Ew Eh].
  apply (durable_calm p sv); [done | done | by eapply plain_tasks | rewrite Eh; apply Hd].
Qed.

Lemma durable_text p id text (sv sv' : Server) :
  (forall cmd, parse_frame text = Ok cmd -> leaves n cmd) -> SvInv c None sv -> Durable p sv -> text_frame c id text sv = Some sv' ->
  Durable p sv'.
Proof.
  intros Hl Hi Hd. unfold text_frame. destruct (conn_step id (Inbound text) sv) as [sv1|] eqn:Hs; [|done].
  pose proof (frame_no_task c id text sv sv1 Hi Hs) as Htask.
  destruct (conn_step_shared id _ sv sv1 Hs) as [Ew Eh].
  destruct (conn_step_inv c id (Inbound text) sv sv1) as (_ & Et & _); [done..| by apply sv_weaken | done |].
  assert (Hd1 : Durable p sv1) by (apply (durable_calm p sv); [done..| rewrite Eh; apply Hd]).
  intros [= <-]. destruct (parse_frame text) as [cmd|e] eqn:Hparse; [|done]. destruct Hd1 as [Hst Ht Ho Hh].
  split; cbn [sv_world sv_tasks sv_handler set_tasks]; [done | | | done].
  - intros j t. destruct (decide (j = id)) as [->|Hne]; [|rewrite lookup_insert_ne by done; apply Ht].
    rewrite lookup_insert_eq. intros [= <-]. exists false. by apply command_files, Hl.
  - intros Hf. destruct (Ho Hf) as (j & t & Hj & Hfiles). exists j, t. split; [|done]. rewrite lookup_insert_ne; [done|].
    intros ->. by rewrite Et, Htask in Hj.
Qed.

Lemma durable_respond p id (sv sv' : Server) : SvInv c None sv -> Durable p sv -> respond id sv = Some sv' -> Durable p sv'.
Proof.
  intros Hi [Hst Ht Ho Hh]. unfold respond. destruct (sv_tasks sv !! id) as [[r|]|] eqn:Et; [|done..]. intros Hs.
  destruct (conn_step_shared id _ _ sv' Hs) as [Ew Eh].
  assert (Htasks : sv_tasks sv' = delete id (sv_tasks sv)).
  { unfold conn_step in Hs. cbn [set_tasks sv_conns] in Hs. destruct (sv_conns sv !! id) as [s|]; [|done].
    destruct (ws_step CAPACITY (answer_step r) s) as [s'|]; [|done]. injection Hs as <-. destruct (is_closed s'); [|done].
    cbn. apply delete_id, lookup_delete_eq. }
  split; rewrite ?Ew, ?Eh, ?Htasks; [done | | | done].
  - intros j t [_ Hj]%lookup_delete_Some. by apply (Ht j).
  - intros Hf. destruct (Ho Hf) as (j & t & Hj & Hfiles). exists j, t. split; [|done]. rewrite lookup_delete_ne; [done|].
    intros ->. rewrite Et in Hj. injection Hj as <-. by destruct Hfiles.
Qed.

Lemma durable_operate p id (sv sv' : Server) :
  Durable p sv -> lasts all_same (w_registry (sv_world sv)) (w_registry (sv_world sv')) -> operate id sv = Some sv' ->
  exists p', Durable p' sv'.
Proof.
  intros [Hst Ht Ho Hh] Hlast. unfold operate. destruct (sv_tasks sv !! id) as [t|] eqn:Hid; [|done].
  assert (Hown : exists o, c_files o p t ends /\ (is_fresh p = true -> o = true \/ exists j u, j <> id /\ sv_tasks sv !! j = Some u /\ c_files true p u ends)).
  { destruct (is_fresh p) eqn:Hf.
    - destruct (Ho eq_refl) as (j & u & Hj & Hu). destruct (decide (j = id)) as [->|Hne].
      + rewrite Hid in Hj. injection Hj as <-. exists true. split; [done|]. by left.
      + destruct (Ht id t Hid) as [o Hfo]. exists o. split; [done|]. intros _. right. by exists j, u.
    - destruct (Ht id t Hid) as [o Hfo]. by exists o. }
  destruct Hown as (o & Hfo & Howed). destruct t as [a|B op k]; [done|]. cbn [task_step]. destruct (enabled op (sv_world sv)); [|done].
  pose proof (Hfo p (sv_world sv) (later_refl p) Hst) as Hnext.
  destruct (ctrl_step B op (sv_world sv)) as [b w] eqn:Es. intros [= <-]. cbn [fst snd] in Hnext.
  destruct (Hnext Hlast) as (o' & p2 & Hl2 & Hst2 & Hfiled & Hfresh & Hk). exists p2.
  split; cbn [sv_world sv_tasks sv_handler set_tasks Server.advance set_conns set_world]; [done | | |].
  - intros j u. destruct (decide (j = id)) as [->|Hne].
    + rewrite lookup_insert_eq. intros [= <-]. by exists o'.
    + rewrite lookup_insert_ne by done. intros [ou Hu]%Ht. exists ou. by apply (files_later _ _ _ _ ou p).
  - intros Hf. destruct (Hfresh Hf) as [E| ->].
    + subst p2. destruct (Howed Hf) as [->|(j & u & Hne & Hj & Hu)].
      * destruct (Hfiled eq_refl) as [e ->]. done.
      * exists j, u. by rewrite lookup_insert_ne.
    + exists id, (k b). by rewrite lookup_insert_eq.
  - by apply (files_later _ _ _ _ false p).
Qed.

Lemma files_unowe p {A} (prog : MgProg A) : mg_files true p prog ends -> mg_files false p prog ends.
Proof.
  destruct prog as [a|B op k]; [by intros []|]. intros Hp p1 s Hl Hs Hlast.
  destruct (Hp p1 s Hl Hs Hlast) as (o' & p2 & Hl2 & Hs2 & _ & Hrest). exists o', p2. by split.
Qed.

Lemma durable_handle p (sv sv' : Server) : SvInv c None sv -> Durable p sv -> handle sv = Some sv' -> exists p', Durable p' sv'.
Proof.
  intros Hi [Hst Ht Ho Hh]. pose proof (iv_handler _ _ _ Hi) as Hok. unfold handle.
  destruct Hok as [a|B op k Hop _]; [done|]. 
  assert (Hchange : mg_change (c_storage c) (w_shared (sv_world sv)) (mg_step B op (w_shared (sv_world sv), sv_timers sv)).2.1).
  { destruct op as [X f|X f]; cbn [mg_step fst snd].
    - specialize (Hop (w_shared (sv_world sv))). by destruct (f (w_shared (sv_world sv))).
    - destruct (f (sv_timers sv)). constructor. }
  destruct (tame_change (c_storage c) _ _ Hchange) as [Hlast Hnone].
  destruct (Hh p (w_shared (sv_world sv), sv_timers sv) (later_refl p) Hst Hlast) as (o' & p2 & Hl2 & Hst2 & _ & _ & Hk).
  destruct (mg_step B op (w_shared (sv_world sv), sv_timers sv)) as [b [s tm]]. cbn [fst snd] in *. intros [= <-]. exists p2.
  split; cbn [sv_world sv_tasks sv_handler set_manager Server.advance set_conns set_world]; [done | | |].
  - intros j u [ou Hu]%Ht. exists ou. by apply (files_later _ _ _ _ ou p).
  - intros Hf. assert (p2 = p) as ->; [|by apply Ho].
    destruct Hl2 as [p|e|e|e]; [done | | done | done]. destruct Hst as [_ _ Habs], Hst2 as [_ _ (_ & e' & He' & _)].
    apply Hnone in Habs. congruence.
  - destruct o'; [by apply files_unowe | done].
Qed.

Lemma durable_take p (sv sv' : Server) :
  Durable p sv -> take_stack_event c sv = Some sv' \/ take_expired sv = Some sv' -> Durable p sv'.
Proof.
  intros Hd [Hs|Hs].
  - unfold take_stack_event in Hs. destruct (sv_stack_events sv) as [|ev q]; [done|]. destruct (handler_idle sv); [|done].
    injection Hs as <-. apply (durable_calm p sv); [done..| apply mg_event_files].
  - unfold take_expired in Hs. destruct (sv_expired sv) as [|m q]; [done|]. destruct (handler_idle sv); [|done].
    injection Hs as <-. apply (durable_calm p sv); [done..| apply mg_expiry_files].
Qed.

Lemma durable_handles k p (sv sv' : Server) :
  SvInv c None sv -> Durable p sv -> server_run c (replicate k Handle) sv = Some sv' -> exists p', Durable p' sv'.
Proof.
  revert p sv. induction k as [|k IH]; intros p sv Hi Hd; cbn [replicate server_run]; [intros [= <-]; by exists p|].
  destruct (server_step c Handle sv) as [sv1|] eqn:E; [|done]. destruct (durable_handle p sv sv1 Hi Hd E) as [p1 Hd1].
  apply (IH p1); [by eapply server_step_inv | done].
Qed.

Lemma durable_manage p l (sv sv' : Server) :
  SvInv c None sv -> Durable p sv -> manage c l sv = Some sv' -> exists p', Durable p' sv'.
Proof.
  intros Hi Hd Hm. destruct (takes l) eqn:Ht.
  - destruct (manage_in_one_go c l sv sv' Ht Hm) as [k Hrun]. cbn [server_run] in Hrun.
    destruct (server_step c _ sv) as [sv1|] eqn:E; [|done]. apply (durable_handles k p sv1); [by eapply server_step_inv | | done].
    apply (durable_take p sv); [done|]. destruct l; try done; [by left | by right].
  - exists p. apply manage_effect in Hm as (m & Hm & ->). apply (durable_calm p sv); [done | | done | apply Hd].
    destruct l as [ev|t| |]; try done; cbn [manager_step] in Hm; cbn.
    + by injection Hm as <-.
    + cbn [mg_timers mg_shared] in Hm. destruct (tm_tasks (sv_timers sv) !! t) as [[m0| |]|]; try done. by injection Hm as <-.
Qed.

Lemma durable_step p l (sv sv' : Server) :
  keeps_node n l -> SvInv c None sv -> (exists hs, Guarded all_same hs sv) -> Durable p sv -> server_step c l sv = Some sv' ->
  exists p', Durable p' sv'.
Proof.
  intros Hl Hi [hs Hg] Hd Hs. assert (Hlast : managing l = false -> lasts all_same (w_registry (sv_world sv)) (w_registry (sv_world sv'))).
  { pose proof (all_permitted [l]) as [Hp _]%Forall_cons. by apply (guarded_step c all_same hs l sv sv' Hp Hi Hg Hs). }
  destruct l as [|id ok|id text|id|id|id|id|id ok|id ok| |id|l| | | |]; cbn [server_step] in Hs.
  - injection Hs as <-. exists p. apply (durable_calm p sv); [done..| apply Hd].
  - destruct (sv_infos sv !! id); [|done]. exists p. by refine (durable_plain p id _ sv sv' _ Hi Hd Hs).
  - exists p. by apply (durable_text p id text sv).
  - exists p. by refine (durable_plain p id _ sv sv' _ Hi Hd Hs).
  - exists p. by refine (durable_plain p id _ sv sv' _ Hi Hd Hs).
  - by apply (durable_operate p id sv); [| apply Hlast |].
  - exists p. by apply (durable_respond p id sv).
  - exists p. by refine (durable_plain p id _ sv sv' _ Hi Hd Hs).
  - exists p. by refine (durable_plain p id _ sv sv' _ Hi Hd Hs).
  - injection Hs as <-. exists p. apply (durable_calm p sv); [done..| apply Hd].
  - destruct (sv_stopping sv); [|done]. exists p. by refine (durable_plain p id _ sv sv' _ Hi Hd Hs).
  - by apply (durable_manage p l sv).
  - exists p. apply (durable_take p sv); [done | by left].
  - exists p. apply (durable_take p sv); [done | by right].
  - by apply (durable_handle p sv).
  - exists p. apply (boot_effect c) in Hs as (st & t & _ & _ & ->); [|done]. apply (durable_calm p sv); [done..| apply Hd].
Qed.

Lemma durable_run p ls (sv sv' : Server) :
  Forall (keeps_node n) ls -> SvInv c None sv -> (exists hs, Guarded all_same hs sv) -> Durable p sv -> server_run c ls sv = Some sv' ->
  exists p', Durable p' sv'.
Proof.
  revert p sv. induction ls as [|l ls IH]; intros p sv Hls Hi Hg Hd; cbn [server_run]; [intros [= <-]; by exists p|].
  apply Forall_cons in Hls as [Hl Hls]. destruct (server_step c l sv) as [sv1|] eqn:E; [|done].
  destruct (durable_step p l sv sv1 Hl Hi Hg Hd E) as [p1 Hd1]. apply (IH p1); [done | by eapply server_step_inv | | done].
  destruct Hg as [hs Hg]. pose proof (all_permitted [l]) as [Hp _]%Forall_cons.
  by apply (guarded_step c all_same hs l sv sv1 Hp Hi Hg E).
Qed.
End server.

Section theorems.
Context {S L : Type} `{SerdeJson} `{!SerdeJsonLaws} `{NodeDate} `{Processes} `{!Stack S} `{!LogLevels L} (c : Ctrl).
Abbreviation Server := (@Server S L).

Definition files_of (sv : Server) : FS := sh_fs (w_shared (sv_world sv)).

(** Starting only reads. *)
Lemma start_reads fs now log st :
  clean (nodes_dir (c_storage c)) fs ->
  let sv := start c fs now log st in
  w_registry (sv_world sv) = Registry.new (run_io (load_nodes (c_storage c)) fs).1 /\ files_of sv = fs.
Proof.
  intros [Hf Hd]. unfold files_of, start, new, w_registry. cbn [sv_world].
  pose proof (run_load_nodes (c_storage c) fs Hf Hd) as E. rewrite E. cbn [fst].
  assert (Ec : (run_io (load_config (c_storage c)) fs).2 = fs).
  { unfold load_config, run_io. rewrite run_bind. pose proof (run_read_json de_config (join (st_root (c_storage c)) "config.json") fs Hf) as Er.
    unfold run_io in Er. by rewrite Er. }
  destruct (run_io (load_config (c_storage c)) fs) as [cfg fs1]. simpl in Ec. by subst fs1.
Qed.

Lemma durable_start fs now log st n :
  clean (nodes_dir (c_storage c)) fs ->
  (forall e, bt_get (w_registry (sv_world (start c fs now log st))) n = Some e -> on_file (c_storage c) n e fs) ->
  exists p, Durable (S := S) (L := L) c n p (start c fs now log st).
Proof.
  intros Hc Hon. destruct (start_reads fs now log st Hc) as [Hr Hfs]. unfold files_of, w_registry in *.
  assert (Hwf : registry_wf (sh_registry (w_shared (sv_world (start c fs now log st))))) by (rewrite Hr; apply registry_wf_new).
  destruct (bt_get (sh_registry (w_shared (sv_world (start c fs now log st)))) n) as [e|] eqn:E.
  - exists (Filed e). split; [|done..]. split; [by rewrite Hfs | exact Hwf |]. rewrite Hfs. split; [|by apply Hon].
    split; [by apply Hwf | by exists e].
  - exists Absent. split; [|done..]. split; [by rewrite Hfs | exact Hwf | exact E].
Qed.

Lemma same_node_sym e e' : same_node e e' -> same_node e' e.
Proof. intros (? & ? & ? & ?). by repeat split. Qed.

Lemma on_file_same st n e e' fs : same_node e e' -> on_file st n e fs -> on_file st n e' fs.
Proof.
  intros Hs (rec & x & Hx & Hcomp & Hn & Hr). exists rec, x. do 3 (split; [done|]). trans e; [by apply same_node_sym | done].
Qed.

(** In every phase in which the node is known it is on file, now or after the
    next operation of a command. *)
Lemma durable_on_file n p (sv : Server) e :
  (exists hs, Guarded all_same hs sv) -> Durable c n p sv -> bt_get (w_registry (sv_world sv)) n = Some e ->
  exists sv', (sv' = sv \/ exists id, operate id sv = Some sv') /\ on_file (c_storage c) n e (files_of sv') /\
    clean (nodes_dir (c_storage c)) (files_of sv').
Proof.
  intros [hs Hg] [Hst _ Ho _] He. unfold w_registry in He.
  assert (Hent : forall e0, stands_entry n e0 (sh_registry (w_shared (sv_world sv))) -> same_node e0 e).
  { intros e0 (_ & e' & He' & Hs). rewrite He in He'. by injection He' as ->. }
  pose proof Hst as [Hc _ Hp]. destruct p as [|e0|e0].
  - by rewrite He in Hp.
  - destruct (Ho eq_refl) as (id & t & Ht & Hfiles). destruct t as [a|B op k]; [by destruct Hfiles|].
    assert (G : forall w b, ctrl_step B op (sv_world sv) = (b, w) -> lasts all_same (w_registry (sv_world sv)) (w_registry w) ->
      on_file (c_storage c) n e (sh_fs (w_shared w)) /\ clean (nodes_dir (c_storage c)) (sh_fs (w_shared w))).
    { intros w b Es Hl. pose proof (Hfiles _ (sv_world sv) (later_refl _) Hst) as Hf. rewrite Es in Hf.
      destruct (Hf Hl) as (o' & p2 & Hl2 & [Hc2 _ Hp2] & Hfiled & _). destruct (Hfiled eq_refl) as [e2 ->].
      pose proof (later_entry _ _ e0 Hl2 eq_refl) as E. injection E as ->. split; [|exact Hc2].
      destruct Hp2 as [_ Hon]. by apply (on_file_same _ n e0); [apply Hent|]. }
    assert (Hnow : forall w b, ctrl_step B op (sv_world sv) = (b, w) -> w_shared w = w_shared (sv_world sv) ->
      exists sv', (sv' = sv \/ exists id, operate id sv = Some sv') /\ on_file (c_storage c) n e (files_of sv') /\
        clean (nodes_dir (c_storage c)) (files_of sv')).
    { intros w b Es Ew. exists sv. split; [by left|]. unfold files_of. rewrite <- Ew. apply (G w b Es). unfold w_registry. rewrite Ew.
      apply (tame_refl all_same). }
    destruct op as [X f|l|l|X op|argv].
    + destruct (ctrl_step X (Atom f) (sv_world sv)) as [b w] eqn:Es.
      assert (Hop : operate id sv = Some (set_tasks (<[id := k b]> (sv_tasks sv)) (Server.advance w sv))).
      { unfold operate. rewrite Ht. cbn [task_step enabled]. by rewrite Es. }
      destruct (guarded_operate all_same hs id sv _ Hg Hop) as [_ Hl].
      exists (set_tasks (<[id := k b]> (sv_tasks sv)) (Server.advance w sv)). split; [right; by exists id|]. by apply (G w b).
    + by eapply Hnow.
    + by eapply Hnow.
    + destruct (ctrl_step X (CallStack op) (sv_world sv)) as [b w] eqn:Es. apply (Hnow w b eq_refl). cbn [ctrl_step] in Es.
      destruct (stack_call X op (w_stack (sv_world sv))). by injection Es as _ <-.
    + by eapply Hnow.
  - exists sv. split; [by left|]. split; [|exact Hc]. destruct Hp as [Hent0 Hon]. by apply (on_file_same _ n e0); [apply Hent|].
Qed.

(** C5: a node that is known is on file, and known again after a restart.  Start the
    server on a file system on which nothing fails and where the node, if it is
    known at the start, is on file with what is known of it, and let any number of
    clients, the node manager and the stack take their steps in any order, as long
    as no client asks to remove the node.  In every state in which the node is
    known, its file holds, now or after the very next operation of a command, the
    complete document of a record with the node's id, date of commissioning,
    fabric index and addresses; and a server started on the files knows the node,
    if the record's fields are within their types. *)
Theorem known_node_survives fs now log st ls (sv : Server) (n : Z) (e : NodeEntry) :
  clean (nodes_dir (c_storage c)) fs ->
  (forall e, bt_get (w_registry (sv_world (start c fs now log st))) n = Some e -> on_file (c_storage c) n e fs) ->
  Forall (keeps_node n) ls -> server_run c ls (start c fs now log st) = Some sv ->
  bt_get (w_registry (sv_world sv)) n = Some e ->
  exists sv', (sv' = sv \/ exists id, operate id sv = Some sv') /\
    exists rec x, fs_files (files_of sv') !! node_file (c_storage c) n = Some x /\ complete (node_document rec) false x /\
      same_node e (new_entry rec) /\
      (node_ok rec -> forall now (log : L) (st : S), Registry.contains (w_registry (sv_world (start c (files_of sv') now log st))) n = true).
Proof.
  intros Hc Hon Hls Hr He. destruct (durable_start fs now log st n Hc Hon) as [p0 Hd0].
  destruct (durable_run c n p0 ls _ sv Hls (started_inv c fs now log st) (ex_intro _ ∅ (guarded_start c all_same fs now log st)) Hd0 Hr) as [p Hd].
  destruct (durable_on_file n p sv e (guarded_reached c fs now log st ls sv Hr) Hd He) as (sv' & Hsv' & Hfile & Hclean).
  exists sv'. split; [exact Hsv'|]. destruct (restart_knows (c_storage c) n e _ Hclean Hfile) as (rec & x & Hx & Hcomp & Hs & Hknow).
  exists rec, x. do 3 (split; [done|]). intros Hok now' log' st'. apply contains_spec.
  destruct (start_reads (files_of sv') now' log' st' Hclean) as [-> _]. by apply Hknow.
Qed.
End theorems.

(** ** Commissioning, up to the write *)

Section demo.
#[local] Existing Instances DemoRequests demo_processes demo_date.

#[local] Instance DemoRequests_laws : @SerdeJsonLaws DemoRequests.
Proof.
  constructor; intros v Hv; [|by apply (@json_utf8 TreeJson TreeJson_laws)].
  rewrite <- (@json_roundtrip TreeJson TreeJson_laws v Hv). 
  change (str_concat (@json_chunks DemoRequests v)) with (tree_text v +:+ ""). rewrite str_app_nil_r.
  change (str_concat (@json_chunks TreeJson v)) with (tree_text v +:+ ""). rewrite str_app_nil_r.
  unfold tree_text. by destruct (encode (to_tree v)).
Qed.

(** The node is in the registry; the next operation writes its file. *)
Definition before_write_steps : list SvStep :=
  [Accept; Opened 1 true; TextFrame 1 commission_text] ++ replicate 12 (Operate 1).

Lemma before_write_keeps : Forall (keeps_node 1) before_write_steps.
Proof.
  unfold before_write_steps. cbn [app replicate]. repeat (constructor; [first [exact I | idtac]|]); [|constructor].
  intros cmd Hparse Hname. exfalso. revert Hparse. vm_compute. intros [= <-]. discriminate Hname.
Qed.

Definition stored_record : NodeRecord :=
  {| nr_node_id := 1; nr_date_commissioned := "2025-01-01T00:00:00.000000"; nr_last_interview := "2025-01-01T00:00:00.000000";
     nr_device_fabric_index := 2; nr_addresses := ["10.0.0.5"]; nr_attributes := [] |}.

Lemma stored_record_ok : node_ok stored_record.
Proof. unfold node_ok. repeat split; try reflexivity; repeat constructor. Qed.

(** A file says which record it is the document of. *)
Lemma document_inj rec x :
  complete (H := DemoRequests) (node_document rec) false x -> f_data x = tree_text (node_document stored_record) -> rec = stored_record.
Proof.
  intros [Hx _] E. rewrite E in Hx. apply (f_equal tree_parse) in Hx.
  change (str_concat (@json_chunks DemoRequests (node_document rec))) with (tree_text (node_document rec) +:+ "") in Hx.
  rewrite str_app_nil_r, !tree_parse_text in Hx. destruct rec as [n d l i a m].
  injection Hx as Hn Hd Hl Hi Ha Hm. cbn in *. subst.
  destruct a as [|a [|]]; try discriminate Ha. injection Ha as <-. reflexivity.
Qed.

Lemma tasks_keys (m : gmap ConnId (Prog (COp FakeStack (string * option string)) CommandResult)) id k :
  (map_to_list m).*1 = [k] -> is_Some (m !! id) -> id = k.
Proof.
  intros Hk [t Ht]. apply elem_of_map_to_list, (list_elem_of_fmap_2 fst) in Ht. rewrite Hk in Ht. by apply list_elem_of_singleton in Ht.
Qed.

(** Before the write the node is known and not on file; after the next operation it
    is, and a server started on the files knows it. *)
Lemma known_node_survives_witness :
  exists sv sv' e x, server_run demo_ctrl before_write_steps demo_start = Some sv /\
    bt_get (w_registry (sv_world sv)) 1 = Some e /\ fs_files (files_of sv) !! node_file demo_storage 1 = None /\
    operate 1 sv = Some sv' /\ fs_files (files_of sv') !! node_file demo_storage 1 = Some x /\
    Registry.contains (w_registry (sv_world (start demo_ctrl (files_of sv') 5 ("info", @None string) demo_stack))) 1 = true.
Proof.
  destruct (seen_run (fun sv => (nr_device_fabric_index ∘ ne_record <$> bt_get (w_registry (sv_world sv)) 1,
      f_data <$> fs_files (files_of sv) !! node_file demo_storage 1, (map_to_list (sv_tasks sv)).*1,
      sv' ← operate 1 sv; f_data <$> fs_files (files_of sv') !! node_file demo_storage 1)) before_write_steps
    (Some 2, None, [1], Some (tree_text (node_document stored_record)))) as (sv & Hr & E); [by vm_compute|].
  injection E as Ek Ef Et Ew.
  apply fmap_Some in Ek as (e & He & _). apply fmap_None in Ef.
  destruct (known_node_survives demo_ctrl demo_fs 0 ("info", None) demo_stack before_write_steps sv 1 e)
    as (sv' & [->|[id Hop]] & rec & x & Hx & Hcomp & _ & Hknow).
  - split; [reflexivity | by vm_compute].
  - intros e0 He0. vm_compute in He0. discriminate He0.
  - exact before_write_keeps.
  - exact Hr.
  - exact He.
  - pose proof (eq_trans (eq_sym Ef) Hx) as Habs. discriminate Habs.
  - assert (id = 1) as ->.
    { apply (tasks_keys (sv_tasks sv) id 1 Et). unfold operate in Hop. destruct (sv_tasks sv !! id); [by eexists | discriminate Hop]. }
    rewrite Hop in Ew. cbn [mbind option_bind] in Ew. apply fmap_Some in Ew as (x' & Hx' & Hd).
    assert (x' = x) as -> by (pose proof (eq_trans (eq_sym Hx') Hx) as Exx; by injection Exx).
    exists sv, sv', e, x. split; [exact Hr|]. split; [exact He|]. split; [exact Ef|]. split; [exact Hop|]. split; [exact Hx|].
    apply Hknow. rewrite (document_inj rec x Hcomp (eq_sym Hd)). exact stored_record_ok.
Defined.
End demo.
