(* ===== verification/Listen.v ===== *)
(** * What listening clients see

    [Server] with nothing run side by side: every frame is served from its
    receipt to its reply, and every stack event or expiry handled, before
    anything else happens.  Such a
    schedule is one of [Server]'s; in it, a client that listens and never fell
    behind has, with the messages still queued for it, exactly the nodes the
    server serves.  [Mirror] and [Ws] show what goes wrong otherwise: a report
    inside an interview, an event between an answer and the draining. *)

From S2P Require Import Prelude Json Wire Prog Fs Storage Registry StackApi NodeManager ManagerOps Controller Commands Dispatch Sched CommandFacts Progress Mirror Ws Server.

(** ** The client

    It sends requests, and reads frames: a reply answers the oldest unanswered
    request, the reply to [start_listening] tells all nodes, an event changes
    what it knows. *)

Section client.
Context `{SerdeJson}.

Definition is_start (text : string) : bool :=
  match parse_frame text with Ok cmd => String.eqb (cm_command cmd) "start_listening" | Err _ => false end.

Definition see (st : list string * option View) (f : Frame) : list string * option View :=
  match f with
  | FReply doc =>
      (tail st.1,
       match head st.1, value_get doc "result" with
       | Some text, Some result => if is_start text then Some (read_nodes result) else st.2
       | _, _ => st.2
       end)
  | FEvent ev => (st.1, (fun v => apply_event v ev) <$> st.2)
  | _ => st
  end.

Definition client_view (s : Conn) : option View := (fold_left see (ws_sent s) (ws_requests s, None)).2.

Lemma see_unanswered fs reqs extra v :
  (length (replies fs) <= length reqs)%nat ->
  fold_left see fs (reqs ++ extra, v) =
  ((fold_left see fs (reqs, v)).1 ++ extra, (fold_left see fs (reqs, v)).2).
Proof.
  revert reqs v. induction fs as [|f fs IH]; intros reqs v Hl; cbn [fold_left]; [done|].
  destruct f as [info|doc|ev|]; cbn [see fst snd]; unfold replies in Hl; cbn in Hl; try (by apply IH).
  destruct reqs as [|text reqs]; cbn in Hl; [lia|]. cbn [app tail head]. apply IH. unfold replies. lia.
Qed.

Lemma see_left fs reqs v : (fold_left see fs (reqs, v)).1 = drop (length (replies fs)) reqs.
Proof.
  revert reqs v. induction fs as [|f fs IH]; intros reqs v; cbn [fold_left]; [done|].
  destruct f as [info|doc|ev|]; cbn [see fst snd]; try apply IH.
  rewrite IH. change (replies (FReply doc :: fs)) with (doc :: replies fs). destruct reqs as [|r reqs]; cbn [tail length]; [by rewrite !drop_nil | done].
Qed.

(** The latest request and its reply. *)
Lemma client_view_reply s before text doc :
  ws_requests s = before ++ [text] -> length (replies (ws_sent s)) = length before ->
  client_view (push_frame s (FReply doc)) =
  match value_get doc "result" with
  | Some result => if is_start text then Some (read_nodes result) else client_view s
  | None => client_view s
  end.
Proof.
  intros Hr Hl. unfold client_view. cbn [push_frame ws_sent ws_requests]. rewrite Hr.
  rewrite fold_left_app, see_unanswered by lia. rewrite see_left, Hl, drop_all. by cbn.
Qed.

Lemma client_view_request s text :
  length (replies (ws_sent s)) = length (ws_requests s) -> client_view (with_request s text) = client_view s.
Proof. intros Hl. unfold client_view. cbn [with_request ws_sent ws_requests]. by rewrite see_unanswered by lia. Qed.

Lemma client_view_event s ev :
  client_view (push_frame s (FEvent ev)) = (fun v => apply_event v ev) <$> client_view s.
Proof. unfold client_view. cbn [push_frame ws_sent ws_requests]. by rewrite fold_left_app. Qed.
End client.

(** ** Up to date

    What the client knows and what is queued for it make the nodes served. *)

Definition up_to_date `{SerdeJson} (nodes : View) (s : Conn) : Prop :=
  ws_listening s = true -> ws_lagged s = false -> receiving s = true ->
  exists v, client_view s = Some v /\ fold_left apply_event (rx_queue (ws_rx s)) v = nodes.

Section up_to_date.
Context `{SerdeJson}.

Lemma publish_fields ev s :
  ws_sent (publish CAPACITY ev s) = ws_sent s /\ ws_requests (publish CAPACITY ev s) = ws_requests s /\
  ws_listening (publish CAPACITY ev s) = ws_listening s /\
  (ws_lagged (publish CAPACITY ev s) = false -> ws_lagged s = false /\
    (receiving s = true -> rx_queue (ws_rx (publish CAPACITY ev s)) = rx_queue (ws_rx s) ++ [ev])).
Proof.
  unfold publish, receiving. destruct (ws_phase s); cbn -[CAPACITY Nat.ltb]; try done;
    (split; [done|]; split; [done|]; split; [done|]); try (intros Hl; by split);
    intros [Hl Hq]%orb_false_iff; (split; [done|]); intros _; unfold rx_publish; by apply negb_false_iff in Hq as ->.
Qed.

Lemma publish_all_fields evs s :
  ws_listening (publish_all evs s) = ws_listening s /\ ws_sent (publish_all evs s) = ws_sent s /\
  ws_requests (publish_all evs s) = ws_requests s.
Proof.
  unfold publish_all. revert s. induction evs as [|ev evs IH]; intros s; cbn [fold_left]; [done|].
  destruct (IH (publish CAPACITY ev s)) as (-> & -> & ->). by destruct (publish_fields ev s) as (? & ? & ? & _).
Qed.

Lemma up_to_date_publish evs nodes s : up_to_date nodes s -> up_to_date (fold_left apply_event evs nodes) (publish_all evs s).
Proof.
  unfold publish_all. revert nodes s. induction evs as [|ev evs IH]; intros nodes s Hu; cbn [fold_left]; [done|]. apply IH.
  destruct (publish_fields ev s) as (Hs & Hr & Hl & Hq). intros Hlis Hlag Hrec. rewrite Hl in Hlis.
  assert (Hrec' : receiving s = true) by (unfold receiving in *; by rewrite publish_phase in Hrec).
  destruct (Hq Hlag) as [Hlag' Hqueue]. destruct (Hu Hlis Hlag' Hrec') as (v & Hv & Hf).
  exists v. split; [unfold client_view in *; by rewrite Hs, Hr|]. rewrite (Hqueue Hrec'), fold_left_app, Hf. done.
Qed.

(** The connection between commands. *)
Definition settled (s : Conn) : Prop :=
  match ws_phase s with
  | Connecting => ws_listening s = false
  | Idle => length (replies (ws_sent s)) = length (ws_requests s)
  | Closed => True
  | _ => False
  end.

Lemma reached_inv s : conn_reached s -> WsInv s.
Proof. intros [ls Hr]. apply (ws_run_inv _ _ _ _ conn_init_inv Hr). Qed.

Lemma all_answered_length requests fs : all_answered requests fs -> length (replies fs) = length requests.
Proof. intros Ha. symmetry. apply (Forall2_length _ _ _ Ha). Qed.

Lemma idle_answered s : conn_reached s -> ws_phase s = Idle -> length (replies (ws_sent s)) = length (ws_requests s).
Proof.
  intros Hr Hp. destruct (reached_inv s Hr) as [Hrep _ _ _]. unfold replies_ok in Hrep. rewrite Hp in Hrep.
  by apply all_answered_length.
Qed.

Lemma plain_up_to_date nodes l s s' :
  plain l -> (forall ok, l <> Flush ok) -> conn_reached s -> up_to_date nodes s -> settled s -> ws_step CAPACITY l s = Some s' ->
  up_to_date nodes s' /\ settled s'.
Proof.
  intros Hl Hf Hr Hu Hse Hs. pose proof (conn_reached_step _ _ _ Hr Hs) as Hr'.
  assert (Hsettle : ws_phase s' = Idle \/ ws_phase s' = Closed -> settled s').
  { intros [E|E]; unfold settled; rewrite E; [by apply idle_answered | done]. }
  destruct l as [info ok|ev|text| | |r|ok|ok|value|]; try done; try (by destruct (Hf ok)); unfold ws_step in Hs;
    destruct (ws_phase s) eqn:Hp; try done.
  - (* Connect *) unfold settled in Hse. rewrite Hp in Hse. unfold send_or_close in Hs.
    destruct ok; injection Hs as <-; (split; [intros Hlis; cbn in Hlis; congruence | apply Hsettle; cbn; auto]).
  - injection Hs as <-. split; [done|]. apply Hsettle. by left.
  - injection Hs as <-. split; [intros _ _ Hrec; done | apply Hsettle; by right].
  - (* RecvEvent *) destruct (reached_inv s Hr) as [_ _ _ (_ & _ & Hst)].
    assert (Hmiss : ws_lagged s = false -> rx_missed (ws_rx s) = 0%nat) by (intros Hlag; by destruct (Hst Hlag)).
    unfold try_recv in Hs. destruct (rx_missed (ws_rx s)) as [|m] eqn:Em.
    + destruct (rx_queue (ws_rx s)) as [|ev q] eqn:Eq; [done|]. cbn [with_rx ws_listening] in Hs.
      destruct (ws_listening s) eqn:El; unfold send_or_close in Hs.
      * destruct ok; injection Hs as <-; (split; [|apply Hsettle; cbn; auto]); [|intros _ _ Hrec; done].
        intros _ Hlag _. destruct (Hu El Hlag) as (v & Hv & Hfold); [unfold receiving; by rewrite Hp|]. rewrite Eq in Hfold.
        exists (apply_event v ev). split; [|exact Hfold].
        change (client_view (push_frame s (FEvent ev)) = Some (apply_event v ev)). by rewrite client_view_event, Hv.
      * injection Hs as <-. split; [intros Hlis; cbn in Hlis; congruence | apply Hsettle; by left].
    + injection Hs as <-. split; [|apply Hsettle; by left]. intros _ Hlag. cbn in Hlag. specialize (Hmiss Hlag). done.
  - (* ShutdownChanged *) destruct value as [[]|]; injection Hs as <-; (split; [|apply Hsettle; cbn; auto]); try done; intros _ _ Hrec; done.
Qed.

(** The answer to a command, up to its reply. *)
Lemma reply_up_to_date nodes s cmd before text r doc listening started ok :
  conn_reached s -> ws_phase s = Handling cmd -> ws_requests s = before ++ [text] -> parse_frame text = Ok cmd ->
  length (replies (ws_sent s)) = length before -> up_to_date nodes s ->
  answer_frame cmd (ws_listening s) r = (doc, listening, started) ->
  (cm_command cmd = "start_listening" -> forall v, r = Ok v -> read_nodes v = nodes) ->
  let s' := with_phase (with_listening s listening) (Replying doc started) in
  up_to_date nodes (send_or_close (if started then with_rx s' (drain (ws_rx s')) else s') (FReply doc) ok Idle).
Proof.
  intros Hr Hp Hreq Hparse Hlen Hu Ha Hv s'. unfold send_or_close. destruct ok; [|intros _ _ Hrec; done].
  intros Hlis Hlag _.
  assert (Hfields : listening = true /\ ws_lagged s = false) by (unfold s' in *; destruct started; done).
  destruct Hfields as [-> Hlag'].
  assert (Hmiss : rx_missed (ws_rx s) = 0%nat) by (destruct (reached_inv s Hr) as [_ _ _ (_ & _ & Hst)]; by destruct (Hst Hlag')).
  assert (Hview : client_view (with_phase (push_frame (if started then with_rx s' (drain (ws_rx s')) else s') (FReply doc)) Idle) =
    client_view (push_frame s (FReply doc))) by (unfold s', client_view; by destruct started).
  rewrite Hview, (client_view_reply s before text doc Hreq Hlen). unfold is_start. rewrite Hparse.
  assert (Hrec : receiving s = true) by (unfold receiving; by rewrite Hp).
  assert (Hqueue : rx_queue (ws_rx (if started then with_rx s' (drain (ws_rx s')) else s')) = if started then [] else rx_queue (ws_rx s)).
  { unfold s'. destruct started; cbn [with_rx with_phase with_listening ws_rx]; [by rewrite drain_clean | done]. }
  cbn [with_phase push_frame ws_rx]. rewrite Hqueue. clear Hqueue Hview.
  unfold answer_frame in Ha. destruct (String.eqb_spec (cm_command cmd) "start_listening") as [Hst|Hst].
  - destruct r as [v|e].
    + injection Ha as <- <-. cbn [value_get]. exists (read_nodes v). split; [done|]. rewrite (Hv Hst v eq_refl).
      cbn. destruct (ws_listening s) eqn:El; cbn; [|done]. destruct (Hu El Hlag' Hrec) as (v0 & _ & Hfold).
      rewrite <- Hfold. apply replay_idempotent.
    + injection Ha as <- Hl <-. cbn. by apply Hu.
  - assert (Hsame : ws_listening s = true /\ started = false) by (destruct r; by injection Ha as <- <- <-).
    destruct Hsame as [El ->]. destruct (Hu El Hlag' Hrec) as (v0 & Hv0 & Hfold). exists v0. split; [|done].
    by destruct (value_get doc "result").
Qed.
End up_to_date.

(** ** Serial schedules *)

Section serial.
Context {S L : Type} `{SerdeJson} `{NodeDate} `{Processes} `{!Stack S} `{!LogLevels L} (c : Ctrl).
Abbreviation Server := (@Server S L).

(** The handler's operations, all of them. *)
Definition run_whole (id : ConnId) (sv : Server) : Server :=
  match sv_tasks sv !! id with
  | Some p => let '(r, w) := run_ctrl p (sv_world sv) in set_tasks (<[id := Ret r]> (sv_tasks sv)) (advance w sv)
  | None => sv
  end.

Definition is_replying (sv : Server) (id : ConnId) : bool :=
  match sv_conns sv !! id with Some s => match ws_phase s with Replying _ _ => true | _ => false end | None => false end.

(** From the frame to its reply; a handler that panics closes the connection
    instead. *)
Definition reply (id : ConnId) (ok : bool) (sv : Server) : option Server :=
  if is_replying sv id then conn_step id (Flush ok) sv else Some sv.

Definition serve (id : ConnId) (text : string) (ok : bool) (sv : Server) : option Server :=
  match text_frame c id text sv with
  | None => None
  | Some sv =>
      match sv_tasks sv !! id with
      | None => reply id ok sv
      | Some _ => match respond id (run_whole id sv) with Some sv => reply id ok sv | None => None end
      end
  end.

Inductive SerialStep : Type :=
| SServe (id : ConnId) (text : string) (ok : bool)
| SOther (l : SvStep).                  (* a step that is not part of serving a frame *)

Definition between (l : SvStep) : bool :=
  match l with TextFrame _ _ | Operate _ | Respond _ | SendReply _ _ | TakeStackEvent | TakeExpired | Handle => false | _ => true end.

Definition serial_step (l : SerialStep) (sv : Server) : option Server :=
  match l with
  | SServe id text ok => serve id text ok sv
  | SOther l => if between l then server_step c l sv else None
  end.

Fixpoint serial_run (ls : list SerialStep) (sv : Server) : option Server :=
  match ls with
  | [] => Some sv
  | l :: ls => match serial_step l sv with Some sv => serial_run ls sv | None => None end
  end.

(** ** A serial schedule is a schedule *)

Lemma disciplined_enabled {B} (op : COp S L B) h (w : World S L) : op_ok op h -> w_held w = h -> enabled op w = true.
Proof.
  intros Hop Hw. destruct op as [X f|l|l|X op|argv]; simpl in *; try done.
  apply negb_true_iff, bool_decide_eq_false. rewrite Hw. intros Hl%Hop. lia.
Qed.

Lemma task_step_do {B} (op : COp S L B) k (w : World S L) :
  enabled op w = true -> task_step (Do op k : Prog (COp S L) CommandResult) w = Some (k (ctrl_step B op w).1, (ctrl_step B op w).2).
Proof. intros He. simpl. rewrite He. by destruct (ctrl_step B op w). Qed.

Lemma polite_run id (p : Prog (COp S L) CommandResult) w : polite id p -> extends (w_shared w) (w_shared (run_ctrl p w).2).
Proof.
  intros Hp. revert w. induction Hp as [a|B op k Hop Hk IH]; intros w; [by apply stream_refl|]. unfold run_ctrl in *. cbn [run].
  destruct (ctrl_step B op w) as [b w1] eqn:E. eapply stream_trans; [|apply IH].
  destruct op as [X f|l|l|X op|argv]; simpl in *.
  - specialize (Hop w). rewrite E in Hop. apply Hop.
  - injection E as _ <-. by apply stream_refl.
  - injection E as _ <-. by apply stream_refl.
  - destruct (stack_call X op (w_stack w)). injection E as _ <-. by apply stream_refl.
  - injection E as _ <-. by apply stream_refl.
Qed.

Lemma run_whole_is_operating id p h (sv : Server) :
  sv_tasks sv !! id = Some p -> disciplined h [] p -> w_held (sv_world sv) = h -> polite id p ->
  exists n, server_run c (replicate n (Operate id)) sv = Some (run_whole id sv).
Proof.
  unfold run_whole. revert h sv. induction p as [r|B op k IH]; intros h sv Ht Hd Hh Hp.
  - exists 0%nat. rewrite Ht. cbn. f_equal. destruct sv as [w tm se ex hd bt cs inf ts nx stp]. unfold advance, set_conns, set_world, set_tasks, sv_events. cbn in *.
    rewrite drop_all, insert_id by done. f_equal. unfold publish_all. cbn. symmetry. rewrite <- (map_fmap_id cs) at 2. by apply map_fmap_ext.
  - destruct Hd as [Hop Hk]. pose proof (disciplined_enabled op h (sv_world sv) Hop Hh) as Hen.
    pose proof (task_step_do op k (sv_world sv) Hen) as Hts. rewrite Ht.
    destruct (polite_task_step id _ _ _ _ Hp Hts) as [Hp' [Hext _]].
    pose proof (disciplined_run h (held_after op h) (Do op Ret) (sv_world sv) (conj Hop (fun _ => eq_refl)) Hh) as Hheld.
    unfold run_ctrl in *. cbn [run] in *. destruct (ctrl_step B op (sv_world sv)) as [b w1] eqn:Es. cbn [fst snd] in *.
    set (sv1 := set_tasks (<[id := k b]> (sv_tasks sv)) (advance w1 sv)).
    destruct (IH b (held_after op h) sv1) as [n Hn]; [by apply lookup_insert_eq | by apply Hk | done | done |].
    exists (Datatypes.S n). cbn [replicate server_run server_step]. unfold operate. rewrite Ht, Hts. fold sv1. rewrite Hn.
    unfold sv1 at 1 2. cbn [set_tasks sv_tasks]. rewrite lookup_insert_eq. cbn [sv_world set_tasks advance set_conns set_world].
    pose proof (polite_run id (k b) w1 Hp') as Hext'. unfold run_ctrl in Hext'. destruct (run ctrl_step (k b) w1) as [r w2]. cbn [snd] in Hext'.
    f_equal. unfold sv1. change (sv_tasks (set_tasks ?ts ?x)) with ts. rewrite insert_insert_eq.
    rewrite <- (advance_advance w1 w2 sv Hext Hext'). done.
Qed.

(** ** The invariant between commands *)

Record SerialInv (sv : Server) : Prop := {
  se_inv : SvInv c None sv;
  se_wf : registry_wf (w_registry (sv_world sv));
  se_held : w_held (sv_world sv) = [];
  se_tasks : sv_tasks sv = ∅;
  se_conns : forall id s, sv_conns sv !! id = Some s -> settled s /\ up_to_date (served (w_registry (sv_world sv))) s;
}.

Lemma registry_of (w w' : World S L) : w_shared w = w_shared w' -> w_registry w = w_registry w'.
Proof. unfold w_registry. by intros ->. Qed.

(** A step of a connection between commands. *)
Lemma serial_plain id l (sv sv' : Server) :
  plain l -> (forall ok, l <> Flush ok) -> SerialInv sv -> conn_step id l sv = Some sv' -> SerialInv sv'.
Proof.
  intros Hl Hf [Hi Hw Hh Ht Hc] Hs. pose proof (plain_step_inv c id l sv sv' Hl Hi Hs) as Hi'.
  apply conn_step_effect in Hs as (s & s' & w & Hid & Hstep & Hsh & Hheld & ->).
  split; cbn; [done | by rewrite (registry_of _ _ Hsh) | by rewrite Hheld | |].
  - rewrite Ht. by destruct (is_closed s'); rewrite ?delete_empty.
  - rewrite (registry_of _ _ Hsh). intros i s0. destruct (decide (i = id)) as [->|Hne].
    + rewrite lookup_insert_eq. intros [= <-]. destruct (Hc id s Hid) as [Hse Hu].
      destruct (plain_up_to_date _ l s s' Hl Hf (proj1 (iv_conns _ _ _ Hi id s Hid)) Hu Hse Hstep). by split.
    + rewrite lookup_insert_ne by done. apply Hc.
Qed.

Lemma settled_publish evs s : settled s -> settled (publish_all evs s).
Proof.
  destruct (publish_all_fields evs s) as (El & Es & Er). unfold settled. rewrite publish_all_phase, El, Es, Er. done.
Qed.

(** The world moves on in a way that keeps the clients right. *)
Lemma up_to_date_advance w (sv : Server) :
  registry_wf (w_registry (sv_world sv)) -> mirrors (w_shared (sv_world sv)) (w_shared w) ->
  extends (w_shared (sv_world sv)) (w_shared w) /\ registry_wf (w_registry w) /\
  forall id s', sv_conns (advance w sv) !! id = Some s' ->
    exists s, sv_conns sv !! id = Some s /\ ws_phase s' = ws_phase s /\ ws_listening s' = ws_listening s /\
      ws_sent s' = ws_sent s /\ ws_requests s' = ws_requests s /\ (settled s -> settled s') /\
      (conn_reached s -> conn_reached s') /\
      (up_to_date (served (w_registry (sv_world sv))) s -> up_to_date (served (w_registry w)) s').
Proof.
  intros Hw Hm. destruct (Hm Hw) as (Hw' & evs & Hev & Hfold). split; [by exists evs|]. split; [done|]. intros id s'.
  unfold advance. cbn [sv_conns set_conns set_world]. unfold sv_events. rewrite Hev, drop_app_length, lookup_fmap.
  intros (s & Hs & ->)%fmap_Some. exists s. split; [done|]. split; [apply publish_all_phase|].
  destruct (publish_all_fields evs s) as (El & Es & Er). split; [done|]. split; [done|]. split; [done|]. split; [apply settled_publish|].
  split; [apply publish_all_reached|]. intros Hu. change (w_registry w) with (sh_registry (w_shared w)). rewrite <- Hfold.
  by apply up_to_date_publish.
Qed.

Lemma serial_manage l (sv sv' : Server) : SerialInv sv -> manage c l sv = Some sv' -> SerialInv sv'.
Proof.
  intros [Hi Hw Hh Ht Hc] Hs. pose proof (manage_inv c l sv sv' Hi Hs) as Hi'.
  apply manage_effect in Hs as (m & Hm & ->). apply mirrors_manager_step in Hm. cbn in Hm.
  destruct (up_to_date_advance (with_shared (mg_shared m) (sv_world sv)) sv Hw Hm) as (_ & Hw' & Hconns).
  split; [done | done | done | done |]. intros id s' Hs'. destruct (Hconns id s' Hs') as (s & Hs & _ & _ & _ & _ & Hse & _ & Hu).
  destruct (Hc id s Hs) as [Hse0 Hu0]. split; [by apply Hse | by apply Hu].
Qed.

Lemma serial_boot (sv sv' : Server) : SerialInv sv -> boot sv = Some sv' -> SerialInv sv'.
Proof.
  intros [Hi Hw Hh Ht Hc] Hs. pose proof (boot_inv c sv sv' Hi Hs) as Hi'.
  apply (boot_effect c) in Hs as (st & p & _ & _ & ->); [|done]. rewrite advance_silent in * by done. by split.
Qed.

Lemma serial_accept (sv : Server) : SerialInv sv -> SerialInv (accept c sv).
Proof.
  intros [Hi Hw Hh Ht Hc]. pose proof (accept_inv c sv Hi) as Hi'. split; try done.
  intros id s. unfold accept. cbn. destruct (decide (id = sv_next sv)) as [->|Hne].
  - rewrite lookup_insert_eq. intros [= <-]. split; [done|]. intros Hlis. done.
  - rewrite lookup_insert_ne by done. apply Hc.
Qed.

(** ** Serving a frame *)

(** The state after the frame has been received. *)
Lemma text_frame_effect id text (sv sv1 : Server) :
  text_frame c id text sv = Some sv1 ->
  exists s, sv_conns sv !! id = Some s /\ ws_phase s = Idle /\
    w_shared (sv_world sv1) = w_shared (sv_world sv) /\ w_held (sv_world sv1) = w_held (sv_world sv) /\
    match parse_frame text with
    | Ok cmd => sv_conns sv1 = <[id := with_phase (with_request s text) (Handling cmd)]> (sv_conns sv) /\
                sv_tasks sv1 = <[id := handle_command c id cmd]> (sv_tasks sv)
    | Err e => sv_conns sv1 = <[id := with_phase (with_request s text) (Replying (bad_frame e) false)]> (sv_conns sv) /\
               sv_tasks sv1 = sv_tasks sv
    end.
Proof.
  unfold text_frame. destruct (conn_step id (Inbound text) sv) as [sv0|] eqn:Hs; [|done].
  apply conn_step_effect in Hs as (s & s' & w & Hid & Hstep & Hsh & Hheld & ->). intros Heq. exists s. split; [done|].
  unfold ws_step in Hstep. destruct (ws_phase s) eqn:Hp; try done. injection Hstep as <-. split; [done|].
  destruct (parse_frame text) as [cmd|e]; injection Heq as <-; cbn; by repeat split.
Qed.

(** Serving a frame is a schedule. *)
Lemma serve_is_run id text ok (sv sv' : Server) :
  SerialInv sv -> serve id text ok sv = Some sv' -> exists ls, server_run c ls sv = Some sv'.
Proof.
  intros [Hi Hw Hh Ht Hc]. unfold serve. destruct (text_frame c id text sv) as [sv1|] eqn:Htf; [|done].
  assert (Hr1 : server_run c [TextFrame id text] sv = Some sv1) by (cbn [server_run server_step]; by rewrite Htf).
  assert (Hreply : forall sv3, reply id ok sv3 = Some sv' -> exists ls, server_run c ls sv3 = Some sv').
  { intros sv3. unfold reply. destruct (is_replying sv3 id); [|intros [= ->]; by exists []].
    intros Hf. exists [SendReply id ok]. cbn [server_run server_step]. by rewrite Hf. }
  pose proof (text_frame_effect id text sv sv1 Htf) as (s & Hid & Hp & Hsh & Hheld & Heff).
  destruct (sv_tasks sv1 !! id) as [p|] eqn:Etask.
  - destruct (respond id (run_whole id sv1)) as [sv3|] eqn:Hresp; [|done]. intros (ls & Hls)%Hreply.
    destruct (parse_frame text) as [cmd|e].
    + destruct Heff as [_ Hts]. rewrite Hts, lookup_insert_eq in Etask. injection Etask as <-.
      destruct (run_whole_is_operating id (handle_command c id cmd) [] sv1) as [n Hn].
      * by rewrite Hts, lookup_insert_eq.
      * apply keeps_handle_command.
      * by rewrite Hheld.
      * apply polite_handle_command.
      * exists ([TextFrame id text] ++ replicate n (Operate id) ++ [Respond id] ++ ls).
        apply (server_run_app c _ _ _ _ _ Hr1). apply (server_run_app c _ _ _ _ _ Hn).
        apply (server_run_app c _ _ _ sv3); [cbn [server_run server_step]; by rewrite Hresp | done].
    + destruct Heff as [_ Hts]. by rewrite Hts, Ht, lookup_empty in Etask.
  - intros (ls & Hls)%Hreply. exists ([TextFrame id text] ++ ls). by apply (server_run_app c _ _ _ _ _ Hr1).
Qed.

(** The reply to a command, and nobody else moves. *)
Lemma reply_serial id text cmd before r s nodes ok (sv sv3 sv' : Server) :
  sv_tasks sv = {[id := Ret r]} -> sv_conns sv !! id = Some s -> ws_phase s = Handling cmd ->
  ws_requests s = before ++ [text] -> parse_frame text = Ok cmd -> length (replies (ws_sent s)) = length before ->
  conn_reached s -> nodes = served (w_registry (sv_world sv)) -> up_to_date nodes s ->
  (cm_command cmd = "start_listening" -> forall v, r = Ok v -> read_nodes v = nodes) ->
  respond id sv = Some sv3 -> reply id ok sv3 = Some sv' ->
  exists s' w, w_shared w = w_shared (sv_world sv) /\ w_held w = w_held (sv_world sv) /\
    sv_world sv' = w /\ sv_tasks sv' = ∅ /\ sv_conns sv' = <[id := s']> (sv_conns sv) /\ up_to_date nodes s' /\
    (ws_phase s' = Idle \/ ws_phase s' = Closed).
Proof.
  intros Hts Hid Hp Hreq Hparse Hlen Hr -> Hu Hv Hresp Hrep. unfold respond in Hresp. rewrite Hts, lookup_singleton_eq in Hresp.
  apply conn_step_effect in Hresp as (s0 & s1 & w1 & Hid0 & Hstep & Hsh & Hheld & ->). cbn in Hid0, Hsh, Hheld.
  rewrite Hid in Hid0. injection Hid0 as <-. unfold ws_step in Hstep. rewrite Hp in Hstep.
  assert (Hdel : (delete id {[id := Ret r]} : gmap ConnId (Prog (COp S L) CommandResult)) = ∅) by apply delete_singleton_eq.
  assert (Hpanic : Some (close s) = Some s1 -> exists s' w, w_shared w = w_shared (sv_world sv) /\ w_held w = w_held (sv_world sv) /\
    sv_world sv' = w /\ sv_tasks sv' = ∅ /\ sv_conns sv' = <[id := s']> (sv_conns sv) /\ up_to_date (served (w_registry (sv_world sv))) s' /\
    (ws_phase s' = Idle \/ ws_phase s' = Closed)).
  { intros [= <-]. unfold reply, is_replying in Hrep. cbn in Hrep. rewrite lookup_insert_eq in Hrep. cbn in Hrep. injection Hrep as <-.
    exists (close s), w1. cbn. split; [done|]. split; [done|]. split; [done|]. split; [by rewrite Hdel, delete_empty|].
    split; [done|]. split; [intros _ _ Hrec; done | by right]. }
  assert (Hanswer : forall a : Result Value CommandError, (forall v, a = Ok v -> r = Ok v) -> ws_step CAPACITY (Answer a) s = Some s1 ->
    exists s' w, w_shared w = w_shared (sv_world sv) /\ w_held w = w_held (sv_world sv) /\
    sv_world sv' = w /\ sv_tasks sv' = ∅ /\ sv_conns sv' = <[id := s']> (sv_conns sv) /\ up_to_date (served (w_registry (sv_world sv))) s' /\
    (ws_phase s' = Idle \/ ws_phase s' = Closed)).
  { intros a Har Ha. unfold ws_step in Ha. rewrite Hp in Ha. destruct (answer_frame cmd (ws_listening s) a) as [[doc li] started] eqn:Ea.
    injection Ha as <-. unfold reply, is_replying in Hrep. cbn in Hrep. rewrite lookup_insert_eq in Hrep. cbn in Hrep.
    apply conn_step_effect in Hrep as (s2 & s3 & w2 & Hid2 & Hstep2 & Hsh2 & Hheld2 & ->). cbn in Hid2. rewrite lookup_insert_eq in Hid2.
    injection Hid2 as <-. exists s3, w2. cbn in Hsh2, Hheld2. split; [congruence|]. split; [congruence|]. split; [done|].
    split; [cbn; rewrite Hdel; by destruct (is_closed s3); rewrite ?delete_empty|].
    split; [cbn; by rewrite insert_insert_eq|]. unfold ws_step in Hstep2. cbn [ws_phase with_phase with_listening] in Hstep2.
    injection Hstep2 as <-. split; [|unfold send_or_close; destruct ok; cbn; auto].
    apply (reply_up_to_date _ s cmd before text a doc li started ok); try done. intros Hst v Hav. by apply (Hv Hst v), Har. }
  destruct r as [v|[e|]]; cbn [answer_step] in Hstep.
  - apply (Hanswer (Ok v)); [by intros ? [= ->] | unfold ws_step; by rewrite Hp].
  - apply (Hanswer (Err e)); [done | unfold ws_step; by rewrite Hp].
  - by apply Hpanic.
Qed.

(** The reply to [start_listening] tells what is served. *)
Lemma run_start_listening id mid args (w : World S L) r w' :
  registry_wf (w_registry w) ->
  run_ctrl (handle_command c id {| cm_message_id := mid; cm_command := "start_listening"; cm_args := args |}) w = (r, w') ->
  forall v, r = Ok v -> read_nodes v = served (w_registry w').
Proof. intros Hw [= <- <-] v [= <-]. by apply read_all_nodes. Qed.

Lemma settle_all (id : ConnId) (s' : Conn) (nodes : View) (conns : gmap ConnId Conn) :
  (forall i s, conns !! i = Some s -> i <> id -> settled s /\ up_to_date nodes s) -> settled s' -> up_to_date nodes s' ->
  forall i s, <[id := s']> conns !! i = Some s -> settled s /\ up_to_date nodes s.
Proof.
  intros Hc Hse Hu i s. destruct (decide (i = id)) as [->|Hne]; [rewrite lookup_insert_eq; by intros [= <-]|].
  rewrite lookup_insert_ne by done. intros Hs. by apply (Hc i s).
Qed.

(** A frame that is no command. *)
Lemma serve_bad id text e ok s (w : World S L) (sv1 sv' : Server) conns :
  parse_frame text = Err e -> conn_reached s -> ws_phase s = Idle -> up_to_date (served (w_registry w)) s ->
  w_shared (sv_world sv1) = w_shared w ->
  sv_conns sv1 = <[id := with_phase (with_request s text) (Replying (bad_frame e) false)]> conns -> sv_tasks sv1 = ∅ ->
  reply id ok sv1 = Some sv' ->
  exists s', w_shared (sv_world sv') = w_shared w /\ w_held (sv_world sv') = w_held (sv_world sv1) /\ sv_tasks sv' = ∅ /\
    sv_conns sv' = <[id := s']> conns /\ up_to_date (served (w_registry w)) s' /\ (ws_phase s' = Idle \/ ws_phase s' = Closed).
Proof.
  intros Hparse Hr Hp Hu Hsh Hcs Hts Hrep. unfold reply, is_replying in Hrep. rewrite Hcs, lookup_insert_eq in Hrep. cbn in Hrep.
  apply conn_step_effect in Hrep as (s1 & s2 & w2 & Hid & Hstep & Hsh2 & Hheld2 & ->). rewrite Hcs, lookup_insert_eq in Hid. injection Hid as <-.
  unfold ws_step in Hstep. cbn [ws_phase with_phase] in Hstep. injection Hstep as <-.
  eexists. cbn [sv_world set_tasks set_world sv_tasks sv_conns set_conns]. split; [by rewrite Hsh2|]. split; [done|].
  split; [rewrite Hts; by destruct (is_closed _); rewrite ?delete_empty|]. split; [by rewrite Hcs, insert_insert_eq|].
  unfold send_or_close. destruct ok; [|split; [intros _ _ Hrec; done | by right]]. split; [|by left].
  intros Hlis Hlag _. destruct (Hu Hlis Hlag) as (v & Hv & Hf); [unfold receiving; by rewrite Hp|]. exists v. split; [|done].
  rewrite <- Hv. etransitivity.
  - apply (client_view_reply (with_request s text) (ws_requests s) text (bad_frame e)); [done | exact (idle_answered s Hr Hp)].
  - apply (client_view_request s text). exact (idle_answered s Hr Hp).
Qed.

Lemma phase_settled s : conn_reached s -> ws_phase s = Idle \/ ws_phase s = Closed -> settled s.
Proof. intros Hr [E|E]; unfold settled; rewrite E; [by apply idle_answered | done]. Qed.

Lemma serial_serve id text ok (sv sv' : Server) : SerialInv sv -> serve id text ok sv = Some sv' -> SerialInv sv'.
Proof.
  intros Hse Hs. destruct (serve_is_run id text ok sv sv' Hse Hs) as [ls Hls].
  pose proof Hse as [Hi Hw Hh Ht Hc]. pose proof (server_run_inv c ls sv sv' Hi Hls) as Hi'.
  unfold serve in Hs. destruct (text_frame c id text sv) as [sv1|] eqn:Htf; [|done].
  pose proof (text_frame_effect id text sv sv1 Htf) as (s & Hid & Hp & Hsh & Hheld & Heff).
  destruct (Hc id s Hid) as [_ Hu]. pose proof (proj1 (iv_conns _ _ _ Hi id s Hid)) as Hr.
  destruct (parse_frame text) as [cmd|e] eqn:Hparse; destruct Heff as [Hcs Hts].
  - rewrite Hts, lookup_insert_eq in Hs. destruct (respond id (run_whole id sv1)) as [sv3|] eqn:Hresp; [|done].
    set (s1 := with_phase (with_request s text) (Handling cmd)) in *.
    unfold run_whole in Hresp. rewrite Hts, lookup_insert_eq in Hresp.
    pose proof (tracks_handle_command c id cmd (sv_world sv1)) as Hm.
    pose proof (disciplined_run [] [] (handle_command c id cmd) (sv_world sv1) (keeps_handle_command c id cmd)
      (eq_trans Hheld Hh)) as Hh1.
    destruct (run_ctrl (handle_command c id cmd) (sv_world sv1)) as [r w1] eqn:Erun. cbn [snd] in Hm, Hh1.
    assert (Hw1 : registry_wf (w_registry (sv_world sv1))) by by rewrite (registry_of _ _ Hsh).
    destruct (up_to_date_advance w1 sv1 Hw1 Hm) as (_ & Hw2 & Hconns).
    set (sv2 := set_tasks _ (advance w1 sv1)) in Hresp.
    destruct (sv_conns sv2 !! id) as [s2|] eqn:Hid2; [|unfold respond, conn_step, sv2 in Hresp; unfold sv2 in Hid2;
      cbn [sv_tasks sv_conns set_tasks] in Hresp, Hid2; by rewrite lookup_insert_eq, Hid2 in Hresp].
    destruct (Hconns id s2 Hid2) as (s1' & Hid1 & Hp2 & _ & Hsent2 & Hreq2 & _ & Hreach2 & Hu2).
    rewrite Hcs, lookup_insert_eq in Hid1. injection Hid1 as <-.
    assert (Hr1 : conn_reached s1) by (apply (conn_reached_step (Inbound text) s); [done | unfold ws_step; by rewrite Hp, Hparse]).
    assert (Hu1 : up_to_date (served (w_registry (sv_world sv1))) s1).
    { rewrite (registry_of _ _ Hsh). intros Hlis Hlag _. destruct (Hu Hlis Hlag) as (v & Hv & Hf); [unfold receiving; by rewrite Hp|].
      exists v. split; [|done]. rewrite <- Hv. apply (client_view_request s text). exact (idle_answered s Hr Hp). }
    destruct (reply_serial id text cmd (ws_requests s) r s2 (served (w_registry w1)) ok sv2 sv3 sv')
      as (s' & w & Hsh' & Hh' & <- & Hts' & Hcs' & Hu' & Hph'); try done.
    + unfold sv2. cbn [sv_tasks set_tasks]. by rewrite Ht, insert_insert_eq.
    + rewrite Hsent2. exact (idle_answered s Hr Hp).
    + by apply Hreach2.
    + by apply Hu2.
    + intros Hst. destruct cmd as [mid name args]. cbn in Hst. subst name. by apply (run_start_listening id mid args (sv_world sv1)).
    + unfold sv2 in Hsh', Hh'. cbn in Hsh', Hh'. split; [done | by rewrite (registry_of _ _ Hsh') | by rewrite Hh' | done |].
      rewrite (registry_of _ _ Hsh'), Hcs'. apply settle_all; [| | done].
      * intros i si Hsi Hne. destruct (Hconns i si Hsi) as (s0 & Hs0 & _ & _ & _ & _ & Hset & _ & Hup).
        rewrite Hcs, lookup_insert_ne in Hs0 by done. destruct (Hc i s0 Hs0) as [? ?]. split; [by apply Hset|]. apply Hup.
        by rewrite (registry_of _ _ Hsh).
      * apply phase_settled; [|done]. apply (iv_conns _ _ _ Hi' id). by rewrite Hcs', lookup_insert_eq.
  - assert (Hts1 : sv_tasks sv1 = ∅) by by rewrite Hts. rewrite Hts1, lookup_empty in Hs.
    destruct (serve_bad id text e ok s (sv_world sv) sv1 sv' (sv_conns sv)) as (s' & Hsh' & Hh' & Hts' & Hcs' & Hu' & Hph'); try done.
    split; [done | by rewrite (registry_of _ _ Hsh') | by rewrite Hh', Hheld | done |].
    rewrite (registry_of _ _ Hsh'), Hcs'. apply settle_all; [intros i s0 Hs0 _; by apply (Hc i s0) | | done].
    apply phase_settled; [|done]. apply (iv_conns _ _ _ Hi' id). by rewrite Hcs', lookup_insert_eq.
Qed.

Lemma serial_step_inv l (sv sv' : Server) :
  SerialInv sv -> serial_step l sv = Some sv' -> SerialInv sv' /\ exists ls, server_run c ls sv = Some sv'.
Proof.
  intros Hse. destruct l as [id text ok|l]; cbn [serial_step].
  - intros Hs. split; [by apply (serial_serve id text ok sv) | by apply (serve_is_run id text ok)].
  - destruct (between l) eqn:Hb; [|done]. intros Hs. split; [|exists [l]; cbn [server_run]; by rewrite Hs].
    destruct l as [|id ok|id text|id|id|id|id|id ok|id ok| |id|l| | | |]; try done; cbn [server_step] in Hs.
    + injection Hs as <-. by apply serial_accept.
    + destruct (sv_infos sv !! id) as [info|]; [|done]. by apply (serial_plain id (Connect info ok) sv).
    + by apply (serial_plain id InboundOther sv).
    + by apply (serial_plain id InboundEnd sv).
    + by apply (serial_plain id (Ws.RecvEvent ok) sv).
    + injection Hs as <-. destruct Hse as [Hi Hw Hh Ht Hc]. split; try done. apply (sv_same c _ sv); [done..|apply (iv_handler _ _ _ Hi) | apply (iv_boot _ _ _ Hi) | done].
    + destruct (sv_stopping sv); [|done]. by apply (serial_plain id (ShutdownChanged (Some true)) sv).
    + by apply (serial_manage l sv).
    + by apply (serial_boot sv).
Qed.

Lemma serial_run_inv ls (sv sv' : Server) :
  SerialInv sv -> serial_run ls sv = Some sv' -> SerialInv sv' /\ exists steps, server_run c steps sv = Some sv'.
Proof.
  revert sv. induction ls as [|l ls IH]; intros sv Hse; cbn [serial_run]; [intros [= <-]; split; [done | by exists []]|].
  destruct (serial_step l sv) as [sv1|] eqn:E; [|done]. intros Hr. destruct (serial_step_inv l sv sv1 Hse E) as [Hse1 [a Ha]].
  destruct (IH sv1 Hse1 Hr) as [Hse' [b Hb]]. split; [done|]. exists (a ++ b). by apply (server_run_app c _ _ _ sv1).
Qed.

Lemma start_serial fs now log st : SerialInv (start c fs now log st).
Proof.
  split; [apply started_inv | | | done | done]; cbn; unfold new; destruct (run_io (load_nodes (c_storage c)) fs) as [records fs1];
    destruct (run_io (load_config (c_storage c)) fs1) as [config fs2]; [apply registry_wf_new | done].
Qed.

(** C2: a listening client has the server's nodes, as long as one thing is done
    after the other.  Assume that each frame is handled from its receipt to its
    reply, and each stack event and each expiry of a grace period to its end, with
    no other task in between; frames of any number of connections, stack events,
    expiries, connects, disconnects and the sending of events may follow each
    other in any order.  Then a client that asked to listen and never fell behind
    by more than the channel holds has, once it has received the messages queued
    for it, exactly the nodes the server serves: the same nodes, with the same
    dates, availability and attributes.  It may ask again, and read or change
    anything else, at any time.  The assumption is needed: with a report handled
    in the middle of a frame the client can end with a stale value
    ([Mirror.interview_overwrites_report], [Ws.start_listening_loses_event]). *)
Theorem listeners_are_up_to_date fs now log st ls (sv : Server) (id : ConnId) (s : Conn) :
  serial_run ls (start c fs now log st) = Some sv -> sv_conns sv !! id = Some s ->
  ws_listening s = true -> ws_lagged s = false -> receiving s = true ->
  exists v, client_view s = Some v /\ fold_left apply_event (rx_queue (ws_rx s)) v = served (w_registry (sv_world sv)).
Proof.
  intros Hr Hs. destruct (serial_run_inv ls _ sv (start_serial fs now log st) Hr) as [Hse _].
  apply (se_conns sv Hse id s Hs).
Qed.

(** Serving one frame after the other is one of the ways the server runs. *)
Theorem serial_runs_are_runs fs now log st ls (sv : Server) :
  serial_run ls (start c fs now log st) = Some sv ->
  exists steps, server_run c steps (start c fs now log st) = Some sv /\ sv_tasks sv = ∅ /\ w_held (sv_world sv) = [].
Proof.
  intros Hr. destruct (serial_run_inv ls _ sv (start_serial fs now log st) Hr) as [Hse [steps Hsteps]].
  exists steps. split; [done|]. split; [apply (se_tasks sv Hse) | apply (se_held sv Hse)].
Qed.
End serial.

(** ** A client, a new node and a report *)

Section demo.
#[local] Existing Instances DemoRequests demo_processes demo_date.

Definition listen_steps : list SerialStep :=
  [SOther Accept; SOther (Opened 1 true); SServe 1 start_text true; SServe 1 commission_text true;
   SOther (Manage (Push (AttributesChanged 1 [("1/6/0", VBool true)]))); SOther (Manage NodeManager.RecvEvent);
   SOther (TakeEvent 1 true)].

(** node_added has been received, attribute_updated is queued. *)
Lemma listeners_are_up_to_date_witness :
  exists sv s v, serial_run demo_ctrl listen_steps demo_start = Some sv /\ sv_conns sv !! 1 = Some s /\
    em_event <$> rx_queue (ws_rx s) = ["attribute_updated"] /\
    (served (w_registry (sv_world sv)) !! 1) ≫= (fun n => nv_attributes n !! "1/6/0") = Some (VBool true) /\
    client_view s = Some v /\ fold_left apply_event (rx_queue (ws_rx s)) v = served (w_registry (sv_world sv)).
Proof.
  assert (E : (fun sv => ((fun s => (ws_listening s, ws_lagged s, receiving s, em_event <$> rx_queue (ws_rx s))) <$> sv_conns sv !! 1,
      (served (w_registry (sv_world sv)) !! 1) ≫= (fun n => nv_attributes n !! "1/6/0")))
    <$> serial_run demo_ctrl listen_steps demo_start =
    Some (Some (true, false, true, ["attribute_updated"]), Some (VBool true))) by by vm_compute.
  apply fmap_Some in E as (sv & Hr & E). injection E as Ec Ev. apply eq_sym, fmap_Some in Ec as (s & Hs & Ec).
  injection Ec as El Eg Er Eq.
  destruct (listeners_are_up_to_date demo_ctrl demo_fs 0 ("info", None) demo_stack listen_steps sv 1 s Hr Hs
    (eq_sym El) (eq_sym Eg) (eq_sym Er)) as (v & Hv & Hf).
  exists sv, s, v. split; [exact Hr|]. split; [exact Hs|]. split; [by symmetry|]. split; [by symmetry|]. split; [exact Hv | exact Hf].
Defined.
End demo.
