(* ===== verification/Closing.v ===== *)
(** * The server can always stop

    [main] announces the shutdown on a watch channel; every connection sees it
    when it is between commands, sends [server_shutdown] and returns.  Whatever
    the connections are in the middle of, they can all come to that. *)

From S2P Require Import Prelude Json Wire Prog Fs Storage Registry StackApi NodeManager ManagerOps Controller Commands Dispatch Sched CommandFacts Progress Mirror Ws Server.

Section closing.
Context {S L : Type} `{SerdeJson} `{NodeDate} `{Processes} `{!Stack S} `{!LogLevels L} (c : Ctrl).
Abbreviation Server := (@Server S L).

(** From [sv] to [sv'], the connection came to its end and nothing happened to
    the others. *)
Definition ends (id : ConnId) (sv sv' : Server) : Prop :=
  (exists s s', sv_conns sv !! id = Some s /\ sv_conns sv' = <[id := s']> (sv_conns sv) /\ ws_phase s' = Closed /\
     ((forall cmd, ws_phase s <> Handling cmd) -> is_closed s = false -> last (ws_sent s') = Some FShutdown)) /\
  sv_tasks sv' = delete id (sv_tasks sv) /\ sv_stopping sv' = sv_stopping sv.

Lemma conn_step_intro id l s s' (sv : Server) :
  sv_conns sv !! id = Some s -> ws_step CAPACITY l s = Some s' ->
  exists sv', conn_step id l sv = Some sv' /\ sv_conns sv' = <[id := s']> (sv_conns sv) /\
    sv_tasks sv' = (if is_closed s' then delete id (sv_tasks sv) else sv_tasks sv) /\ sv_stopping sv' = sv_stopping sv.
Proof.
  intros Hid Hs. destruct (conn_step id l sv) as [sv'|] eqn:E; [|unfold conn_step in E; by rewrite Hid, Hs in E].
  exists sv'. split; [done|]. apply conn_step_effect in E as (s0 & s1 & w & Hid0 & Hs0 & _ & _ & ->). simplify_eq. done.
Qed.

(** A connection between commands. *)
Lemma idle_ends id s (sv : Server) :
  sv_conns sv !! id = Some s -> ws_phase s = Idle -> sv_stopping sv = true ->
  exists ls sv', server_run c ls sv = Some sv' /\ ends id sv sv'.
Proof.
  intros Hid Hp Hst. destruct (conn_step_intro id (ShutdownChanged (Some true)) s (close (push_frame s FShutdown)) sv) as (sv' & Hs & Hc & Ht & Hst');
    [done | unfold ws_step; by rewrite Hp|].
  exists [SeeStop id], sv'. cbn [server_run server_step]. rewrite Hst, Hs. split; [done|]. split; [|by split].
  exists s, (close (push_frame s FShutdown)). split; [done|]. split; [done|]. split; [done|]. intros _ _. cbn. by rewrite last_snoc.
Qed.

(** One more step, then the end. *)
Lemma ends_after id l s s1 (sv sv1 : Server) :
  server_step c l sv = Some sv1 -> sv_conns sv !! id = Some s -> sv_conns sv1 = <[id := s1]> (sv_conns sv) ->
  delete id (sv_tasks sv1) = delete id (sv_tasks sv) -> sv_stopping sv1 = sv_stopping sv ->
  (is_closed s = false -> is_closed s1 = false) ->
  (forall cmd, ws_phase s1 <> Handling cmd) ->
  (exists ls sv', server_run c ls sv1 = Some sv' /\ ends id sv1 sv') -> exists ls sv', server_run c ls sv = Some sv' /\ ends id sv sv'.
Proof.
  intros Hl Hid Hc Ht Hst Hcl Hnh (ls & sv' & Hr & (s0 & s' & Hid1 & Hc' & Hp & Hlast) & Ht' & Hst').
  exists (l :: ls), sv'. cbn [server_run]. rewrite Hl. split; [done|]. rewrite Hc, lookup_insert_eq in Hid1. injection Hid1 as <-.
  split; [|split; [by rewrite Ht', Ht | by rewrite Hst', Hst]].
  exists s, s'. split; [done|]. split; [by rewrite Hc', Hc, insert_insert_eq|]. split; [done|]. intros _ Hopen. apply Hlast; [done | by apply Hcl].
Qed.

Lemma replying_ends id s doc started (sv : Server) :
  sv_conns sv !! id = Some s -> ws_phase s = Replying doc started -> sv_stopping sv = true ->
  exists ls sv', server_run c ls sv = Some sv' /\ ends id sv sv'.
Proof.
  intros Hid Hp Hst.
  destruct (conn_step_intro id (Flush true) s (with_phase (push_frame (if started then with_rx s (drain (ws_rx s)) else s) (FReply doc)) Idle) sv)
    as (sv1 & Hs & Hc & Ht & Hst'); [done | unfold ws_step; by rewrite Hp|].
  refine (ends_after id (SendReply id true) s _ sv sv1 Hs Hid Hc _ Hst' _ _ (idle_ends id _ sv1 _ _ _)); try done.
  - by rewrite Ht.
  - rewrite Hc. apply lookup_insert_eq.
  - done.
  - by rewrite Hst'.
Qed.

Lemma connecting_ends id s (sv : Server) :
  sv_conns sv !! id = Some s -> ws_phase s = Connecting -> is_Some (sv_infos sv !! id) -> sv_stopping sv = true ->
  exists ls sv', server_run c ls sv = Some sv' /\ ends id sv sv'.
Proof.
  intros Hid Hp [info Hi] Hst.
  destruct (conn_step_intro id (Connect info true) s (with_phase (push_frame s (FInfo info)) Idle) sv)
    as (sv1 & Hs & Hc & Ht & Hst'); [done | unfold ws_step; by rewrite Hp|].
  assert (Hl : server_step c (Opened id true) sv = Some sv1) by (cbn [server_step]; by rewrite Hi).
  refine (ends_after id _ s _ sv sv1 Hl Hid Hc _ Hst' _ _ (idle_ends id _ sv1 _ _ _)); try done.
  - by rewrite Ht.
  - rewrite Hc. apply lookup_insert_eq.
  - done.
  - by rewrite Hst'.
Qed.

(** A command whose handler has returned. *)
Lemma handling_ends id s cmd r (sv : Server) :
  sv_conns sv !! id = Some s -> ws_phase s = Handling cmd -> sv_tasks sv !! id = Some (Ret r) -> sv_stopping sv = true ->
  exists ls sv', server_run c ls sv = Some sv' /\ ends id sv sv'.
Proof.
  intros Hid Hp Ht Hst. set (sv0 := set_tasks (delete id (sv_tasks sv)) sv).
  assert (Hstep : exists s1, ws_step CAPACITY (answer_step r) s = Some s1 /\
    (ws_phase s1 = Closed \/ exists doc started, ws_phase s1 = Replying doc started)).
  { unfold ws_step. rewrite Hp. destruct r as [v|[e|]]; cbn [answer_step];
      try (destruct (answer_frame _ _ _) as [[doc li] started]); eexists; (split; [reflexivity|]); [right; by eauto .. | by left]. }
  destruct Hstep as (s1 & Hs1 & Hphase).
  destruct (conn_step_intro id (answer_step r) s s1 sv0) as (sv1 & Hs & Hc & Ht1 & Hst1); [done | done|].
  assert (Hl : server_step c (Respond id) sv = Some sv1) by (cbn [server_step]; unfold respond; by rewrite Ht).
  assert (Htd : sv_tasks sv1 = delete id (sv_tasks sv)).
  { rewrite Ht1. unfold sv0. cbn. by destruct (is_closed s1); rewrite ?delete_delete_eq. }
  assert (Hnot : (forall cmd, ws_phase s <> Handling cmd) -> False) by (intros Hn; by apply (Hn cmd)).
  assert (Hid1 : sv_conns sv1 !! id = Some s1) by (rewrite Hc; apply lookup_insert_eq).
  destruct Hphase as [Hcl|(doc & started & Hrep)].
  - exists [Respond id], sv1. cbn [server_run]. rewrite Hl. split; [done|]. split; [|by split].
    exists s, s1. split; [done|]. split; [done|]. split; [done|]. intros Hn. by destruct (Hnot Hn).
  - destruct (replying_ends id s1 doc started sv1 Hid1 Hrep) as (ls & sv' & Hr & (s0 & s' & Hid0 & Hc' & Hp' & _) & Ht' & Hst'); [by rewrite Hst1|].
    exists (Respond id :: ls), sv'. cbn [server_run]. rewrite Hl. split; [done|].
    split; [|split; [by rewrite Ht', Htd, delete_delete_eq | by rewrite Hst', Hst1]].
    exists s, s'. split; [done|]. split; [rewrite Hc', Hc; apply insert_insert_eq|]. split; [done|]. intros Hn. by destruct (Hnot Hn).
Qed.

(** ** All connections *)

Definition infos_ok (sv : Server) : Prop := forall id, is_Some (sv_conns sv !! id) -> is_Some (sv_infos sv !! id).

Lemma conn_step_keys id l (sv sv' : Server) :
  conn_step id l sv = Some sv' -> sv_infos sv' = sv_infos sv /\ forall i, is_Some (sv_conns sv' !! i) -> is_Some (sv_conns sv !! i).
Proof.
  intros (s & s' & w & Hid & _ & _ & _ & ->)%conn_step_effect. split; [done|]. intros i. cbn. destruct (decide (i = id)) as [->|Hne].
  - by rewrite Hid.
  - by rewrite lookup_insert_ne.
Qed.

Lemma advance_keys w (sv : Server) i : is_Some (sv_conns (advance w sv) !! i) -> is_Some (sv_conns sv !! i).
Proof. unfold advance. cbn. rewrite lookup_fmap. apply fmap_is_Some. Qed.

Lemma infos_step l (sv sv' : Server) : infos_ok sv -> server_step c l sv = Some sv' -> infos_ok sv'.
Proof.
  intros Hi. assert (G : forall id l0 (sv0 : Server), sv_infos sv0 = sv_infos sv -> sv_conns sv0 = sv_conns sv ->
    conn_step id l0 sv0 = Some sv' -> infos_ok sv').
  { intros id l0 sv0 Ei Ec (E & Hk)%conn_step_keys i Hin. rewrite E, Ei. apply Hi. rewrite <- Ec. by apply Hk. }
  destruct l as [|id ok|id text|id|id|id|id|id ok|id ok| |id|l| | | |]; cbn [server_step]; try (by apply G).
  - intros [= <-] i. cbn. destruct (decide (i = sv_next sv)) as [->|Hne]; [rewrite !lookup_insert_eq; by eexists|].
    rewrite !lookup_insert_ne by done. apply Hi.
  - destruct (sv_infos sv !! id); [by apply G | done].
  - unfold text_frame. destruct (conn_step id (Inbound text) sv) as [sv1|] eqn:E; [|done]. apply conn_step_keys in E as [Ei Hk].
    intros [= <-] i Hin. destruct (parse_frame text); cbn in *; rewrite Ei; by apply Hi, Hk.
  - unfold operate. destruct (sv_tasks sv !! id) as [p|]; [|done]. destruct (task_step p (sv_world sv)) as [[p' w]|]; [|done].
    intros [= <-] i Hin. apply Hi. by apply (advance_keys w).
  - unfold respond. destruct (sv_tasks sv !! id) as [[r|]|]; [|done..]. by apply G.
  - intros [= <-]. apply Hi.
  - destruct (sv_stopping sv); [by apply G | done].
  - intros (m & _ & ->)%manage_effect i Hin. apply Hi. exact (advance_keys (with_shared (mg_shared m) (sv_world sv)) sv i Hin).
  - intros Ht. destruct (take_effect c sv sv' (or_introl Ht)) as (events & expired & p & -> & _). exact Hi.
  - intros Ht. destruct (take_effect c sv sv' (or_intror Ht)) as (events & expired & p & -> & _). exact Hi.
  - unfold handle. destruct (sv_handler sv) as [a|B op k]; [done|].
    destruct (mg_step B op (w_shared (sv_world sv), sv_timers sv)) as [b [s tm]]. intros [= <-] i Hin. apply Hi.
    exact (advance_keys (with_shared s (sv_world sv)) sv i Hin).
  - unfold boot. destruct (sv_boot sv) as [a|B op k]; [done|]. destruct (ctrl_step B op (sv_world sv)) as [b w].
    intros [= <-] i Hin. apply Hi. exact (advance_keys w sv i Hin).
Qed.

Lemma infos_run ls (sv sv' : Server) : infos_ok sv -> server_run c ls sv = Some sv' -> infos_ok sv'.
Proof.
  revert sv. induction ls as [|l ls IH]; intros sv Hi; cbn [server_run]; [by intros [= <-]|].
  destruct (server_step c l sv) as [sv1|] eqn:E; [|done]. apply IH. by eapply infos_step.
Qed.

(** Operations of commands leave the connections where they are. *)
Lemma operates_phases ls (sv sv' : Server) :
  SvInv c None sv -> Forall operates ls -> server_run c ls sv = Some sv' ->
  sv_stopping sv' = sv_stopping sv /\
  forall id, ws_phase <$> sv_conns sv' !! id = ws_phase <$> sv_conns sv !! id.
Proof.
  revert sv. induction ls as [|l ls IH]; intros sv Hi Hl; cbn [server_run]; [by intros [= <-]|].
  apply Forall_cons in Hl as [[id ->] Hl]. destruct (server_step c (Operate id) sv) as [sv1|] eqn:E; [|done].
  pose proof (server_step_inv c _ sv sv1 Hi E) as Hi1. intros Hr. destruct (IH sv1 Hi1 Hl Hr) as [-> Hp].
  cbn [server_step] in E. unfold operate in E. destruct (sv_tasks sv !! id) as [p|]; [|done].
  destruct (task_step p (sv_world sv)) as [[p' w]|]; [|done]. injection E as <-. split; [done|]. intros i. rewrite Hp. unfold advance. cbn.
  rewrite lookup_fmap. destruct (sv_conns sv !! i) as [s|]; [|done]. cbn. by rewrite publish_all_phase.
Qed.

(** Any connection, when the handlers have returned. *)
Lemma one_ends id s (sv : Server) :
  SvInv c None sv -> infos_ok sv -> all_returned sv -> sv_stopping sv = true -> sv_conns sv !! id = Some s -> is_closed s = false ->
  exists ls sv', server_run c ls sv = Some sv' /\ ends id sv sv'.
Proof.
  intros Hi Hin Hret Hst Hid Hopen. destruct (ws_phase s) as [| |cmd|doc started|] eqn:Hp.
  - apply (connecting_ends id s); try done. apply Hin. by rewrite Hid.
  - by apply (idle_ends id s).
  - assert (Ht : is_Some (sv_tasks sv !! id)) by (apply (iv_tasks _ _ _ Hi); [done | by exists s, cmd]). destruct Ht as [p Ht].
    destruct (Hret id p Ht) as [r ->]. by apply (handling_ends id s cmd r).
  - by apply (replying_ends id s doc started).
  - unfold is_closed in Hopen. by rewrite Hp in Hopen.
Qed.

(** The connection was told, unless a command of its was still in the works. *)
Definition told (s s' : Conn) : Prop :=
  ws_phase s' = Closed /\ ((forall cmd, ws_phase s <> Handling cmd) -> is_closed s = false -> last (ws_sent s') = Some FShutdown).

Lemma all_end ids (sv : Server) :
  NoDup ids -> SvInv c None sv -> infos_ok sv -> all_returned sv -> sv_stopping sv = true ->
  exists ls sv', server_run c ls sv = Some sv' /\ SvInv c None sv' /\
    (forall id s, id ∈ ids -> sv_conns sv !! id = Some s -> exists s', sv_conns sv' !! id = Some s' /\ told s s') /\
    (forall id, id ∉ ids -> sv_conns sv' !! id = sv_conns sv !! id).
Proof.
  intros Hnd. revert sv. induction Hnd as [|id ids Hnot _ IH]; intros sv Hi Hin Hret Hst.
  { exists [], sv. split; [done|]. split; [done|]. split; [intros id s Hx; by apply elem_of_nil in Hx | done]. }
  assert (Hgo : exists ls sv1, server_run c ls sv = Some sv1 /\ all_returned sv1 /\ sv_stopping sv1 = true /\
    (forall s, sv_conns sv !! id = Some s -> exists s', sv_conns sv1 !! id = Some s' /\ told s s') /\
    (forall i, i <> id -> sv_conns sv1 !! i = sv_conns sv !! i)).
  { destruct (sv_conns sv !! id) as [s|] eqn:Hid; [|by exists [], sv]. destruct (is_closed s) eqn:Hcl.
    - exists [], sv. split; [done|]. split; [done|]. split; [done|]. split; [|done]. intros s0 [= <-]. exists s. split; [done|].
      split; [unfold is_closed in Hcl; by destruct (ws_phase s) | by rewrite Hcl].
    - destruct (one_ends id s sv Hi Hin Hret Hst Hid Hcl) as (ls & sv1 & Hr & (s0 & s' & Hid0 & Hc & Hp & Hlast) & Ht & Hst1).
      rewrite Hid in Hid0. injection Hid0 as <-. exists ls, sv1. split; [done|]. split.
      { intros i p Hip. rewrite Ht in Hip. apply lookup_delete_Some in Hip as [_ Hip]. by apply (Hret i). }
      split; [by rewrite Hst1|]. split; [|intros i Hne; by rewrite Hc, lookup_insert_ne].
      intros s0 [= <-]. exists s'. split; [by rewrite Hc, lookup_insert_eq | done]. }
  destruct Hgo as (ls & sv1 & Hr & Hret1 & Hst1 & Hone & Hothers).
  destruct (IH sv1 (server_run_inv c ls sv sv1 Hi Hr) (infos_run ls sv sv1 Hin Hr) Hret1 Hst1) as (ls' & sv' & Hr' & Hi' & Hall & Hrest).
  exists (ls ++ ls'), sv'. split; [by apply (server_run_app c _ _ _ sv1)|]. split; [done|]. split.
  - intros i s Hin' Hs. apply elem_of_cons in Hin' as [->|Hin'].
    + rewrite Hrest by done. by apply Hone.
    + apply (Hall i s Hin'). rewrite Hothers; [done|]. by intros ->.
  - intros i [Hne Hni]%not_elem_of_cons. rewrite Hrest by done. by apply Hothers.
Qed.

(** C10: the server can always stop.  From every state the running server can
    reach, with clients connecting, in the middle of commands or waiting for
    their replies, there is a way to go on after the shutdown is announced in
    which every connection ends: each one that was not in the middle of a
    command gets [server_shutdown] as its last frame, commands in the works are
    run to their ends first, and then no lock is held and nobody owns the
    label. *)
Theorem server_can_stop fs now log st ls (sv : Server) :
  server_run c ls (start c fs now log st) = Some sv ->
  exists more sv', server_run c (Stop :: more) sv = Some sv' /\
    (forall id s, sv_conns sv !! id = Some s -> exists s', sv_conns sv' !! id = Some s' /\ ws_phase s' = Closed /\
       ((forall cmd, ws_phase s <> Handling cmd) -> is_closed s = false -> last (ws_sent s') = Some FShutdown)) /\
    w_held (sv_world sv') = [] /\ w_label_owner (sv_world sv') = None.
Proof.
  intros Hr. pose proof (server_run_inv c ls _ sv (started_inv c fs now log st) Hr) as Hi.
  assert (Hin : infos_ok sv) by (apply (infos_run ls (start c fs now log st)); [intros i; cbn; rewrite lookup_empty; by intros [] | done]).
  set (sv0 := stop sv). assert (Hi0 : SvInv c None sv0) by (apply (sv_same c _ sv); [done..|apply (iv_handler _ _ _ Hi) | apply (iv_boot _ _ _ Hi) | done]).
  destruct (tasks_return c sv0 Hi0) as (ops & sv1 & Hops & Hr1 & Hret & Hi1 & _).
  destruct (operates_phases ops sv0 sv1 Hi0 Hops Hr1) as [Hst1 Hph].
  assert (Hin0 : infos_ok sv0) by exact Hin. pose proof (infos_run ops sv0 sv1 Hin0 Hr1) as Hin1.
  destruct (all_end (map_to_list (sv_conns sv1)).*1 sv1 (NoDup_fst_map_to_list _) Hi1 Hin1 Hret Hst1) as (more & sv' & Hr' & Hi' & Hall & Hrest).
  assert (Hkeys : forall id s1, sv_conns sv1 !! id = Some s1 -> id ∈ (map_to_list (sv_conns sv1)).*1).
  { intros id s1 Hs1. apply list_elem_of_fmap. exists (id, s1). split; [done | by apply elem_of_map_to_list]. }
  assert (Hclosed : forall id s', sv_conns sv' !! id = Some s' -> ws_phase s' = Closed).
  { intros id s' Hs'. destruct (sv_conns sv1 !! id) as [s1|] eqn:E1.
    - destruct (Hall id s1 (Hkeys id s1 E1) E1) as (s2 & Hs2 & [Hc _]). congruence.
    - rewrite Hrest in Hs'; [congruence|]. intros ([k s1] & -> & Hk%elem_of_map_to_list)%list_elem_of_fmap. cbn in E1. congruence. }
  exists (ops ++ more), sv'. cbn [server_run server_step]. split; [by apply (server_run_app c _ _ _ sv1)|]. split; [|split].
  - intros id s Hs. specialize (Hph id). change (sv_conns sv0) with (sv_conns sv) in Hph. rewrite Hs in Hph. apply fmap_Some in Hph as (s1 & Hs1 & Hp).
    destruct (Hall id s1 (Hkeys id s1 Hs1) Hs1) as (s' & Hs' & Hc & Hlast). exists s'. split; [done|]. split; [done|].
    unfold is_closed. rewrite Hp. intros Hn Hopen. by apply Hlast.
  - destruct (iv_owned _ _ _ Hi') as (hs & Hown & Hh & _). simpl in Hown, Hh.
    assert (Hempty : sv_tasks sv' = ∅).
    { apply map_eq. intros id. rewrite lookup_empty. destruct (sv_tasks sv' !! id) as [p|] eqn:E; [|done].
      destruct (proj2 (iv_tasks _ _ _ Hi' id ltac:(done)) (ex_intro _ p E)) as (s & cmd & Hs & Hc). apply Hclosed in Hs. congruence. }
    rewrite Hempty in Hown. inversion Hown; subst. by apply Permutation_nil_r in Hh.
  - destruct (w_label_owner (sv_world sv')) as [id|] eqn:E; [|done]. destruct (iv_owner _ _ _ Hi' id E) as (s & Hs & Hrec).
    apply Hclosed in Hs. unfold receiving in Hrec. by rewrite Hs in Hrec.
Qed.
End closing.

(** ** A client in the middle of a command and one that listens *)

Section demo.
#[local] Existing Instances DemoRequests demo_processes demo_date.

Definition busy_steps : list SvStep :=
  [Accept; Opened 1 true; Accept; Opened 2 true; TextFrame 1 commission_text; Operate 1].

Lemma server_can_stop_witness :
  exists sv more sv' s1 s2, server_run demo_ctrl busy_steps demo_start = Some sv /\ w_held (sv_world sv) = [AllocLock] /\
    is_handling 1 sv = true /\ server_run demo_ctrl (Stop :: more) sv = Some sv' /\
    sv_conns sv' !! 1 = Some s1 /\ ws_phase s1 = Closed /\ sv_conns sv' !! 2 = Some s2 /\ last (ws_sent s2) = Some FShutdown /\
    w_held (sv_world sv') = [].
Proof.
  destruct (seen_run (fun sv => (w_held (sv_world sv), is_handling 1 sv,
      (fun s => match ws_phase s with Idle => true | _ => false end) <$> sv_conns sv !! 2)) busy_steps ([AllocLock], true, Some true))
    as (sv & Hr & E); [by vm_compute|].
  pose proof (f_equal fst (f_equal fst E)) as Eh. pose proof (f_equal snd (f_equal fst E)) as E1. pose proof (f_equal snd E) as E2.
  cbn [fst snd] in Eh, E1, E2. apply fmap_Some in E2 as (s2 & Hs2 & E2).
  destruct (is_handling_spec 1 sv E1) as (s1 & cmd & Hs1 & Hp1).
  destruct (server_can_stop demo_ctrl demo_fs 0 ("info", None) demo_stack busy_steps sv Hr) as (more & sv' & Hrun & Hall & Hheld & _).
  destruct (Hall 1 s1 Hs1) as (s1' & Hs1' & Hc1 & _). destruct (Hall 2 s2 Hs2) as (s2' & Hs2' & _ & Hl2).
  exists sv, more, sv', s1', s2'. split; [exact Hr|]. split; [exact Eh|]. split; [exact E1|]. split; [exact Hrun|].
  split; [exact Hs1'|]. split; [exact Hc1|]. split; [exact Hs2'|]. split; [|exact Hheld].
  unfold is_closed in Hl2. destruct (ws_phase s2); try discriminate E2. by apply Hl2.
Defined.
End demo.
