(* ===== verification/Races.v ===== *)
(** * What goes wrong side by side

    Schedules of [Server] after which the server is not as any order of the
    commands and events by itself would leave it.  The windows are short, but
    the server's runtime has several threads, and nothing closes them. *)

From S2P Require Import Prelude Json Wire Prog Fs Storage Registry StackApi NodeManager ManagerOps Controller Commands Dispatch Sched CommandFacts Progress Mirror Ws Server.

#[local] Existing Instances DemoRequests demo_processes demo_date.

Abbreviation DemoServer := (@Server FakeStack (string * option string)).

Definition calls (sv : DemoServer) : list string := fk_calls (w_stack (sv_world sv)).
Definition knows (n : Z) (sv : DemoServer) : bool := Registry.contains (w_registry (sv_world sv)) n.

(** Nothing is under way. *)
Definition at_rest (sv : DemoServer) : bool :=
  bool_decide (dom (sv_tasks sv) = ∅) && handler_idle sv && bool_decide (w_held (sv_world sv) = []) &&
  match sv_boot sv with Ret _ => true | Do _ _ => false end.

(** Another client removes node 1, from its request to the reply. *)
Definition removal (id : ConnId) : list SvStep := [TextFrame id remove_text] ++ replicate 7 (Operate id) ++ [Respond id; SendReply id true].

(** A device is commissioned, and the node removed between the message that
    announces it and the start of its supervisor. *)
Definition newcomer_steps : list SvStep :=
  [Boot; Accept; Opened 1 true; Accept; Opened 2 true; TextFrame 1 commission_text] ++ replicate 15 (Operate 1) ++
  removal 2 ++ replicate 2 (Operate 1) ++ [Respond 1; SendReply 1 true].

(** C40: a node can be removed and supervised ever after.  Commissioning announces
    the node and then starts its supervisor; a client that removes it in
    between is obeyed first ([stop_supervisor] finds nothing to stop).  All
    commands have succeeded, the clients were told that the node is gone, the
    server does not know it, and the last thing the stack was asked is to
    supervise it: nobody will ask it to stop. *)
Theorem removed_newcomer_is_supervised :
  exists sv, server_run demo_ctrl newcomer_steps demo_start = Some sv /\ at_rest sv = true /\
    em_event <$> sv_events sv = ["node_added"; "node_removed"] /\ knows 1 sv = false /\
    last (calls sv) = Some "start_supervisor 1".
Proof.
  destruct (seen_run (fun sv => (at_rest sv, em_event <$> sv_events sv, knows 1 sv, last (calls sv))) newcomer_steps
    (true, ["node_added"; "node_removed"], false, Some "start_supervisor 1")) as (sv & Hr & E); [by vm_compute|].
  injection E as E1 E2 E3 E4. exists sv. split; [exact Hr|]. split; [exact E1|]. split; [exact E2|]. split; [exact E3 | exact E4].
Qed.

(** The node manager handles a report up to copying the record, then the node is
    removed, then the copy is saved. *)
Definition late_save_steps : list SvStep :=
  [Boot; Accept; Opened 1 true; Accept; Opened 2 true; TextFrame 1 commission_text] ++ replicate 17 (Operate 1) ++
  [Respond 1; SendReply 1 true; Manage (Push (AttributesChanged 1 [("1/6/0", VBool true)])); TakeStackEvent] ++
  replicate 4 Handle ++ removal 2 ++ [Handle].

(** C39: a removed node can be back after a restart.  [persist] copies the node's
    record and then saves it; when [remove_node] deletes node and file in
    between, the file is written anew.  The server at rest does not know the
    node, and started again on its files it does. *)
Theorem report_revives_removed_node :
  exists sv, server_run demo_ctrl late_save_steps demo_start = Some sv /\ at_rest sv = true /\ knows 1 sv = false /\
    knows 1 (start demo_ctrl (sh_fs (w_shared (sv_world sv))) 0 ("info", None) demo_stack) = true.
Proof.
  destruct (seen_run (fun sv => (at_rest sv, knows 1 sv,
      knows 1 (start demo_ctrl (sh_fs (w_shared (sv_world sv))) 0 ("info", None) demo_stack))) late_save_steps (true, false, true))
    as (sv & Hr & E); [by vm_compute|].
  injection E as E1 E2 E3. exists sv. split; [exact Hr|]. split; [exact E1|]. split; [exact E2 | exact E3].
Qed.
