(* ===== verification/DeviceOps.v ===== *)
(** * Fabrics on a device

    [crates/stack/src/ops/fabrics.rs] and the constants of [ops/mod.rs]: listing
    the fabrics a device belongs to, removing one, and naming ours.  The fabric
    table of the stack itself is [rs-matter]'s: an interface. *)

From S2P Require Import Prelude Json StackApi Gen TlvJson Accumulate Ctx Interact Identity.

Definition ROOT_ENDPOINT : Z := 0.
Definition OP_CREDS : Z := 62.
Definition FABRICS_ATTR : Z := 1.
Definition NO_FABRICS : string := "No or invalid response received while querying fabrics".

Module tag.
Definition VENDOR_ID : string := "2".
Definition FABRIC_ID : string := "3".
Definition LABEL : string := "5".
Definition FABRIC_INDEX : string := "254".
End tag.

(** [s.fabrics.update_label(fab_idx, label)]. *)
Class FabricTable (F : Type) : Type := { update_label : Z -> string -> F -> Result unit RsError * F }.

(** The keys of a [HashMap] in its iteration order, which is unspecified. *)
Class HashOrder : Type := {
  hash_keys : gmap Z nat -> list Z;
  hash_keys_perm : forall m, Permutation (hash_keys m) (map_to_list m).*1;
}.

Definition fabrics_path : AttributePathSpec :=
  {| StackApi.ap_endpoint := Some ROOT_ENDPOINT; StackApi.ap_cluster := Some OP_CREDS; ap_attribute := Some FABRICS_ATTR |}.

(** [pairs.iter().find(|(k, _)| *k == key).map(|(_, v)| v)]. *)
Definition find_pair (key : string) (pairs : list (string * Value)) : option Value :=
  snd <$> List.find (fun p => String.eqb p.1 key) pairs.

Definition fabric_entry (fields : Map) : DeviceFabric :=
  let num t := unwrap_or 0 (and_then (bt_get fields t) as_u64) in
  {| df_fabric_id := num tag.FABRIC_ID;
     df_vendor_id := num tag.VENDOR_ID mod 2 ^ 16;
     df_fabric_index := num tag.FABRIC_INDEX mod 2 ^ 8;
     df_fabric_label := unwrap_or "" (and_then (bt_get fields tag.LABEL) as_str) |}.

Fixpoint fabric_entries (entries : list Value) : list DeviceFabric :=
  match entries with
  | [] => []
  | VObject fields :: entries => fabric_entry fields :: fabric_entries entries
  | _ :: entries => fabric_entries entries
  end.

Definition parse_fabrics (pairs : list (string * Value)) : StackResult (list DeviceFabric) :=
  match find_pair (path_name ROOT_ENDPOINT OP_CREDS FABRICS_ATTR) pairs with
  | Some (VArray ((_ :: _) as entries)) => Ok (fabric_entries entries)
  | _ => Err (StackError_new Sdk NO_FABRICS)
  end.

Definition check_noc_response (command : string) (resp : Value) : StackResult unit :=
  match and_then (value_get resp "statusCode") as_u64 with
  | Some 0 => Ok tt
  | Some status => Err (StackError_new Sdk (command +:+ " failed with status " +:+ show status))
  | None => Err (StackError_new Sdk (command +:+ " returned no status code"))
  end.

Section fabrics.
Context `{Base64} `{Tables} `{TxBuf} {D : Type} `{!ImDevices D}.

Definition device_fabrics (node_id : Z) (d : D) : StackResult (list DeviceFabric) * D :=
  let '(r, d) := read_attributes node_id [fabrics_path] false d in
  (let? pairs := r in parse_fabrics pairs, d).

Definition remove_device_fabric (node_id fabric_index : Z) (d : D) : StackResult unit * D :=
  let '(r, d) := invoke node_id ROOT_ENDPOINT OP_CREDS "removeFabric"
    (json_obj [("fabricIndex", json_u fabric_index)]) None d in
  (let? resp := r in check_noc_response "RemoveFabric" resp, d).

(** Its outcome is only logged. *)
Definition push_fabric_label (node_id : Z) (label : string) (d : D) : D :=
  let label := truncate_to_bytes label FABRIC_LABEL_MAX_BYTES in
  (invoke node_id ROOT_ENDPOINT OP_CREDS "updateFabricLabel" (json_obj [("label", VString label)]) None d).2.

Definition update_fabric_label {F} `{!FabricTable F} `{HashOrder} (c : StackCtx) (label : string) (f : F) (d : D) :
    StackResult unit * F * D :=
  let label := truncate_to_bytes label FABRIC_LABEL_MAX_BYTES in
  let '(r, f) := update_label (fab_idx c) label f in
  match r with
  | Err e => (Err (map_err e), f, d)
  | Ok _ => (Ok tt, f, fold_left (fun d node_id => push_fabric_label node_id label d) (hash_keys (supervisors c)) d)
  end.
End fabrics.

(** ** What the operations promise *)

Lemma truncate_to_bytes_short s n : (String.length s <= n)%nat -> truncate_to_bytes s n = s.
Proof. intros Hs. unfold truncate_to_bytes. by apply Nat.leb_le in Hs as ->. Qed.

Lemma truncate_to_bytes_length s n : (String.length (truncate_to_bytes s n) <= n)%nat.
Proof. pose proof (truncate_to_bytes_spec s n) as Ht. cbn zeta in Ht. tauto. Qed.

Lemma fabric_entries_spec entries :
  fabric_entries entries = map fabric_entry (omap as_object entries).
Proof. induction entries as [|[] entries IH]; simpl; by rewrite ?IH. Qed.

Lemma fold_left_ext {A B} (f g : A -> B -> A) l a :
  (forall a b, f a b = g a b) -> fold_left f l a = fold_left g l a.
Proof. intros Hfg. revert a. induction l as [|b l IH]; intros a; simpl; [done|]. by rewrite Hfg. Qed.

Section promises.
Context `{Base64} `{Tables} `{TxBuf} {D : Type} `{!ImDevices D}.
Implicit Types d : D.

(** Which fabrics are listed.  A list is answered exactly when the device was
    read and reported, for the attribute asked for and not for another one, a
    list that is not empty; it then has one fabric for each structure of that
    list, in order - an entry with missing or oversized fields is kept, only an
    entry that is no structure at all is skipped. *)
Theorem device_fabrics_iff node_id d l d' :
  device_fabrics node_id d = (Ok l, d') <->
  exists pairs entries, read_attributes node_id [fabrics_path] false d = (Ok pairs, d') /\
    find_pair "0/62/1" pairs = Some (VArray entries) /\ entries <> [] /\
    l = map fabric_entry (omap as_object entries).
Proof.
  unfold device_fabrics. destruct (read_attributes node_id [fabrics_path] false d) as [[pairs|e] d1]; simpl.
  2: { split; [done | intros (? & ? & ? & _); done]. }
  unfold parse_fabrics. change (path_name _ _ _) with "0/62/1". split.
  - destruct (find_pair "0/62/1" pairs) as [[| | | |[|x entries]|]|] eqn:Ef; try done. intros [= <- <-].
    exists pairs, (x :: entries). split; [done|]. split; [done|]. split; [done|].
    rewrite <- fabric_entries_spec. done.
  - intros (p & entries & [= <- <-] & -> & Hne & ->). destruct entries as [|x entries]; [done|].
    by rewrite <- fabric_entries_spec.
Qed.

(** A fabric counts as removed exactly when the device ran the command and
    answered status 0. *)
Lemma remove_device_fabric_iff node_id fabric_index d d' :
  remove_device_fabric node_id fabric_index d = (Ok tt, d') <->
  exists resp, invoke node_id 0 62 "removeFabric" (json_obj [("fabricIndex", json_u fabric_index)]) None d = (Ok resp, d') /\
    value_get resp "statusCode" = Some (json_u 0).
Proof.
  unfold remove_device_fabric. unfold ROOT_ENDPOINT, OP_CREDS. destruct (invoke _ _ _ _ _ _ d) as [[resp|e] d1]; simpl.
  2: { split; [done | intros (? & ? & _); done]. }
  unfold check_noc_response. split.
  - destruct (value_get resp "statusCode") as [v|] eqn:Ev; simpl; [|done].
    destruct (as_u64 v) as [n|] eqn:En; [|done]. apply as_u64_Some in En as ->. destruct n; [|done..]. intros [= <-]. eauto.
  - intros (r & [= <- <-] & ->). done.
Qed.

(** Our label, everywhere the same.  The label the stack's own fabric
    table gets is what fits 32 bytes of the one asked for, cut at a character
    boundary; when the table refuses it no device is told and the error is
    returned.  Otherwise every supervised node is sent this very label once, in
    some order, and no node's answer matters to the result or to the nodes
    after it. *)
Theorem update_fabric_label_spec {F} `{!FabricTable F} `{HashOrder} (c : StackCtx) label (f : F) d :
  exists cut nodes, cut = truncate_to_bytes label 32 /\ (String.length cut <= 32)%nat /\
    (forall n, n ∈ nodes <-> is_Some (supervisors c !! n)) /\ NoDup nodes /\
    update_fabric_label c label f d =
    match update_label (fab_idx c) cut f with
    | (Err e, f') => (Err (map_err e), f', d)
    | (Ok _, f') => (Ok tt, f', fold_left (fun d n =>
        (invoke n 0 62 "updateFabricLabel" (json_obj [("label", VString cut)]) None d).2) nodes d)
    end.
Proof.
  exists (truncate_to_bytes label 32), (hash_keys (supervisors c)). split; [done|].
  pose proof (truncate_to_bytes_length label 32) as Hlen. split; [exact Hlen|].
  pose proof (hash_keys_perm (supervisors c)) as Hp. split; [|split].
  - intros n. rewrite Hp. rewrite list_elem_of_fmap. split.
    + intros ([k v] & -> & Hkv%elem_of_map_to_list). by eexists.
    + intros [v Hv]. exists (n, v). by rewrite elem_of_map_to_list.
  - rewrite Hp. apply NoDup_fst_map_to_list.
  - unfold update_fabric_label. change FABRIC_LABEL_MAX_BYTES with 32%nat.
    destruct (update_label (fab_idx c) (truncate_to_bytes label 32) f) as [[u|e] f']; [|done].
    f_equal. apply fold_left_ext. intros d' n. unfold push_fabric_label. change FABRIC_LABEL_MAX_BYTES with 32%nat.
    by rewrite (truncate_to_bytes_short _ _ Hlen).
Qed.
End promises.
