(* ===== verification/Window.v ===== *)
(** * Commissioning windows

    [crates/stack/src/ops/window.rs]: drawing a passcode, computing the SPAKE2+
    verifier for it, opening the window on the device and returning the codes a
    user joins it with.  The random generator, the curve and the code formats are
    [rs-matter]'s; [u32::from_le_bytes] and the like are written out. *)

From S2P Require Import Prelude Json StackApi Gen TlvJson Accumulate Ctx Interact Identity DeviceOps.

(** [RngCore::fill_bytes]. *)
Class Rng (R : Type) : Type := { fill_bytes : nat -> R -> string * R }.

(** It fills the buffer. *)
Class RngLaws `{Rng R} : Prop := { fill_length : forall n r, String.length (fill_bytes n r).1 = n }.

(** What the verifier is computed with: PBKDF2 to 80 bytes, reduction of 40
    bytes modulo the group order, the curve. *)
Class PaseCrypto : Type := {
  ec_scalar : Type;
  ec_point : Type;
  pbkdf_derive : string -> Z -> string -> Result string RsError;
  ec_scalar_mod_p : string -> Result ec_scalar RsError;
  ec_generator_point : Result ec_point RsError;
  ec_mul : ec_point -> ec_scalar -> Result ec_point RsError;
  ec_scalar_canon : ec_scalar -> Result string RsError;
  ec_point_canon : ec_point -> Result string RsError;
}.

Record BasicCommData : Type := { bc_password : string; bc_discriminator : Z }.

(** [compute_pairing_code] and the QR text for an on-network device in the
    standard flow, without serial number or optional data. *)
Class CodeFormats : Type := {
  compute_pairing_code : BasicCommData -> string;
  qr_as_str : BasicCommData -> Z -> Z -> Result string RsError;
}.

Fixpoint from_le_bytes (s : string) : Z :=
  match s with EmptyString => 0 | String c s => byte_of c + 256 * from_le_bytes s end.

Fixpoint to_le_bytes (width : nat) (n : Z) : string :=
  match width with
  | O => EmptyString
  | S width => String (byte_at (n mod 256)) (to_le_bytes width (n / 256))
  end.

Definition ADMIN_COMMISSIONING : Z := 60.
Definition BASIC_INFO : Z := 40.
Definition BASIC_INFO_VENDOR_ID : Z := 2.
Definition BASIC_INFO_PRODUCT_ID : Z := 4.
Definition PAKE_ITERATIONS : Z := 2000.
Definition SALT_LEN : nat := 32.
Definition PASSCODE_LEN : nat := 4.
Definition UINT320_CANON_LEN : nat := 40.
Definition MAX_PASSCODE : Z := 99999998.
Definition INVALID_PASSCODES : list Z :=
  [0; 11111111; 22222222; 33333333; 44444444; 55555555; 66666666; 77777777; 88888888; 99999999; 12345678; 87654321].

Definition is_invalid_passcode (p : Z) : bool := existsb (Z.eqb p) INVALID_PASSCODES.

Definition passcode_of (b : string) : Z := from_le_bytes b mod MAX_PASSCODE + 1.

Section window.
Context `{Base64} `{Tables} `{TxBuf} {D : Type} `{!ImDevices D} {R : Type} `{!Rng R} `{PaseCrypto} `{CodeFormats}.

(** The rejection loop, with fuel. *)
Fixpoint draw_passcode (fuel : nat) (rng : R) : option (Z * R) :=
  match fuel with
  | O => None
  | S fuel =>
      let '(b, rng) := fill_bytes 4 rng in
      let p := passcode_of b in
      if is_invalid_passcode p then draw_passcode fuel rng else Some (p, rng)
  end.

Definition generate_window_secrets (fuel : nat) (rng : R) : option (Z * Z * string) :=
  match draw_passcode fuel rng with
  | None => None
  | Some (passcode, rng) =>
      let '(d, rng) := fill_bytes 2 rng in
      let discriminator := from_le_bytes d mod 4096 in
      let '(salt, rng) := fill_bytes SALT_LEN rng in
      Some (passcode, discriminator, salt)
  end.

Definition compute_pase_verifier (passcode iterations : Z) (salt : string) : Result string RsError :=
  let? w0s_w1s := pbkdf_derive (to_le_bytes PASSCODE_LEN passcode) iterations salt in
  let w0s := String.substring 0 UINT320_CANON_LEN w0s_w1s in
  let w1s := String.substring UINT320_CANON_LEN UINT320_CANON_LEN w0s_w1s in
  let? w0 := ec_scalar_mod_p w0s in
  let? w1 := ec_scalar_mod_p w1s in
  let? g := ec_generator_point in
  let? l_pt := ec_mul g w1 in
  let? w0_canon := ec_scalar_canon w0 in
  let? l_canon := ec_point_canon l_pt in
  Ok (w0_canon +:+ l_canon).

Definition build_qr (comm_data : BasicCommData) (vid pid : Z) : Result string RsError := qr_as_str comm_data vid pid.

Definition base64_std (bytes : string) : string := b64_encode bytes.

Definition vid_pid_from (pairs : list (string * Value)) : Z * Z :=
  let get attr := unwrap_or 0 (and_then (and_then (find_pair (path_name ROOT_ENDPOINT BASIC_INFO attr) pairs) as_u64) (try_from_u 16)) in
  (get BASIC_INFO_VENDOR_ID, get BASIC_INFO_PRODUCT_ID).

Definition basic_info_path (attr : Z) : AttributePathSpec :=
  {| StackApi.ap_endpoint := Some ROOT_ENDPOINT; StackApi.ap_cluster := Some BASIC_INFO; ap_attribute := Some attr |}.

Definition basic_info_vid_pid (node_id : Z) (d : D) : (Z * Z) * D :=
  let '(r, d) := read_attributes node_id [basic_info_path BASIC_INFO_VENDOR_ID; basic_info_path BASIC_INFO_PRODUCT_ID] false d in
  (match r with Ok pairs => vid_pid_from pairs | Err _ => (0, 0) end, d).

Definition window_payload (timeout_secs : Z) (verifier : string) (discriminator : Z) (salt : string) : Value :=
  json_obj [("commissioningTimeout", json_u timeout_secs);
            ("PAKEPasscodeVerifier", VString (base64_std verifier));
            ("discriminator", json_u discriminator);
            ("iterations", json_u PAKE_ITERATIONS);
            ("salt", VString (base64_std salt))].

(** [rand] is what [ctx.crypto.rand()] gives; [None] when the fuel ran out. *)
Definition open_window (fuel : nat) (rand : Result R RsError) (node_id timeout_secs : Z) (d : D) :
    option (StackResult WindowInfo * D) :=
  match rand with
  | Err e => Some (Err (map_err e), d)
  | Ok rng =>
      match generate_window_secrets fuel rng with
      | None => None
      | Some (passcode, discriminator, salt) => Some
          match compute_pase_verifier passcode PAKE_ITERATIONS salt with
          | Err e => (Err (map_err e), d)
          | Ok verifier =>
              let '(r, d) := invoke node_id ROOT_ENDPOINT ADMIN_COMMISSIONING "openCommissioningWindow"
                (window_payload timeout_secs verifier discriminator salt) (Some 10000) d in
              match r with
              | Err e => (Err e, d)
              | Ok _ =>
                  let '((vid, pid), d) := basic_info_vid_pid node_id d in
                  let comm_data := {| bc_password := to_le_bytes PASSCODE_LEN passcode; bc_discriminator := discriminator |} in
                  let setup_manual_code := compute_pairing_code comm_data in
                  (let? setup_qr_code := Prelude.map_err map_err (build_qr comm_data vid pid) in
                   Ok {| wi_setup_pin_code := passcode; wi_setup_manual_code := setup_manual_code;
                         wi_setup_qr_code := setup_qr_code |}, d)
              end
          end
      end
  end.
End window.

(** ** What a window promises *)

Lemma byte_of_at n : 0 <= n < 256 -> byte_of (byte_at n) = n.
Proof. intros Hn. unfold byte_of, byte_at. rewrite Ascii.N_ascii_embedding by lia. lia. Qed.

Lemma from_le_bytes_bounds s : 0 <= from_le_bytes s < 256 ^ Z.of_nat (String.length s).
Proof.
  induction s as [|c s IH]; [done|]. cbn [from_le_bytes String.length].
  rewrite Nat2Z.inj_succ, Z.pow_succ_r by lia. pose proof (byte_of_range c). lia.
Qed.

Lemma le_bytes_roundtrip w n : 0 <= n < 256 ^ Z.of_nat w -> from_le_bytes (to_le_bytes w n) = n.
Proof.
  revert n. induction w as [|w IH]; intros n Hn; [simpl in *; lia|].
  cbn [to_le_bytes from_le_bytes]. rewrite Nat2Z.inj_succ, Z.pow_succ_r in Hn by lia.
  rewrite byte_of_at by (apply Z.mod_pos_bound; lia). rewrite IH.
  - pose proof (Z.div_mod n 256). lia.
  - split; [apply Z.div_pos; lia | apply Z.div_lt_upper_bound; lia].
Qed.

Lemma to_le_bytes_length w n : String.length (to_le_bytes w n) = w.
Proof. revert n. induction w as [|w IH]; intros n; [done|]. cbn [to_le_bytes String.length]. by rewrite IH. Qed.

(** What a commissioner accepts. *)
Definition passcode_is_legal (p : Z) : Prop := 1 <= p <= MAX_PASSCODE /\ p ∉ INVALID_PASSCODES.

Lemma is_invalid_passcode_spec p : is_invalid_passcode p = true <-> p ∈ INVALID_PASSCODES.
Proof.
  unfold is_invalid_passcode. rewrite existsb_exists. split.
  - intros (x & Hx & ->%Z.eqb_eq). by apply list_elem_of_In.
  - intros Hp. exists p. split; [by apply list_elem_of_In | apply Z.eqb_refl].
Qed.

Lemma passcode_of_bounds b : 1 <= passcode_of b <= MAX_PASSCODE.
Proof. unfold passcode_of. pose proof (Z.mod_pos_bound (from_le_bytes b) MAX_PASSCODE). unfold MAX_PASSCODE in *. lia. Qed.

Section window_facts.
Context `{Base64} `{Tables} `{TxBuf} {D : Type} `{!ImDevices D} {R : Type} `{!Rng R} `{PaseCrypto} `{CodeFormats}.
Implicit Types (d : D) (rng : R).

(** The generator after [n] draws of four bytes, and the passcode its next draw
    gives. *)
Fixpoint after_draws (n : nat) (rng : R) : R :=
  match n with O => rng | S n => after_draws n (fill_bytes 4 rng).2 end.
Definition nth_passcode (n : nat) (rng : R) : Z := passcode_of (fill_bytes 4 (after_draws n rng)).1.

Lemma draw_passcode_first fuel rng n :
  (n < fuel)%nat -> (forall i, (i < n)%nat -> nth_passcode i rng ∈ INVALID_PASSCODES) ->
  nth_passcode n rng ∉ INVALID_PASSCODES ->
  draw_passcode fuel rng = Some (nth_passcode n rng, after_draws (S n) rng).
Proof.
  revert rng n. induction fuel as [|fuel IH]; intros rng n Hn Hbad Hgood; [lia|]. cbn [draw_passcode].
  assert (Hp0 : nth_passcode 0 rng = passcode_of (fill_bytes 4 rng).1) by done.
  destruct (fill_bytes 4 rng) as [b rng'] eqn:Ef. cbn [fst] in Hp0.
  destruct n as [|n].
  - rewrite Hp0 in Hgood. destruct (is_invalid_passcode (passcode_of b)) eqn:Ei; [by apply is_invalid_passcode_spec in Ei|].
    simpl. by rewrite Hp0, Ef.
  - specialize (Hbad O ltac:(lia)) as Hbad0. rewrite Hp0 in Hbad0. apply is_invalid_passcode_spec in Hbad0 as ->.
    assert (Hnth : forall i, nth_passcode (S i) rng = nth_passcode i rng') by (intros i; unfold nth_passcode; simpl; by rewrite Ef).
    rewrite (IH rng' n); [by rewrite Hnth; simpl; rewrite Ef | lia | | by rewrite <- Hnth].
    intros i Hi. rewrite <- Hnth. apply Hbad. lia.
Qed.

Lemma draw_passcode_legal fuel rng p rng' : draw_passcode fuel rng = Some (p, rng') -> passcode_is_legal p.
Proof.
  revert rng. induction fuel as [|fuel IH]; intros rng; cbn [draw_passcode]; [done|].
  destruct (fill_bytes 4 rng) as [b r1]. destruct (is_invalid_passcode (passcode_of b)) eqn:Ei; [apply IH|].
  intros [= <- <-]. split; [apply passcode_of_bounds|]. intros Hp%is_invalid_passcode_spec. congruence.
Qed.

(** The secrets of a window are well formed, every legal passcode can be
    drawn, and the rejection loop ends.  It ends with the first draw that is
    not one of the forbidden passcodes, as soon as the generator produces one;
    the passcode is then one a commissioner accepts, the discriminator has 12
    bits and the salt 32 bytes; and each legal passcode is what some four random
    bytes give. *)
Theorem generate_window_secrets_spec `{!RngLaws} rng n :
  (forall i, (i < n)%nat -> nth_passcode i rng ∈ INVALID_PASSCODES) ->
  nth_passcode n rng ∉ INVALID_PASSCODES ->
  (forall fuel, (n < fuel)%nat -> exists discriminator salt,
    generate_window_secrets fuel rng = Some (nth_passcode n rng, discriminator, salt) /\
    passcode_is_legal (nth_passcode n rng) /\ 0 <= discriminator < 4096 /\ String.length salt = 32%nat) /\
  (forall p, passcode_is_legal p -> exists b, String.length b = 4%nat /\ passcode_of b = p).
Proof.
  intros Hbad Hgood. split.
  - intros fuel Hn. unfold generate_window_secrets. rewrite (draw_passcode_first fuel rng n) by done.
    destruct (fill_bytes 2 _) as [b r1]. pose proof (fill_length SALT_LEN r1) as Hs.
    destruct (fill_bytes SALT_LEN r1) as [salt r2]. eexists _, salt. split; [done|].
    split; [split; [apply passcode_of_bounds | done]|]. split; [apply Z.mod_pos_bound; lia | exact Hs].
  - intros p [Hp _]. exists (to_le_bytes 4 (p - 1)). split; [apply to_le_bytes_length|].
    unfold passcode_of, MAX_PASSCODE in *. rewrite le_bytes_roundtrip by lia. rewrite Z.mod_small by lia. lia.
Qed.

(** The id of a vendor or product fits its field, whatever the device says. *)
Lemma vid_pid_from_bounds pairs : let '(vid, pid) := vid_pid_from pairs in 0 <= vid < 2 ^ 16 /\ 0 <= pid < 2 ^ 16.
Proof.
  assert (Hb : forall o : option Value, 0 <= unwrap_or 0 (and_then (and_then o as_u64) (try_from_u 16)) < 2 ^ 16).
  { intros o. destruct (and_then o as_u64) as [n|]; simpl; [|lia]. unfold try_from_u.
    destruct (in_u 16 n) eqn:E; [by apply in_u_spec in E | simpl; lia]. }
  split; apply Hb.
Qed.

(** The codes handed out open the window that was opened.  Whenever
    [open_window] succeeds, the device accepted exactly one window: with the
    verifier of the very passcode that is returned, the salt it was computed
    with and 2000 iterations; and the manual and QR code carry this passcode and
    the discriminator the device was given, with the vendor and product ids read
    from it or 0.  A window that was opened is only given up if the QR code
    cannot be formed; before the device accepted it, nothing is ever returned,
    and when the secrets or the verifier fail the device was not contacted. *)
Theorem open_window_spec fuel rand node_id timeout_secs d r d' :
  open_window fuel rand node_id timeout_secs d = Some (r, d') ->
  (exists e, r = Err (map_err e) /\ d' = d) \/
  (exists passcode discriminator salt verifier r1 d1,
     passcode_is_legal passcode /\ 0 <= discriminator < 4096 /\
     compute_pase_verifier passcode 2000 salt = Ok verifier /\
     invoke node_id 0 60 "openCommissioningWindow" (window_payload timeout_secs verifier discriminator salt)
       (Some 10000) d = (r1, d1) /\
     match r1 with
     | Err e => r = Err e /\ d' = d1
     | Ok _ => exists vid pid,
         basic_info_vid_pid node_id d1 = ((vid, pid), d') /\ 0 <= vid < 2 ^ 16 /\ 0 <= pid < 2 ^ 16 /\
         let codes := {| bc_password := to_le_bytes 4 passcode; bc_discriminator := discriminator |} in
         from_le_bytes (bc_password codes) = passcode /\
         match build_qr codes vid pid with
         | Ok qr => r = Ok {| wi_setup_pin_code := passcode; wi_setup_manual_code := compute_pairing_code codes;
                              wi_setup_qr_code := qr |}
         | Err e => r = Err (map_err e)
         end
     end).
Proof.
  unfold open_window. destruct rand as [rng|e]; [|intros [= <- <-]; left; eauto].
  unfold generate_window_secrets. destruct (draw_passcode fuel rng) as [[passcode r0]|] eqn:Ed; [|done].
  apply draw_passcode_legal in Ed as Hlegal. destruct (fill_bytes 2 r0) as [b2 r2]. destruct (fill_bytes SALT_LEN r2) as [salt r3].
  set (disc := from_le_bytes b2 mod 4096). assert (Hdisc : 0 <= disc < 4096) by (apply Z.mod_pos_bound; lia).
  intros E%(inj Some). change PAKE_ITERATIONS with 2000 in E.
  destruct (compute_pase_verifier passcode 2000 salt) as [verifier|e] eqn:Ev; [|injection E as <- <-; left; eauto].
  right. change ROOT_ENDPOINT with 0 in E. change ADMIN_COMMISSIONING with 60 in E.
  destruct (invoke node_id 0 60 _ _ _ d) as [r1 d1] eqn:Ei.
  exists passcode, disc, salt, verifier, r1, d1. do 4 (split; [done|]).
  destruct r1 as [v|e]; [|by injection E as <- <-]. unfold basic_info_vid_pid in *.
  destruct (read_attributes _ _ _ d1) as [rr d2].
  assert (Hb : let '(vid, pid) := match rr with Ok pairs => vid_pid_from pairs | Err _ => (0, 0) end in
               0 <= vid < 2 ^ 16 /\ 0 <= pid < 2 ^ 16) by (destruct rr; [apply vid_pid_from_bounds | lia]).
  destruct (match rr with Ok pairs => vid_pid_from pairs | Err _ => (0, 0) end) as [vid pid].
  injection E as <- <-. exists vid, pid. split; [done|]. split; [apply Hb|]. split; [apply Hb|].
  split; [apply le_bytes_roundtrip; destruct Hlegal as [Hp _]; unfold MAX_PASSCODE in Hp; simpl; lia|].
  change PASSCODE_LEN with 4%nat. by destruct (build_qr _ vid pid).
Qed.
End window_facts.

(** ** An example: a generator whose first draw is a forbidden passcode *)

#[local] Instance ScriptRng : Rng (list Z) := {|
  fill_bytes n script := match script with [] => (to_le_bytes n 0, []) | v :: script => (to_le_bytes n v, script) end |}.

#[local] Instance ScriptRng_laws : RngLaws.
Proof. split. intros n [|v script]; apply to_le_bytes_length. Qed.

#[local] Instance ToyPase : PaseCrypto := {|
  ec_scalar := string; ec_point := string; pbkdf_derive pw n salt := Ok (pw +:+ salt);
  ec_scalar_mod_p s := Ok s; ec_generator_point := Ok "G"; ec_mul p s := Ok (p +:+ s);
  ec_scalar_canon s := Ok s; ec_point_canon p := Ok p |}.

#[local] Instance ToyCodes : CodeFormats := {|
  compute_pairing_code c := show (from_le_bytes (bc_password c));
  qr_as_str c vid pid := Ok ("MT:" +:+ show (from_le_bytes (bc_password c))) |}.

#[local] Instance WindowTables : Tables := {| CLUSTERS := [
  {| cl_code := 60; cl_name := "AdministratorCommissioning"; cl_attributes := [];
     cl_commands := [{| cmd_code := 0; cmd_name := "openCommissioningWindow"; cmd_input := None; cmd_output := None;
                        cmd_is_timed := true |}];
     cl_structs := []; cl_events := [] |}] |}.

(** A device that accepts every command, and counts them. *)
#[local] Instance Obedient : ImDevices nat := {|
  im_read _ _ _ n := (Some (1, {| ex_initiate := Ok tt; ex_request := Ok tt;
    ex_chunks := LastChunk (Err (rs_error_of EBusy)) (Ok tt) |}), n);
  im_write _ _ _ _ _ n := (None, n);
  im_invoke _ _ _ _ _ _ n := (Some (1, {| ex_initiate := Ok tt; ex_request := Ok tt; ex_chunks := LastChunk (Ok None) (Ok tt) |}), S n) |}.

Definition toy_rng : list Z := [12345677; 20202020; 3840; 7].

Lemma generate_window_secrets_spec_witness :
  nth_passcode 0 toy_rng = 12345678 /\
  exists discriminator salt, generate_window_secrets 5 toy_rng = Some (20202021, discriminator, salt).
Proof.
  split; [reflexivity|].
  destruct (generate_window_secrets_spec toy_rng 1) as [Hgen _].
  - intros [|i] Hi; [|lia]. apply is_invalid_passcode_spec. vm_compute. reflexivity.
  - intros Hp%is_invalid_passcode_spec. vm_compute in Hp. discriminate Hp.
  - destruct (Hgen 5%nat) as (disc & salt & E & _); [lia|]. exists disc, salt. exact E.
Defined.

Lemma open_window_spec_witness :
  exists info d', open_window (H := HexBase64) (H1 := RoomyBuf) 5 (Ok toy_rng) 9 180 0%nat = Some (Ok info, d') /\
    wi_setup_pin_code info = 20202021 /\ wi_setup_manual_code info = "20202021" /\ d' = 1%nat /\
    passcode_is_legal (wi_setup_pin_code info).
Proof.
  destruct (open_window (H := HexBase64) (H1 := RoomyBuf) 5 (Ok toy_rng) 9 180 0%nat) as [[r d']|] eqn:E;
    [|vm_compute in E; discriminate E].
  destruct (open_window_spec (H := HexBase64) (H1 := RoomyBuf) 5 (Ok toy_rng) 9 180 0%nat r d' E) as [(e & Hr & _)|Hspec].
  - subst r. vm_compute in E. discriminate E.
  - destruct Hspec as (p & disc & salt & v & r1 & d1 & Hp & _ & _ & Hi & Hr).
    pose proof E as E'. vm_compute in E'. injection E' as <- <-. eexists _, _. split; [reflexivity|].
    split; [reflexivity|]. split; [reflexivity|]. split; [reflexivity|].
    destruct r1 as [u|e]; [|destruct Hr as [Hr _]; discriminate Hr].
    destruct Hr as (vid & pid & _ & _ & _ & Hpw & Hr). destruct (build_qr _ vid pid); [|discriminate Hr].
    injection Hr as Hpin _ _. simpl. rewrite Hpin. exact Hp.
Defined.
