(* ===== verification/Browse.v ===== *)
(** * Discovering commissionable devices

    [crates/stack/src/ops/discovery.rs] and [addr_to_string] of [ops/mod.rs].
    The mDNS browse is [rs-matter]'s: it answers one advertisement that matches
    the filter and is not excluded, or an error, some time later.  Times are
    ticks of [embassy_time] (10^6 per second), 64 bits wide. *)

From S2P Require Import Prelude Json Addr StackApi Ctx.

(** [std::net::SocketAddr], by what it displays, and [rs-matter]'s [Address]. *)
Record SocketAddr : Type := { sa_host : host; sa_port : Z }.

Inductive RsAddress : Type :=
| Udp (sa : SocketAddr)
| Tcp (sa : SocketAddr)
| Btp (text : string).

Definition addr_to_string (addr : RsAddress) : string :=
  match addr with
  | Udp sa | Tcp sa => socket_text (sa_host sa) (sa_port sa)
  | Btp text => text
  end.

Record CommissionableFilter : Type := {
  cf_discriminator : option Z;
  cf_short_discriminator : option Z;
  cf_vendor_id : option Z;
  cf_product_id : option Z;
  cf_device_type : option Z;
  cf_commissioning_mode_only : bool;
}.

Class Mdns (M : Type) : Type := {
  browse_commissionable : CommissionableFilter -> list Z -> Z -> M -> Timed (Result (RsAddress * Z) RsError) * M;
}.

(** It takes time and it honours the exclude list. *)
Class MdnsLaws `{Mdns M} : Prop := {
  browse_time : forall f ex ms m t r, (browse_commissionable f ex ms m).1 = Some (t, r) -> 0 <= t;
  browse_fresh : forall f ex ms m t a i, (browse_commissionable f ex ms m).1 = Some (t, Ok (a, i)) -> i ∉ ex;
}.

Definition from_millis (ms : Z) : Z := ms * 1000.
Definition as_millis (ticks : Z) : Z := ticks / 1000.
Definition u32_MAX : Z := 2 ^ 32 - 1.
Definition Instant_MAX : Z := 2 ^ 64 - 1.

Definition MAX_SWEEP : nat := 6.
Definition SLOT_MARGIN_MS : Z := 100.

Definition inner_budget_ms (ms : Z) : Z := Z.max (Z.max 0 (ms - SLOT_MARGIN_MS)) (ms / 2).

Definition budget_ms (budget : Z) : Z := Z.max (unwrap_or u32_MAX (try_from_u 32 (as_millis budget))) 1.

Definition deadline_after (now total : Z) : Z := if now + total <=? Instant_MAX then now + total else Instant_MAX.

Definition remaining_budget (deadline now : Z) : Z := Z.max 0 (deadline - now).

Record Sweep : Type := { sw_out : list DiscoveredDevice; sw_exclude : list Z }.

Definition Sweep_default : Sweep := {| sw_out := []; sw_exclude := [] |}.

Definition sweep_push (s : Sweep) (address : string) (inst : Z) : Sweep :=
  {| sw_out := sw_out s ++ [{| dd_instance_name := hex_digits true 16 inst; dd_address := address |}];
     sw_exclude := sw_exclude s ++ [inst] |}.

Definition is_full (s : Sweep) : bool := (MAX_SWEEP <=? length (sw_exclude s))%nat.

Section browse.
Context {M : Type} `{!Mdns M}.

Definition contention_message (ms : Z) : string :=
  "mDNS browse timed out after " +:+ show ms +:+
  "ms without getting a turn (another discovery or commissioning was holding the browse slot)".

(** The answer, and the ticks it took. *)
Definition browse_one (filter : CommissionableFilter) (exclude : list Z) (budget : Z) (m : M) :
    StackResult (RsAddress * Z) * Z * M :=
  let ms := budget_ms budget in
  let inner := inner_budget_ms ms in
  let '(fut, m) := browse_commissionable filter exclude inner m in
  let timeout := (Err (StackError_new Timeout (contention_message ms)), from_millis ms) in
  (match fut with
   | Some (t, r) => if t <=? from_millis ms then (Prelude.map_err map_err r, t) else timeout
   | None => timeout
   end, m).

Definition commissioning_mode : CommissionableFilter :=
  {| cf_discriminator := None; cf_short_discriminator := None; cf_vendor_id := None; cf_product_id := None;
     cf_device_type := None; cf_commissioning_mode_only := true |}.

(** The sweep loop from the instant [now]; [None] when the fuel ran out. *)
Fixpoint browse_loop (fuel : nat) (deadline now : Z) (sweep : Sweep) (m : M) : option (Sweep * Z * M) :=
  match fuel with
  | O => None
  | S fuel =>
      if is_full sweep then Some (sweep, now, m)
      else
        let remaining := remaining_budget deadline now in
        if remaining =? 0 then Some (sweep, now, m)
        else
          let '(r, elapsed, m) := browse_one commissioning_mode (sw_exclude sweep) remaining m in
          match r with
          | Ok (addr, inst) =>
              browse_loop fuel deadline (now + elapsed) (sweep_push sweep (addr_to_string addr) inst) m
          | Err _ => Some (sweep, now + elapsed, m)
          end
  end.

(** At most [MAX_SWEEP] browses find something. *)
Definition browse (timeout_ms now : Z) (m : M) : option (StackResult (list DiscoveredDevice) * Z * M) :=
  let deadline := deadline_after now (from_millis timeout_ms) in
  match browse_loop (S MAX_SWEEP) deadline now Sweep_default m with
  | Some (sweep, now, m) => Some (Ok (sw_out sweep), now, m)
  | None => None
  end.
End browse.

(** ** What discovery promises *)

Lemma budget_ms_bounds b : 0 <= b -> 1 <= budget_ms b <= u32_MAX /\ from_millis (budget_ms b) <= Z.max 1000 b.
Proof.
  intros Hb. unfold budget_ms, from_millis, as_millis, try_from_u, u32_MAX in *.
  pose proof (Z.div_pos b 1000 Hb ltac:(lia)). pose proof (Z.mul_div_le b 1000).
  destruct (in_u 32 (b / 1000)) eqn:E; simpl.
  - apply in_u_spec in E. lia.
  - assert (~ (0 <= b / 1000 < 2 ^ 32)) by (rewrite <- in_u_spec; by rewrite E). lia.
Qed.

Lemma inner_budget_bounds ms : 1 <= ms -> 0 <= inner_budget_ms ms < ms /\ ms / 2 <= inner_budget_ms ms.
Proof.
  intros Hms. unfold inner_budget_ms, SLOT_MARGIN_MS. pose proof (Z.div_lt ms 2). pose proof (Z.div_pos ms 2). lia.
Qed.

Section browse_facts.
Context {M : Type} `{!Mdns M} `{!MdnsLaws}.

(** Why a browse reports contention.  The browse is given strictly less
    time than its caller waits, and at least half of it; whenever it settles
    within its own budget, however long it is, the caller gets its answer -
    nothing found as an unreachable node -, so the contention message is only
    seen when it did not. *)
Lemma browse_one_spec filter exclude budget (m : M) :
  0 <= budget ->
  let ms := budget_ms budget in
  let inner := inner_budget_ms ms in
  let '(fut, m') := browse_commissionable filter exclude inner m in
  inner < ms /\ ms / 2 <= inner /\
  (forall t r, fut = Some (t, r) -> t <= from_millis inner ->
     browse_one filter exclude budget m = (Prelude.map_err map_err r, t, m')) /\
  (exists r elapsed, browse_one filter exclude budget m = (r, elapsed, m') /\
     0 <= elapsed <= Z.max 1000 budget /\
     (forall a i, r = Ok (a, i) -> i ∉ exclude)).
Proof.
  intros Hb ms inner. destruct (browse_commissionable filter exclude inner m) as [fut m'] eqn:Ef.
  destruct (budget_ms_bounds budget Hb) as [Hms Hle]. fold ms in Hms, Hle.
  destruct (inner_budget_bounds ms) as [Hin Hhalf]; [lia|]. fold inner in Hin, Hhalf.
  split; [lia|]. split; [done|]. unfold browse_one. fold ms. fold inner. rewrite Ef.
  assert (Hmono : from_millis inner <= from_millis ms) by (unfold from_millis; lia).
  assert (H0 : 0 <= from_millis ms) by (unfold from_millis; lia). split.
  - intros t r -> Ht. destruct (Z.leb_spec t (from_millis ms)); [done|lia].
  - destruct fut as [[t r]|]; [|eexists _, _; split; [done|]; split; [lia | done]].
    assert (Ht0 : 0 <= t) by (apply (browse_time filter exclude inner m t r); by rewrite Ef).
    destruct (Z.leb_spec t (from_millis ms)); (eexists _, _; split; [done|]; split; [lia|]); [|done].
    intros a i. destruct r as [[a' i']|]; [|done]. intros [= <- <-].
    apply (browse_fresh filter exclude inner m t a' i'). by rewrite Ef.
Qed.

Definition found_devices (found : list (RsAddress * Z)) : list DiscoveredDevice :=
  map (fun '(addr, inst) => {| dd_instance_name := hex_digits true 16 inst; dd_address := addr_to_string addr |}) found.

Lemma browse_loop_spec fuel deadline now sweep found (m : M) :
  (MAX_SWEEP < fuel + length found)%nat -> (length found <= MAX_SWEEP)%nat ->
  sw_out sweep = found_devices found -> sw_exclude sweep = map snd found -> NoDup (map snd found) ->
  exists sweep' found' now' m', browse_loop fuel deadline now sweep m = Some (sweep', now', m') /\
    sw_out sweep' = found_devices found' /\ NoDup (map snd found') /\ (length found' <= MAX_SWEEP)%nat /\
    now <= now' <= Z.max now (deadline + 999).
Proof.
  revert now sweep found m. induction fuel as [|fuel IH]; intros now sweep found m Hfuel Hlen Hout Hex Hnd; [lia|].
  cbn [browse_loop]. unfold is_full. rewrite Hex, length_map.
  destruct (Nat.leb_spec MAX_SWEEP (length found)); [exists sweep, found, now, m; repeat split; (done || lia)|].
  destruct (Z.eqb_spec (remaining_budget deadline now) 0) as [Hz|Hz]; [exists sweep, found, now, m; repeat split; (done || lia)|].
  assert (Hrem : remaining_budget deadline now = deadline - now /\ 0 < deadline - now) by (unfold remaining_budget in *; lia).
  destruct Hrem as [-> Hpos].
  pose proof (browse_one_spec commissioning_mode (map snd found) (deadline - now) m ltac:(lia)) as Hone. cbn zeta in Hone.
  destruct (browse_commissionable _ _ _ m) as [fut m1]. destruct Hone as (_ & _ & _ & r & elapsed & -> & He & Hfresh).
  destruct r as [[addr inst]|e]; [|exists sweep, found, (now + elapsed), m1; repeat split; (done || lia)].
  destruct (IH (now + elapsed) (sweep_push sweep (addr_to_string addr) inst) (found ++ [(addr, inst)]) m1)
    as (s' & f' & n' & m' & E & Ho & Hn & Hl & Hnow).
  - rewrite length_app. simpl. lia.
  - rewrite length_app. simpl. lia.
  - unfold sweep_push, found_devices. simpl. rewrite map_app, Hout. done.
  - unfold sweep_push. simpl. by rewrite map_app, Hex.
  - rewrite map_app. apply NoDup_app. split; [done|]. split; [|apply NoDup_singleton].
    intros x Hx ->%list_elem_of_singleton. by apply (Hfresh addr inst).
  - exists s', f', n', m'. repeat split; (done || lia).
Qed.

(** C36: a discovery always answers, within its time.  Whatever the network
    does, [browse] answers a list - never an error - of at most six devices, each
    a different instance, with the address it was seen at; and it answers less
    than a millisecond after the requested time at the latest, however many
    browses that took and however each of them ended. *)
Theorem browse_spec timeout_ms now (m : M) :
  0 <= timeout_ms < 2 ^ 32 -> 0 <= now -> now + from_millis timeout_ms <= Instant_MAX ->
  exists found now' m', browse timeout_ms now m = Some (Ok (found_devices found), now', m') /\
    (length found <= 6)%nat /\ NoDup (map snd found) /\
    now <= now' < now + from_millis timeout_ms + 1000.
Proof.
  intros Ht Hn Hmax. unfold browse, deadline_after. apply Z.leb_le in Hmax as Hle. rewrite Hle.
  destruct (browse_loop_spec (S MAX_SWEEP) (now + from_millis timeout_ms) now Sweep_default [] m)
    as (s & found & now' & m' & -> & -> & Hnd & Hlen & Hnow); [unfold MAX_SWEEP; simpl; lia | unfold MAX_SWEEP; simpl; lia | done | done | constructor|].
  exists found, now', m'. repeat split; try done; unfold from_millis in *; lia.
Qed.
End browse_facts.

(** ** An example network *)

(** Every device on it advertises; a browse that finds no new one waits for its
    whole budget. *)
Definition Network : Type := list (RsAddress * Z).

#[export] Instance Network_mdns : Mdns Network := {|
  browse_commissionable f ex ms net :=
    (match List.find (fun p => negb (bool_decide (p.2 ∈ ex))) net with
     | Some p => Some (5, Ok p)
     | None => Some (from_millis (Z.max 0 ms), Err (rs_error_of ENotFound))
     end, net) |}.

#[export] Instance Network_laws : MdnsLaws.
Proof.
  split.
  - intros f ex ms net t r. simpl. destruct (List.find _ net); intros [= <- <-]; unfold from_millis; lia.
  - intros f ex ms net t a i. simpl. destruct (List.find _ net) as [p|] eqn:E; [|done]. intros [= <- ->].
    apply List.find_some in E as [_ Hp]. simpl in Hp. by apply negb_true_iff, bool_decide_eq_false in Hp.
Qed.

Definition two_devices : Network :=
  [(Udp {| sa_host := HostV4 "10.0.0.2"; sa_port := 5540 |}, 18); (Udp {| sa_host := HostV6 "fe80::1%2"; sa_port := 5540 |}, 19)].

Lemma browse_spec_witness :
  exists now' net, browse 3000 7 two_devices =
      Some (Ok [{| dd_instance_name := "0000000000000012"; dd_address := "10.0.0.2:5540" |};
                {| dd_instance_name := "0000000000000013"; dd_address := "[fe80::1%2]:5540" |}], now', net) /\
    7 <= now' < 7 + 3000000 + 1000.
Proof.
  destruct (browse_spec 3000 7 two_devices) as (found & now' & net & E & _ & _ & Hnow);
    [lia | lia | unfold from_millis, Instant_MAX; lia|].
  exists 2899017, two_devices. split; [vm_compute; reflexivity|].
  replace (browse 3000 7 two_devices) with (Some (Ok (E := StackError) (T := list DiscoveredDevice)
    [{| dd_instance_name := "0000000000000012"; dd_address := "10.0.0.2:5540" |};
     {| dd_instance_name := "0000000000000013"; dd_address := "[fe80::1%2]:5540" |}], 2899017, two_devices)) in E
    by (vm_compute; reflexivity).
  injection E as _ <- _. exact Hnow.
Defined.
