(* ===== verification/Onboard.v ===== *)
(** * Commissioning a device

    [crates/stack/src/ops/commission.rs]: finding the device a code, a filter or
    an address describes, the two phases of commissioning, and what is recorded.
    Codes, certificates and the commissioning protocol are [rs-matter]'s, and so
    is the parser behind [SocketAddr::from_str] an interface here. *)

From S2P Require Import Prelude Json Fs Addr Storage StackApi Gen TlvJson Accumulate Ctx Interact DeviceOps Browse.

Definition BROWSE_TIMEOUT : Z := from_secs 30.

(** What is computed from bytes and text. *)
Class OnboardCodes : Type := {
  qr_parse : string -> Result (Z * CommissionableFilter) RsError;
  manual_parse : string -> Result (Z * CommissionableFilter) RsError;
  socket_parse : string -> Result SocketAddr string;
  ca_key_of : string -> Result string RsError;                    (* canon_secret_key *)
  rcac_fabric_id : string -> Result Z RsError;                    (* CertRef::get_fabric_id *)
  noc_generator : string -> string -> Z -> Result string RsError; (* create_with_fabric_id *)
}.

(** The two phases: over PASE up to AddNOC, then over CASE to completion; with
    the generator, the address, passcode and node id.  The first answers the
    fabric index the device gave us. *)
Class Commissioner (S : Type) : Type := {
  pase_commission : string -> RsAddress -> Z -> Z -> S -> Timed (Result Z RsError) * S;
  complete_via_case : string -> RsAddress -> Z -> S -> Timed (Result unit RsError) * S;
}.

Definition invalid_code (what : string) (e : RsError) : StackError :=
  StackError_new StackInvalidArguments ("invalid " +:+ what +:+ ": Error::" +:+ rse_display e).

Definition phase1_timeout : StackError :=
  StackError_new Timeout ("commissioning timed out after " +:+ show COMMISSION_TIMEOUT_SECS +:+
    "s (a previous failed attempt may hold the device's PASE session for ~60s)").

Definition phase2_timeout : StackError :=
  StackError_new Timeout ("CASE completion timed out after " +:+ show COMMISSION_TIMEOUT_SECS +:+
    "s; the device's 60s failsafe has expired, so it has rolled back the partial commissioning and may report Busy for ~60s").

(** [select(fut, timer)] with the outcome mapped. *)
Definition phase {A} (fut : Timed (Result A RsError)) (timeout : StackError) : StackResult A :=
  match within (from_secs COMMISSION_TIMEOUT_SECS) fut with
  | Some r => Prelude.map_err map_err r
  | None => Err timeout
  end.

Section onboard.
Context `{Base64} `{Tables} `{TxBuf} `{OnboardCodes} {S : Type} `{!ImDevices S} `{!Mdns S} `{!Commissioner S}.

Definition parse_pairing_code (code : string) : StackResult (Z * CommissionableFilter) :=
  if starts_with "MT:" code then Prelude.map_err (invalid_code "QR code") (qr_parse code)
  else Prelude.map_err (invalid_code "pairing code") (manual_parse code).

Definition parse_socket_addr (addr : string) : StackResult RsAddress :=
  Prelude.map_err (fun e => StackError_new StackInvalidArguments ("invalid ip_addr: " +:+ e)) (result_map Udp (socket_parse addr)).

(** The passcode with the filter to browse for, or with the address given. *)
Definition target_of (target : PaseTarget) : StackResult (Z * (CommissionableFilter + RsAddress)) :=
  match target with
  | Code code => result_map (fun '(p, f) => (p, inl f)) (parse_pairing_code (trim code))
  | OnNetwork passcode long_discriminator short_discriminator vendor_id =>
      Ok (passcode, inl {|
        cf_discriminator := long_discriminator; cf_short_discriminator := short_discriminator; cf_vendor_id := vendor_id;
        cf_product_id := None; cf_device_type := None;
        cf_commissioning_mode_only :=
          bool_decide (long_discriminator = None) && bool_decide (short_discriminator = None) &&
          bool_decide (vendor_id = None) |})
  | Address passcode addr => result_map (fun a => (passcode, inr a)) (parse_socket_addr addr)
  end.

Definition resolve_target (target : PaseTarget) (s : S) : StackResult (Z * RsAddress) * S :=
  match target_of target with
  | Err e => (Err e, s)
  | Ok (passcode, inr addr) => (Ok (passcode, addr), s)
  | Ok (passcode, inl filter) =>
      let '(r, _, s) := browse_one filter [] BROWSE_TIMEOUT s in
      (result_map (fun '(addr, _) => (passcode, addr)) r, s)
  end.

Definition make_generator (identity : ServerIdentity) : StackResult string :=
  let? ca_key := Prelude.map_err map_err (ca_key_of (id_ca_private_key identity)) in
  let noc_fabric_id := match rcac_fabric_id (id_rcac_tlv identity) with Ok f => f | Err _ => id_fabric_id identity end in
  Prelude.map_err map_err (noc_generator ca_key (id_rcac_tlv identity) noc_fabric_id).

Definition commission (identity : ServerIdentity) (req : CommissionRequest) (c : StackCtx) (s : S) :
    StackResult CommissionOutcome * StackCtx * S :=
  let '(target, s) := resolve_target (cr_target req) s in
  match target with
  | Err e => (Err e, c, s)
  | Ok (passcode, addr) =>
      match make_generator identity with
      | Err e => (Err e, c, s)
      | Ok generator =>
          let '(fut, s) := pase_commission generator addr passcode (cr_node_id req) s in
          match phase fut phase1_timeout with
          | Err e => (Err e, c, s)
          | Ok fabric_index =>
              let '(fut, s) := complete_via_case generator addr fabric_index s in
              match phase fut phase2_timeout with
              | Err e => (Err e, c, s)
              | Ok _ =>
                  let s := push_fabric_label (cr_node_id req) (cr_fabric_label req) s in
                  let address := addr_to_string addr in
                  (Ok {| co_device_fabric_index := fabric_index; co_address := address |},
                   with_addrs c (<[cr_node_id req := [ip_of address]]> (addrs c)), s)
              end
          end
      end
  end.
End onboard.

(** ** What commissioning promises *)

Section onboard_facts.
Context `{Base64} `{Tables} `{TxBuf} `{OnboardCodes} {S : Type} `{!ImDevices S} `{!Mdns S} `{!Commissioner S}.
Implicit Types (s : S) (c : StackCtx).

Definition not_arguments (e : StackError) : Prop := se_kind e <> StackInvalidArguments.

Lemma map_err_not_arguments e : not_arguments (map_err e).
Proof. unfold not_arguments. rewrite map_err_kind. by destruct (rse_code e). Qed.

Lemma mapped_not_arguments {A} (r : Result A RsError) e : Prelude.map_err map_err r = Err e -> not_arguments e.
Proof. destruct r as [|e0]; [done|]. intros [= <-]. apply map_err_not_arguments. Qed.

Lemma phase_Ok {A} (fut : Timed (Result A RsError)) timeout a :
  phase fut timeout = Ok a -> exists t, fut = Some (t, Ok a) /\ t <= from_secs COMMISSION_TIMEOUT_SECS.
Proof.
  unfold phase, within. destruct fut as [[t r]|]; [|done].
  destruct (Z.leb_spec t (from_secs COMMISSION_TIMEOUT_SECS)); [|done]. destruct r; [|done]. intros [= ->]. eauto.
Qed.

Lemma phase_Err {A} (fut : Timed (Result A RsError)) timeout e :
  phase fut timeout = Err e -> not_arguments timeout -> not_arguments e.
Proof. unfold phase. destruct (within _ fut) as [r|]; [by intros ?%mapped_not_arguments | by intros [= <-]]. Qed.

Lemma browse_one_not_arguments f ex b s r t s' :
  browse_one f ex b s = (r, t, s') -> match r with Ok _ => True | Err e => not_arguments e end.
Proof.
  unfold browse_one. destruct (browse_commissionable _ _ _ s) as [[[t0 r0]|] s1]; [|by intros [= <- _ _]].
  destruct (t0 <=? _); [|by intros [= <- _ _]]. intros [= <- _ _]. destruct r0 as [|e]; [done|]. apply map_err_not_arguments.
Qed.

(** A target that cannot be understood: a bad code or address. *)
Lemma target_of_Err target e : target_of target = Err e -> se_kind e = StackInvalidArguments.
Proof.
  destruct target as [code| |p addr]; simpl; [|done|].
  - unfold parse_pairing_code. destruct (starts_with _ _); [destruct (qr_parse _) as [[]|] | destruct (manual_parse _) as [[]|]];
      simpl; [done | by intros [= <-] | done | by intros [= <-]].
  - unfold parse_socket_addr. destruct (socket_parse addr); simpl; [done | by intros [= <-]].
Qed.

Lemma resolve_target_spec target s r s1 :
  resolve_target target s = (r, s1) ->
  match target_of target with
  | Err e => r = Err e /\ s1 = s
  | Ok _ => match r with Ok _ => True | Err e => not_arguments e end
  end.
Proof.
  unfold resolve_target. destruct (target_of target) as [[p [f|a]]|e]; [| by intros [= <- _] | by intros [= <- <-]].
  destruct (browse_one f [] BROWSE_TIMEOUT s) as [[r0 t] s2] eqn:Eb. intros [= <- <-].
  apply browse_one_not_arguments in Eb. by destruct r0 as [[]|].
Qed.

Lemma make_generator_Err identity e : make_generator identity = Err e -> not_arguments e.
Proof.
  unfold make_generator. destruct (ca_key_of _) as [k|e0]; simpl; [apply mapped_not_arguments|].
  intros [= <-]. apply map_err_not_arguments.
Qed.

(** C27: when a device counts as commissioned.  [commission] succeeds exactly
    in the documented order: the target is resolved, both phases settle, each
    within its 60 seconds, on the same address and with the identity's own
    generator, and only then is the device told our label - which cannot fail
    the commissioning any more - and its address recorded: the one the passcode
    was proven on, without brackets and port, under the requested node id and no
    other.  A failure of any kind records nothing; it reads as invalid arguments
    exactly when the code or address could not be understood, and then nothing
    at all was contacted.  Which of the other kinds a failure has is left open. *)
Theorem commission_spec identity req c s r c' s' :
  commission identity req c s = (r, c', s') ->
  match r with
  | Ok out => exists passcode addr generator t1 t2 s1 s2 s3,
      resolve_target (cr_target req) s = (Ok (passcode, addr), s1) /\ make_generator identity = Ok generator /\
      pase_commission generator addr passcode (cr_node_id req) s1 = (Some (t1, Ok (co_device_fabric_index out)), s2) /\
      complete_via_case generator addr (co_device_fabric_index out) s2 = (Some (t2, Ok tt), s3) /\
      t1 <= 60000000 /\ t2 <= 60000000 /\
      s' = push_fabric_label (cr_node_id req) (cr_fabric_label req) s3 /\
      co_address out = addr_to_string addr /\
      exists ip, c' = with_addrs c (<[cr_node_id req := [ip]]> (addrs c)) /\
        (forall sa, addr = Udp sa -> host_ok (sa_host sa) -> 0 <= sa_port sa < 2 ^ 16 -> ip = host_text (sa_host sa))
  | Err e =>
      c' = c /\ (se_kind e = StackInvalidArguments <-> exists e0, target_of (cr_target req) = Err e0) /\
      (se_kind e = StackInvalidArguments -> s' = s)
  end.
Proof.
  unfold commission. destruct (resolve_target (cr_target req) s) as [target s1] eqn:Et.
  pose proof (resolve_target_spec _ _ _ _ Et) as Hrt.
  assert (Hlate : forall e s', not_arguments e -> is_ok (target_of (cr_target req)) = true ->
    (se_kind e = StackInvalidArguments <-> exists e0, target_of (cr_target req) = Err e0) /\
    (se_kind e = StackInvalidArguments -> s' = s)).
  { intros e s0 Hna Hok. split; [|by intros ?%Hna]. split; [by intros ?%Hna|]. intros [e0 Ee]. by rewrite Ee in Hok. }
  destruct (target_of (cr_target req)) as [tg|e0] eqn:Etg.
  2: { destruct Hrt as [-> ->]. apply target_of_Err in Etg. intros [= <- <- <-]. split; [done|]. split; [|done].
       split; [eauto | done]. }
  destruct target as [[passcode addr]|e]; [|intros [= <- <- <-]; split; [done|]; by apply Hlate].
  destruct (make_generator identity) as [generator|e] eqn:Eg;
    [|intros [= <- <- <-]; split; [done|]; apply Hlate; [by eapply make_generator_Err | done]].
  destruct (pase_commission _ _ _ _ s1) as [fut1 s2] eqn:E1. destruct (phase fut1 phase1_timeout) as [idx|e] eqn:P1;
    [|intros [= <- <- <-]; split; [done|]; apply Hlate; [by eapply phase_Err | done]].
  destruct (complete_via_case _ _ _ s2) as [fut2 s3] eqn:E2. destruct (phase fut2 phase2_timeout) as [[]|e] eqn:P2;
    [|intros [= <- <- <-]; split; [done|]; apply Hlate; [by eapply phase_Err | done]].
  apply phase_Ok in P1 as (t1 & -> & Ht1). apply phase_Ok in P2 as (t2 & -> & Ht2).
  intros [= <- <- <-]. exists passcode, addr, generator, t1, t2, s1, s2, s3. do 8 (split; [done|]).
  exists (ip_of (addr_to_string addr)). split; [done|]. intros sa -> Hh Hp. unfold ip_of. simpl.
  by rewrite split_ip_port_socket.
Qed.

(** All a commissioning does to the context. *)
Lemma commission_records identity req c s r c' s' :
  commission identity req c s = (r, c', s') ->
  c' = match r with Ok out => with_addrs c (<[cr_node_id req := [ip_of (co_address out)]]> (addrs c)) | Err _ => c end.
Proof.
  unfold commission. destruct (resolve_target _ s) as [[[p a]|] s1]; [|by intros [= <- <- _]].
  destruct (make_generator identity); [|by intros [= <- <- _]].
  destruct (pase_commission _ _ _ _ s1) as [f1 s2]. destruct (phase f1 _); [|by intros [= <- <- _]].
  destruct (complete_via_case _ _ _ s2) as [f2 s3]. destruct (phase f2 _); by intros [= <- <- _].
Qed.
End onboard_facts.

(** ** An example: a device found by a QR code *)

#[local] Instance ToyOnboardCodes : OnboardCodes := {|
  qr_parse code := Ok (20202021, commissioning_mode); manual_parse code := Err (rs_error_of EInvalidData);
  socket_parse a := Err "no"; ca_key_of k := Ok k; rcac_fabric_id r := Err (rs_error_of EInvalidData);
  noc_generator k r f := Ok (k +:+ show f) |}.

(** The state counts the steps the device was taken through. *)
#[local] Instance CountingDevices : ImDevices nat := {|
  im_read _ _ _ n := (None, S n); im_write _ _ _ _ _ n := (None, S n); im_invoke _ _ _ _ _ _ n := (None, S n) |}.

#[local] Instance CountingMdns : Mdns nat := {|
  browse_commissionable f ex ms n := (Some (5, Ok (Udp {| sa_host := HostV6 "fe80::1%2"; sa_port := 5540 |}, 18)), S n) |}.

#[local] Instance CountingCommissioner : Commissioner nat := {|
  pase_commission g a p node n := (Some (2000000, Ok 3), S n);
  complete_via_case g a i n := (Some (60000000, Ok tt), S n) |}.

Definition bench_identity : ServerIdentity :=
  {| id_version := 1; id_fabric_id := 1; id_vendor_id := 65521; id_controller_node_id := 112233;
     id_compressed_fabric_id := 2; id_ca_private_key := "key"; id_rcac_tlv := "root";
     id_controller_private_key := "own"; id_controller_noc_tlv := "noc"; id_ipk := "ipk" |}.

Definition bench_request (code : string) : CommissionRequest :=
  {| cr_node_id := 7; cr_target := Code code; cr_fabric_label := "Home" |}.

Definition bench_commission (code : string) : StackResult CommissionOutcome * StackCtx * nat :=
  commission (H := HexBase64) (H0 := EmptyTables) (H1 := RoomyBuf) bench_identity (bench_request code) (StackCtx_new 1) 0%nat.

Lemma commission_spec_witness :
  (let '(r, c, n) := bench_commission " MT:ABC" in
   r = Ok {| co_device_fabric_index := 3; co_address := "[fe80::1%2]:5540" |} /\ n = 3%nat /\
   exists ip, c = with_addrs (StackCtx_new 1) (<[7 := [ip]]> (addrs (StackCtx_new 1)))) /\
  (let '(r, c, n) := bench_commission "123" in n = 0%nat /\ c = StackCtx_new 1).
Proof.
  split.
  - destruct (bench_commission " MT:ABC") as [[r c] n] eqn:E.
    pose proof (commission_spec (H := HexBase64) (H0 := EmptyTables) (H1 := RoomyBuf) bench_identity (bench_request " MT:ABC")
      (StackCtx_new 1) 0%nat r c n E) as Hspec.
    pose proof E as E'. vm_compute in E'. injection E' as <- _ <-. split; [reflexivity|]. split; [reflexivity|].
    destruct Hspec as (? & ? & ? & ? & ? & ? & ? & ? & _ & _ & _ & _ & _ & _ & _ & _ & ip & Hc & _). exists ip. exact Hc.
  - destruct (bench_commission "123") as [[r c] n] eqn:E.
    pose proof (commission_spec (H := HexBase64) (H0 := EmptyTables) (H1 := RoomyBuf) bench_identity (bench_request "123")
      (StackCtx_new 1) 0%nat r c n E) as Hspec.
    pose proof E as E'. vm_compute in E'. injection E' as <- _ <-. split; [reflexivity|]. apply Hspec.
Defined.
