(* ===== verification/StackHandle.v ===== *)
(** * The stack thread as the controller sees it

    [crates/stack/src/lib.rs] ([StackHandle], an implementation of the [Stack]
    trait) and the request dispatch of [crates/stack/src/runtime.rs].  A call
    queues a request and awaits its reply; here a request runs to its end before
    the next one, and supervisor steps and reports come in between calls.  [Ops] has
    the requests await by await, [Executor] has them side by side, and
    [Executor.calls_are_schedules] makes a call of this file one of the executor's
    schedules. *)

From S2P Require Import Prelude Json Wire Prog Fs Addr Storage Registry StackApi NodeManager Controller Commands Sched CommandFacts.
From S2P Require Import Gen TlvJson Accumulate Ctx Interact Reports Supervisor SupervisorFacts Identity DeviceOps Window Browse Onboard.

Definition THREAD_DOWN : string := "stack thread is down".
Definition thread_down : StackError := StackError_new Sdk THREAD_DOWN.

(** What the thread draws from its surroundings: a random generator, or the
    error of asking for one, and the current instant. *)
Class Surroundings (W R : Type) : Type := {
  crypto_rand : W -> Result R RsError * W;
  instant_now : W -> Z;
}.

(** [sys_open]: the request loop still reads; [th_joinable]: the join handle has
    not been taken. *)
Record Thread (W F : Type) : Type := {
  th_sys : Sys;
  th_world : W;
  th_fabrics : F;
  th_joinable : bool;
}.
Arguments th_sys {W F}. Arguments th_world {W F}. Arguments th_fabrics {W F}. Arguments th_joinable {W F}.

Section thread.
Context `{Base64} `{Tables} `{TxBuf} `{OnboardCodes} `{PaseCrypto} `{CodeFormats} `{HashOrder}.
Context {W F R : Type} `{!ImDevices W} `{!Mdns W} `{!Commissioner W} `{!FabricTable F} `{!Rng R} `{!Surroundings W R}.
Context (identity : ServerIdentity) (window_draws : nat).
Implicit Types t : Thread W F.

Definition with_sys t (s : Sys) : Thread W F :=
  {| th_sys := s; th_world := th_world t; th_fabrics := th_fabrics t; th_joinable := th_joinable t |}.
Definition with_world t (w : W) : Thread W F :=
  {| th_sys := th_sys t; th_world := w; th_fabrics := th_fabrics t; th_joinable := th_joinable t |}.
Definition with_fabrics t (f : F) : Thread W F :=
  {| th_sys := th_sys t; th_world := th_world t; th_fabrics := f; th_joinable := th_joinable t |}.

(** [take_thread], and joining it. *)
Definition take_thread t : Thread W F :=
  {| th_sys := th_sys t; th_world := th_world t; th_fabrics := th_fabrics t; th_joinable := false |}.

Definition on_world {A} t (r : A * W) : A * Thread W F := (r.1, with_world t r.2).

(** [request_loop]: three requests inline, the others by [handle_request].  A
    generator that yields [window_draws] forbidden passcodes in a row never
    answers; the caller is given what a reply that never comes amounts to. *)
Definition run_request {B} (op : StackOp B) t : B * Thread W F :=
  let s := th_sys t in
  let c := sys_ctx s in
  let w := th_world t in
  match op with
  | Commission req =>
      let '(r, c, w) := commission identity req c w in
      (r, with_sys (with_world t w) (with_ctx s c (sys_tasks s)))
  | ReadAttributes n paths filtered => on_world t (read_attributes n paths filtered w)
  | WriteAttribute n endpoint cl attribute value => on_world t (write_attribute n endpoint cl attribute value w)
  | Invoke n endpoint cl command_name payload timed_ms => on_world t (invoke n endpoint cl command_name payload timed_ms w)
  | Interview n => on_world t (interview n w)
  | OpenCommissioningWindow n timeout_secs =>
      let '(rand, w) := crypto_rand w in
      match open_window window_draws rand n timeout_secs w with
      | Some r => on_world t r
      | None => (Err thread_down, with_world t w)
      end
  | DeviceFabrics n => on_world t (device_fabrics n w)
  | RemoveDeviceFabric n fabric_index => on_world t (remove_device_fabric n fabric_index w)
  | UpdateFabricLabel label =>
      let '(r, f, w) := update_fabric_label c label (th_fabrics t) w in (r, with_fabrics (with_world t w) f)
  | StartSupervisor n => (tt, with_sys t (start_supervisor s n))
  | StopSupervisor n => (tt, with_sys t (stop_supervisor s n))
  | NodeAddresses n => (Ok (unwrap_or [] (addrs c !! n)), t)
  | BrowseCommissionable timeout_ms =>
      match browse timeout_ms (instant_now w) w with
      | Some (r, _, w) => (r, with_world t w)
      | None => (Err thread_down, t)
      end
  | Shutdown => (tt, take_thread (with_sys t (shutdown s)))
  end.

(** [send] on a closed channel, and what each method makes of it. *)
Definition request_refused {B} (op : StackOp B) t : B * Thread W F :=
  match op with
  | StartSupervisor _ | StopSupervisor _ => (tt, t)
  | Shutdown => (tt, take_thread t)
  | Commission _ | ReadAttributes _ _ _ | WriteAttribute _ _ _ _ _ | Invoke _ _ _ _ _ _ | Interview _
  | OpenCommissioningWindow _ _ | DeviceFabrics _ | RemoveDeviceFabric _ _ | UpdateFabricLabel _ | NodeAddresses _
  | BrowseCommissionable _ => (Err thread_down, t)
  end.

Definition handle_call (B : Type) (op : StackOp B) t : B * Thread W F :=
  if sys_open (th_sys t) then run_request op t else request_refused op t.

#[export] Instance StackHandle_stack : Stack (Thread W F) := {| stack_call := handle_call |}.

(** ** What the handle promises *)

(** A fresh thread, calls through the handle, and what the executor does in
    between: resuming and dropping supervisors, answering reports. *)
Definition internal (l : Step) : Prop :=
  match l with Wakeup _ _ _ | DropFuture _ | Report _ _ _ _ => True | _ => False end.

Inductive Running (fab : Z) : Thread W F -> Prop :=
| run_spawned w f j : Running fab {| th_sys := sys_init fab; th_world := w; th_fabrics := f; th_joinable := j |}
| run_call t B (op : StackOp B) : Running fab t -> Running fab (stack_call B op t).2
| run_internal t l s : Running fab t -> internal l -> sys_step l (th_sys t) = Some s -> Running fab (with_sys t s).

(** What a call that was answered [b] does to supervisors and context, as steps of
    the supervision system. *)
Definition call_label {B} (op : StackOp B) (b : B) : list Step :=
  match op in StackOp B return B -> list Step with
  | StartSupervisor n => fun _ => [Start n]
  | StopSupervisor n => fun _ => [Stop n]
  | Shutdown => fun _ => [ShutdownRequest]
  | Commission req => fun r =>
      match r with Ok out => [Commissioned (cr_node_id req) [ip_of (co_address out)]] | Err _ => [] end
  | ReadAttributes _ _ _ | WriteAttribute _ _ _ _ _ | Invoke _ _ _ _ _ _ | Interview _ | OpenCommissioningWindow _ _
  | DeviceFabrics _ | RemoveDeviceFabric _ _ | UpdateFabricLabel _ | NodeAddresses _ | BrowseCommissionable _ => fun _ => []
  end b.

Lemma call_simulated B (op : StackOp B) t :
  sys_open (th_sys t) = true -> sys_run (call_label op (handle_call B op t).1) (th_sys t) = Some (th_sys (handle_call B op t).2).
Proof.
  intros Ho. unfold handle_call. rewrite Ho. destruct op; simpl; rewrite ?Ho; try done.
  - destruct (commission identity req (sys_ctx (th_sys t)) (th_world t)) as [[r c] w] eqn:Ec.
    pose proof (commission_records _ _ _ _ _ _ _ Ec) as Hc. destruct r as [out|e]; simpl; rewrite Hc; by destruct (th_sys t).
  - destruct (crypto_rand (th_world t)) as [rand w]. by destruct (open_window _ _ _ _ w) as [[]|].
  - by destruct (update_fabric_label _ _ _ _) as [[]].
  - by destruct (browse _ _ _) as [[[]]|].
Qed.

Lemma closed_call B (op : StackOp B) t : sys_open (th_sys t) = false -> th_sys (handle_call B op t).2 = th_sys t.
Proof. intros Ho. unfold handle_call. rewrite Ho. by destruct op. Qed.

Lemma call_steps B (op : StackOp B) t :
  exists ls, Forall (fun l => ~ internal l) ls /\ sys_run ls (th_sys t) = Some (th_sys (handle_call B op t).2).
Proof.
  destruct (sys_open (th_sys t)) eqn:Ho; [|exists []; split; [constructor | by rewrite closed_call]].
  exists (call_label op (handle_call B op t).1). split; [|by apply call_simulated].
  destruct op; simpl; try by repeat constructor; intros []. case_match; by repeat constructor; intros [].
Qed.

Lemma running_steps fab t : Running fab t -> exists ls, sys_run ls (sys_init fab) = Some (th_sys t).
Proof.
  induction 1 as [w f j|t B op _ [ls IH]|t l s _ [ls IH] _ E]; [by exists []| |].
  - destruct (call_steps B op t) as (ls' & _ & E). exists (ls ++ ls'). by rewrite sys_run_app, IH.
  - exists (ls ++ [l]). rewrite sys_run_app, IH. simpl. by rewrite E.
Qed.

Lemma running_inv fab t : Running fab t -> Inv (th_sys t).
Proof. intros [ls Hls]%running_steps. by apply (sys_run_inv _ _ _ (init_inv fab) Hls). Qed.

(** C26: each call does to the supervisors what it is documented to do, and
    nothing else.  While the thread runs, starting or stopping a supervisor and
    shutting down are the corresponding steps of the supervision system, a
    commissioning that succeeds records the device's address and one that fails
    nothing, and no other call touches the thread's context or tasks; the three
    control calls touch neither devices nor fabrics.  Once the thread is down no
    call changes anything of it but that it has been joined.  So whatever the
    controller calls and whatever happens on the thread in between, the thread is
    in a state the supervision system reaches by its own steps. *)
Theorem handle_refines_supervision fab t :
  Running fab t ->
  (exists ls, sys_run ls (sys_init fab) = Some (th_sys t)) /\
  forall B (op : StackOp B), let (b, t') := stack_call B op t in
    if sys_open (th_sys t) then
      sys_run (call_label op b) (th_sys t) = Some (th_sys t') /\
      (match op with StartSupervisor _ | StopSupervisor _ | Shutdown => True | _ => False end ->
        th_world t' = th_world t /\ th_fabrics t' = th_fabrics t)
    else th_sys t' = th_sys t /\ th_world t' = th_world t /\ th_fabrics t' = th_fabrics t.
Proof.
  intros Hr. split; [by apply running_steps|]. intros B op. pose proof (call_simulated B op t) as Hs. pose proof (closed_call B op t) as Hc.
  destruct (stack_call B op t) as [b t'] eqn:E. change (handle_call B op t = (b, t')) in E. rewrite E in Hs, Hc. cbn [fst snd] in Hs, Hc.
  unfold handle_call in E. destruct (sys_open (th_sys t)).
  - split; [by apply Hs|]. destruct op; try done; intros _; by injection E as _ <-.
  - split; [by apply Hc|]. destruct op; by injection E as _ <-.
Qed.

(** How a request that was not accepted is answered. *)
Definition refused {B} (op : StackOp B) : B -> Prop :=
  match op with
  | StartSupervisor _ | StopSupervisor _ | Shutdown => fun _ => True
  | Commission _ | ReadAttributes _ _ _ | WriteAttribute _ _ _ _ _ | Invoke _ _ _ _ _ _ | Interview _
  | OpenCommissioningWindow _ _ | DeviceFabrics _ | RemoveDeviceFabric _ _ | UpdateFabricLabel _ | NodeAddresses _
  | BrowseCommissionable _ => fun r => r = Err thread_down
  end.

(** Shutting down ends everything, once.  After [shutdown] no
    supervisor is live, the handle is joined, and every later request, of any
    kind, is answered that the thread is down and has no effect on devices,
    fabrics or the context - a second [shutdown] included. *)
Theorem shutdown_is_final fab t :
  Running fab t ->
  let t1 := (stack_call _ Shutdown t).2 in
  sys_open (th_sys t1) = false /\ th_joinable t1 = false /\
  (sys_open (th_sys t) = true ->
    supervisors (sys_ctx (th_sys t1)) = ∅ /\
    forall task k, sys_tasks (th_sys t1) !! task = Some k -> tk_cancelled k = true) /\
  forall B (op : StackOp B), refused op (stack_call B op t1).1 /\ (stack_call B op t1).2 = t1.
Proof.
  intros Hr t1. assert (Hclosed : sys_open (th_sys t1) = false).
  { unfold t1. simpl. unfold handle_call. by destruct (sys_open (th_sys t)) eqn:Ho. }
  assert (Hj : th_joinable t1 = false).
  { unfold t1. simpl. unfold handle_call. by destruct (sys_open (th_sys t)). }
  split; [done|]. split; [done|]. split.
  - intros Ho. assert (Hr1 : Running fab t1) by by apply run_call.
    assert (Hsup : supervisors (sys_ctx (th_sys t1)) = ∅).
    { unfold t1. simpl. unfold handle_call. by rewrite Ho. }
    split; [done|]. intros task k Hk. destruct (tk_cancelled k) eqn:Ec; [done|].
    assert (Hx : supervisors (sys_ctx (th_sys t1)) !! tk_node k = Some task).
    { apply (inv_registry _ (running_inv fab t1 Hr1)). by exists k. }
    by rewrite Hsup, lookup_empty in Hx.
  - intros B op. simpl. unfold handle_call. rewrite Hclosed. destruct t1 as [s w f j]. simpl in *. subst j. by destruct op.
Qed.

(** ** With the controller on top *)

Context {L : Type} `{SerdeJson} `{NodeDate} `{Processes} `{!LogLevels L} (c : Ctrl).

(** C22: removing a node removes it everywhere.  With the stack thread
    running below the controller, and nothing else running meanwhile,
    [remove_node] for a known node answers success; right afterwards the registry does not have the node, its device was told
    to drop our fabric (whether or not it could be reached), none of its
    supervisors is live, and the thread holds no address, no event mark and no
    half-received report of it.  (What a report does that comes in before the
    cancelled future is dropped is in [SupervisorFacts.removed_node_leaves_nothing].) *)
Theorem remove_node_everywhere fab (args : Map) (n : Z) (e : NodeEntry) (w : World (Thread W F) L) :
  Running fab (w_stack w) -> sys_open (th_sys (w_stack w)) = true ->
  require_u64 args "node_id" = Ok n -> bt_get (w_registry w) n = Some e ->
  let (r, w') := run_ctrl (Nodes.remove_node c args) w in
  let t := w_stack w' in
  r = Ok VNull /\ bt_get (w_registry w') n = None /\
  th_world t = (remove_device_fabric n (nr_device_fabric_index (ne_record e)) (th_world (w_stack w))).2 /\
  supervisors (sys_ctx (th_sys t)) !! n = None /\
  (forall task k, sys_tasks (th_sys t) !! task = Some k -> tk_node k = n -> tk_cancelled k = true) /\
  addrs (sys_ctx (th_sys t)) !! n = None /\ last_event (sys_ctx (th_sys t)) !! n = None /\
  pending_reports (sys_ctx (th_sys t)) !! n = None.
Proof.
  intros Hr Ho Hargs Hn. pose proof (remove_node_spec c args n e w Hargs Hn) as Hspec. cbn zeta in Hspec.
  destruct (run_ctrl (Nodes.remove_node c args) w) as [r w']. destruct Hspec as (-> & Hstack & Hreg & _).
  set (t0 := w_stack w) in *. assert (E : w_stack w' = with_world (with_sys t0 (stop_supervisor (th_sys t0) n))
    (remove_device_fabric n (nr_device_fabric_index (ne_record e)) (th_world t0)).2).
  { rewrite Hstack. simpl. unfold handle_call at 2. rewrite Ho. simpl. unfold handle_call. simpl. by rewrite Ho. }
  cbn zeta. split; [done|]. split; [by rewrite Hreg, bt_get_remove_eq|]. rewrite E. split; [done|].
  assert (Hinv : Inv (stop_supervisor (th_sys t0) n)) by by eapply stop_inv, running_inv.
  assert (Hsup : supervisors (sys_ctx (stop_supervisor (th_sys t0) n)) !! n = None) by (simpl; apply lookup_delete_eq).
  split; [exact Hsup|]. split.
  - intros task k Hk Hkn. destruct (tk_cancelled k) eqn:Ec; [done|].
    assert (Hx : supervisors (sys_ctx (stop_supervisor (th_sys t0) n)) !! n = Some task).
    { apply (inv_registry _ Hinv). by exists k. }
    by rewrite Hsup in Hx.
  - simpl. unfold forget_node, forget. simpl. by rewrite !lookup_delete_eq.
Qed.
End thread.

(** ** An example: a thread over the counting device *)

Section example.
#[local] Existing Instances HexBase64 EmptyTables RoomyBuf ToyOnboardCodes CountingDevices CountingMdns CountingCommissioner
  ToyPase ToyCodes ScriptRng TreeJson demo_processes demo_date.

Definition NoLabel : FabricTable (list string) := {| update_label idx label log := (Ok tt, log ++ [label]) |}.
Definition KeyOrder : HashOrder := {| hash_keys m := (map_to_list m).*1; hash_keys_perm m := reflexivity _ |}.
Definition Quiet : Surroundings nat (list Z) := {| crypto_rand n := (Ok [7], n); instant_now n := 0 |}.
#[local] Existing Instances NoLabel KeyOrder Quiet.

#[local] Instance bench_stack : Stack (Thread nat (list string)) := StackHandle_stack (R := list Z) bench_identity 5.

Definition spawned : Thread nat (list string) :=
  {| th_sys := sys_init 1; th_world := 0%nat; th_fabrics := []; th_joinable := true |}.

Definition supervising : Thread nat (list string) := (stack_call _ (StartSupervisor 7) spawned).2.

Lemma supervising_running : Running (R := list Z) bench_identity 5 1 supervising.
Proof. apply (run_call bench_identity 5 1 spawned unit (StartSupervisor 7)). apply run_spawned. Qed.

Lemma handle_refines_supervision_witness :
  let t' := (stack_call _ (StopSupervisor 7) supervising).2 in
  sys_run [Stop 7] (th_sys supervising) = Some (th_sys t') /\ supervisors (sys_ctx (th_sys supervising)) !! 7 = Some 0%nat /\
  supervisors (sys_ctx (th_sys t')) !! 7 = None.
Proof.
  intros t'. split; [|split; vm_compute; reflexivity].
  destruct (handle_refines_supervision (R := list Z) bench_identity 5 1 supervising supervising_running) as [_ Hcall].
  exact (proj1 (Hcall unit (StopSupervisor 7))).
Defined.

Lemma shutdown_is_final_witness :
  let t1 := (stack_call _ Shutdown supervising).2 in
  (stack_call _ (Interview 7) t1).1 = Err thread_down /\
  forall task k, sys_tasks (th_sys t1) !! task = Some k -> tk_cancelled k = true.
Proof.
  destruct (shutdown_is_final (R := list Z) bench_identity 5 1 supervising supervising_running) as (_ & _ & Hall & Hdown).
  split; [exact (proj1 (Hdown _ (Interview 7)))|]. apply Hall. reflexivity.
Defined.

Definition bench_world : World (Thread nat (list string)) (string * option string) :=
  {| w_shared := w_shared demo_world; w_config := w_config demo_world; w_label_owner := None; w_log := w_log demo_world;
     w_stack := supervising; w_held := [] |}.

Lemma remove_node_everywhere_witness :
  let (r, w') := run_ctrl (Nodes.remove_node demo_ctrl [("node_id", json_u 7)]) bench_world in
  r = Ok VNull /\ supervisors (sys_ctx (th_sys (w_stack w'))) !! 7 = None.
Proof.
  pose proof (remove_node_everywhere (R := list Z) bench_identity 5 demo_ctrl 1 [("node_id", json_u 7)] 7
    (new_entry (demo_record 7)) bench_world supervising_running eq_refl eq_refl eq_refl) as HW.
  fold bench_stack in HW.
  destruct (run_ctrl (Nodes.remove_node demo_ctrl [("node_id", json_u 7)]) bench_world) as [r w'].
  split; [apply HW | apply HW].
Defined.
End example.
