(* ===== verification/System.v ===== *)
(** * From the stack thread to the served nodes

    The supervisors ([crates/stack/src/supervisor.rs]), the report handler
    ([reports.rs]) and the node manager ([crates/controller/src/node_manager.rs])
    together: what the registry serves about a node is what its subscription
    delivered. *)

From S2P Require Import Prelude Json Wire Prog Fs Storage Registry StackApi.
From S2P Require Import NodeManager Gen TlvJson Accumulate Ctx Reports Supervisor SupervisorFacts.

Section served.
Context `{SerdeJson} `{NodeDate} (storage : Storage).

(** What the consumer loop takes from its two queues. *)
Inductive Input : Type :=
| Taken (ev : StackEvent)
| Expired (node_id : Z).

Definition manage (st : Shared * Timers) (i : Input) : Shared * Timers :=
  match i with
  | Taken ev => handle_event storage ev st.1 st.2
  | Expired node_id => handle_grace_expiry node_id st.1 st.2
  end.

Definition taken (i : Input) : option StackEvent := match i with Taken ev => Some ev | Expired _ => None end.

(** What is served about a node: its availability and its attributes. *)
Definition served (n : Z) (s : Shared) : option (bool * Map) :=
  (fun e => (ne_available e, nr_attributes (ne_record e))) <$> bt_get (sh_registry s) n.

Definition apply_changes (changes : list (string * Value)) (m : Map) : Map :=
  fold_left (fun m kv => bt_insert kv.1 kv.2 m) changes m.

(** What one event of the node makes of it. *)
Definition advance (cur : bool * Map) (ev : StackEvent) : bool * Map :=
  match ev with
  | NodeState _ (Connected _) => (true, cur.2)
  | PrimingSnapshot _ m => (cur.1, m)
  | AttributesChanged _ changes => (cur.1, apply_changes changes cur.2)
  | NodeState _ Reconnecting | NodeEvent _ _ => cur
  end.

Definition update_event (e : StackEvent) : bool :=
  match e with AttributesChanged _ _ | NodeEvent _ _ => true | _ => false end.

Definition is_connected (n : Z) (e : StackEvent) : bool :=
  match e with NodeState m (Connected _) => m =? n | _ => false end.

(** ** The node manager, event by event *)

Lemma served_emit id s n : served n (emit_node_updated id s) = served n s.
Proof. unfold emit_node_updated. by destruct (node_data (sh_registry s) id). Qed.

Lemma served_persist id s n : served n (persist storage id s) = served n s.
Proof. unfold persist. by destruct (Registry.snapshot_record (sh_registry s) id). Qed.

Lemma served_update {R} id (f : NodeEntry -> R * NodeEntry) s n cur :
  served n s = Some cur ->
  served n (set_registry (Registry.with_entry id f (sh_registry s)).2 s) =
  if decide (id = n) then (fun e => (ne_available (f e).2, nr_attributes (ne_record (f e).2))) <$> bt_get (sh_registry s) n
  else Some cur.
Proof.
  unfold served, Registry.with_entry. intros Hs. simpl. destruct (decide (id = n)) as [->|Hne].
  - destruct (bt_get (sh_registry s) n) as [e|]; [|done]. simpl. destruct (f e) as [x e']. simpl. by rewrite bt_get_insert_eq.
  - destruct (bt_get (sh_registry s) id) as [e|]; [|done]. destruct (f e) as [x e']. simpl. by rewrite bt_get_insert_ne.
Qed.

Lemma served_available id a s n cur :
  served n s = Some cur ->
  served n (let '(changed, r) := Registry.set_available id a (sh_registry s) in
            match changed with Some true => emit_node_updated id (set_registry r s) | _ => set_registry r s end) =
  Some (if decide (id = n) then (a, cur.2) else cur).
Proof.
  intros Hs. set (f := fun e => (negb (eqb (ne_available e) a), {| ne_record := ne_record e; ne_available := a |})).
  assert (Hu := served_update id f s n cur Hs). change (Registry.set_available id a (sh_registry s)) with
    (Registry.with_entry id f (sh_registry s)). destruct (Registry.with_entry id f (sh_registry s)) as [changed r]. cbn [snd] in Hu.
  assert (E : served n (match changed with Some true => emit_node_updated id (set_registry r s) | _ => set_registry r s end)
              = served n (set_registry r s)) by (destruct changed as [[]|]; [apply served_emit | done | done]).
  rewrite E, Hu. unfold served in Hs. case_decide; [|done]. subst. destruct (bt_get (sh_registry s) n) as [e|]; [|done].
  simpl in *. by injection Hs as <-.
Qed.

Lemma served_changes id changes s n cur :
  served n s = Some cur ->
  served n (fold_left (apply_change id) changes s) =
  Some (if decide (id = n) then (cur.1, apply_changes changes cur.2) else cur).
Proof.
  revert s cur. induction changes as [|[path value] changes IH]; intros s cur Hs; simpl.
  { case_decide; [by destruct cur | done]. }
  pose proof (served_update id (insert_attribute path value) s n cur Hs) as Hu. case_decide as Hd.
  - subst id. unfold served in Hs. destruct (bt_get (sh_registry s) n) as [e|] eqn:Eg; [|done]. injection Hs as <-.
    rewrite (IH _ (ne_available e, bt_insert path value (nr_attributes (ne_record e)))); [done|].
    exact Hu.
  - rewrite (IH _ cur); [done | exact Hu].
Qed.

Lemma handle_event_served ev s tm n cur :
  served n s = Some cur ->
  served n (handle_event storage ev s tm).1 = Some (if about n ev then advance cur ev else cur).
Proof.
  intros Hs. assert (Hin : forall m, m = n -> Registry.contains (sh_registry s) m = true).
  { intros m ->. apply contains_spec. unfold served in Hs. by destruct (bt_get (sh_registry s) n). }
  destruct ev as [m st|m attrs|m changes|m e]; simpl; (destruct (Z.eqb_spec m n) as [Hm|Hm]; [rewrite (Hin m Hm)|]).
  - destruct st as [i|]; simpl; [|by destruct (tm_grace tm !! m)].
    pose proof (served_available m true s n cur Hs) as Ha. destruct (Registry.set_available m true _) as [ch r]. cbn [fst].
    rewrite Ha. by rewrite decide_True.
  - destruct (Registry.contains _ m); [|done]. destruct st as [i|]; simpl; [|by destruct (tm_grace tm !! m)].
    pose proof (served_available m true s n cur Hs) as Ha. destruct (Registry.set_available m true _) as [ch r]. cbn [fst].
    rewrite Ha. by rewrite decide_False.
  - simpl. rewrite served_emit, served_persist, (served_update m _ s n cur Hs), decide_True by done.
    unfold served in Hs. destruct (bt_get (sh_registry s) n); [|done]. by injection Hs as <-.
  - destruct (Registry.contains _ m); [|done]. simpl.
    by rewrite served_emit, served_persist, (served_update m _ s n cur Hs), decide_False.
  - simpl. rewrite served_persist, (served_changes m _ s n cur Hs). by rewrite decide_True.
  - destruct (Registry.contains _ m); [|done]. simpl. rewrite served_persist, (served_changes m _ s n cur Hs).
    by rewrite decide_False.
  - done.
  - by destruct (Registry.contains _ m).
Qed.

Lemma grace_expiry_served m s tm n cur :
  served n s = Some cur ->
  exists b, served n (handle_grace_expiry m s tm).1 = Some (b, cur.2) /\ (m <> n -> b = cur.1).
Proof.
  intros Hs. unfold handle_grace_expiry. destruct (tm_grace tm !! m); [|by exists cur.1; destruct cur].
  pose proof (served_available m false s n cur Hs) as Ha. destruct (Registry.set_available m false _) as [ch r]. cbn [fst].
  rewrite Ha. case_decide; [by exists false | by exists cur.1; destruct cur].
Qed.

(** Taking inputs none of which is an expiry for the node. *)
Lemma manage_served ins st n cur :
  served n st.1 = Some cur -> Expired n ∉ ins ->
  served n (fold_left manage ins st).1 = Some (fold_left advance (List.filter (about n) (omap taken ins)) cur).
Proof.
  revert st cur. induction ins as [|i ins IH]; intros st cur Hs Hno; [done|]. apply not_elem_of_cons in Hno as [Hi Hno].
  destruct i as [ev|m]; cbn [fold_left manage omap list_omap taken List.filter].
  - pose proof (handle_event_served ev st.1 st.2 n cur Hs) as He. rewrite (IH _ _ He Hno). by destruct (about n ev).
  - destruct (grace_expiry_served m st.1 st.2 n cur Hs) as (b & He & Hb).
    rewrite (IH _ _ He Hno). rewrite (Hb ltac:(congruence)). by destruct cur.
Qed.

Lemma manage_known ins st n cur :
  served n st.1 = Some cur -> exists cur', served n (fold_left manage ins st).1 = Some cur'.
Proof.
  revert st cur. induction ins as [|[ev|m] ins IH]; intros st cur Hs; cbn [fold_left manage]; [eauto| |].
  - pose proof (handle_event_served ev st.1 st.2 n cur Hs) as He. by eapply IH.
  - destruct (grace_expiry_served m st.1 st.2 n cur Hs) as (b & He & _). by eapply IH.
Qed.
End served.

(** ** The protocol, read backwards *)

(** The part of a list after the last element with a property. *)
Lemma last_split {A} (p : A -> bool) l :
  forallb (fun a => negb (p a)) l = true \/
  exists pre x post, l = pre ++ x :: post /\ p x = true /\ forallb (fun a => negb (p a)) post = true.
Proof.
  induction l as [|a l [IH|(pre & x & post & -> & Hx & Hp)]]; [by left| |].
  - simpl. destruct (p a) eqn:E; [right; by exists [], a, l | left; by rewrite IH].
  - right. by exists (a :: pre), x, post.
Qed.

Lemma protocol_None n evs : fold_left (protocol_step n) evs None = None.
Proof. induction evs as [|e evs IH]; [done|]. simpl. unfold protocol_step at 2. by destruct (about n e). Qed.

Definition unconnected (n : Z) (evs : list StackEvent) : Prop := forallb (fun e => negb (is_connected n e)) evs = true.

Lemma unconnected_cons n e evs : unconnected n (e :: evs) <-> is_connected n e = false /\ unconnected n evs.
Proof. unfold unconnected. simpl. rewrite andb_true_iff, negb_true_iff. done. Qed.

Lemma down_stays n evs : unconnected n evs -> fold_left (protocol_step n) evs (Some Down) <> Some Up.
Proof.
  induction evs as [|e evs IH]; intros Hn; [done|]. apply unconnected_cons in Hn as [He Hn]. simpl.
  unfold protocol_step at 2. destruct (about n e) eqn:Ea; simpl; [|by apply IH].
  destruct e as [m [i|]| | |]; simpl in *; try (by rewrite protocol_None); try congruence. by apply IH.
Qed.

Lemma up_updates n evs :
  unconnected n evs -> fold_left (protocol_step n) evs (Some Up) = Some Up ->
  forallb update_event (List.filter (about n) evs) = true.
Proof.
  induction evs as [|e evs IH]; intros Hn; [done|]. apply unconnected_cons in Hn as [He Hn]. simpl.
  unfold protocol_step at 2. destruct (about n e) eqn:Ea; simpl; [|by apply IH].
  destruct e as [m [i|]| | |]; simpl in *; try (by rewrite protocol_None); try congruence; try (by apply IH).
  intros Hd. by apply down_stays in Hd.
Qed.

Lemma greeting_snapshot n evs :
  unconnected n evs -> fold_left (protocol_step n) evs (Some Greeting) = Some Up ->
  exists m updates, List.filter (about n) evs = PrimingSnapshot n m :: updates /\ forallb update_event updates = true.
Proof.
  induction evs as [|e evs IH]; intros Hn; [done|]. apply unconnected_cons in Hn as [He Hn]. simpl.
  unfold protocol_step at 2. destruct (about n e) eqn:Ea; simpl; [|by apply IH].
  destruct e as [m [i|]|m attrs| |]; simpl in *; try (by rewrite protocol_None); try congruence.
  apply Z.eqb_eq in Ea as ->. intros Hu. exists attrs, (List.filter (about n) evs). split; [done|]. by apply up_updates.
Qed.

(** What was sent about a node that is subscribed. *)
Lemma subscribed_shape n evs :
  protocol n evs = Some Up ->
  exists before i after snapshot updates,
    evs = before ++ NodeState n (Connected i) :: after /\
    List.filter (about n) after = PrimingSnapshot n snapshot :: updates /\ forallb update_event updates = true.
Proof.
  unfold protocol. intros Hst. destruct (last_split (is_connected n) evs) as [Hno|(before & x & after & -> & Hx & Hafter)];
    [by destruct (down_stays n evs Hno)|].
  destruct x as [m [i|]| | |]; try done. simpl in Hx. apply Z.eqb_eq in Hx as ->. rewrite fold_left_app in Hst. simpl in Hst.
  unfold protocol_step at 2 in Hst. simpl in Hst. rewrite Z.eqb_refl in Hst. simpl in Hst.
  assert (Hg : fold_left (protocol_step n) after (Some Greeting) = Some Up).
  { destruct (fold_left (protocol_step n) before (Some Down)) as [[]|]; try done; by rewrite protocol_None in Hst. }
  destruct (greeting_snapshot n after Hafter Hg) as (snapshot & updates & Hf & Hu). by exists before, i, after, snapshot, updates.
Qed.

(** The values an update delivers. *)
Definition update_changes (e : StackEvent) : list (string * Value) :=
  match e with AttributesChanged _ changes => changes | _ => [] end.

Lemma advance_updates updates b m :
  forallb update_event updates = true ->
  fold_left advance updates (b, m) = (b, apply_changes (concat (map update_changes updates)) m).
Proof.
  revert m. induction updates as [|e updates IH]; intros m; [done|]. simpl. intros [He Hu]%andb_true_iff.
  destruct e as [| |k changes|]; try done; simpl.
  - rewrite IH by done. unfold apply_changes. by rewrite fold_left_app.
  - by rewrite IH.
Qed.

Section system.
Context `{Base64} `{Tables} `{SerdeJson} `{NodeDate} (storage : Storage).

(** A subscribed node is served as its subscription delivered it.  Take
    any reachable state of the supervisors in which a node is subscribed, and
    let the node manager, which knows the node, take all the events sent so far
    in order, with grace expiries in between in any way.  Then after the last
    announcement that the node is connected - there is one - the events about it
    are its complete snapshot and then only updates; and unless a grace period
    of this node expired after that, the node is served as available, with
    exactly the snapshot's attributes overwritten by all values reported since,
    in order. *)
Theorem subscribed_node_is_served fab sys n ins st cur :
  Reachable fab sys -> is_Some (subs (sys_ctx sys) !! n) ->
  omap taken ins = ctx_events (sys_ctx sys) -> served n st.1 = Some cur ->
  exists before i after snapshot updates,
    ins = before ++ Taken (NodeState n (Connected i)) :: after /\
    List.filter (about n) (omap taken after) = PrimingSnapshot n snapshot :: updates /\
    forallb update_event updates = true /\
    (Expired n ∉ after ->
     served n (fold_left (manage storage) ins st).1 =
       Some (true, apply_changes (concat (map update_changes updates)) snapshot)).
Proof.
  intros Hr Hsub Hins Hknown. destruct (reachable_order fab sys Hr) as [_ Hp].
  destruct (Hp n) as (s0 & Hst & _ & Hup). rewrite (Hup Hsub) in Hst. clear Hp Hup. unfold protocol in Hst.
  rewrite <- Hins in Hst. set (conn := fun i => match taken i with Some e => is_connected n e | None => false end).
  assert (Hun : forall l, forallb (fun i => negb (conn i)) l = true -> unconnected n (omap taken l)).
  { intros l. induction l as [|i l IH]; [done|]. simpl. intros [Hi Hl]%andb_true_iff. unfold conn in Hi.
    destruct (taken i); [apply unconnected_cons; apply negb_true_iff in Hi; auto | auto]. }
  destruct (last_split conn ins) as [Hno|(before & x & after & -> & Hx & Hafter)];
    [by destruct (down_stays n _ (Hun _ Hno))|].
  destruct x as [ev|m]; [|done]. unfold conn in Hx. simpl in Hx. destruct ev as [m [i|]| | |]; try done.
  simpl in Hx. apply Z.eqb_eq in Hx as ->. rewrite omap_app in Hst. simpl in Hst. rewrite fold_left_app in Hst. simpl in Hst.
  assert (Hg : fold_left (protocol_step n) (omap taken after) (Some Greeting) = Some Up).
  { unfold protocol_step at 2 in Hst. simpl in Hst. rewrite Z.eqb_refl in Hst. simpl in Hst.
    destruct (fold_left (protocol_step n) (omap taken before) (Some Down)) as [[]|]; try done; by rewrite protocol_None in Hst. }
  destruct (greeting_snapshot n _ (Hun _ Hafter) Hg) as (snapshot & updates & Hf & Hu).
  exists before, i, after, snapshot, updates. do 3 (split; [done|]). intros Hexp.
  destruct (manage_known storage before st n cur Hknown) as [cur' Hk]. rewrite fold_left_app. cbn [fold_left].
  pose proof (handle_event_served storage (NodeState n (Connected i)) _ (fold_left (manage storage) before st).2 n cur' Hk) as Hc.
  simpl about in Hc. rewrite Z.eqb_refl in Hc.
  rewrite (manage_served storage after (manage storage (fold_left (manage storage) before st) (Taken (NodeState n (Connected i))))
    n _ Hc Hexp). rewrite Hf. simpl. by rewrite advance_updates.
Qed.
End system.

(** ** A run *)

Definition demo_manager : Shared * Timers :=
  ({| sh_registry := Registry.new [demo_record 5]; sh_fs := demo_fs; sh_events := []; sh_history := []; sh_now := 0 |},
   {| tm_grace := ∅; tm_tasks := ∅; tm_next := 0 |}).

Definition demo_inputs : list Input := map Taken (ctx_events (sys_ctx demo_sys)).

Definition demo_served : option (bool * Map) :=
  served 5 (fold_left (@manage TreeJson demo_date demo_storage) demo_inputs demo_manager).1.

Lemma subscribed_node_is_served_witness :
  demo_served = Some (true, [("0/40/2", json_u 65521)]) /\ exists m, demo_served = Some (true, m).
Proof.
  split; [vm_compute; reflexivity|].
  destruct (@subscribed_node_is_served HexBase64 EmptyTables TreeJson demo_date demo_storage 1 demo_sys 5 demo_inputs
    demo_manager (false, [("0/40/21", json_u 16973824)]) demo_reachable) as (before & i & after & snapshot & updates & Hins & _ & _ & Hserved).
  - exists 7. vm_compute. reflexivity.
  - vm_compute. reflexivity.
  - vm_compute. reflexivity.
  - eexists. apply Hserved. intros Hexp.
    assert (Hin : Expired 5 ∈ demo_inputs) by (rewrite Hins; apply elem_of_app; right; apply elem_of_cons; by right).
    unfold demo_inputs in Hin. apply list_elem_of_fmap in Hin as (e & He & _). discriminate He.
Defined.
