(* ===== verification/OneNode.v ===== *)
(** * One node's share of the node manager

    What the node manager does about one node when commands run between the
    operations of its handlers.  The view of a node is what is served about it
    and whether a grace period runs for it; the rest of a handler depends on
    nothing else and changes it in one way, so whatever keeps the view can
    happen in between. *)

From S2P Require Import Prelude Json Wire Prog Fs Storage Registry StackApi NodeManager ManagerOps.
From S2P Require Import Gen TlvJson Accumulate Ctx Reports Supervisor SupervisorFacts System.

Section one_node.
Context `{SerdeJson} `{NodeDate} (storage : Storage) (n : Z).

Abbreviation MgState := (Shared * Timers)%type.

Definition in_grace (tm : Timers) : bool := match tm_grace tm !! n with Some _ => true | None => false end.

Definition view (st : MgState) : option (bool * Map) * bool := (served n st.1, in_grace st.2).

(** ** Operations that are about other things *)

Definition aside_op (B : Type) (op : MgOp B) : Prop := forall st, view (mg_step B op st).2 = view st.

Definition aside {A} (p : MgProg A) : Prop := all_ops aside_op p.

Lemma aside_run {A} (p : MgProg A) st : aside p -> view (mg_run p st).2 = view st.
Proof.
  intros Hp. revert st. induction Hp as [a|B op k Hop _ IH]; intros st; [done|]. unfold mg_run in *. cbn [run].
  specialize (Hop st). destruct (mg_step B op st) as [b st1]. by rewrite IH.
Qed.

Lemma aside_read {A} (f : Shared -> A) : aside (mg_read f).
Proof. apply all_ops_op. by intros []. Qed.

Lemma aside_modify f : (forall s, served n (f s) = served n s) -> aside (mg_modify f).
Proof. intros Hf. apply all_ops_op. intros [s tm]. unfold view. cbn [mg_step fst snd]. by rewrite Hf. Qed.

Lemma aside_emit m : aside (emit_ops m).
Proof. apply all_ops_bind; [apply aside_read|]. intros [nd|]; [by apply aside_modify | constructor]. Qed.

Lemma aside_persist m : aside (persist_ops storage m).
Proof. apply all_ops_bind; [apply aside_read|]. intros [rec|]; [by apply aside_modify | constructor]. Qed.

Lemma served_other {R} m (f : NodeEntry -> R * NodeEntry) s :
  m <> n -> served n (set_registry (Registry.with_entry m f (sh_registry s)).2 s) = served n s.
Proof.
  intros Hm. unfold served, Registry.with_entry. simpl. destruct (bt_get (sh_registry s) m) as [e|]; [|done].
  destruct (f e) as [x e']. simpl. by rewrite bt_get_insert_ne.
Qed.

Lemma aside_changes m changes : m <> n -> aside (changes_ops m changes).
Proof.
  intros Hm. induction changes as [|[path value] changes IH]; [constructor|]. cbn [changes_ops].
  apply all_ops_bind; [apply aside_modify; intros s; by apply served_other|]. intros _.
  apply all_ops_bind; [by apply aside_modify | by intros _].
Qed.

Lemma aside_timers {A} (f : Timers -> A * Timers) : (forall tm, in_grace (f tm).2 = in_grace tm) -> aside (do_op (OnTimers f)).
Proof. intros Hf. apply all_ops_op. intros [s tm]. unfold view. simpl. specialize (Hf tm). destruct (f tm). simpl in *. by rewrite Hf. Qed.

Lemma cancel_other m tm : m <> n -> in_grace (cancel_timer m tm) = in_grace tm.
Proof. intros Hm. unfold cancel_timer, in_grace. destruct (tm_grace tm !! m); [|done]. simpl. by rewrite lookup_delete_ne. Qed.

Lemma remove_other m tm : m <> n -> in_grace (remove_timer m tm) = in_grace tm.
Proof. intros Hm. unfold remove_timer, in_grace. simpl. by rewrite lookup_delete_ne. Qed.

Lemma spawn_other m tm : m <> n -> in_grace (spawn_timer m tm) = in_grace tm.
Proof. intros Hm. unfold spawn_timer, in_grace. simpl. by rewrite lookup_insert_ne. Qed.

Lemma aside_available m a : m <> n -> aside (availability_ops m a).
Proof.
  intros Hm. apply all_ops_bind; [|intros [[]|]; [apply aside_emit | constructor..]]. apply all_ops_op. intros [s tm].
  pose proof (served_other m (fun e => (negb (eqb (ne_available e) a), {| ne_record := ne_record e; ne_available := a |})) s Hm) as Hs.
  unfold view. cbn [mg_step fst snd]. unfold Registry.set_available. destruct (Registry.with_entry _ _ _) as [ch r]. simpl in *. by rewrite Hs.
Qed.

Lemma aside_event ev : known_node ev <> n -> aside (known_ops storage ev).
Proof.
  intros Hm. destruct ev as [m [i|]|m attrs|m changes|m e]; cbn [known_node known_ops state_ops] in *.
  - apply all_ops_bind; [apply aside_timers; intros tm; by apply cancel_other | intros _; by apply aside_available].
  - apply all_ops_bind; [apply aside_read|]. intros available. apply aside_timers. intros tm. simpl.
    destruct (tm_grace tm !! m); [done|]. destruct available; [by apply spawn_other | done].
  - apply all_ops_bind; [apply aside_modify; intros s; by apply served_other|]. intros _.
    apply all_ops_bind; [apply aside_persist | intros _; apply aside_emit].
  - apply all_ops_bind; [by apply aside_changes | intros _; apply aside_persist].
  - apply all_ops_bind; [by apply aside_modify | intros _; by apply aside_modify].
Qed.

(** ** The rest of a handler depends on the view *)

Definition determined {A} (p : MgProg A) : Prop :=
  forall st1 st2, view st1 = view st2 -> view (mg_run p st1).2 = view (mg_run p st2).2.

(** It does, and whatever is left of it later does. *)
Fixpoint settled (p : MgProg unit) : Prop :=
  determined p /\ match p with Ret _ => True | Do _ k => forall b, settled (k b) end.

Lemma settled_determined p : settled p -> determined p.
Proof. destruct p; by intros [Hd _]. Qed.

Lemma settled_ret a : settled (Ret a).
Proof. split; [by intros st1 st2 | done]. Qed.

Lemma aside_settled p : aside p -> settled p.
Proof.
  intros Hp. induction Hp as [a|B op k Hop Hk IH]; [apply settled_ret|]. split; [|done]. intros st1 st2 Hv.
  by rewrite !aside_run by by constructor.
Qed.

(** An operation whose effect on the view depends on the view, and whose reply
    does or does not matter. *)
Lemma settled_step {B} (op : MgOp B) k :
  (forall st1 st2, view st1 = view st2 ->
    view (mg_step B op st1).2 = view (mg_step B op st2).2 /\
    ((mg_step B op st1).1 = (mg_step B op st2).1 \/ (aside (k (mg_step B op st1).1) /\ aside (k (mg_step B op st2).1)))) ->
  (forall b, settled (k b)) -> settled (Do op k).
Proof.
  intros Hop Hk. split; [|done]. intros st1 st2 Hv. destruct (Hop st1 st2 Hv) as [Hv' Hb]. unfold mg_run. cbn [run].
  destruct (mg_step B op st1) as [b1 s1], (mg_step B op st2) as [b2 s2]. cbn [fst snd] in *.
  destruct Hb as [->|[H1 H2]]; [by apply (settled_determined (k b2))|].
  fold (mg_run (k b1) s1). fold (mg_run (k b2) s2). by rewrite !aside_run.
Qed.

Lemma view_served st1 st2 : view st1 = view st2 -> served n st1.1 = served n st2.1.
Proof. unfold view. by intros [= ? _]. Qed.

Lemma view_grace st1 st2 : view st1 = view st2 -> in_grace st1.2 = in_grace st2.2.
Proof. unfold view. by intros [= _ ?]. Qed.

(** A change of the node's own entry. *)
Lemma settled_modify f k :
  (forall s1 s2, served n s1 = served n s2 -> served n (f s1) = served n (f s2)) ->
  settled (k tt) -> settled (Do (OnShared (fun s => (tt, f s))) k).
Proof.
  intros Hf Hk. apply settled_step; [|by intros []]. intros st1 st2 Hv. split; [|by left]. unfold view. cbn [mg_step fst snd].
  by rewrite (Hf _ _ (view_served _ _ Hv)), (view_grace _ _ Hv).
Qed.

Lemma settled_timers f k :
  (forall tm1 tm2, in_grace tm1 = in_grace tm2 -> in_grace (f tm1) = in_grace (f tm2)) ->
  settled (k tt) -> settled (Do (OnTimers (fun tm => (tt, f tm))) k).
Proof.
  intros Hf Hk. apply settled_step; [|by intros []]. intros st1 st2 Hv. split; [|by left]. unfold view. cbn [mg_step fst snd].
  by rewrite (Hf _ _ (view_grace _ _ Hv)), (view_served _ _ Hv).
Qed.

Lemma settled_read {X} (g : Shared -> X) k :
  (forall s1 s2, served n s1 = served n s2 -> g s1 = g s2) ->
  (forall b, settled (k b)) -> settled (Do (OnShared (fun s => (g s, s))) k).
Proof.
  intros Hg Hk. apply settled_step; [|done]. intros [s1 tm1] [s2 tm2] Hv. split; [done|]. left.
  apply Hg, (view_served _ _ Hv).
Qed.

Lemma served_own {R} (f : NodeEntry -> R * NodeEntry) (g : bool * Map -> bool * Map) s :
  (forall e, (ne_available (f e).2, nr_attributes (ne_record (f e).2)) = g (ne_available e, nr_attributes (ne_record e))) ->
  served n (set_registry (Registry.with_entry n f (sh_registry s)).2 s) = g <$> served n s.
Proof.
  intros Hf. unfold served, Registry.with_entry. simpl. destruct (bt_get (sh_registry s) n) as [e|] eqn:E; [|simpl; by rewrite E].
  specialize (Hf e). destruct (f e) as [x e']. simpl in *. rewrite bt_get_insert_eq. simpl. by rewrite Hf.
Qed.

Lemma settled_own {R} (f : NodeEntry -> R * NodeEntry) (g : bool * Map -> bool * Map) k :
  (forall e, (ne_available (f e).2, nr_attributes (ne_record (f e).2)) = g (ne_available e, nr_attributes (ne_record e))) ->
  settled (k tt) -> settled (Do (OnShared (fun s => (tt, set_registry (Registry.with_entry n f (sh_registry s)).2 s))) k).
Proof. intros Hf. apply settled_modify. intros s1 s2 Hs. by rewrite !(served_own f g), Hs. Qed.

(** ** Each handler *)

Lemma settled_emit m : settled (emit_ops m).
Proof. apply aside_settled, aside_emit. Qed.

Lemma settled_available a : settled (availability_ops n a).
Proof.
  apply settled_step.
  - intros [s1 tm1] [s2 tm2] Hv.
    set (f := fun e => (negb (eqb (ne_available e) a), {| ne_record := ne_record e; ne_available := a |})).
    assert (Hf : forall e, (ne_available (f e).2, nr_attributes (ne_record (f e).2)) =
      (fun cur : bool * Map => (a, cur.2)) (ne_available e, nr_attributes (ne_record e))) by done.
    pose proof (served_own f _ s1 Hf) as H1. pose proof (served_own f _ s2 Hf) as H2.
    pose proof (view_served _ _ Hv) as Hs. pose proof (view_grace _ _ Hv) as Hg. cbn [fst snd] in Hs, Hg. rewrite Hs in H1.
    cbn [mg_step fst snd]. unfold Registry.set_available. fold f.
    destruct (Registry.with_entry n f (sh_registry s1)) as [c1 r1], (Registry.with_entry n f (sh_registry s2)) as [c2 r2].
    unfold view. cbn [fst snd] in *. rewrite H1, H2. split; [by rewrite Hg|]. right.
    split; (destruct c1 as [[]|], c2 as [[]|]; (apply aside_emit || constructor)).
  - intros [[]|]; [apply settled_emit | apply settled_ret..].
Qed.

Lemma settled_changes changes p : settled p -> settled (prog_bind (changes_ops n changes) (fun _ => p)).
Proof.
  intros Hp. induction changes as [|[path value] changes IH]; [done|]. cbn [changes_ops].
  apply (settled_own _ (fun cur => (cur.1, bt_insert path value cur.2))); [done|].
  apply settled_modify; [by intros s1 s2|]. exact IH.
Qed.

Lemma available_served s : match node_data (sh_registry s) n with Some nd => nd_available nd | None => false end =
  match served n s with Some cur => cur.1 | None => false end.
Proof. unfold node_data, served, Registry.snapshot_record. by destruct (bt_get (sh_registry s) n). Qed.

Lemma known_served s : Registry.contains (sh_registry s) n = match served n s with Some _ => true | None => false end.
Proof. unfold served, Registry.contains, bt_contains. by destruct (bt_get (sh_registry s) n). Qed.

Lemma cancelled_own tm : in_grace (cancel_timer n tm) = false.
Proof. unfold cancel_timer, in_grace. destruct (tm_grace tm !! n) eqn:E; simpl; [by rewrite lookup_delete_eq | by rewrite E]. Qed.

Lemma removed_own tm : in_grace (remove_timer n tm) = false.
Proof. unfold remove_timer, in_grace. simpl. by rewrite lookup_delete_eq. Qed.

Lemma settled_known ev : known_node ev = n -> settled (known_ops storage ev).
Proof.
  destruct ev as [m [i|]|m attrs|m changes|m e]; cbn [known_node known_ops state_ops]; intros ->.
  - apply settled_timers; [by intros tm1 tm2 _; rewrite !cancelled_own|]. apply settled_available.
  - apply settled_read; [intros s1 s2 Hs; by rewrite !available_served, Hs|]. intros available.
    apply (settled_timers (fun tm => match tm_grace tm !! n with Some _ => tm | None => if available : bool then spawn_timer n tm else tm end));
      [|apply settled_ret].
    unfold in_grace. intros tm1 tm2. destruct (tm_grace tm1 !! n) eqn:E1, (tm_grace tm2 !! n) eqn:E2; try done.
    + by rewrite E1, E2.
    + destruct available; simpl; [by rewrite !lookup_insert_eq | by rewrite E1, E2].
  - apply settled_modify; [intros s1 s2 Hs; by rewrite !(served_own _ (fun cur => (cur.1, attrs))), Hs|].
    apply aside_settled, all_ops_bind; [apply aside_persist | intros _; apply aside_emit].
  - apply settled_changes, aside_settled, aside_persist.
  - apply aside_settled, all_ops_bind; [by apply aside_modify | intros _; by apply aside_modify].
Qed.

(** Whatever the manager takes from its queues. *)
Lemma settled_event ev : settled (event_ops storage ev).
Proof.
  destruct (decide (known_node ev = n)) as [Hm|Hm].
  - unfold event_ops. rewrite Hm. apply settled_read; [intros s1 s2 Hs; by rewrite !known_served, Hs|].
    intros []; [by apply settled_known | apply settled_ret].
  - apply aside_settled, all_ops_bind; [apply aside_read|]. intros []; [by apply aside_event | constructor].
Qed.

Lemma settled_expiry m : settled (expiry_ops m).
Proof.
  destruct (decide (m = n)) as [->|Hm].
  - apply settled_step.
    + intros [s1 tm1] [s2 tm2] Hv. pose proof (view_grace _ _ Hv) as Hg. pose proof (view_served _ _ Hv) as Hs. unfold view, in_grace in *.
      cbn [mg_step fst snd] in *. destruct (tm_grace tm1 !! n) eqn:E1, (tm_grace tm2 !! n) eqn:E2; try done; cbn [fst snd].
      * split; [|by left]. pose proof (removed_own tm1) as R1. pose proof (removed_own tm2) as R2. unfold in_grace in R1, R2.
        by rewrite Hs, R1, R2.
      * split; [by rewrite Hs, E1, E2 | by left].
    + intros []; [apply settled_available | apply settled_ret].
  - apply aside_settled, all_ops_bind.
    + apply aside_timers. intros tm. destruct (tm_grace tm !! m); simpl; [by apply remove_other | done].
    + intros []; [by apply aside_available | constructor].
Qed.

(** ** What taking an event or an expiry does to the view *)

(** The last thing announced of the node is that it is connected. *)
Definition linked_step (linked : bool) (ev : StackEvent) : bool :=
  match ev with
  | NodeState m state => if m =? n then match state with Connected _ => true | Reconnecting => false end else linked
  | _ => linked
  end.

Definition linked (evs : list StackEvent) : bool := fold_left linked_step evs false.

(** After the events [evs] since the node was served as [start]: its attributes
    are theirs, and as long as it is connected, so is its availability. *)
Definition follows (start : bool * Map) (evs : list StackEvent) (v : option (bool * Map) * bool) : Prop :=
  exists cur, v.1 = Some cur /\ cur.2 = (fold_left advance (List.filter (about n) evs) start).2 /\
    (linked evs = true -> cur.1 = true /\ v.2 = false).

Lemma linked_app evs ev : linked (evs ++ [ev]) = linked_step (linked evs) ev.
Proof. unfold linked. by rewrite fold_left_app. Qed.

Lemma advance_attributes c1 c2 ev : c1.2 = c2.2 -> (advance c1 ev).2 = (advance c2 ev).2.
Proof. intros E. by destruct ev as [k [i|]|k attrs|k changes|k e]; simpl; rewrite ?E. Qed.

Lemma follows_start start g : follows start [] (Some start, g).
Proof. exists start. by split. Qed.

Lemma event_grace ev s tm :
  Registry.contains (sh_registry s) n = true ->
  in_grace (handle_event storage ev s tm).2 =
  match ev with
  | NodeState m (Connected _) => if m =? n then false else in_grace tm
  | NodeState m Reconnecting => if m =? n then in_grace (handle_event storage ev s tm).2 else in_grace tm
  | _ => in_grace tm
  end.
Proof.
  intros Hn. destruct ev as [m st|m attrs|m changes|m e]; simpl.
  2-4: by destruct (Registry.contains (sh_registry s) m).
  destruct (Z.eqb_spec m n) as [->|Hm].
  - rewrite Hn. destruct st as [i|]; [|done]. simpl. destruct (Registry.set_available n true (sh_registry s)) as [ch r].
    apply cancelled_own.
  - destruct st as [i|]; (destruct (Registry.contains (sh_registry s) m); [|done]); simpl.
    + destruct (Registry.set_available m true (sh_registry s)) as [ch r]. by apply cancel_other.
    + destruct (tm_grace tm !! m); [done|]. simpl. case_match; [by apply spawn_other | done].
Qed.

Lemma follows_event start evs ev s tm :
  follows start evs (view (s, tm)) -> follows start (evs ++ [ev]) (view (handle_event storage ev s tm)).
Proof.
  intros (cur & Hs & Ha & Hl). cbn [view fst snd] in Hs, Hl. 
  pose proof (handle_event_served storage ev s tm n cur Hs) as Hs'. exists (if about n ev then advance cur ev else cur).
  split; [exact Hs'|]. rewrite List.filter_app, fold_left_app, linked_app. simpl List.filter. split.
  - destruct (about n ev); [|exact Ha]. simpl. by apply advance_attributes.
  - assert (Hn : Registry.contains (sh_registry s) n = true) by by rewrite known_served, Hs.
    unfold view. cbn [snd]. rewrite (event_grace ev s tm Hn).
    destruct ev as [m [i|]|m attrs|m changes|m e]; simpl; destruct (m =? n) eqn:Em; try done; exact Hl.
Qed.

Lemma follows_expiry start evs m s tm :
  follows start evs (view (s, tm)) -> follows start evs (view (handle_grace_expiry m s tm)).
Proof.
  intros (cur & Hs & Ha & Hl). cbn [view fst snd] in Hs, Hl.
  destruct (grace_expiry_served m s tm n cur Hs) as (b & Hs' & Hb). exists (b, cur.2). split; [exact Hs'|]. split; [exact Ha|].
  intros Hlink. destruct (Hl Hlink) as [Hc Hg]. unfold view. cbn [fst snd]. unfold handle_grace_expiry in *.
  destruct (decide (m = n)) as [->|Hm].
  - revert Hs'. unfold in_grace in *. destruct (tm_grace tm !! n) eqn:E; [done|]. simpl. rewrite E. intros Hs'. split; [|done].
    rewrite Hs in Hs'. destruct cur. by injection Hs' as <-.
  - split; [by rewrite Hb|]. destruct (tm_grace tm !! m); [|exact Hg].
    destruct (Registry.set_available m false (sh_registry s)) as [ch r]. cbn [snd]. by rewrite remove_other.
Qed.
End one_node.
