(* ===== verification/Boot.v ===== *)
(** * The server process

    The parts of [crates/server/src] around the connections that decide
    something: the log level of [logging.rs], the ignored flags of [config.rs],
    the label, addresses and exit code of [main.rs], the health document of
    [http.rs].  Sockets, signals and the subscriber are set-up and left out. *)

From S2P Require Import Prelude Json Wire Prog Fs Addr Storage StackApi Controller.

(** ** Log levels *)

Inductive Level : Type := ERROR | WARN | INFO | DEBUG | TRACE.

#[export] Instance Level_eq_dec : EqDecision Level.
Proof. solve_decision. Defined.

Definition is_one_of (name : string) (names : list string) : bool := existsb (String.eqb name) names.

Definition map_level (name : string) : option Level :=
  if is_one_of name ["fatal"; "critical"; "error"] then Some ERROR
  else if is_one_of name ["warning"; "warn"] then Some WARN
  else if is_one_of name ["notice"; "info"] then Some INFO
  else if is_one_of name ["debug"] then Some DEBUG
  else if is_one_of name ["verbose"] then Some TRACE
  else None.

(** [lc_filter] is the default directive of the filter in force, and
    [lc_attached] whether the reload handle still has its subscriber. *)
Record LogControl : Type := {
  lc_filter : Level;
  lc_attached : bool;
  lc_console : string;
  lc_has_file : bool;
}.

Definition log_control_get (l : LogControl) : string * option string :=
  (lc_console l, if lc_has_file l then Some (lc_console l) else None).

Definition log_control_set (console file : option string) (l : LogControl) : LogControl :=
  match console with
  | None => l
  | Some name =>
      match map_level name with
      | None => l
      | Some level =>
          if lc_attached l
          then {| lc_filter := level; lc_attached := true; lc_console := name; lc_has_file := lc_has_file l |}
          else l
      end
  end.

#[export] Instance LogControl_levels : LogLevels LogControl := {| log_get := log_control_get; log_set := log_control_set |}.

(** ** Configuration *)

Record Config : Type := {
  cf_port : Z;
  cf_listen_address : list string;
  cf_log_level : string;
  cf_log_file : option Path;
  cf_default_fabric_label : option string;
  cf_bluetooth_adapter : option Z;
  cf_ble_proxy : bool;
  cf_disable_ota : bool;
  cf_ota_provider_dir : option Path;
  cf_disable_dashboard : bool;
  cf_enable_test_net_dcl : bool;
  cf_production_mode : bool;
}.

(** [logging::init]. *)
Definition log_init (config : Config) : LogControl :=
  {| lc_filter := default INFO (map_level (cf_log_level config)); lc_attached := true; lc_console := cf_log_level config;
     lc_has_file := match cf_log_file config with Some _ => true | None => false end |}.

(** The flags [warn_ignored] warns about. *)
Definition ignored_flags (c : Config) : list string :=
  let flag (supplied : bool) name := if supplied then [name] else [] in
  flag (bool_decide (is_Some (cf_bluetooth_adapter c))) "--bluetooth-adapter" ++
  flag (cf_ble_proxy c) "--ble-proxy" ++
  flag (cf_disable_ota c) "--disable-ota" ++
  flag (bool_decide (is_Some (cf_ota_provider_dir c))) "--ota-provider-dir" ++
  flag (cf_disable_dashboard c) "--disable-dashboard" ++
  flag (cf_enable_test_net_dcl c) "--enable-test-net-dcl" ++
  flag (cf_production_mode c) "--production-mode".

(** ** Start and stop *)

Section boot.
Context `{SerdeJson}.

Definition with_label (cfg : ConfigData) (label : string) : ConfigData :=
  {| cfg_fabric_label := label; cfg_next_node_id := cfg_next_node_id cfg;
     cfg_wifi_credentials := cfg_wifi_credentials cfg; cfg_thread_datasets := cfg_thread_datasets cfg |}.

(** The label the fabric boots with. *)
Definition boot_label (storage : Storage) (default_fabric_label : option string) : Io string :=
  match default_fabric_label with
  | Some pinned =>
      let label := normalize_fabric_label (Some pinned) in
      do! cfg := load_config storage in
      if negb (String.eqb (cfg_fabric_label cfg) label) then
        do! _ := save_config storage (with_label cfg label) in Ret label
      else Ret label
  | None => do! cfg := load_config storage in Ret (cfg_fabric_label cfg)
  end.
End boot.

Definition bind_addrs (c : Config) : list string :=
  match cf_listen_address c with
  | [] => ["[::]:" +:+ show (cf_port c)]
  | l => map (fun a => if (0 <? count_byte ":" a)%nat then "[" +:+ a +:+ "]:" +:+ show (cf_port c)
                       else a +:+ ":" +:+ show (cf_port c)) l
  end.

(** What [ready] says within [STACK_START_TIMEOUT]: nothing, a dropped sender,
    an error or the identity. *)
Inductive ReadyOutcome (A : Type) : Type :=
| ReadyElapsed
| ReadyDropped
| ReadyFailed (e : string)
| ReadyInfo (info : A).
Arguments ReadyElapsed {A}. Arguments ReadyDropped {A}. Arguments ReadyFailed {A}. Arguments ReadyInfo {A}.

Definition STACK_START_TIMEOUT : Z := 60.

(** A message is fatal: it is printed and the process exits with 1. *)
Definition start_outcome {A} (r : ReadyOutcome A) : Result A string :=
  match r with
  | ReadyElapsed => Err ("the Matter stack did not finish starting within " +:+ show STACK_START_TIMEOUT +:+ "s")
  | ReadyDropped => Err "the Matter stack thread ended before it reported readiness"
  | ReadyFailed e => Err ("the Matter stack failed to start: " +:+ e)
  | ReadyInfo info => Ok info
  end.

Inductive StopReason : Type := Signal | StackDied.

Definition exit_code (stop : StopReason) : Z := match stop with StackDied => 1 | Signal => 0 end.

Definition health (version : string) (node_count : nat) : Value :=
  json_obj [("version", VString version); ("node_count", json_u (Z.of_nat node_count))].

(** ** What booting and log control promise *)

Lemma is_one_of_spec name names : is_one_of name names = true <-> name ∈ names.
Proof.
  unfold is_one_of. rewrite existsb_exists. split.
  - intros (x & Hx & ->%String.eqb_eq). by apply list_elem_of_In.
  - intros Hp. exists name. split; [by apply list_elem_of_In | apply String.eqb_refl].
Qed.

(** Exactly the names of the Node server are levels. *)
Lemma map_level_spec name :
  is_Some (map_level name) <->
  name ∈ ["fatal"; "critical"; "error"; "warning"; "warn"; "notice"; "info"; "debug"; "verbose"].
Proof.
  unfold map_level. split.
  - intros [l Hl]. repeat match type of Hl with
      | context [is_one_of ?n ?l] => destruct (is_one_of n l) eqn:?; [by rewrite is_one_of_spec in *; set_solver|]
      end. done.
  - intros Hn. repeat (apply elem_of_cons in Hn as [->|Hn]; [by eexists|]). by apply elem_of_nil in Hn.
Qed.

(** The level reported is the level in force, and both sinks have it: this
    holds from the start, if the configured level is a level, and after every
    change; a change to a known name is applied and echoed as it was spelled, an
    unknown name and a file level change nothing. *)
Theorem log_level_in_force (l : LogControl) console file :
  map_level (lc_console l) = Some (lc_filter l) -> lc_attached l = true ->
  let l' := log_set console file l in
  map_level (log_get l').1 = Some (lc_filter l') /\ lc_attached l' = true /\
  (log_get l').2 = (if lc_has_file l then Some (log_get l').1 else None) /\
  (log_get l').1 = match console with
                   | Some name => if bool_decide (is_Some (map_level name)) then name else (log_get l).1
                   | None => (log_get l).1
                   end.
Proof.
  intros Hin Ha. simpl. unfold log_control_set. destruct console as [name|]; [|done].
  destruct (map_level name) as [level|] eqn:E.
  - rewrite Ha, bool_decide_true by done. done.
  - rewrite bool_decide_false; [done|]. by intros [x Hx].
Qed.

(** Before any change, an unknown configured level is reported although the
    filter is at [INFO]. *)
Lemma unknown_initial_level (c : Config) :
  map_level (cf_log_level c) = None ->
  (log_get (log_init c)).1 = cf_log_level c /\ lc_filter (log_init c) = INFO.
Proof. intros Hn. simpl. by rewrite Hn. Qed.

Section boot_facts.
Context `{SerdeJson} `{!SerdeJsonLaws} (storage : Storage).

(** The label at boot.  Without a pin the fabric boots with the stored label
    and nothing is written.  With one it boots with the pinned label, normalized;
    afterwards that is the label stored, whatever was stored before, and the
    other settings are as they were; nothing is written when it was stored
    already. *)
Theorem boot_label_spec pin (fs : FS) :
  clean (st_root storage) fs ->
  let stored := (run_io (load_config storage) fs).1 in
  (forall p, pin = Some p -> config_ok (with_label stored (normalize_fabric_label (Some p)))) ->
  let (label, fs') := run_io (boot_label storage pin) fs in
  label = match pin with Some p => normalize_fabric_label (Some p) | None => cfg_fabric_label stored end /\
  (run_io (load_config storage) fs').1 = with_label stored label /\
  (label = cfg_fabric_label stored -> fs' = fs).
Proof.
  intros Hc stored Hok. assert (Hload : run_io (load_config storage) fs = (stored, fs)).
  { unfold stored, load_config, run_io. rewrite run_bind.
    pose proof (run_read_json de_config (join (st_root storage) "config.json") fs (proj1 Hc)) as E. unfold run_io in E.
    by rewrite E. }
  assert (Hsame : with_label stored (cfg_fabric_label stored) = stored) by (unfold with_label; by destruct stored).
  unfold boot_label. destruct pin as [p|].
  - unfold run_io. rewrite run_bind. unfold run_io in Hload. rewrite Hload. cbv beta iota.
    set (label := normalize_fabric_label (Some p)) in *.
    destruct (String.eqb_spec (cfg_fabric_label stored) label) as [E|E]; cbn [negb].
    + cbn [run]. split; [done|]. rewrite Hload. cbn [fst]. by rewrite <- E, Hsame.
    + rewrite run_bind. pose proof (config_roundtrip storage (with_label stored label) fs (Hok p eq_refl) Hc) as Hrt.
      unfold run_io in Hrt. destruct (run fs_step (save_config storage (with_label stored label)) fs) as [r fs'].
      destruct Hrt as [_ Hrt]. cbn [run]. split; [done|]. split; [exact Hrt | congruence].
  - unfold run_io. rewrite run_bind. unfold run_io in Hload. rewrite Hload. cbv beta iota. cbn [run].
    split; [done|]. rewrite Hload. by rewrite Hsame.
Qed.
End boot_facts.

(** Each address bound is the host that was asked for, IPv6 ones bracketed, with
    the configured port. *)
Lemma bind_addrs_spec (c : Config) (h : host) :
  host_ok h -> 0 <= cf_port c < 2 ^ 16 -> host_text h ∈ cf_listen_address c ->
  socket_text h (cf_port c) ∈ bind_addrs c /\ split_ip_port (socket_text h (cf_port c)) = (host_text h, Some (cf_port c)).
Proof.
  intros Hh Hp Hin. split; [|by apply split_ip_port_socket]. unfold bind_addrs.
  destruct (cf_listen_address c) as [|a l]; [by apply elem_of_nil in Hin|]. apply list_elem_of_fmap.
  exists (host_text h). split; [|done]. destruct Hh as (_ & _ & Hh).
  destruct h as [ip|ip]; cbn [host_text socket_text] in *; [by rewrite Hh|].
  destruct (Nat.ltb_spec 0 (count_byte ":" ip)); [done | lia].
Qed.
