(* ===== verification/MdnsIface.v ===== *)
(** * Choosing the mDNS interface

    [select_interface] of [crates/stack/src/mdns.rs].  The list of interfaces is
    the operating system's; an IPv4 address is four octets, an IPv6 address eight
    16-bit segments, as [std::net] has them. *)

From S2P Require Import Prelude Json StackApi Ctx.

Definition Ipv4 : Type := list Z.
Definition Ipv6 : Type := list Z.

Definition V4_UNSPECIFIED : Ipv4 := [0; 0; 0; 0].
Definition V6_UNSPECIFIED : Ipv6 := [0; 0; 0; 0; 0; 0; 0; 0].

Inductive IfAddr : Type :=
| V4 (ip : Ipv4)
| V6 (ip : Ipv6).

(** One address of an interface, as [if_addrs] lists it. *)
Record Interface : Type := { if_name : string; if_addr : IfAddr; if_index : option Z }.

Record Iface : Type := { ifc_name : string; ifc_ipv4 : Ipv4; ifc_ipv6 : Ipv6; ifc_index : Z }.

Definition is_unicast_link_local (ip : Ipv6) : bool :=
  Z.land (match ip with s :: _ => s | [] => 0 end) 0xffc0 =? 0xfe80.

(** [is_loopback]: 127.0.0.0/8 and ::1. *)
Definition is_loopback (ia : Interface) : bool :=
  match if_addr ia with
  | V4 ip => match ip with a :: _ => a =? 127 | [] => false end
  | V6 ip => bool_decide (ip = [0; 0; 0; 0; 0; 0; 0; 1])
  end.

Fixpoint find_map {A B} (f : A -> option B) (l : list A) : option B :=
  match l with [] => None | a :: l => match f a with Some b => Some b | None => find_map f l end end.

Definition or_else {A} (o o' : option A) : option A := match o with Some _ => o | None => o' end.

Definition ipv6_of (ia : Interface) : option Ipv6 := match if_addr ia with V6 ip => Some ip | V4 _ => None end.
Definition ipv4_of (ia : Interface) : option Ipv4 := match if_addr ia with V4 ip => Some ip | V6 _ => None end.

Definition find_ipv6_candidate (all : list Interface) (ipv6_filter : Ipv6 -> bool) : option Iface :=
  find_map (fun '(iname, ipv6, index) =>
      find_map (fun ia2 =>
        match ipv4_of ia2 with
        | Some v4 => Some {| ifc_name := iname; ifc_ipv4 := v4; ifc_ipv6 := ipv6; ifc_index := index |}
        | None => None
        end) (List.filter (fun ia2 => String.eqb (if_name ia2) iname) all))
    (omap (fun ia =>
      match ipv6_of ia with
      | Some ip => if ipv6_filter ip then Some (if_name ia, ip, unwrap_or 0 (if_index ia)) else None
      | None => None
      end) (List.filter (fun ia => negb (is_loopback ia)) all)).

Definition fallback_name (name : string) : bool := starts_with "eth" name || starts_with "eno" name.

Definition find_fallback_candidate (all : list Interface) : option Iface :=
  (fun ia =>
    {| ifc_name := if_name ia;
       ifc_ipv4 := unwrap_or V4_UNSPECIFIED (ipv4_of ia);
       ifc_ipv6 := unwrap_or V6_UNSPECIFIED (ipv6_of ia);
       ifc_index := unwrap_or 0 (if_index ia) |}) <$>
  head (List.filter (fun ia => fallback_name (if_name ia)) (List.filter (fun ia => negb (is_loopback ia)) all)).

(** [ErrorCode::StdIoError] is the only error. *)
Definition select_interface (all : list Interface) (forced : option string) : option Iface :=
  match forced with
  | Some forced =>
      let named ia := String.eqb (if_name ia) forced in
      let v4 := find_map (fun ia => if named ia then (fun ip => (ip, unwrap_or 0 (if_index ia))) <$> ipv4_of ia else None) all in
      let v6 := find_map (fun ia => if named ia then ipv6_of ia else None) all in
      match v4 with
      | None => None
      | Some (ipv4, index) =>
          Some {| ifc_name := forced; ifc_ipv4 := ipv4; ifc_ipv6 := unwrap_or V6_UNSPECIFIED v6; ifc_index := index |}
      end
  | None =>
      or_else (find_ipv6_candidate all is_unicast_link_local)
        (or_else (find_ipv6_candidate all (fun _ => true)) (find_fallback_candidate all))
  end.

(** ** What is selected *)

Lemma find_map_Some {A B} (f : A -> option B) l b : find_map f l = Some b -> exists a, a ∈ l /\ f a = Some b.
Proof.
  induction l as [|a l IH]; simpl; [done|]. destruct (f a) eqn:E.
  - intros [= <-]. exists a. split; [apply elem_of_cons; by left | done].
  - intros (a' & Ha & Hf)%IH. exists a'. split; [apply elem_of_cons; by right | done].
Qed.

Lemma find_map_None {A B} (f : A -> option B) l : find_map f l = None <-> forall a, a ∈ l -> f a = None.
Proof.
  induction l as [|a l IH]; simpl.
  - split; [|done]. intros _ a Ha. by apply elem_of_nil in Ha.
  - destruct (f a) eqn:E; split; [done| |rewrite IH|rewrite IH].
    + intros Hall. rewrite (Hall a) in E; [done | apply elem_of_cons; by left].
    + intros Hall a' [->|Ha']%elem_of_cons; [done | by apply Hall].
    + intros Hall a' Ha'. apply Hall, elem_of_cons. by right.
Qed.

Lemma elem_of_List_filter {A} (p : A -> bool) l a : a ∈ List.filter p l <-> a ∈ l /\ p a = true.
Proof. by rewrite !list_elem_of_In, filter_In. Qed.

(** Two addresses of one interface, neither of the first a loopback: what makes
    it a candidate. *)
Definition pair_of (all : list Interface) (p : Ipv6 -> bool) (i : Iface) : Prop :=
  exists a6 a4, a6 ∈ all /\ is_loopback a6 = false /\ if_name a6 = ifc_name i /\ if_addr a6 = V6 (ifc_ipv6 i) /\
    p (ifc_ipv6 i) = true /\ ifc_index i = unwrap_or 0 (if_index a6) /\
    a4 ∈ all /\ if_name a4 = ifc_name i /\ if_addr a4 = V4 (ifc_ipv4 i).

Lemma find_ipv6_candidate_spec all p :
  match find_ipv6_candidate all p with
  | Some i => pair_of all p i
  | None => forall i, ~ pair_of all p i
  end.
Proof.
  unfold find_ipv6_candidate. destruct (find_map _ _) as [i|] eqn:E.
  - apply find_map_Some in E as ([[n ip] idx] & Hin & Hf). apply list_elem_of_omap in Hin as (a6 & [H6 Hl]%elem_of_List_filter & Ho).
    apply negb_true_iff in Hl. apply find_map_Some in Hf as (a4 & [H4 Hn]%elem_of_List_filter & Hf).
    apply String.eqb_eq in Hn. unfold ipv6_of in Ho. unfold ipv4_of in Hf.
    destruct (if_addr a6) eqn:E6; [done|]. destruct (p ip0) eqn:Ep; [|done]. injection Ho as <- <- <-.
    destruct (if_addr a4) eqn:E4; [|done]. injection Hf as <-. by exists a6, a4.
  - intros i (a6 & a4 & H6 & Hl & Hn & E6 & Hp & _ & H4 & Hn4 & E4).
    assert (Hin : (ifc_name i, ifc_ipv6 i, unwrap_or 0 (if_index a6)) ∈ omap (fun ia =>
      match ipv6_of ia with
      | Some ip => if p ip then Some (if_name ia, ip, unwrap_or 0 (if_index ia)) else None
      | None => None
      end) (List.filter (fun ia => negb (is_loopback ia)) all)).
    { apply list_elem_of_omap. exists a6. split; [by apply elem_of_List_filter; rewrite Hl|].
      unfold ipv6_of. by rewrite E6, Hp, Hn. }
    pose proof (proj1 (find_map_None _ _) E _ Hin) as Hnone. cbn beta iota in Hnone.
    assert (Hin4 : a4 ∈ List.filter (fun ia2 => String.eqb (if_name ia2) (ifc_name i)) all).
    { apply elem_of_List_filter. split; [done | by apply String.eqb_eq]. }
    pose proof (proj1 (find_map_None _ _) Hnone _ Hin4) as Hn'. unfold ipv4_of in Hn'. by rewrite E4 in Hn'.
Qed.

(** Which interface mDNS uses.  A forced interface is used exactly when it
    has an IPv4 address, and no other is ever used instead.  Otherwise it is an
    interface with both families, whose IPv6 address is link-local if there is
    such an interface at all; only if no interface has both is it the first
    address of an [eth*] or [eno*] interface, with the other family
    unspecified; and an error means that there is none of these. *)
Theorem select_interface_spec all forced :
  match forced, select_interface all forced with
  | Some name, Some i => ifc_name i = name /\ exists a, a ∈ all /\ if_name a = name /\ if_addr a = V4 (ifc_ipv4 i)
  | Some name, None => forall a, a ∈ all -> if_name a = name -> ipv4_of a = None
  | None, Some i =>
      pair_of all is_unicast_link_local i \/
      (forall j, ~ pair_of all is_unicast_link_local j) /\
      (pair_of all (fun _ => true) i \/
       (forall j, ~ pair_of all (fun _ => true) j) /\
       exists a, a ∈ all /\ is_loopback a = false /\ fallback_name (ifc_name i) = true /\ if_name a = ifc_name i /\
         (if_addr a = V4 (ifc_ipv4 i) /\ ifc_ipv6 i = V6_UNSPECIFIED \/
          if_addr a = V6 (ifc_ipv6 i) /\ ifc_ipv4 i = V4_UNSPECIFIED))
  | None, None =>
      (forall j, ~ pair_of all (fun _ => true) j) /\
      forall a, a ∈ all -> is_loopback a = false -> fallback_name (if_name a) = false
  end.
Proof.
  unfold select_interface. destruct forced as [name|].
  - destruct (find_map _ all) as [[ip idx]|] eqn:E.
    + apply find_map_Some in E as (a & Ha & Hf). destruct (String.eqb_spec (if_name a) name) as [Hn|]; [|done].
      unfold ipv4_of in Hf. destruct (if_addr a) eqn:Ea; [|done]. injection Hf as <- _. simpl. eauto.
    + intros a Ha Hn. pose proof (proj1 (find_map_None _ _) E a Ha) as Hf. simpl in Hf.
      apply String.eqb_eq in Hn. rewrite Hn in Hf. by destruct (ipv4_of a).
  - pose proof (find_ipv6_candidate_spec all is_unicast_link_local) as H1.
    pose proof (find_ipv6_candidate_spec all (fun _ => true)) as H2.
    destruct (find_ipv6_candidate all is_unicast_link_local) as [i|]; [by left|]. simpl.
    destruct (find_ipv6_candidate all (fun _ => true)) as [i|]; [right; auto|]. simpl.
    unfold find_fallback_candidate. destruct (List.filter _ _) as [|a l] eqn:E; simpl.
    + split; [done|]. intros a Ha Hl. destruct (fallback_name (if_name a)) eqn:Ef; [|done].
      assert (Hin : a ∈ List.filter (fun ia => fallback_name (if_name ia)) (List.filter (fun ia => negb (is_loopback ia)) all)).
      { rewrite !elem_of_List_filter. by rewrite Hl. }
      rewrite E in Hin. by apply elem_of_nil in Hin.
    + right. split; [done|]. right. split; [done|]. exists a.
      assert (Hin : a ∈ List.filter (fun ia => fallback_name (if_name ia)) (List.filter (fun ia => negb (is_loopback ia)) all)).
      { rewrite E. apply elem_of_cons. by left. }
      rewrite !elem_of_List_filter in Hin. destruct Hin as [[Ha Hl] Hf]. apply negb_true_iff in Hl.
      do 4 (split; [done|]). unfold ipv4_of, ipv6_of. destruct (if_addr a); simpl; auto.
Qed.

(** A fallback that advertises no IPv4 address: the first [eth*] address can be
    an IPv6 one. *)
Example fallback_without_ipv4 :
  select_interface [ {| if_name := "eth0"; if_addr := V6 [0x2001; 0; 0; 0; 0; 0; 0; 1]; if_index := Some 2 |};
                     {| if_name := "eth1"; if_addr := V4 [10; 0; 0; 9]; if_index := Some 3 |} ] None =
  Some {| ifc_name := "eth0"; ifc_ipv4 := V4_UNSPECIFIED; ifc_ipv6 := [0x2001; 0; 0; 0; 0; 0; 0; 1]; ifc_index := 2 |}.
Proof. vm_compute. reflexivity. Qed.
