(* ===== verification/Sockets.v ===== *)
(** * Sockets, and what the end of a background task means

    [create_dual_stack_socket] and the four arms of [run_stack] of
    [crates/stack/src/runtime.rs], [run_builtin_mdns] of
    [crates/stack/src/mdns.rs], [bind_dual_stack] of
    [crates/server/src/main.rs].  A routine is a program over single socket
    calls; a socket that goes out of scope is closed.  What each call does to a
    socket's settings is the class [SocketLaws]; which calls fail is left open. *)

From S2P Require Import Prelude Json Prog Fs StackApi Ctx MdnsIface.

(** ** Sockets *)

Inductive SockType : Type := Dgram | Stream.

Record SocketAddr : Type := { sa_ip : IfAddr; sa_port : Z }.

(** A socket of [Domain::IPV6]; [sk_only_v6] is [None] where the system's default
    applies, [sk_registered] says that a reactor waits for it. *)
Record Sock : Type := {
  sk_type : SockType;
  sk_reuse_address : bool;
  sk_reuse_port : bool;
  sk_only_v6 : option bool;
  sk_nonblocking : bool;
  sk_bound : option SocketAddr;
  sk_backlog : option Z;
  sk_registered : bool;
  sk_v6_groups : list (Ipv6 * Z);
  sk_v4_groups : list (Ipv4 * Ipv4);
}.

(** [Socket::new]: a blocking socket. *)
Definition new_sock (ty : SockType) : Sock :=
  {| sk_type := ty; sk_reuse_address := false; sk_reuse_port := false; sk_only_v6 := None; sk_nonblocking := false;
     sk_bound := None; sk_backlog := None; sk_registered := false; sk_v6_groups := []; sk_v4_groups := [] |}.

(** [Register] is [Async::new_nonblocking] or [TcpListener::from_std]: neither
    changes the mode of the socket. *)
Inductive Setting : Type :=
| ReuseAddress (b : bool)
| ReusePort (b : bool)
| OnlyV6 (b : bool)
| Nonblocking (b : bool)
| BindTo (a : SocketAddr)
| Listen (backlog : Z)
| Register
| JoinV6 (group : Ipv6) (index : Z)
| JoinV4 (group interface : Ipv4).

Definition apply_setting (x : Setting) (k : Sock) : Sock :=
  {| sk_type := sk_type k;
     sk_reuse_address := match x with ReuseAddress b => b | _ => sk_reuse_address k end;
     sk_reuse_port := match x with ReusePort b => b | _ => sk_reuse_port k end;
     sk_only_v6 := match x with OnlyV6 b => Some b | _ => sk_only_v6 k end;
     sk_nonblocking := match x with Nonblocking b => b | _ => sk_nonblocking k end;
     sk_bound := match x with BindTo a => Some a | _ => sk_bound k end;
     sk_backlog := match x with Listen n => Some n | _ => sk_backlog k end;
     sk_registered := match x with Register => true | _ => sk_registered k end;
     sk_v6_groups := match x with JoinV6 g i => (g, i) :: sk_v6_groups k | _ => sk_v6_groups k end;
     sk_v4_groups := match x with JoinV4 g i => (g, i) :: sk_v4_groups k | _ => sk_v4_groups k end |}.

Abbreviation Fd := Z (only parsing).

(** [Host] and the arguments of [BuiltinMdns::run]. *)
Record MdnsHost : Type := { mh_hostname : string; mh_ipv4 : Ipv4; mh_ipv6 : Ipv6; mh_interface : Z }.

Inductive SockOp : Type -> Type :=
| GetIfAddrs : SockOp (Result (list Interface) IoError)
| NewSocket (ty : SockType) : SockOp (Result Fd IoError)
| Configure (fd : Fd) (x : Setting) : SockOp (Result unit IoError)
| CloseSocket (fd : Fd) : SockOp unit
| RunMdns (fd : Fd) (host : MdnsHost) : SockOp (Result unit RsError).     (* [BuiltinMdns::run] *)

Abbreviation SockProg := (Prog SockOp).

(** [rs-matter]'s constants and conversion of [io::Error], and [str::parse] for
    socket addresses, with the text of its error. *)
Class NetParams := {
  mdns_bind_addr : SocketAddr;                   (* MDNS_SOCKET_DEFAULT_BIND_ADDR *)
  mdns_v6_group : Ipv6;                          (* MDNS_IPV6_BROADCAST_ADDR *)
  mdns_v4_group : Ipv4;
  from_io : IoError -> RsError;
  parse_socket_addr : string -> Result SocketAddr string;
}.

Definition no_network_interface : RsError := rs_error_of (EOther "NoNetworkInterface").
Definition std_io_error : RsError := rs_error_of (EOther "StdIoError").

(** [?] with [map_err]. *)
Definition op_err {A E} (f : IoError -> E) (op : SockOp (Result A IoError)) : SockProg (Result A E) :=
  do! r := do_op op in Ret (Prelude.map_err f r).

(** The rest of a function that owns [fd]: an early return drops it. *)
Definition or_close {A E} (fd : Fd) (p : SockProg (Result A E)) : SockProg (Result A E) :=
  do! r := p in
  match r with
  | Ok a => Ret (Ok a)
  | Err e => do! _ := do_op (CloseSocket fd) in Ret (Err e)
  end.

(** ** runtime.rs *)

Definition create_dual_stack_socket : SockProg (Result Fd RsError) :=
  let no _ := no_network_interface in
  do? fd := op_err no (NewSocket Dgram) in
  or_close fd (
    do? _ := op_err no (Configure fd (ReuseAddress true)) in
    do? _ := op_err no (Configure fd (OnlyV6 false)) in
    do? _ := op_err no (Configure fd (BindTo {| sa_ip := V6 V6_UNSPECIFIED; sa_port := 0 |})) in
    do? _ := op_err no (Configure fd Register) in
    Ret (Ok fd)).

Section net.
Context `{NetParams}.

(** ** main.rs *)

Definition bind_dual_stack (addr : string) : SockProg (Result Fd IoError) :=
  let id (e : IoError) := e in
  match parse_socket_addr addr with
  | Err e => Ret (Err (io_error InvalidInput (addr +:+ ": " +:+ e)))
  | Ok sock_addr =>
      do? fd := op_err id (NewSocket Stream) in
      or_close fd (
        do? _ := op_err id (Configure fd (OnlyV6 false)) in
        do? _ := op_err id (Configure fd (ReuseAddress true)) in
        do? _ := op_err id (Configure fd (BindTo sock_addr)) in
        do? _ := op_err id (Configure fd (Listen 128)) in
        do? _ := op_err id (Configure fd (Nonblocking true)) in
        do? _ := op_err id (Configure fd Register) in
        Ret (Ok fd))
  end.

(** ** mdns.rs *)

Definition HOSTNAME : string := "matter-rs-server".

(** The runner with its socket; a failed multicast join is only logged. *)
Definition mdns_on (fd : Fd) (selected : Iface) : SockProg (Result unit RsError) :=
  do? _ := op_err from_io (Configure fd (ReuseAddress true)) in
  do? _ := op_err from_io (Configure fd (ReusePort true)) in
  do? _ := op_err from_io (Configure fd (OnlyV6 false)) in
  do? _ := op_err from_io (Configure fd (BindTo mdns_bind_addr)) in
  do? _ := op_err from_io (Configure fd Register) in
  do! _ := do_op (Configure fd (JoinV6 mdns_v6_group (ifc_index selected))) in
  do! _ := do_op (Configure fd (JoinV4 mdns_v4_group (ifc_ipv4 selected))) in
  do_op (RunMdns fd {| mh_hostname := HOSTNAME; mh_ipv4 := ifc_ipv4 selected; mh_ipv6 := ifc_ipv6 selected;
                       mh_interface := ifc_index selected |}).

Definition run_builtin_mdns (iface : option string) : SockProg (Result unit RsError) :=
  do? all := op_err (fun _ => std_io_error) GetIfAddrs in
  do? selected := lift_result (ok_or (select_interface all iface) std_io_error) in
  do? fd := op_err from_io (NewSocket Dgram) in
  do! r := mdns_on fd selected in
  do! _ := do_op (CloseSocket fd) in
  Ret r.
End net.

(** ** The arms of the stack's executor

    [run_stack] waits for the first of four futures ([select4], polled in this
    order); two of the background tasks are made never to settle. *)

Definition earlier {A B} (f : Timed A) (g : Timed B) : Timed unit :=
  match f, g with
  | Some (t, _), Some (u, _) => Some (Z.min t u, tt)
  | Some (t, _), None => Some (t, tt)
  | None, Some (u, _) => Some (u, tt)
  | None, None => None
  end.

(** [async { fut.await; ... }] and [async { fut.await; ...; pending().await }] *)
Definition then_done {A} (fut : Timed A) : Timed unit := (fun '(t, _) => (t, tt)) <$> fut.
Definition then_pending {A} (fut : Timed A) : Timed unit :=
  match then_done fut with Some _ => None | None => None end.

(** What [run_stack] waits for: the transport, the responder, the request loop,
    and mDNS together with the saving of resumption records. *)
Definition stack_arms (transport responder : Timed (Result unit RsError)) (requests : Timed unit)
    (mdns persist : Timed (Result unit RsError)) : Timed unit :=
  earlier (earlier (then_done transport) (then_done responder))
    (earlier requests (earlier (then_pending mdns) (then_pending persist))).

Lemma then_pending_None {A} (fut : Timed A) : then_pending fut = None.
Proof. by destruct fut as [[]|]. Qed.

(** The stack ends when the first of transport, responder and request loop does,
    whatever becomes of mDNS and of the saving. *)
Lemma stack_arms_ends transport responder requests mdns persist t :
  stack_arms transport responder requests mdns persist = Some (t, tt) <->
  let ends := omap (fmap fst) [then_done transport; then_done responder; requests] in
  t ∈ ends /\ Forall (fun u => t <= u) ends.
Proof.
  unfold stack_arms, then_done. rewrite !then_pending_None.
  destruct transport as [[t1 ?]|], responder as [[t2 ?]|], requests as [[t3 []]|]; cbn;
    rewrite ?Forall_cons, ?Forall_nil, ?elem_of_cons, ?elem_of_nil;
    (split; [intros [= <-]; lia | intros [Hin Hall]]); try tauto; f_equal; f_equal; lia.
Qed.

(** ** What the routines leave behind *)

Section facts.
Context {St : Type} (h : forall B, SockOp B -> St -> B * St) (table : St -> gmap Fd Sock).

(** The open sockets of the process: a call that fails changes nothing. *)
Class SocketLaws : Prop := {
  law_new ty s :
    match h _ (NewSocket ty) s with
    | (Ok fd, s') => table s !! fd = None /\ table s' = <[fd := new_sock ty]> (table s)
    | (Err _, s') => table s' = table s
    end;
  law_configure fd x s :
    match h _ (Configure fd x) s with
    | (Ok _, s') => table s' = alter (apply_setting x) fd (table s)
    | (Err _, s') => table s' = table s
    end;
  law_close fd s : table (h _ (CloseSocket fd) s).2 = delete fd (table s);
  law_ifaces s : table (h _ GetIfAddrs s).2 = table s;
  law_run fd host s : table (h _ (RunMdns fd host) s).2 = table s;
}.
Context `{!SocketLaws}.

(** The calls of the mDNS runner, with the socket as it is then. *)
Definition runner_of {B} (op : SockOp B) (s : St) : list (MdnsHost * option Sock) :=
  match op with RunMdns fd host => [(host, table s !! fd)] | _ => [] end.
Fixpoint ran {A} (p : SockProg A) (s : St) : list (MdnsHost * option Sock) :=
  match p with
  | Ret _ => []
  | Do op k => runner_of op s ++ let '(b, s) := h _ op s in ran (k b) s
  end.

Lemma ran_bind {A B} (p : SockProg A) (f : A -> SockProg B) s :
  ran (prog_bind p f) s = ran p s ++ let '(a, s) := run h p s in ran (f a) s.
Proof.
  revert s. induction p as [a|X op k IH]; intros s; simpl; [done|].
  destruct (h X op s) as [b s']. by rewrite IH, app_assoc.
Qed.

(** A triple about a socket the program owns: it stays open, no other socket is
    touched, and [Q] holds of the reply, the socket and the runner's calls. *)
Definition owns {A} (fd : Fd) (k : Sock) (p : SockProg A) (Q : A -> Sock -> list (MdnsHost * option Sock) -> Prop) : Prop :=
  forall s m, table s = <[fd := k]> m ->
    exists k', table (run h p s).2 = <[fd := k']> m /\ Q (run h p s).1 k' (ran p s).

Lemma owns_ret {A} fd k (a : A) (Q : A -> Sock -> list (MdnsHost * option Sock) -> Prop) : Q a k [] -> owns fd k (Ret a) Q.
Proof. intros HQ s m Hm. by exists k. Qed.

Lemma owns_configure {A} fd k x (p : Result unit IoError -> SockProg A) Q :
  owns fd (apply_setting x k) (p (Ok tt)) Q -> (forall e, owns fd k (p (Err e)) Q) ->
  owns fd k (do! r := do_op (Configure fd x) in p r) Q.
Proof.
  intros Hok Herr s m Hm. cbn. pose proof (law_configure fd x s) as Hl.
  destruct (h _ (Configure fd x) s) as [[[]|e] s1].
  - apply Hok. by rewrite Hl, Hm, alter_insert_eq.
  - apply Herr. by rewrite Hl.
Qed.

Lemma owns_try {A E} fd k x (f : IoError -> E) (p : SockProg (Result A E)) Q :
  owns fd (apply_setting x k) p Q -> (forall e, Q (Err (f e)) k []) ->
  owns fd k (do? _ := op_err f (Configure fd x) in p) Q.
Proof.
  intros Hok Herr. apply (owns_configure fd k x (fun r => match Prelude.map_err f r with Ok _ => p | Err e => Ret (Err e) end)).
  - exact Hok.
  - intros e. by apply owns_ret.
Qed.

Lemma owns_run fd k host Q :
  (forall r, Q r k [(host, Some k)]) -> owns fd k (do_op (RunMdns fd host)) Q.
Proof.
  intros HQ s m Hm. exists k. cbn. pose proof (law_run fd host s) as Hl.
  destruct (h _ (RunMdns fd host) s) as [r s1]. cbn in *. rewrite Hl, Hm, lookup_insert_eq. by split.
Qed.

(** What a routine that opens a socket comes to: the socket, or an error and
    no socket more than before. *)
Definition acquires {E} (p : SockProg (Result Fd E)) (k : Sock) (Q : E -> Prop) : Prop :=
  forall s,
    match run h p s with
    | (Ok fd, s') => table s !! fd = None /\ table s' = <[fd := k]> (table s)
    | (Err e, s') => Q e /\ table s' = table s
    end.

Lemma acquires_new {E} ty (f : IoError -> E) (p : Fd -> SockProg (Result Fd E)) k (Q : E -> Prop) :
  (forall fd, owns fd (new_sock ty) (p fd) (fun r k' _ => match r with Ok fd' => fd' = fd /\ k' = k | Err e => Q e end)) ->
  (forall e, Q (f e)) ->
  acquires (do? fd := op_err f (NewSocket ty) in or_close fd (p fd)) k Q.
Proof.
  intros Hp Hf s. unfold op_err. rewrite run_try. cbn [run do_op prog_bind]. pose proof (law_new ty s) as Hl.
  destruct (h _ (NewSocket ty) s) as [[fd|e] s1]; cbn [Prelude.map_err]; [|by split]. destruct Hl as [Hfd Hs1].
  unfold or_close. rewrite run_bind. destruct (Hp fd s1 _ Hs1) as (k' & Hk' & HQ).
  destruct (run h (p fd) s1) as [[fd'|e] s2]; cbn in *.
  - destruct HQ as [-> ->]. by split.
  - pose proof (law_close fd s2) as Hc. destruct (h _ (CloseSocket fd) s2) as [[] s3]. cbn in Hc |- *. split; [done|].
    by rewrite Hc, Hk', delete_insert_id.
Qed.

(** The Matter transport's socket serves both families on a port of the
    kernel's choice; every failure is [NoNetworkInterface] and leaves no socket
    behind.  Nothing on the way takes the socket out of blocking mode, although
    [Async::new_nonblocking] leaves that to its caller. *)
Theorem create_dual_stack_socket_spec :
  acquires create_dual_stack_socket
    {| sk_type := Dgram; sk_reuse_address := true; sk_reuse_port := false; sk_only_v6 := Some false;
       sk_nonblocking := false; sk_bound := Some {| sa_ip := V6 V6_UNSPECIFIED; sa_port := 0 |}; sk_backlog := None;
       sk_registered := true; sk_v6_groups := []; sk_v4_groups := [] |}
    (fun e => e = no_network_interface).
Proof. apply acquires_new; [|done]. intros fd. repeat (apply owns_try; [|done]). by apply owns_ret. Qed.

(** The default listener: bound to the address it was given, for both
    families, and never blocking; or an error and no socket. *)
Theorem bind_dual_stack_spec `{NetParams} addr sock_addr :
  parse_socket_addr addr = Ok sock_addr ->
  acquires (bind_dual_stack addr)
    {| sk_type := Stream; sk_reuse_address := true; sk_reuse_port := false; sk_only_v6 := Some false;
       sk_nonblocking := true; sk_bound := Some sock_addr; sk_backlog := Some 128;
       sk_registered := true; sk_v6_groups := []; sk_v4_groups := [] |}
    (fun _ => True).
Proof.
  intros Hp. unfold bind_dual_stack. rewrite Hp. apply acquires_new; [|done].
  intros fd. repeat (apply owns_try; [|done]). by apply owns_ret.
Qed.

(** The socket the mDNS runner is given: port and group as [rs-matter] wants
    them, shared with another daemon; a group it could not join is missing. *)
Definition mdns_ready `{NetParams} (i : Iface) (k : Sock) : Prop :=
  sk_type k = Dgram /\ sk_reuse_address k = true /\ sk_reuse_port k = true /\ sk_only_v6 k = Some false /\
  sk_bound k = Some mdns_bind_addr /\ sk_registered k = true /\
  sk_v6_groups k ⊆ [(mdns_v6_group, ifc_index i)] /\ sk_v4_groups k ⊆ [(mdns_v4_group, ifc_ipv4 i)].

Lemma mdns_on_owns `{NetParams} fd i :
  owns fd (new_sock Dgram) (mdns_on fd i) (fun r _ calls =>
    calls = [] /\ is_ok r = false \/
    exists k, mdns_ready i k /\
      calls = [({| mh_hostname := HOSTNAME; mh_ipv4 := ifc_ipv4 i; mh_ipv6 := ifc_ipv6 i; mh_interface := ifc_index i |}, Some k)]).
Proof.
  repeat (apply owns_try; [|by left]).
  apply owns_configure; [|intros _]; (apply owns_configure; [|intros _]); apply owns_run; intros r; right; eexists;
    (split; [|done]); repeat split; cbn; set_solver.
Qed.

(** The mDNS responder: it runs only on the interface that was selected, at most
    once, with its socket set up; a join that fails does not prevent it.  If it
    does not run there is an error, and in every case no socket is left. *)
Theorem run_builtin_mdns_spec `{NetParams} iface s :
  table (run h (run_builtin_mdns iface) s).2 = table s /\
  (ran (run_builtin_mdns iface) s = [] /\ is_ok (run h (run_builtin_mdns iface) s).1 = false \/
   exists all i k, (h _ GetIfAddrs s).1 = Ok all /\ select_interface all iface = Some i /\ mdns_ready i k /\
     ran (run_builtin_mdns iface) s =
       [({| mh_hostname := HOSTNAME; mh_ipv4 := ifc_ipv4 i; mh_ipv6 := ifc_ipv6 i; mh_interface := ifc_index i |}, Some k)]).
Proof.
  unfold run_builtin_mdns, op_err, try_bind. cbn -[mdns_on].
  pose proof (law_ifaces s) as Hi. destruct (h _ GetIfAddrs s) as [[all|e] s0]; cbn -[mdns_on] in Hi |- *; [|by auto].
  destruct (select_interface all iface) as [i|] eqn:Ei; cbn -[mdns_on]; [|by auto].
  pose proof (law_new Dgram s0) as Hl. destruct (h _ (NewSocket Dgram) s0) as [[fd|e] s1]; cbn -[mdns_on]; [|by rewrite Hl; auto].
  destruct Hl as [Hfd Hs1]. destruct (mdns_on_owns fd i s1 _ Hs1) as (k' & Hk' & HQ).
  rewrite run_bind, ran_bind. destruct (run h (mdns_on fd i) s1) as [r s2]. cbn in Hk', HQ |- *.
  pose proof (law_close fd s2) as Hc. destruct (h _ (CloseSocket fd) s2) as [[] s3]. cbn in Hc |- *.
  rewrite app_nil_r. split; [by rewrite Hc, Hk', delete_insert_id, Hi|].
  destruct HQ as [HQ|(k & Hk & ->)]; [by left | right]. by exists all, i, k.
Qed.
End facts.

(** ** A small system

    The state is the outcomes of the calls to come ([true] fails) and the open
    sockets. *)

Section example.
Definition Toy : Type := list bool * gmap Fd Sock.

Definition toy_io {A} (s : Toy) (ok : gmap Fd Sock -> A * gmap Fd Sock) : Result A IoError * Toy :=
  match s with
  | (true :: faults, t) => (Err (io_error OtherIo "refused"), (faults, t))
  | (faults, t) => let '(a, t) := ok t in (Ok a, (tail faults, t))
  end.

Definition toy_step (B : Type) (op : SockOp B) (s : Toy) : B * Toy :=
  match op with
  | GetIfAddrs => toy_io s (fun t => ([ {| if_name := "eth0"; if_addr := V4 [10; 0; 0; 9]; if_index := Some 2 |} ], t))
  | NewSocket ty => toy_io s (fun t => let fd := fresh (dom t) in (fd, <[fd := new_sock ty]> t))
  | Configure fd x => toy_io s (fun t => (tt, alter (apply_setting x) fd t))
  | CloseSocket fd => (tt, (s.1, delete fd s.2))
  | RunMdns fd host => (Err (rs_error_of (EOther "StdIoError")), s)
  end.

#[local] Instance toy_laws : SocketLaws toy_step snd.
Proof.
  split; try done.
  - intros ty [[|[|] faults] t]; cbn; (done || (split; [apply not_elem_of_dom, is_fresh | done])).
  - by intros fd x [[|[|] faults] t].
  - by intros [[|[|] faults] t].
Qed.

#[local] Instance toy_params : NetParams :=
  {| mdns_bind_addr := {| sa_ip := V6 V6_UNSPECIFIED; sa_port := 5353 |};
     mdns_v6_group := [0xff02; 0; 0; 0; 0; 0; 0; 0xfb]; mdns_v4_group := [224; 0; 0; 251];
     from_io := fun _ => std_io_error;
     parse_socket_addr := fun text =>
       if String.eqb text "[::]:5580" then Ok {| sa_ip := V6 V6_UNSPECIFIED; sa_port := 5580 |} else Err "invalid socket address syntax" |}.

Lemma bind_dual_stack_spec_witness :
  acquires toy_step snd (bind_dual_stack "[::]:5580")
    {| sk_type := Stream; sk_reuse_address := true; sk_reuse_port := false; sk_only_v6 := Some false;
       sk_nonblocking := true; sk_bound := Some {| sa_ip := V6 V6_UNSPECIFIED; sa_port := 5580 |}; sk_backlog := Some 128;
       sk_registered := true; sk_v6_groups := []; sk_v4_groups := [] |}
    (fun _ => True).
Proof. apply (bind_dual_stack_spec toy_step snd). reflexivity. Defined.

(** A join that fails does not stop the runner; a bind that fails does. *)
Example toy_mdns :
  map (fun faults => length (ran toy_step snd (run_builtin_mdns (Some "eth0")) (faults, ∅)))
    [[]; [false; false; false; false; false; false; false; true; false]; [false; false; false; false; false; true]] = [1; 1; 0]%nat.
Proof. vm_compute. reflexivity. Qed.
End example.
