(* ===== verification/Ops.v ===== *)
(** * The detached requests, await by await

    What [handle_request] of [crates/stack/src/runtime.rs] runs for a request it
    detaches: the functions of [crates/stack/src/ops] as programs over what they
    do with the rest of the thread.  An exchange is issued with its timer and its
    outcome is back when it settled or the timer fired; the other acts are done
    between two awaits.  Running such a program with nothing in between is the
    atomic request of [StackHandle]. *)

From S2P Require Import Prelude Json Wire Prog Fs Addr Storage StackApi.
From S2P Require Import Gen TlvJson Accumulate Ctx Interact Reports Supervisor Identity DeviceOps Window Browse Onboard StackHandle.

(** Six exchanges, each awaited under a timer, and six things done at once. *)
Inductive Act (R : Type) : Type -> Type :=
| AwaitRead (secs node_id : Z) (paths : list AttributePathSpec) (fabric_filtered : bool) : Act R (Timed (Exchange ReportDataResp))
| AwaitWrite (node_id endpoint cl attribute : Z) (data : list Token) : Act R (Timed (Exchange (list (Result WriteStatus RsError))))
| AwaitInvoke (node_id endpoint cl command : Z) (timed : option Z) (args : list Token) : Act R (Timed (Exchange InvokeResp))
| AwaitBrowse (filter : CommissionableFilter) (exclude : list Z) (ms : Z) : Act R (Timed (Result (RsAddress * Z) RsError))
| AwaitPase (generator : string) (addr : RsAddress) (passcode node_id : Z) : Act R (Timed (Result Z RsError))
| AwaitCase (generator : string) (addr : RsAddress) (fabric_index : Z) : Act R (Timed (Result unit RsError))
| AskRand : Act R (Result R RsError)
| AskNow : Act R Z
| AskAddrs (node_id : Z) : Act R (option (list string))
| NoteAddrs (node_id : Z) (addresses : list string) : Act R unit
| SetLabel (label : string) : Act R (Result unit RsError)
| AskSupervised : Act R (list Z).
Arguments AwaitRead {R}. Arguments AwaitWrite {R}. Arguments AwaitInvoke {R}. Arguments AwaitBrowse {R}. Arguments AwaitPase {R}.
Arguments AwaitCase {R}. Arguments AskRand {R}. Arguments AskNow {R}. Arguments AskAddrs {R}. Arguments NoteAddrs {R}.
Arguments SetLabel {R}. Arguments AskSupervised {R}.

(** The timer an exchange is awaited under, in ticks. *)
Definition timer {R B} (a : Act R B) : Z :=
  match a with
  | AwaitRead secs _ _ _ => from_secs secs
  | AwaitWrite _ _ _ _ _ | AwaitInvoke _ _ _ _ _ _ => from_secs IM_TIMEOUT_SECS
  | AwaitBrowse _ _ ms => from_millis ms
  | AwaitPase _ _ _ _ | AwaitCase _ _ _ => from_secs COMMISSION_TIMEOUT_SECS
  | AskRand | AskNow | AskAddrs _ | NoteAddrs _ _ | SetLabel _ | AskSupervised => 0
  end.

(** [select(fut, timer)]: when it is over. *)
Definition until {A} (limit : Z) (fut : Timed A) : Z :=
  match fut with Some (t, _) => Z.min t limit | None => limit end.

Definition lasts {R B} (a : Act R B) : B -> Z :=
  match a in Act _ B return B -> Z with
  | AwaitRead secs _ _ _ => until (from_secs secs)
  | AwaitWrite _ _ _ _ _ => until (from_secs IM_TIMEOUT_SECS)
  | AwaitInvoke _ _ _ _ _ _ => until (from_secs IM_TIMEOUT_SECS)
  | AwaitBrowse _ _ ms => until (from_millis ms)
  | AwaitPase _ _ _ _ => until (from_secs COMMISSION_TIMEOUT_SECS)
  | AwaitCase _ _ _ => until (from_secs COMMISSION_TIMEOUT_SECS)
  | AskRand | AskNow | AskAddrs _ | NoteAddrs _ _ | SetLabel _ | AskSupervised => fun _ => 0
  end.

Lemma until_le {A} limit (fut : Timed A) : until limit fut <= limit.
Proof. unfold until. destruct fut as [[t a]|]; lia. Qed.

Lemma lasts_timer {R B} (a : Act R B) b : lasts a b <= timer a.
Proof. destruct a; cbn [lasts timer]; (apply until_le || done). Qed.

(** The requests [request_loop] serves itself. *)
Definition control {B} (op : StackOp B) : bool :=
  match op with StartSupervisor _ | StopSupervisor _ | Shutdown => true | _ => false end.

Section ops.
Context `{Base64} `{Tables} `{TxBuf} `{OnboardCodes} `{PaseCrypto} `{CodeFormats} `{HashOrder}.
Context {W F R : Type} `{!ImDevices W} `{!Mdns W} `{!Commissioner W} `{!FabricTable F} `{!Rng R} `{!Surroundings W R}.
Context (identity : ServerIdentity) (window_draws : nat).
Abbreviation Task A := (Prog (Act R) A).

(** ** [ops/interact.rs] *)

Definition read_task (secs node_id : Z) (paths : list AttributePathSpec) (fabric_filtered : bool) :
    Task (StackResult (list (string * Value))) :=
  do! fut := do_op (AwaitRead secs node_id paths fabric_filtered) in
  Ret (result_map into_pairs (run_exchange secs (fun cs => fold_chunks read_chunk cs AttrAccumulator_default) fut)).

Definition write_task (node_id endpoint cl attribute : Z) (value : Value) : Task (StackResult Z) :=
  match encode_anonymous (write_json value Anonymous (attr_hint cl attribute)) with
  | Err e =>
      Ret (Err (StackError_new StackInvalidArguments
        ("Invalid value for attribute " +:+ path_name endpoint cl attribute +:+ ": Error::" +:+ rse_display e)))
  | Ok encoded =>
      do! fut := do_op (AwaitWrite node_id endpoint cl attribute encoded) in
      let r := run_exchange IM_TIMEOUT_SECS (fun cs =>
        let? statuses := first_response cs in write_statuses endpoint cl attribute None statuses) fut in
      Ret (let? ours := r in
           ok_or ours (StackError_new Sdk ("device returned no write status for " +:+ path_name endpoint cl attribute)))
  end.

Definition invoke_task (node_id endpoint cl : Z) (command_name : string) (payload : Value) (timed_ms : option Z) :
    Task (StackResult Value) :=
  match cluster cl with
  | None => Ret (Err (StackError_new StackInvalidArguments ("Cluster Id " +:+ quoted (show cl) +:+ " unknown")))
  | Some meta =>
      match find_command_ci meta command_name with
      | None =>
          Ret (Err (StackError_new StackInvalidArguments
            ("Command " +:+ quoted command_name +:+ " does not exist on cluster " +:+ quoted (cl_name meta))))
      | Some cmd =>
          let timed := normalize_timed timed_ms cmd in
          match encode_command_args meta cmd payload with
          | Err e =>
              Ret (Err (StackError_new StackInvalidArguments
                ("Invalid payload for command " +:+ quoted command_name +:+ ": Error::" +:+ rse_display e)))
          | Ok args =>
              let output := and_then (cmd_output cmd) (find_struct meta) in
              do! fut := do_op (AwaitInvoke node_id endpoint cl (cmd_code cmd) timed args) in
              let r := run_exchange IM_TIMEOUT_SECS
                (fun cs => fold_chunks (invoke_chunk command_name output meta) cs invoke_init) fut in
              Ret (let? st := r in iv_result st)
          end
      end
  end.

(** ** [ops/fabrics.rs] *)

Definition fabrics_task (node_id : Z) : Task (StackResult (list DeviceFabric)) :=
  do? pairs := read_task IM_TIMEOUT_SECS node_id [fabrics_path] false in Ret (parse_fabrics pairs).

Definition remove_fabric_task (node_id fabric_index : Z) : Task (StackResult unit) :=
  do? resp := invoke_task node_id ROOT_ENDPOINT OP_CREDS "removeFabric" (json_obj [("fabricIndex", json_u fabric_index)]) None in
  Ret (check_noc_response "RemoveFabric" resp).

(** The outcome is only logged. *)
Definition push_label_task (node_id : Z) (label : string) : Task unit :=
  let label := truncate_to_bytes label FABRIC_LABEL_MAX_BYTES in
  do! outcome := invoke_task node_id ROOT_ENDPOINT OP_CREDS "updateFabricLabel" (json_obj [("label", VString label)]) None in
  Ret tt.

(** The supervised nodes are looked up once, after our own table. *)
Definition update_label_task (label : string) : Task (StackResult unit) :=
  let label := truncate_to_bytes label FABRIC_LABEL_MAX_BYTES in
  do! r := do_op (SetLabel label) in
  match r with
  | Err e => Ret (Err (map_err e))
  | Ok _ =>
      do! nodes := do_op AskSupervised in
      do! u := prog_for nodes (fun node_id => push_label_task node_id label) in
      Ret (Ok tt)
  end.

(** ** [ops/window.rs] *)

Definition window_task (node_id timeout_secs : Z) : Task (StackResult WindowInfo) :=
  do! rand := do_op AskRand in
  match rand with
  | Err e => Ret (Err (map_err e))
  | Ok rng =>
      match generate_window_secrets window_draws rng with
      | None => Ret (Err thread_down)
      | Some (passcode, discriminator, salt) =>
          match compute_pase_verifier passcode PAKE_ITERATIONS salt with
          | Err e => Ret (Err (map_err e))
          | Ok verifier =>
              do? resp := invoke_task node_id ROOT_ENDPOINT ADMIN_COMMISSIONING "openCommissioningWindow"
                (window_payload timeout_secs verifier discriminator salt) (Some 10000) in
              do! r := read_task IM_TIMEOUT_SECS node_id
                [basic_info_path BASIC_INFO_VENDOR_ID; basic_info_path BASIC_INFO_PRODUCT_ID] false in
              let '(vid, pid) := match r with Ok pairs => vid_pid_from pairs | Err _ => (0, 0) end in
              let comm_data := {| bc_password := to_le_bytes PASSCODE_LEN passcode; bc_discriminator := discriminator |} in
              let setup_manual_code := compute_pairing_code comm_data in
              Ret (let? setup_qr_code := Prelude.map_err map_err (build_qr comm_data vid pid) in
                   Ok {| wi_setup_pin_code := passcode; wi_setup_manual_code := setup_manual_code;
                         wi_setup_qr_code := setup_qr_code |})
          end
      end
  end.

(** ** [ops/discovery.rs] *)

Definition browse_one_task (filter : CommissionableFilter) (exclude : list Z) (budget : Z) : Task (StackResult (RsAddress * Z)) :=
  let ms := budget_ms budget in
  do! fut := do_op (AwaitBrowse filter exclude ms) in
  Ret (match within (from_millis ms) fut with
       | Some r => Prelude.map_err map_err r
       | None => Err (StackError_new Timeout (contention_message ms))
       end).

(** The clock is read before every browse. *)
Fixpoint sweep_task (fuel : nat) (deadline : Z) (sweep : Sweep) : Task (option Sweep) :=
  match fuel with
  | O => Ret None
  | S fuel =>
      if is_full sweep then Ret (Some sweep)
      else
        do! now := do_op AskNow in
        let remaining := remaining_budget deadline now in
        if remaining =? 0 then Ret (Some sweep)
        else
          do! r := browse_one_task commissioning_mode (sw_exclude sweep) remaining in
          match r with
          | Ok (addr, inst) => sweep_task fuel deadline (sweep_push sweep (addr_to_string addr) inst)
          | Err _ => Ret (Some sweep)
          end
  end.

Definition browse_task (timeout_ms : Z) : Task (StackResult (list DiscoveredDevice)) :=
  do! now := do_op AskNow in
  do! sweep := sweep_task (S MAX_SWEEP) (deadline_after now (from_millis timeout_ms)) Sweep_default in
  Ret (match sweep with Some sweep => Ok (sw_out sweep) | None => Err thread_down end).

(** ** [ops/commission.rs] *)

Definition resolve_task (target : PaseTarget) : Task (StackResult (Z * RsAddress)) :=
  match target_of target with
  | Err e => Ret (Err e)
  | Ok (passcode, inr addr) => Ret (Ok (passcode, addr))
  | Ok (passcode, inl filter) =>
      do? found := browse_one_task filter [] BROWSE_TIMEOUT in Ret (Ok (passcode, fst found))
  end.

Definition commission_task (req : CommissionRequest) : Task (StackResult CommissionOutcome) :=
  do? target := resolve_task (cr_target req) in
  let '(passcode, addr) := target in
  do? generator := lift_result (make_generator identity) in
  do! fut := do_op (AwaitPase generator addr passcode (cr_node_id req)) in
  do? fabric_index := lift_result (phase fut phase1_timeout) in
  do! fut := do_op (AwaitCase generator addr fabric_index) in
  do? u := lift_result (phase fut phase2_timeout) in
  do! u := push_label_task (cr_node_id req) (cr_fabric_label req) in
  let address := addr_to_string addr in
  do! u := do_op (NoteAddrs (cr_node_id req) [ip_of address]) in
  Ret (Ok {| co_device_fabric_index := fabric_index; co_address := address |}).

(** ** [handle_request]

    A control request that came here would be logged and dropped. *)
Definition op_task {B} (op : StackOp B) : Task B :=
  match op with
  | Commission req => commission_task req
  | ReadAttributes n paths filtered => read_task IM_TIMEOUT_SECS n paths filtered
  | WriteAttribute n endpoint cl attribute value => write_task n endpoint cl attribute value
  | Invoke n endpoint cl command_name payload timed_ms => invoke_task n endpoint cl command_name payload timed_ms
  | Interview n => do! r := read_task INTERVIEW_TIMEOUT_SECS n [all_attributes] true in Ret (result_map bt_from_iter r)
  | OpenCommissioningWindow n timeout_secs => window_task n timeout_secs
  | DeviceFabrics n => fabrics_task n
  | RemoveDeviceFabric n fabric_index => remove_fabric_task n fabric_index
  | UpdateFabricLabel label => update_label_task label
  | NodeAddresses n => do! found := do_op (AskAddrs n) in Ret (Ok (unwrap_or [] found))
  | BrowseCommissionable timeout_ms => browse_task timeout_ms
  | StartSupervisor _ | StopSupervisor _ | Shutdown => Ret tt
  end.

(** ** Acts on the thread *)

Implicit Types t : Thread W F.

(** One act at the instant [now]: an exchange is issued, and what it does to the
    devices and will answer is settled with that; the task gets to see the answer
    [lasts] later. *)
Definition perform (now : Z) {B} (a : Act R B) t : B * Thread W F :=
  let s := th_sys t in
  let c := sys_ctx s in
  let w := th_world t in
  match a in Act _ B return B * Thread W F with
  | AwaitRead _ n paths filtered => on_world t (im_read n paths filtered w)
  | AwaitWrite n endpoint cl attribute data => on_world t (im_write n endpoint cl attribute data w)
  | AwaitInvoke n endpoint cl command timed args => on_world t (im_invoke n endpoint cl command timed args w)
  | AwaitBrowse filter exclude ms => on_world t (browse_commissionable filter exclude (inner_budget_ms ms) w)
  | AwaitPase generator addr passcode n => on_world t (pase_commission generator addr passcode n w)
  | AwaitCase generator addr fabric_index => on_world t (complete_via_case generator addr fabric_index w)
  | AskRand => on_world t (crypto_rand w)
  | AskNow => (now, t)
  | AskAddrs n => (addrs c !! n, t)
  | NoteAddrs n l => (tt, with_sys t (with_ctx s (with_addrs c (<[n := l]> (addrs c))) (sys_tasks s)))
  | SetLabel label => let '(r, f) := update_label (fab_idx c) label (th_fabrics t) in (r, with_fabrics t f)
  | AskSupervised => (hash_keys (supervisors c), t)
  end.

(** A task nobody comes between: each act starts where the one before ended. *)
Definition at_once (B : Type) (a : Act R B) (s : Thread W F * Z) : B * (Thread W F * Z) :=
  let '(b, t) := perform s.2 a s.1 in (b, (t, Z.max s.2 (s.2 + lasts a b))).

(** ** Nobody in between

    A task run at once answers what the request of [StackHandle] answers and
    leaves the thread as that request does. *)

(** [p], started at [now], is over at some instant with [b] and the thread [t']. *)
Definition alone {A} (p : Task A) t (now : Z) (b : A) t' : Prop :=
  exists now', run at_once p (t, now) = (b, (t', now')).

Lemma alone_ret {A} (b : A) t now : alone (Ret b) t now b t.
Proof. by exists now. Qed.

Lemma alone_bind {A B} (p : Task A) (f : A -> Task B) t now a t1 b t2 :
  alone p t now a t1 -> (forall now1, alone (f a) t1 now1 b t2) -> alone (prog_bind p f) t now b t2.
Proof. intros [n1 E1] Hf. destruct (Hf n1) as [n2 E2]. exists n2. by rewrite run_bind, E1. Qed.

Lemma alone_try {A B E} (p : Task (Result A E)) (f : A -> Task (Result B E)) t now r t1 b t2 :
  alone p t now r t1 ->
  match r with Ok a => forall now1, alone (f a) t1 now1 b t2 | Err e => b = Err e /\ t2 = t1 end ->
  alone (try_bind p f) t now b t2.
Proof.
  intros Hp Hr. eapply alone_bind; [exact Hp|]. intros n1. destruct r as [a|e]; [by apply Hr|].
  destruct Hr as [-> ->]. apply alone_ret.
Qed.

Lemma alone_act {B} (a : Act R B) t now b t' : perform now a t = (b, t') -> alone (do_op a) t now b t'.
Proof. intros E. eexists. unfold do_op. cbn [run]. unfold at_once. cbn [fst snd]. by rewrite E. Qed.

Lemma alone_eq {A} (p : Task A) t now b t1 b' t' : alone p t now b t1 -> b = b' -> t1 = t' -> alone p t now b' t'.
Proof. by intros Hp -> ->. Qed.

Lemma read_alone secs n paths filtered t now :
  let '(r, w) := read_attributes_inner n paths filtered secs (th_world t) in
  alone (read_task secs n paths filtered) t now r (with_world t w).
Proof.
  unfold read_attributes_inner. destruct (im_read n paths filtered (th_world t)) as [fut w] eqn:E.
  eapply alone_bind; [apply alone_act|intros ?; apply alone_ret]. simpl. by rewrite E.
Qed.

Lemma with_world_same t : with_world t (th_world t) = t.
Proof. by destruct t. Qed.

Lemma write_alone n endpoint cl attribute value t now :
  let '(r, w) := write_attribute n endpoint cl attribute value (th_world t) in
  alone (write_task n endpoint cl attribute value) t now r (with_world t w).
Proof.
  unfold write_attribute, write_task. destruct (encode_anonymous _) as [encoded|e]; [|rewrite with_world_same; apply alone_ret].
  destruct (im_write n endpoint cl attribute encoded (th_world t)) as [fut w] eqn:E.
  eapply alone_bind; [apply alone_act|intros ?; apply alone_ret]. simpl. by rewrite E.
Qed.

Lemma invoke_alone n endpoint cl name payload timed t now :
  let '(r, w) := invoke n endpoint cl name payload timed (th_world t) in
  alone (invoke_task n endpoint cl name payload timed) t now r (with_world t w).
Proof.
  unfold invoke, invoke_task. destruct (cluster cl) as [meta|]; [|rewrite with_world_same; apply alone_ret].
  destruct (find_command_ci meta name) as [cmd|]; [|rewrite with_world_same; apply alone_ret].
  destruct (encode_command_args meta cmd payload) as [args|e]; [|rewrite with_world_same; apply alone_ret].
  destruct (im_invoke _ _ _ _ _ args (th_world t)) as [fut w] eqn:E.
  eapply alone_bind; [apply alone_act|intros ?; apply alone_ret]. simpl. by rewrite E.
Qed.

Lemma push_label_alone n label t now :
  alone (push_label_task n label) t now tt (with_world t (push_fabric_label n label (th_world t))).
Proof.
  unfold push_label_task, push_fabric_label. set (cut := truncate_to_bytes label _).
  pose proof (fun now => invoke_alone n ROOT_ENDPOINT OP_CREDS "updateFabricLabel" (json_obj [("label", VString cut)]) None t now) as Hi.
  destruct (invoke _ _ _ _ _ _ (th_world t)) as [r w]. eapply alone_bind; [apply Hi|]. intros ?. apply alone_ret.
Qed.

Lemma push_labels_alone nodes label t now :
  alone (prog_for nodes (fun n => push_label_task n label)) t now tt
    (with_world t (fold_left (fun w n => push_fabric_label n label w) nodes (th_world t))).
Proof.
  revert t now. induction nodes as [|n nodes IH]; intros t now; cbn [prog_for fold_left]; [rewrite with_world_same; apply alone_ret|].
  eapply alone_bind; [apply push_label_alone|]. intros n1. eapply alone_eq; [apply IH|done|by destruct t].
Qed.

Lemma browse_one_alone filter exclude budget t now :
  exists now', run at_once (browse_one_task filter exclude budget) (t, now) =
    ((browse_one filter exclude budget (th_world t)).1.1, (with_world t (browse_one filter exclude budget (th_world t)).2, now')) /\
    ((forall f ex ms w u r, (browse_commissionable f ex ms w).1 = Some (u, r) -> 0 <= u) ->
     now' = now + (browse_one filter exclude budget (th_world t)).1.2).
Proof.
  unfold browse_one, browse_one_task, do_op, at_once. cbn [prog_bind run perform lasts fst snd]. unfold on_world.
  destruct (browse_commissionable _ _ _ _) as [fut w] eqn:E. cbn [fst snd]. unfold within, until.
  assert (Hms : 0 <= from_millis (budget_ms budget)) by (unfold from_millis, budget_ms; lia).
  destruct fut as [[u r]|].
  - destruct (Z.leb_spec u (from_millis (budget_ms budget))); (eexists; split; [reflexivity|]); intros Hlaw.
    + pose proof (Hlaw filter exclude _ _ u r (f_equal fst E)). simpl. lia.
    + simpl. lia.
  - eexists; split; [reflexivity|]. intros _. simpl. lia.
Qed.

Lemma sweep_alone fuel deadline now sweep t :
  (forall f ex ms w u r, (browse_commissionable f ex ms w).1 = Some (u, r) -> 0 <= u) ->
  (MAX_SWEEP < fuel + length (sw_exclude sweep))%nat -> (length (sw_exclude sweep) <= MAX_SWEEP)%nat ->
  exists sweep' now' w, browse_loop fuel deadline now sweep (th_world t) = Some (sweep', now', w) /\
    run at_once (sweep_task fuel deadline sweep) (t, now) = (Some sweep', (with_world t w, now')).
Proof.
  intros Hlaw. revert now sweep t. induction fuel as [|fuel IH]; intros now sweep t Hf Hl; [lia|]. cbn [browse_loop sweep_task].
  unfold is_full. destruct (Nat.leb_spec MAX_SWEEP (length (sw_exclude sweep))).
  { exists sweep, now, (th_world t). by rewrite with_world_same. }
  unfold do_op. cbn [prog_bind run]. unfold at_once at 1. cbn [perform lasts fst snd]. rewrite Z.add_0_r, Z.max_id.
  destruct (remaining_budget deadline now =? 0); [exists sweep, now, (th_world t); by rewrite with_world_same|].
  rewrite run_bind. destruct (browse_one_alone commissioning_mode (sw_exclude sweep) (remaining_budget deadline now) t now) as (n1 & E1 & Hn).
  specialize (Hn Hlaw). destruct (browse_one _ _ _ _) as [[r elapsed] w]. cbn [fst snd] in E1, Hn. subst n1. rewrite E1.
  destruct r as [[addr inst]|e]; [|by exists sweep, (now + elapsed), w].
  destruct (IH (now + elapsed) (sweep_push sweep (addr_to_string addr) inst) (with_world t w)) as (s' & n' & w' & E2 & E3);
    [unfold sweep_push; simpl; rewrite length_app; simpl; lia.. |].
  exists s', n', w'. split; [exact E2|]. rewrite E3. by destruct t.
Qed.

Lemma browse_alone timeout_ms t now :
  (forall f ex ms w u r, (browse_commissionable f ex ms w).1 = Some (u, r) -> 0 <= u) ->
  exists r n' w, browse timeout_ms now (th_world t) = Some (r, n', w) /\
    run at_once (browse_task timeout_ms) (t, now) = (r, (with_world t w, n')).
Proof.
  intros Hlaw. unfold browse, browse_task, do_op. cbn [prog_bind run]. unfold at_once at 1. cbn [perform lasts fst snd].
  rewrite Z.add_0_r, Z.max_id, run_bind.
  destruct (sweep_alone (S MAX_SWEEP) (deadline_after now (from_millis timeout_ms)) now Sweep_default t Hlaw) as (s & n' & w & -> & ->);
    [unfold MAX_SWEEP; simpl; lia..|]. by exists (Ok (sw_out s)), n', w.
Qed.

Lemma fabrics_alone n t now :
  let '(r, w) := device_fabrics n (th_world t) in alone (fabrics_task n) t now r (with_world t w).
Proof.
  unfold device_fabrics, read_attributes. pose proof (read_alone IM_TIMEOUT_SECS n [fabrics_path] false t now) as Hr.
  destruct (read_attributes_inner _ _ _ _ _) as [r w]. eapply alone_try; [exact Hr|]. destruct r; [intros ?; apply alone_ret | done].
Qed.

Lemma remove_fabric_alone n idx t now :
  let '(r, w) := remove_device_fabric n idx (th_world t) in alone (remove_fabric_task n idx) t now r (with_world t w).
Proof.
  unfold remove_device_fabric. pose proof (invoke_alone n ROOT_ENDPOINT OP_CREDS "removeFabric" (json_obj [("fabricIndex", json_u idx)]) None t now) as Hi.
  destruct (invoke _ _ _ _ _ _ _) as [r w]. eapply alone_try; [exact Hi|]. destruct r; [intros ?; apply alone_ret | done].
Qed.

Lemma window_alone n secs t now :
  let '(r, t') := run_request identity window_draws (OpenCommissioningWindow n secs) t in alone (window_task n secs) t now r t'.
Proof.
  cbn [run_request]. unfold window_task, open_window. destruct (crypto_rand (th_world t)) as [rand w] eqn:E.
  assert (Ha : alone (do_op AskRand) t now rand (with_world t w)) by (apply alone_act; simpl; by rewrite E).
  destruct rand as [rng|e]; [|eapply alone_bind; [exact Ha | intros ?; apply alone_ret]].
  destruct (generate_window_secrets window_draws rng) as [[[passcode discriminator] salt]|] eqn:Es;
    [|eapply alone_bind; [exact Ha | intros ?; cbv beta iota; rewrite Es; apply alone_ret]].
  destruct (compute_pase_verifier _ _ _) as [verifier|e] eqn:Ev;
    [|eapply alone_bind; [exact Ha | intros ?; cbv beta iota; rewrite Es, Ev; apply alone_ret]].
  pose proof (fun now => invoke_alone n ROOT_ENDPOINT ADMIN_COMMISSIONING "openCommissioningWindow"
    (window_payload secs verifier discriminator salt) (Some 10000) (with_world t w) now) as Hi. cbn [th_world with_world] in Hi.
  unfold basic_info_vid_pid, read_attributes. destruct (invoke _ _ _ _ _ _ w) as [r w2].
  set (paths := [basic_info_path BASIC_INFO_VENDOR_ID; basic_info_path BASIC_INFO_PRODUCT_ID]).
  pose proof (fun now => read_alone IM_TIMEOUT_SECS n paths false (with_world t w2) now) as Hr. cbn [th_world with_world] in Hr.
  destruct (read_attributes_inner n paths false IM_TIMEOUT_SECS w2) as [r2 w3]. destruct r as [resp|e]; unfold on_world; cbn [fst snd].
  - set (ids := match r2 with Ok pairs => vid_pid_from pairs | Err _ => (0, 0) end) in *.
    destruct ids as [vid pid] eqn:Eids. cbn [fst snd]. eapply alone_bind; [exact Ha|]. intros n1. cbv beta iota. rewrite Es, Ev.
    eapply alone_try; [apply Hi|]. intros n2. eapply alone_bind; [apply Hr|]. intros n3. cbv beta. fold ids. rewrite Eids. apply alone_ret.
  - eapply alone_bind; [exact Ha|]. intros n1. cbv beta iota. rewrite Es, Ev. eapply alone_try; [apply Hi|]. done.
Qed.

Lemma resolve_alone target t now :
  let '(r, w) := resolve_target target (th_world t) in alone (resolve_task target) t now r (with_world t w).
Proof.
  unfold resolve_target, resolve_task. destruct (target_of target) as [[passcode [filter|addr]]|e];
    [|rewrite with_world_same; apply alone_ret..].
  destruct (browse_one_alone filter [] BROWSE_TIMEOUT t now) as (n1 & Hb & _). destruct (browse_one _ _ _ _) as [[r elapsed] w].
  eapply alone_try; [eexists; exact Hb|]. destruct r as [[addr inst]|e]; [intros ?; apply alone_ret | done].
Qed.

Lemma commission_alone req t now :
  let '(r, t') := run_request identity window_draws (Commission req) t in alone (commission_task req) t now r t'.
Proof.
  cbn [run_request]. unfold commission, commission_task. pose proof (resolve_alone (cr_target req) t now) as Hr.
  assert (Hsame : forall w, with_sys (with_world t w) (with_ctx (th_sys t) (sys_ctx (th_sys t)) (sys_tasks (th_sys t))) = with_world t w)
    by (intros w; by destruct t as [[]]).
  destruct (resolve_target _ _) as [[[passcode addr]|e] w]; [|rewrite Hsame; by eapply alone_try; [exact Hr|]].
  destruct (make_generator identity) as [generator|e]; unfold lift_result;
    [|rewrite Hsame; eapply alone_try; [exact Hr|]; intros ?; apply alone_ret].
  destruct (pase_commission generator addr passcode (cr_node_id req) w) as [fut1 w1] eqn:E1.
  assert (Hp : forall now, alone (do_op (AwaitPase generator addr passcode (cr_node_id req))) (with_world t w) now fut1 (with_world t w1)).
  { intros ?. apply alone_act. cbn [perform]. cbn [th_world with_world]. by rewrite E1. }
  destruct (phase fut1 phase1_timeout) as [idx|e] eqn:P1.
  2: { rewrite Hsame. eapply alone_try; [exact Hr|]. intros n1. cbn [try_bind prog_bind]. eapply alone_bind; [apply Hp|].
       intros n2. cbv beta. rewrite P1. apply alone_ret. }
  destruct (complete_via_case generator addr idx w1) as [fut2 w2] eqn:E2.
  assert (Hq : forall now, alone (do_op (AwaitCase generator addr idx)) (with_world t w1) now fut2 (with_world t w2)).
  { intros ?. apply alone_act. cbn [perform]. cbn [th_world with_world]. by rewrite E2. }
  destruct (phase fut2 phase2_timeout) as [[]|e] eqn:P2.
  2: { rewrite Hsame. eapply alone_try; [exact Hr|]. intros n1. cbn [try_bind prog_bind]. eapply alone_bind; [apply Hp|].
       intros n2. cbv beta. rewrite P1. cbn [try_bind prog_bind]. eapply alone_bind; [apply Hq|]. intros n3. cbv beta. rewrite P2. apply alone_ret. }
  eapply alone_try; [exact Hr|]. intros n1. cbn [try_bind prog_bind]. eapply alone_bind; [apply Hp|].
  intros n2. cbv beta. rewrite P1. cbn [try_bind prog_bind]. eapply alone_bind; [apply Hq|]. intros n3. cbv beta. rewrite P2. cbn [try_bind prog_bind].
  eapply alone_bind; [apply push_label_alone|]. intros n4. eapply alone_bind; [apply alone_act; reflexivity|]. intros n5.
  eapply alone_eq; [apply alone_ret | done | by destruct t].
Qed.

Lemma update_label_alone label t now :
  let '(r, t') := run_request identity window_draws (UpdateFabricLabel label) t in alone (update_label_task label) t now r t'.
Proof.
  cbn [run_request]. unfold update_fabric_label, update_label_task. set (cut := truncate_to_bytes label _).
  destruct (update_label (fab_idx (sys_ctx (th_sys t))) cut (th_fabrics t)) as [r f] eqn:E.
  assert (Ha : alone (do_op (SetLabel cut)) t now r (with_fabrics t f)) by (apply alone_act; cbn [perform]; by rewrite E).
  destruct r as [u|e].
  - eapply alone_bind; [exact Ha|]. intros n1. eapply alone_bind; [apply alone_act; reflexivity|]. intros n2.
    eapply alone_bind; [apply push_labels_alone|]. intros n3. eapply alone_eq; [apply alone_ret | done | by destruct t].
  - eapply alone_bind; [exact Ha|]. intros n1. eapply alone_eq; [apply alone_ret | done | by destruct t].
Qed.

(** A discovery measures its time on the clock it is given, and no browse is over
    before it began. *)
Definition punctual {B} (op : StackOp B) (now : Z) t : Prop :=
  match op with
  | BrowseCommissionable _ =>
      now = instant_now (th_world t) /\
      forall f ex ms (w : W) u r, (browse_commissionable f ex ms w).1 = Some (u, r) -> 0 <= u
  | _ => True
  end.

(** The request of [StackHandle] is its task run at once. *)
Lemma op_alone {B} (op : StackOp B) t now :
  control op = false -> punctual op now t ->
  alone (op_task op) t now (run_request identity window_draws op t).1 (run_request identity window_draws op t).2.
Proof.
  intros Hc Hp. destruct op; try done; cbn [op_task].
  - pose proof (commission_alone req t now) as Ha. by destruct (run_request _ _ _ t).
  - pose proof (read_alone IM_TIMEOUT_SECS node_id paths fabric_filtered t now) as Ha. cbn [run_request]. unfold read_attributes, on_world.
    by destruct (read_attributes_inner _ _ _ _ _).
  - cbn [run_request]. unfold on_world. pose proof (write_alone node_id endpoint cluster attribute value t now) as Ha.
    by destruct (write_attribute _ _ _ _ _ _).
  - cbn [run_request]. unfold on_world. pose proof (invoke_alone node_id endpoint cluster command_name payload timed_ms t now) as Ha.
    by destruct (invoke _ _ _ _ _ _ _).
  - cbn [run_request]. unfold interview, on_world. pose proof (read_alone INTERVIEW_TIMEOUT_SECS node_id [all_attributes] true t now) as Ha.
    destruct (read_attributes_inner _ _ _ _ _). eapply alone_bind; [exact Ha|]. intros ?. apply alone_ret.
  - pose proof (window_alone node_id timeout_secs t now) as Ha. by destruct (run_request _ _ _ t).
  - cbn [run_request]. unfold on_world. pose proof (fabrics_alone node_id t now) as Ha. by destruct (device_fabrics _ _).
  - cbn [run_request]. unfold on_world. pose proof (remove_fabric_alone node_id fabric_index t now) as Ha.
    by destruct (remove_device_fabric _ _ _).
  - pose proof (update_label_alone label t now) as Ha. by destruct (run_request _ _ _ t).
  - cbn [run_request]. eapply alone_bind; [apply alone_act; reflexivity|]. intros ?. apply alone_ret.
  - destruct Hp as [-> Hlaw]. destruct (browse_alone timeout_ms t (instant_now (th_world t)) Hlaw) as (r & n' & w & E & Er).
    cbn [run_request]. rewrite E. by exists n'.
Qed.

(** ** How long a task can wait *)

(** Whatever its acts answer, the timers of [p] add up to at most [d]. *)
Fixpoint takes {A} (p : Task A) (d : Z) : Prop :=
  match p with
  | Ret _ => 0 <= d
  | Do a k => 0 <= timer a /\ forall b, takes (k b) (d - timer a)
  end.

(** What a request may take once it is in a task: 30 s for the browse and 60 for
    each phase of a commissioning and 30 for the label; 30 s for an exchange, 120
    for an interview.  A discovery has the time it is called with ([browse_spec]),
    a new label 30 s for each node supervised when it is pushed. *)
Definition budget {B} (op : StackOp B) : option Z :=
  match op with
  | Commission _ => Some (from_secs 180)
  | Interview _ => Some (from_secs 120)
  | OpenCommissioningWindow _ _ => Some (from_secs 60)
  | ReadAttributes _ _ _ | WriteAttribute _ _ _ _ _ | Invoke _ _ _ _ _ _ | DeviceFabrics _ | RemoveDeviceFabric _ _ =>
      Some (from_secs 30)
  | NodeAddresses _ | StartSupervisor _ | StopSupervisor _ | Shutdown => Some 0
  | UpdateFabricLabel _ | BrowseCommissionable _ => None
  end.

Lemma takes_mono {A} (p : Task A) d d' : takes p d -> d <= d' -> takes p d'.
Proof.
  revert d d'. induction p as [a|X op k IH]; intros d d' Hp Hd; cbn [takes] in *; [lia|].
  destruct Hp as [Ha Hp]. split; [done|]. intros b. eapply IH; [apply Hp | lia].
Qed.

Lemma takes_ret {A} (a : A) d : 0 <= d -> takes (Ret a) d.
Proof. done. Qed.

Lemma takes_bind {A B} (p : Task A) (f : A -> Task B) d1 d2 :
  takes p d1 -> (forall a, takes (f a) d2) -> takes (prog_bind p f) (d1 + d2).
Proof.
  revert d1. induction p as [a|X op k IH]; intros d1 Hp Hf; cbn [takes prog_bind] in *; [eapply takes_mono; [apply Hf | lia]|].
  destruct Hp as [Ha Hp]. split; [done|]. intros b. replace (d1 + d2 - timer op) with (d1 - timer op + d2) by lia. by apply IH.
Qed.

Lemma takes_act {B C} (a : Act R B) (f : B -> Task C) d :
  0 <= timer a -> (forall b, takes (f b) (d - timer a)) -> takes (prog_bind (do_op a) f) d.
Proof. intros Ha Hf. split; [done|]. intros b. apply Hf. Qed.

Lemma takes_try {A B E} (p : Task (Result A E)) (f : A -> Task (Result B E)) d1 d2 :
  takes p d1 -> 0 <= d2 -> (forall a, takes (f a) d2) -> takes (try_bind p f) (d1 + d2).
Proof. intros Hp Hd Hf. apply takes_bind; [done|]. intros [a|e]; [apply Hf | done]. Qed.

Lemma read_takes secs n paths filtered : 0 <= secs -> takes (read_task secs n paths filtered) (from_secs secs).
Proof. intros Hs. apply takes_act; [unfold from_secs; simpl; unfold from_secs; lia|]. intros b. simpl. lia. Qed.

Lemma write_takes n endpoint cl attribute value : takes (write_task n endpoint cl attribute value) (from_secs 30).
Proof. unfold write_task. destruct (encode_anonymous _); [|done]. by apply takes_act. Qed.

Lemma invoke_takes n endpoint cl name payload timed : takes (invoke_task n endpoint cl name payload timed) (from_secs 30).
Proof.
  unfold invoke_task. destruct (cluster cl) as [meta|]; [|done]. destruct (find_command_ci meta name) as [cmd|]; [|done].
  destruct (encode_command_args meta cmd payload); [|done]. by apply takes_act.
Qed.

Lemma push_label_takes n label : takes (push_label_task n label) (from_secs 30).
Proof. apply (takes_bind _ _ (from_secs 30) 0); [apply invoke_takes | done]. Qed.

(** A new label, once the nodes are known. *)
Lemma push_labels_takes nodes label :
  takes (prog_for nodes (fun n => push_label_task n label)) (from_secs 30 * Z.of_nat (length nodes)).
Proof.
  induction nodes as [|n nodes IH]; cbn [prog_for]; [done|].
  replace (from_secs 30 * Z.of_nat (length (n :: nodes))) with (from_secs 30 + from_secs 30 * Z.of_nat (length nodes))
    by (simpl length; lia). apply takes_bind; [apply push_label_takes | intros ?; exact IH].
Qed.

Lemma resolve_takes target : takes (resolve_task target) (from_secs 30).
Proof.
  unfold resolve_task. destruct (target_of target) as [[passcode [filter|addr]]|e]; [|done..].
  apply (takes_try _ _ (from_secs 30) 0); [by apply takes_act | done | done].
Qed.

Lemma window_takes n secs : takes (window_task n secs) (from_secs 60).
Proof.
  apply takes_act; [done|]. intros [rng|e]; [|done]. destruct (generate_window_secrets _ _) as [[[p d] salt]|]; [|done].
  destruct (compute_pase_verifier _ _ _); [|done].
  apply (takes_try _ _ (from_secs 30) (from_secs 30)); [apply invoke_takes | done|]. intros resp.
  apply (takes_bind _ _ (from_secs 30) 0); [by apply read_takes|]. intros r. by destruct (match r with Ok _ => _ | Err _ => _ end).
Qed.

Lemma commission_takes req : takes (commission_task req) (from_secs 180).
Proof.
  apply (takes_try _ _ (from_secs 30) (from_secs 150)); [apply resolve_takes | done|]. intros [passcode addr].
  apply (takes_try _ _ 0 (from_secs 150)); [done | done|]. intros generator. apply takes_act; [done|]. intros fut.
  apply (takes_try _ _ 0 (from_secs 90)); [done | done|]. intros idx. apply takes_act; [done|]. intros fut'.
  apply (takes_try _ _ 0 (from_secs 30)); [done | done|]. intros u.
  apply (takes_bind _ _ (from_secs 30) 0); [apply push_label_takes|]. intros u'. by apply takes_act.
Qed.

Lemma op_takes {B} (op : StackOp B) d : control op = false -> budget op = Some d -> takes (op_task op) d.
Proof.
  destruct op; try done; intros _ [= <-]; cbn [op_task].
  - apply commission_takes.
  - by apply read_takes.
  - apply write_takes.
  - apply invoke_takes.
  - apply (takes_bind _ _ (from_secs 120) 0); [by apply read_takes | done].
  - apply window_takes.
  - apply (takes_try _ _ (from_secs 30) 0); [by apply read_takes | done..].
  - apply (takes_try _ _ (from_secs 30) 0); [apply invoke_takes | done..].
  - by apply takes_act.
Qed.
End ops.
