(* ===== verification/Executor.v ===== *)
(** * The executor of the stack thread

    [StackHandle.request] and [send] of [crates/stack/src/lib.rs] against
    [request_loop] and [handle_request] of [crates/stack/src/runtime.rs], with
    many callers at once.  Calls queue their request; the loop takes requests in
    order, serves the control requests itself and detaches a task for every
    other; the tasks of [Ops] run await by await, in any order and in between each
    other, and so do supervisors and reports.  When the loop ends, by a shutdown or
    because the transport or the responder exited, the queue and the tasks are
    dropped and their callers told; what a task did on a device until then stays
    done. *)

From stdpp Require Import sorting.
From S2P Require Import Prelude Json Wire Prog Fs Storage Registry StackApi NodeManager Controller Commands Sched CommandFacts.
From S2P Require Import Gen TlvJson Accumulate Ctx Interact Reports Supervisor SupervisorFacts Identity DeviceOps Window Browse Onboard StackHandle Ops.

(** Requests are numbered in the order they are made. *)
Record Request : Type := { rq_id : nat; rq_type : Type; rq_op : StackOp rq_type }.
Record Reply : Type := { rp_request : Request; rp_value : rq_type rp_request }.
Abbreviation ids := (map rq_id).

#[export] Instance internal_dec l : Decision (internal l).
Proof. destruct l; simpl; apply _. Defined.

(** What is left of a detached task, and when what it awaits is back. *)
Record Job (R : Type) : Type := {
  jb_request : Request;
  jb_rest : Prog (Act R) (rq_type jb_request);
  jb_wakes : Z;
}.
Arguments jb_request {R}. Arguments jb_rest {R}. Arguments jb_wakes {R}.

(** An act with its answer. *)
Record Done (R : Type) : Type := { dn_type : Type; dn_act : Act R dn_type; dn_answer : dn_type }.
Arguments dn_act {R}. Arguments dn_answer {R}.
Definition done_act {R B} (a : Act R B) (b : B) : Done R := {| dn_type := B; dn_act := a; dn_answer := b |}.

(** What happened: a request was answered; the task of a request did something,
    at an instant; a stretch of a supervisor or a report; the end of the transport. *)
Inductive Entry (R : Type) : Type :=
| Served (r : Reply)
| Acted (id : nat) (now : Z) (d : Done R)
| Inside (l : Step)
| Died.
Arguments Served {R}. Arguments Acted {R}. Arguments Inside {R}. Arguments Died {R}.

Definition served_id {R} (e : Entry R) : option nat := match e with Served r => Some (rq_id (rp_request r)) | _ => None end.
Definition served {R} (log : list (Entry R)) : list nat := omap served_id log.

Definition act_of {R} (id : nat) (e : Entry R) : option (Done R) :=
  match e with Acted i _ d => if (i =? id)%nat then Some d else None | _ => None end.
(** What the task of one request did. *)
Definition acts_of {R} (id : nat) (log : list (Entry R)) : list (Done R) := omap (act_of id) log.

(** What ends the loop: a shutdown, or the death of the transport. *)
Definition closes {R} (e : Entry R) : bool :=
  match e with
  | Served r => match rq_op (rp_request r) with Shutdown => true | _ => false end
  | Acted _ _ _ | Inside _ => false
  | Died => true
  end.

(** [xe_queue] is the channel, [xe_tasks] the detached tasks, [xe_now] the clock,
    [xe_log] what happened so far. *)
Record Exec (W F R : Type) : Type := {
  xe_thread : Thread W F;
  xe_now : Z;
  xe_queue : list Request;
  xe_tasks : list (Job R);
  xe_next : nat;
  xe_log : list (Entry R);
}.
Arguments xe_thread {W F R}. Arguments xe_now {W F R}. Arguments xe_queue {W F R}. Arguments xe_tasks {W F R}.
Arguments xe_next {W F R}. Arguments xe_log {W F R}.

(** Moves: a caller, the loop, a task that goes on until its next await or is
    dropped, one of the fatal futures of [run_stack], a supervisor or a report,
    and time. *)
Inductive Move : Type :=
| Call {B : Type} (op : StackOp B)
| Recv
| Poll (id : nat)
| DropTask (id : nat)
| Die
| Inner (l : Step)
| Wait (ticks : Z).

Section executor.
Context `{Base64} `{Tables} `{TxBuf} `{OnboardCodes} `{PaseCrypto} `{CodeFormats} `{HashOrder}.
Context {W F R : Type} `{!ImDevices W} `{!Mdns W} `{!Commissioner W} `{!FabricTable F} `{!Rng R} `{!Surroundings W R}.
Context (identity : ServerIdentity) (window_draws : nat).
Implicit Types (t : Thread W F) (x : Exec W F R) (r : Request) (j : Job R).

#[local] Instance the_stack : Stack (Thread W F) := StackHandle_stack identity window_draws.
Abbreviation task_of r := (op_task identity window_draws (rq_op r)).

Definition is_open x : bool := sys_open (th_sys (xe_thread x)).

Definition exec_init t (now : Z) : Exec W F R :=
  {| xe_thread := t; xe_now := now; xe_queue := []; xe_tasks := []; xe_next := 0; xe_log := [] |}.

Definition with_queue x q : Exec W F R :=
  {| xe_thread := xe_thread x; xe_now := xe_now x; xe_queue := q; xe_tasks := xe_tasks x; xe_next := xe_next x; xe_log := xe_log x |}.
Definition with_tasks x ts : Exec W F R :=
  {| xe_thread := xe_thread x; xe_now := xe_now x; xe_queue := xe_queue x; xe_tasks := ts; xe_next := xe_next x; xe_log := xe_log x |}.
Definition with_next x n : Exec W F R :=
  {| xe_thread := xe_thread x; xe_now := xe_now x; xe_queue := xe_queue x; xe_tasks := xe_tasks x; xe_next := n; xe_log := xe_log x |}.
Definition with_now x now : Exec W F R :=
  {| xe_thread := xe_thread x; xe_now := now; xe_queue := xe_queue x; xe_tasks := xe_tasks x; xe_next := xe_next x; xe_log := xe_log x |}.
Definition effect x t (e : Entry R) : Exec W F R :=
  {| xe_thread := t; xe_now := xe_now x; xe_queue := xe_queue x; xe_tasks := xe_tasks x; xe_next := xe_next x; xe_log := xe_log x ++ [e] |}.
Definition answer x t r (b : rq_type r) : Exec W F R := effect x t (Served {| rp_request := r; rp_value := b |}).

(** The arm of [request_loop] for a control request. *)
Definition serve r x : Exec W F R :=
  let '(b, t) := run_request identity window_draws (rq_op r) (xe_thread x) in answer x t r b.

(** A closed channel, or a dropped reply sender. *)
Definition refuse r x : Exec W F R :=
  let '(b, t) := request_refused (rq_op r) (xe_thread x) in answer x t r b.

(** Dropping the receiver drops what is queued, in order. *)
Definition close x : Exec W F R := fold_left (fun x r => refuse r x) (xe_queue x) (with_queue x []).

(** [ex.spawn(handle_request(..)).detach()]. *)
Definition detach r x : Exec W F R :=
  with_tasks x (xe_tasks x ++ [{| jb_request := r; jb_rest := task_of r; jb_wakes := xe_now x |}]).

Definition job_id j : nat := rq_id (jb_request j).

Definition take_job (id : nat) x : option (Job R * Exec W F R) :=
  match List.find (fun j => (job_id j =? id)%nat) (xe_tasks x) with
  | Some j => Some (j, with_tasks x (List.filter (fun j => negb (job_id j =? id)%nat) (xe_tasks x)))
  | None => None
  end.

(** A task resumed: its reply, or its next act. *)
Definition advance r (p : Prog (Act R) (rq_type r)) x : Exec W F R :=
  match p with
  | Ret b => answer x (xe_thread x) r b
  | Do a k =>
      let '(b, t) := perform (xe_now x) a (xe_thread x) in
      let x := effect x t (Acted (rq_id r) (xe_now x) (done_act a b)) in
      with_tasks x (xe_tasks x ++ [{| jb_request := r; jb_rest := k b; jb_wakes := xe_now x + lasts a b |}])
  end.

(** Once the loop ended the executor only drops futures. *)
Definition runs x (l : Step) : bool := is_open x || match l with DropFuture _ => true | _ => false end.

Definition exec_step (m : Move) x : option (Exec W F R) :=
  match m with
  | Call op =>
      let r := {| rq_id := xe_next x; rq_type := _; rq_op := op |} in
      let x1 := with_next x (S (xe_next x)) in
      Some (if is_open x then with_queue x1 (xe_queue x ++ [r]) else refuse r x1)
  | Recv =>
      if is_open x then
        match xe_queue x with
        | [] => None
        | r :: q =>
            let x := with_queue x q in
            if control (rq_op r) then
              let x := serve r x in Some (if is_open x then x else close x)
            else Some (detach r x)
        end
      else None
  | Poll id =>
      if is_open x then
        '(j, x) ← take_job id x; if jb_wakes j <=? xe_now x then Some (advance (jb_request j) (jb_rest j) x) else None
      else None
  | DropTask id =>
      if is_open x then None else '(j, x) ← take_job id x; Some (refuse (jb_request j) x)
  | Die =>
      if is_open x then
        Some (close (effect x (with_sys (xe_thread x) (shutdown (th_sys (xe_thread x)))) Died))
      else None
  | Inner l =>
      if decide (internal l) then
        if runs x l then
          s ← sys_step l (th_sys (xe_thread x)); Some (effect x (with_sys (xe_thread x) s) (Inside l))
        else None
      else None
  | Wait ticks => if 0 <=? ticks then Some (with_now x (xe_now x + ticks)) else None
  end.

Fixpoint exec_run (ms : list Move) x : option (Exec W F R) :=
  match ms with
  | [] => Some x
  | m :: ms => match exec_step m x with Some x => exec_run ms x | None => None end
  end.

(** ** What a log says *)

(** The thread a log leads to: a control request is the call of [StackHandle], an
    act is done on the thread as it then is and answered by it, and the answer of a
    detached request does nothing. *)
Fixpoint replays (log : list (Entry R)) t t' : Prop :=
  match log with
  | [] => t' = t
  | Served r :: log =>
      if control (rq_op (rp_request r)) then
        (stack_call _ (rq_op (rp_request r)) t).1 = rp_value r /\ replays log (stack_call _ (rq_op (rp_request r)) t).2 t'
      else replays log t t'
  | Acted _ now d :: log =>
      sys_open (th_sys t) = true /\ (perform now (dn_act d) t).1 = dn_answer d /\ replays log (perform now (dn_act d) t).2 t'
  | Inside l :: log =>
      exists s, internal l /\ (sys_open (th_sys t) = true \/ exists k, l = DropFuture k) /\
        sys_step l (th_sys t) = Some s /\ replays log (with_sys t s) t'
  | Died :: log => sys_open (th_sys t) = true /\ replays log (with_sys t (shutdown (th_sys t))) t'
  end.

(** The steps of the supervision system in it; none but drops once the thread is
    closed. *)
Definition entry_steps (e : Entry R) : list Step :=
  match e with
  | Served r =>
      match rq_op (rp_request r) with
      | StartSupervisor n => [Start n]
      | StopSupervisor n => [Stop n]
      | Shutdown => [ShutdownRequest]
      | _ => []
      end
  | Acted _ _ d => match dn_act d with NoteAddrs n l => [Commissioned n l] | _ => [] end
  | Inside l => [l]
  | Died => [ShutdownRequest]
  end.

Fixpoint supervision (is_up : bool) (log : list (Entry R)) : list Step :=
  match log with
  | [] => []
  | e :: log =>
      (if is_up then entry_steps e else match e with Inside l => [l] | _ => [] end) ++ supervision (is_up && negb (closes e)) log
  end.

(** [p] is at [q] once its next acts were [ds] with their answers. *)
Inductive follows {A} : Prog (Act R) A -> list (Done R) -> Prog (Act R) A -> Prop :=
| follows_nil p : follows p [] p
| follows_act B (a : Act R B) k b ds q : follows (k b) ds q -> follows (Do a k) (done_act a b :: ds) q.

(** The thread still reads requests after [log]. *)
Definition up_after (is_up : bool) (log : list (Entry R)) : bool := is_up && negb (existsb closes log).

(** How a detached request is answered after [log]: by its own task, or, the
    thread being down, as refused. *)
Definition rightly (is_up : bool) (log : list (Entry R)) (r : Reply) : Prop :=
  if up_after is_up log
  then follows (task_of (rp_request r)) (acts_of (rq_id (rp_request r)) log) (Ret (rp_value r))
  else refused (rq_op (rp_request r)) (rp_value r).

(** ** Logs replay *)

Lemma replays_app l1 l2 t1 t2 t3 : replays l1 t1 t2 -> replays l2 t2 t3 -> replays (l1 ++ l2) t1 t3.
Proof.
  revert t1. induction l1 as [|[r|i n d|l|] l1 IH]; intros t1; cbn [replays app]; [by intros ->| | | |].
  - destruct (control _); [|eauto]. intros [Hr Ha] Hb. eauto.
  - intros (Ho & Hd & Ha) Hb. eauto.
  - intros (s & Hl & Ho & E & Ha) Hb. eauto 7.
  - intros [Ho Ha] Hb. eauto.
Qed.

Lemma replays_split l1 l2 t1 t3 : replays (l1 ++ l2) t1 t3 -> exists t2, replays l1 t1 t2 /\ replays l2 t2 t3.
Proof.
  revert t1. induction l1 as [|[r|i n d|l|] l1 IH]; intros t1; cbn [replays app]; [by eauto| | | |].
  - destruct (control _); [|by apply IH]. intros [Hr (t2 & Ha & Hb)%IH]. eauto.
  - intros (Ho & Hd & (t2 & Ha & Hb)%IH). eauto.
  - intros (s & Hl & Ho & E & (t2 & Ha & Hb)%IH). eauto 8.
  - intros [Ho (t2 & Ha & Hb)%IH]. eauto.
Qed.

Lemma refused_sys {B} (op : StackOp B) t : th_sys (request_refused op t).2 = th_sys t.
Proof. by destruct op. Qed.

Lemma refused_same {B} (op : StackOp B) t : control op = false -> (request_refused op t).2 = t.
Proof. by destruct op. Qed.

Lemma refused_value {B} (op : StackOp B) t : refused op (request_refused op t).1.
Proof. by destruct op. Qed.

Lemma internal_open l s s' : internal l -> sys_step l s = Some s' -> sys_open s' = sys_open s.
Proof. destruct l; simpl; try done; intros _ E; by case_all. Qed.

(** An act is at most one step of the supervision system: a note of an address. *)
Lemma perform_sys now {B} (a : Act R B) t :
  sys_run (match a with NoteAddrs n l => [Commissioned n l] | _ => [] end) (th_sys t) = Some (th_sys (perform now a t).2).
Proof. destruct a; cbn [perform]; try done. by destruct (update_label _ _ _). Qed.

Lemma perform_open now {B} (a : Act R B) t : sys_open (th_sys (perform now a t).2) = sys_open (th_sys t).
Proof. destruct a; cbn [perform]; try done. by destruct (update_label _ _ _). Qed.

(** The thread is open until something closed it. *)
Lemma replays_open log t t' : replays log t t' -> sys_open (th_sys t') = sys_open (th_sys t) && negb (existsb closes log).
Proof.
  revert t. induction log as [|[[[i B op] b]|i n d|l|] log IH]; intros t; cbn [replays existsb closes orb rp_request rq_op rp_value rq_type].
  - intros ->. by rewrite andb_true_r.
  - destruct (control op) eqn:Ec; [|intros ->%IH; by destruct op]. intros [_ ->%IH]. cbn [stack_call StackHandle_stack the_stack].
    unfold handle_call. destruct (sys_open (th_sys t)) eqn:Ho; destruct op; try done; cbn -[negb existsb]; by rewrite ?Ho.
  - intros (Ho & _ & ->%IH). by rewrite perform_open.
  - intros (s & Hl & Ho & E & ->%IH). simpl. by rewrite (internal_open _ _ _ Hl E).
  - intros [Ho ->%IH]. simpl. by rewrite andb_false_r.
Qed.

(** The log of a thread is a run of the supervision system. *)
Lemma replays_supervision log t t' :
  replays log t t' -> sys_run (supervision (sys_open (th_sys t)) log) (th_sys t) = Some (th_sys t').
Proof.
  revert t. induction log as [|e log IH]; intros t; [by intros ->|]. intros Hr. pose proof (replays_open [e] t) as Hopen.
  change (e :: log) with ([e] ++ log) in Hr. apply replays_split in Hr as (t1 & He & Hr%IH). specialize (Hopen t1 He).
  cbn [existsb] in Hopen. rewrite orb_false_r in Hopen. cbn [supervision]. rewrite <- Hopen, sys_run_app.
  destruct e as [[[i B op] b]|i n d|l|]; cbn [replays entry_steps rp_request rq_op rp_value rq_type] in *.
  - destruct (control op) eqn:Ec.
    + destruct He as [_ ->]. destruct (sys_open (th_sys t)) eqn:Ho.
      * pose proof (call_simulated identity window_draws _ op t Ho) as Hs. etransitivity; [|exact Hr].
        destruct op; try done; exact (f_equal (fun o => match o with Some s => sys_run _ s | None => None end) Hs).
      * etransitivity; [|exact Hr]. exact (f_equal (sys_run _) (eq_sym (closed_call identity window_draws B op t Ho))).
    + subst t1. by destruct op; try done; destruct (sys_open (th_sys t)).
  - destruct He as (Ho & _ & ->). by rewrite Ho, (perform_sys n (dn_act d)).
  - destruct He as (s & Hl & Ho & E & ->). destruct (sys_open (th_sys t)); cbn [sys_run]; by rewrite E.
  - destruct He as (Ho & ->). rewrite Ho. cbn [sys_run sys_step]. by rewrite Ho.
Qed.

(** What a move appends to the log leads from the thread before to the thread
    after it. *)
Definition Extends x x' : Prop :=
  exists rest, xe_log x' = xe_log x ++ rest /\ replays rest (xe_thread x) (xe_thread x').

Lemma extends_refl x x' : xe_log x' = xe_log x -> xe_thread x' = xe_thread x -> Extends x x'.
Proof. intros Hl Ht. exists []. by rewrite app_nil_r. Qed.

Lemma extends_trans x1 x2 x3 : Extends x1 x2 -> Extends x2 x3 -> Extends x1 x3.
Proof.
  intros (r1 & Ha & Ra) (r2 & Hb & Rb). exists (r1 ++ r2). split; [by rewrite Hb, Ha, app_assoc|]. by eapply replays_app.
Qed.

Lemma serve_extends r x : control (rq_op r) = true -> is_open x = true -> Extends x (serve r x).
Proof.
  unfold is_open, serve. intros Hc Ho. exists [Served {| rp_request := r; rp_value := (run_request identity window_draws (rq_op r) (xe_thread x)).1 |}].
  destruct (run_request _ _ (rq_op r) (xe_thread x)) as [b t] eqn:E. simpl. rewrite Hc. unfold handle_call. by rewrite Ho, E.
Qed.

Lemma refuse_extends r x : is_open x = false -> Extends x (refuse r x).
Proof.
  unfold is_open, refuse. intros Ho. exists [Served {| rp_request := r; rp_value := (request_refused (rq_op r) (xe_thread x)).1 |}].
  pose proof (refused_same (rq_op r) (xe_thread x)) as Hs. destruct (request_refused (rq_op r) (xe_thread x)) as [b t] eqn:E.
  cbn in *. destruct (control (rq_op r)); [|by rewrite Hs]. unfold handle_call. by rewrite Ho, E.
Qed.

Lemma refuse_open r x : is_open (refuse r x) = is_open x.
Proof.
  unfold is_open, refuse. pose proof (refused_sys (rq_op r) (xe_thread x)) as E.
  destruct (request_refused _ _) as [b t]. simpl in *. by rewrite E.
Qed.

Lemma close_extends x : is_open x = false -> Extends x (close x) /\ is_open (close x) = false.
Proof.
  intros Ho. unfold close. set (y := with_queue x []). assert (Hy : is_open y = false) by done.
  assert (Hxy : Extends x y) by by apply extends_refl. revert Hxy Hy. generalize y. clear y.
  induction (xe_queue x) as [|r q IH]; intros y Hxy Hy; [done|]. simpl. apply IH; [|by rewrite refuse_open].
  eapply extends_trans; [exact Hxy | by apply refuse_extends].
Qed.

Lemma advance_extends r p x : is_open x = true -> control (rq_op r) = false -> Extends x (advance r p x).
Proof.
  intros Ho Hc. destruct p as [b|B a k]; cbn [advance].
  - exists [Served {| rp_request := r; rp_value := b |}]. cbn. by rewrite Hc.
  - destruct (perform (xe_now x) a (xe_thread x)) as [b t] eqn:E. eexists. split; [reflexivity|]. cbn. by rewrite E.
Qed.

Definition detachable x : Prop := Forall (fun j => control (rq_op (jb_request j)) = false) (xe_tasks x).

Lemma take_job_Some id x j x' :
  take_job id x = Some (j, x') -> j ∈ xe_tasks x /\ job_id j = id /\ x' = with_tasks x (List.filter (fun j => negb (job_id j =? id)%nat) (xe_tasks x)).
Proof.
  unfold take_job. destruct (List.find _ _) as [j'|] eqn:Hf; [|done]. intros [= -> <-].
  apply List.find_some in Hf as [Hin E]. split; [by apply list_elem_of_In|]. by apply Nat.eqb_eq in E.
Qed.

Lemma step_extends m x x' : detachable x -> exec_step m x = Some x' -> Extends x x'.
Proof.
  intros Ht. destruct m as [B op| |id|id| |l|d]; cbn [exec_step].
  - intros [= <-]. destruct (is_open x) eqn:Ho; [by apply extends_refl|].
    eapply extends_trans; [|apply refuse_extends; exact Ho]. by apply extends_refl.
  - destruct (is_open x) eqn:Ho; [|done]. destruct (xe_queue x) as [|r q] eqn:Hq; [done|].
    destruct (control (rq_op r)) eqn:Hc; intros [= <-]; [|by apply extends_refl].
    assert (E : Extends x (serve r (with_queue x q))).
    { eapply extends_trans; [|apply serve_extends; [exact Hc | exact Ho]]. by apply extends_refl. }
    destruct (is_open (serve r (with_queue x q))) eqn:Hs; [done|]. eapply extends_trans; [exact E | apply (close_extends _ Hs)].
  - destruct (is_open x) eqn:Ho; [|done]. destruct (take_job id x) as [[j x1]|] eqn:E; [|done]. cbn.
    apply take_job_Some in E as (Hj & _ & ->). unfold detachable in Ht. rewrite Forall_forall in Ht.
    case_match; [|done]. intros [= <-]. eapply extends_trans; [|apply advance_extends; [exact Ho | by apply Ht]]. by apply extends_refl.
  - destruct (is_open x) eqn:Ho; [done|]. destruct (take_job id x) as [[j x1]|] eqn:E; [|done]. cbn. intros [= <-].
    apply take_job_Some in E as (Hj & _ & ->). eapply extends_trans; [|apply refuse_extends; exact Ho]. by apply extends_refl.
  - destruct (is_open x) eqn:Ho; [|done]. intros [= <-]. eapply extends_trans; [|apply close_extends; done].
    by exists [Died].
  - case_decide; [|done]. destruct (runs x l) eqn:Hrun; [|done]. destruct (sys_step l _) as [s|] eqn:E; [|done]. intros [= <-].
    exists [Inside l]. split; [done|]. exists s. split; [done|]. split; [|done]. unfold runs, is_open in Hrun.
    destruct (sys_open _); [by left|]. right. destruct l; try done. eauto.
  - destruct (0 <=? d); [|done]. intros [= <-]. by apply extends_refl.
Qed.

(** ** Every request is somewhere, once *)

Abbreviation jids := (map job_id).

Definition control_in_order (log : list (Entry R)) : Prop :=
  forall l1 (r : Reply) l2, log = l1 ++ Served r :: l2 -> control (rq_op (rp_request r)) = true ->
    Forall (fun i => i < rq_id (rp_request r))%nat (served l1).

Definition answered_right (is_up : bool) (log : list (Entry R)) : Prop :=
  forall l1 (r : Reply) l2, log = l1 ++ Served r :: l2 -> control (rq_op (rp_request r)) = false -> rightly is_up l1 r.

(** A task at some point of its program, with the time it has left. *)
Definition on_course (log : list (Entry R)) (now : Z) j : Prop :=
  follows (task_of (jb_request j)) (acts_of (job_id j) log) (jb_rest j) /\
  forall d, budget (rq_op (jb_request j)) = Some d ->
    exists d', takes (jb_rest j) d' /\ d' <= d /\ jb_wakes j + d' <= now + d.

Definition acted_in (i : nat) (log : list (Entry R)) : Prop := exists now d, Acted i now d ∈ log.

(** [hand] is a request taken from the queue or the tasks and not yet served. *)
Record Accounted (is_up : bool) (hand : list Request) x : Prop := {
  acc_all : ids (xe_queue x) ++ jids (xe_tasks x) ++ ids hand ++ served (xe_log x) ≡ₚ seq 0 (xe_next x);
  acc_sorted : StronglySorted lt (ids (xe_queue x));
  acc_later : forall i k, i ∈ jids (xe_tasks x) ++ ids hand ++ served (xe_log x) -> k ∈ ids (xe_queue x) -> (i < k)%nat;
  acc_tasks : detachable x;
  acc_hand : Forall (fun r => control (rq_op r) = true -> Forall (fun i => i < rq_id r)%nat (served (xe_log x))) hand;
  acc_control : control_in_order (xe_log x);
  acc_right : answered_right is_up (xe_log x);
  acc_course : Forall (on_course (xe_log x) (xe_now x)) (xe_tasks x);
  acc_acted : forall i, acted_in i (xe_log x) -> i ∈ jids (xe_tasks x) ++ ids hand ++ served (xe_log x);
}.

Lemma served_app (l1 l2 : list (Entry R)) : served (l1 ++ l2) = served l1 ++ served l2.
Proof. apply omap_app. Qed.

Lemma acts_of_app i (l1 l2 : list (Entry R)) : acts_of i (l1 ++ l2) = acts_of i l1 ++ acts_of i l2.
Proof. apply omap_app. Qed.

Lemma acts_of_none i log : ~ acted_in i log -> acts_of i log = [].
Proof.
  intros Hn. induction log as [|e log IH]; [done|]. unfold acts_of in *. simpl.
  assert (Hn' : ~ acted_in i log) by (intros (n & d & Hd); apply Hn; exists n, d; by right).
  destruct e as [r|i' n d|l|]; simpl; try by apply IH. destruct (Nat.eqb_spec i' i) as [->|]; [|by apply IH].
  destruct Hn. exists n, d. by left.
Qed.

Lemma acted_in_app i l1 l2 : acted_in i (l1 ++ l2) <-> acted_in i l1 \/ acted_in i l2.
Proof.
  unfold acted_in. split.
  - intros (n & d & [Hd|Hd]%elem_of_app); [left | right]; eauto.
  - intros [(n & d & Hd)|(n & d & Hd)]; exists n, d; apply elem_of_app; auto.
Qed.

Lemma follows_snoc {A} (p q : Prog (Act R) A) ds B (a : Act R B) k b :
  follows p ds q -> q = Do a k -> follows p (ds ++ [done_act a b]) (k b).
Proof. induction 1 as [p|B' a' k' b' ds q _ IH]; intros E; simpl; [subst; repeat constructor | constructor; by apply IH]. Qed.

(** A property of the entries with what came before them. *)
Lemma each_snoc (P : list (Entry R) -> Reply -> Prop) log e :
  (forall l1 (r : Reply) l2, log = l1 ++ Served r :: l2 -> P l1 r) ->
  match e with Served rp => P log rp | _ => True end ->
  forall l1 (r : Reply) l2, log ++ [e] = l1 ++ Served r :: l2 -> P l1 r.
Proof.
  intros Hlog He l1 r l2 E. destruct l2 as [|e2 l2 _] using rev_ind.
  - apply app_inj_tail in E as [-> ->]. by apply He.
  - rewrite app_comm_cons, app_assoc in E. apply app_inj_tail in E as [-> _]. by eapply Hlog.
Qed.

Lemma control_snoc log e :
  control_in_order log ->
  match e with
  | Served r => control (rq_op (rp_request r)) = true -> Forall (fun i => i < rq_id (rp_request r))%nat (served log)
  | _ => True
  end -> control_in_order (log ++ [e]).
Proof.
  intros Hlog He. exact (each_snoc (fun l (r : Reply) => control (rq_op (rp_request r)) = true ->
    Forall (fun i => i < rq_id (rp_request r))%nat (served l)) log e Hlog He).
Qed.

Lemma right_snoc up log e :
  answered_right up log ->
  match e with Served r => control (rq_op (rp_request r)) = false -> rightly up log r | _ => True end ->
  answered_right up (log ++ [e]).
Proof.
  intros Hlog He. exact (each_snoc (fun l (r : Reply) => control (rq_op (rp_request r)) = false -> rightly up l r) log e Hlog He).
Qed.

Lemma on_course_snoc log now now' e j :
  on_course log now j -> act_of (job_id j) e = None -> now <= now' -> on_course (log ++ [e]) now' j.
Proof.
  intros [Hf Ht] He Hn. split; [rewrite acts_of_app; unfold acts_of at 2; simpl; rewrite He; simpl; by rewrite app_nil_r|].
  intros d Hd. destruct (Ht d Hd) as (d' & Hd' & Hle & Hw). exists d'. split; [done|]. split; [done | lia].
Qed.

(** An answer. *)
Lemma answer_accounted up r x t (b : rq_type r) :
  (control (rq_op r) = false -> rightly up (xe_log x) {| rp_request := r; rp_value := b |}) ->
  Accounted up [r] x -> Accounted up [] (answer x t r b).
Proof.
  intros Hb [Ha Hs Hl Ht Hh Hc Hr Hj Hd]. apply Forall_cons in Hh as [Hh _]. constructor; simpl in *; try done.
  - rewrite served_app. simpl. rewrite <- Ha. solve_Permutation.
  - intros i j Hi. apply Hl. rewrite served_app in Hi. simpl in Hi. set_solver.
  - apply control_snoc; [done | exact Hh].
  - by apply right_snoc.
  - eapply Forall_impl; [exact Hj|]. intros j Hjob. eapply on_course_snoc; [exact Hjob | done | simpl; lia].
  - intros i [Hi|(n & d & Hi%list_elem_of_singleton)]%acted_in_app; [|done]. rewrite served_app. simpl. apply Hd in Hi. set_solver.
Qed.

(** A step of the thread's own. *)
Lemma silent_accounted up x t e :
  served_id e = None -> (forall i, act_of i e = None) -> Accounted up [] x -> Accounted up [] (effect x t e).
Proof.
  intros He Hi [Ha Hs Hl Ht Hh Hc Hr Hj Hd].
  assert (Hser : served (xe_log x ++ [e]) = served (xe_log x)) by (rewrite served_app; simpl; by rewrite He, app_nil_r).
  constructor; simpl in *; rewrite ?Hser; try done.
  - apply control_snoc; [done|]. by destruct e.
  - apply right_snoc; [done|]. by destruct e.
  - eapply Forall_impl; [exact Hj|]. intros j Hjob. eapply on_course_snoc; [exact Hjob | apply Hi | simpl; lia].
  - intros i [Hi'|(n & d & Hi'%list_elem_of_singleton)]%acted_in_app; [by apply Hd|]. subst e. specialize (Hi i). simpl in Hi.
    by rewrite Nat.eqb_refl in Hi.
Qed.

Lemma wait_accounted up x d : 0 <= d -> Accounted up [] x -> Accounted up [] (with_now x (xe_now x + d)).
Proof.
  intros Hd [Ha Hs Hl Ht Hh Hc Hr Hj Hi]. constructor; simpl in *; try done.
  eapply Forall_impl; [exact Hj|]. intros j [Hf Htime]. split; [done|]. intros b Hb. destruct (Htime b Hb) as (d' & ? & ? & ?).
  exists d'. split; [done|]. split; [done | lia].
Qed.

Lemma known_ids up hand x i :
  Accounted up hand x -> i ∈ ids (xe_queue x) ++ jids (xe_tasks x) ++ ids hand ++ served (xe_log x) -> (i < xe_next x)%nat.
Proof. intros [Ha _ _ _ _ _ _ _ _] Hi. rewrite Ha in Hi. apply elem_of_seq in Hi. lia. Qed.

Lemma distinct_ids up hand x :
  Accounted up hand x -> NoDup (ids (xe_queue x) ++ jids (xe_tasks x) ++ ids hand ++ served (xe_log x)).
Proof. intros [Ha _ _ _ _ _ _ _ _]. rewrite Ha. apply NoDup_seq. Qed.

(** A request taken from the queue. *)
Lemma dequeue_accounted up r q x :
  xe_queue x = r :: q -> Accounted up [] x -> Accounted up [r] (with_queue x q).
Proof.
  intros Hq Hx. destruct Hx as [Ha Hs Hl Ht _ Hc Hr Hj Hd]. rewrite Hq in *. simpl in Ha, Hs, Hl.
  apply StronglySorted_inv in Hs as [Hs Hlt]. constructor; simpl in *; try done.
  - rewrite <- Ha. solve_Permutation.
  - intros i j Hi Hj'. assert (Hij : i = rq_id r \/ i ∈ jids (xe_tasks x) ++ served (xe_log x)) by set_solver.
    destruct Hij as [->|Hi']; [rewrite Forall_forall in Hlt; by apply Hlt|]. apply Hl; [done|]. by right.
  - apply Forall_singleton. intros _. apply Forall_forall. intros i Hi. apply Hl; [|by left]. apply elem_of_app. by right.
  - intros i Hi. apply Hd in Hi. set_solver.
Qed.

Lemma detach_accounted up r q x :
  control (rq_op r) = false -> xe_queue x = r :: q -> Accounted up [] x -> Accounted up [] (detach r (with_queue x q)).
Proof.
  intros Hc Hq Hx. pose proof (distinct_ids _ _ _ Hx) as Hnd.
  assert (Hfresh : ~ acted_in (rq_id r) (xe_log x)).
  { intros Hi%(acc_acted _ _ _ Hx). rewrite Hq in Hnd. simpl in *. apply NoDup_cons in Hnd as [Hn _]. set_solver. }
  destruct (dequeue_accounted up r q x Hq Hx) as [Ha Hs Hl Ht _ Hco Hr Hj Hd]. constructor; simpl in *; try done.
  - rewrite map_app, <- Ha. simpl. unfold job_id at 2. simpl. solve_Permutation.
  - intros i k Hi. apply Hl. rewrite map_app in Hi. simpl in Hi. unfold job_id at 2 in Hi. simpl in Hi. set_solver.
  - apply Forall_app. split; [exact Ht | by apply Forall_singleton].
  - apply Forall_app. split; [exact Hj|]. apply Forall_singleton. split; simpl; unfold job_id; simpl.
    + rewrite acts_of_none by done. constructor.
    + intros d Hb. exists d. split; [by apply op_takes|]. split; lia.
  - intros i Hi%Hd. rewrite map_app. simpl. unfold job_id at 2. simpl. set_solver.
Qed.

Lemma jids_find id (js : list (Job R)) j :
  List.find (fun j => (job_id j =? id)%nat) js = Some j -> NoDup (jids js) ->
  j ∈ js /\ jids js ≡ₚ job_id j :: jids (List.filter (fun j => negb (job_id j =? id)%nat) js).
Proof.
  induction js as [|j' js IH]; [done|]. simpl. intros Hf [Hn Hd]%NoDup_cons. destruct (Nat.eqb_spec (job_id j') id) as [E|E].
  - injection Hf as ->. split; [by left|]. simpl. constructor. replace (List.filter _ js) with js; [done|].
    symmetry. clear IH Hd. induction js as [|j2 js IH]; [done|]. simpl in *.
    destruct (Nat.eqb_spec (job_id j2) id) as [E2|E2]; simpl; [|f_equal; apply IH; set_solver].
    destruct Hn. rewrite E, <- E2. by left.
  - destruct (IH Hf Hd) as [Hin Hp]. split; [by right|]. simpl. rewrite Hp. apply Permutation_swap.
Qed.

Lemma filter_jobs (P : Job R -> Prop) f js : Forall P js -> Forall P (List.filter f js).
Proof. rewrite !Forall_forall. intros Hp j Hj%list_elem_of_In%List.filter_In. apply Hp, list_elem_of_In. tauto. Qed.

Lemma take_job_accounted up id j x x' :
  take_job id x = Some (j, x') -> Accounted up [] x ->
  Accounted up [jb_request j] x' /\ control (rq_op (jb_request j)) = false /\ on_course (xe_log x') (xe_now x') j.
Proof.
  unfold take_job. intros Ht Hx. pose proof (distinct_ids _ _ _ Hx) as Hd. destruct Hx as [Ha Hs Hl Hp _ Hc Hr Hj Hi].
  destruct (List.find _ _) as [j0|] eqn:Hf; [|done]. injection Ht as -> <-. simpl in *.
  apply NoDup_app in Hd as (_ & _ & Hd). apply NoDup_app in Hd as (Hd & _).
  destruct (jids_find _ _ _ Hf Hd) as [Hin Hperm]. pose proof (proj1 (Forall_forall _ _) Hp _ Hin) as Hctl.
  split; [|split; [exact Hctl | exact (proj1 (Forall_forall _ _) Hj _ Hin)]]. constructor; simpl; try done.
  - rewrite <- Ha, Hperm. unfold job_id at 2. solve_Permutation.
  - intros i k Hik. apply Hl. simpl. rewrite Hperm. unfold job_id at 1. set_solver.
  - by apply filter_jobs.
  - apply Forall_singleton. simpl in Hctl. congruence.
  - by apply filter_jobs.
  - intros i Hik%Hi. rewrite Hperm in Hik. unfold job_id at 1 in Hik. set_solver.
Qed.

Lemma advance_accounted up r p w x :
  control (rq_op r) = false -> on_course (xe_log x) (xe_now x) {| jb_request := r; jb_rest := p; jb_wakes := w |} ->
  up_after up (xe_log x) = true -> Accounted up [r] x -> Accounted up [] (advance r p x).
Proof.
  intros Hctl [Hf Htime] Hup Hx. destruct p as [b|B a k]; cbn [advance].
  { apply answer_accounted; [|done]. intros _. unfold rightly. rewrite Hup. exact Hf. }
  pose proof (distinct_ids _ _ _ Hx) as Hnd. destruct Hx as [Ha Hs Hl Ht _ Hc Hr Hj Hi].
  destruct (perform (xe_now x) a (xe_thread x)) as [b t]. simpl in Hf, Htime. unfold job_id in Hf. simpl in Hf.
  set (e := Acted (rq_id r) (xe_now x) (done_act a b)).
  assert (Hser : served (xe_log x ++ [e]) = served (xe_log x)) by (rewrite served_app; simpl; by rewrite app_nil_r).
  constructor; simpl in *; rewrite ?Hser; try done.
  - rewrite map_app, <- Ha. simpl. unfold job_id at 2. simpl. solve_Permutation.
  - intros i k' Hik. apply Hl. rewrite map_app in Hik. simpl in Hik. unfold job_id at 2 in Hik. simpl in Hik. set_solver.
  - apply Forall_app. split; [exact Ht | by apply Forall_singleton].
  - by apply control_snoc.
  - by apply right_snoc.
  - apply Forall_app. split.
    + apply Forall_forall. intros j' Hin. eapply on_course_snoc; [exact (proj1 (Forall_forall _ _) Hj _ Hin) | | lia].
      simpl. destruct (Nat.eqb_spec (rq_id r) (job_id j')) as [E|]; [|done].
      apply NoDup_app in Hnd as (_ & _ & Hnd). apply NoDup_app in Hnd as (_ & Hdis & _). exfalso.
      apply (Hdis (job_id j')); [by apply list_elem_of_fmap_2|]. rewrite <- E. by left.
    + apply Forall_singleton. split; unfold job_id; simpl.
      * rewrite acts_of_app. unfold acts_of at 2. simpl. rewrite Nat.eqb_refl. simpl. by eapply follows_snoc.
      * intros d Hb. destruct (Htime d Hb) as (d' & [Hta Htk] & Hle & Hw). exists (d' - timer a). pose proof (lasts_timer a b).
        split; [apply Htk|]. lia.
  - intros i [Hik|(n & d & Hik%list_elem_of_singleton)]%acted_in_app.
    + apply Hi in Hik. rewrite map_app. simpl. unfold job_id at 2. simpl. set_solver.
    + injection Hik as -> _ _. rewrite map_app. simpl. unfold job_id at 2. simpl. set_solver.
Qed.

Lemma up_after_app up (l1 l2 : list (Entry R)) : up_after up l1 = false -> up_after up (l1 ++ l2) = false.
Proof. unfold up_after. rewrite existsb_app. destruct up, (existsb closes l1); done. Qed.

(** A refusal, on a thread that is down. *)
Lemma refuse_accounted up r x :
  up_after up (xe_log x) = false -> Accounted up [r] x -> Accounted up [] (refuse r x).
Proof.
  intros Hdown Hx. unfold refuse. pose proof (refused_value (rq_op r) (xe_thread x)) as Hv. destruct (request_refused _ _) as [b t].
  apply answer_accounted; [|done]. intros _. unfold rightly. by rewrite Hdown.
Qed.

Lemma serve_accounted up r x : control (rq_op r) = true -> Accounted up [r] x -> Accounted up [] (serve r x).
Proof.
  intros Hc Hx. unfold serve. destruct (run_request _ _ _ _) as [b t]. apply answer_accounted; [|done]. by rewrite Hc.
Qed.

Lemma refuse_log r x : exists e, xe_log (refuse r x) = xe_log x ++ [e] /\ xe_queue (refuse r x) = xe_queue x.
Proof. unfold refuse. destruct (request_refused _ _) as [b t]. eexists. split; reflexivity. Qed.

(** The queue is refused in order. *)
Lemma close_accounted up x :
  up_after up (xe_log x) = false -> Accounted up [] x -> Accounted up [] (close x) /\ xe_queue (close x) = [].
Proof.
  intros Hdown Hx. unfold close. set (y := with_queue x []).
  assert (Hy : Accounted up [] (with_queue y (xe_queue x))) by by destruct x.
  assert (Hq : xe_queue y = []) by done. assert (Hd : up_after up (xe_log y) = false) by done.
  revert Hy Hq Hd. generalize y. clear y Hx Hdown.
  induction (xe_queue x) as [|r q IH]; intros y Hy Hq Hd; simpl.
  - split; [|done]. destruct y. simpl in *. by subst.
  - apply (dequeue_accounted up r q) in Hy; [|done]. apply refuse_accounted in Hy; [|exact Hd].
    destruct (refuse_log r y) as (e & Hlog & Hqy). apply IH; [|by rewrite Hqy|rewrite Hlog; by apply up_after_app].
    unfold refuse in *. simpl in *. by destruct (request_refused (rq_op r) (xe_thread y)).
Qed.

(** A call on an open channel, and one on a closed channel. *)
Lemma enqueue_accounted up r x :
  rq_id r = xe_next x -> Accounted up [] x -> Accounted up [] (with_queue (with_next x (S (xe_next x))) (xe_queue x ++ [r])).
Proof.
  intros Hr Hx. pose proof (fun i => known_ids up [] x i Hx) as Hk. destruct Hx as [Ha Hs Hl Hp Hh Hc Hri Hj Hd].
  constructor; simpl in *; try done.
  - change (0%nat :: seq 1 (xe_next x)) with (seq 0 (S (xe_next x))). rewrite map_app, seq_S, <- Ha. simpl. rewrite Hr. solve_Permutation.
  - rewrite map_app. apply StronglySorted_app_2; [|done|by repeat constructor].
    intros i k Hi Hk'%list_elem_of_singleton. rewrite Hk', Hr. apply Hk; set_solver.
  - intros i k Hi. rewrite map_app. intros [Hk'|Hk'%list_elem_of_singleton]%elem_of_app; [by apply Hl|].
    rewrite Hk', Hr. apply Hk; set_solver.
Qed.

Lemma arrive_accounted up r x :
  rq_id r = xe_next x -> xe_queue x = [] -> Accounted up [] x -> Accounted up [r] (with_next x (S (xe_next x))).
Proof.
  intros Hr Hq Hx. pose proof (fun i => known_ids up [] x i Hx) as Hk. destruct Hx as [Ha Hs Hl Hp Hh Hc Hri Hj Hd].
  constructor; simpl in *; rewrite ?Hq in *; try done.
  - change (0%nat :: seq 1 (xe_next x)) with (seq 0 (S (xe_next x))). rewrite seq_S, <- Ha. simpl. rewrite Hr. solve_Permutation.
  - intros i k _ Hk'. by apply elem_of_nil in Hk'.
  - apply Forall_singleton. intros _. apply Forall_forall. intros i Hi. rewrite Hr. apply Hk; set_solver.
  - intros i Hi%Hd. set_solver.
Qed.

(** Reached from the thread [t], with everything accounted for. *)
Record Healthy t x : Prop := {
  hl_accounted : Accounted (sys_open (th_sys t)) [] x;
  hl_replays : replays (xe_log x) t (xe_thread x);
  hl_closed : is_open x = false -> xe_queue x = [];
}.

(** Open is what the log says. *)
Lemma open_log t x : replays (xe_log x) t (xe_thread x) -> up_after (sys_open (th_sys t)) (xe_log x) = is_open x.
Proof. intros Hr%replays_open. by unfold is_open, up_after. Qed.

Lemma extends_replays t x x' : replays (xe_log x) t (xe_thread x) -> Extends x x' -> replays (xe_log x') t (xe_thread x').
Proof. intros Hr (rest & -> & Hrest). by eapply replays_app. Qed.

Lemma step_accounted t m x x' :
  Healthy t x -> exec_step m x = Some x' ->
  Accounted (sys_open (th_sys t)) [] x' /\ (is_open x' = false -> xe_queue x' = []).
Proof.
  intros [Hx Hrep Hq] E. set (up := sys_open (th_sys t)) in *. pose proof (open_log t x Hrep) as Hdown. fold up in Hdown.
  assert (Hext : Extends x x') by (eapply step_extends; [apply Hx | exact E]).
  destruct m as [B op| |id|id| |l|d]; cbn [exec_step] in E.
  - injection E as <-. destruct (is_open x) eqn:Ho.
    + split; [by apply enqueue_accounted|]. intros E. change (is_open x = false) in E. congruence.
    + split; [apply refuse_accounted; [done | by apply arrive_accounted; auto]|]. intros _.
      destruct (refuse_log {| rq_id := xe_next x; rq_type := B; rq_op := op |} (with_next x (S (xe_next x)))) as (e & _ & ->). by apply Hq.
  - destruct (is_open x) eqn:Ho; [|done]. destruct (xe_queue x) as [|r q] eqn:Eq; [done|].
    destruct (control (rq_op r)) eqn:Hc; injection E as <-.
    + pose proof (dequeue_accounted up r q x Eq Hx) as Hr. apply serve_accounted in Hr; [|done].
      destruct (is_open (serve r _)) eqn:Hs; [by split; [|congruence]|]. destruct (close_accounted up (serve r (with_queue x q))) as [Hcl Hcq]; [|exact Hr|by split].
      rewrite <- Hs. apply open_log. eapply extends_replays; [exact Hrep|].
      eapply extends_trans; [|apply serve_extends; [exact Hc | exact Ho]]. by apply extends_refl.
    + split; [by apply detach_accounted|]. change (is_open x = false -> q = []). congruence.
  - destruct (is_open x) eqn:Ho; [|done]. destruct (take_job id x) as [[j x1]|] eqn:Ht; [|done]. cbn in E. case_match; [|done].
    injection E as <-. destruct (take_job_accounted _ _ _ _ _ Ht Hx) as (Hr & Hc & Hon).
    split; [by eapply (advance_accounted _ _ _ (jb_wakes j)); [exact Hc | by destruct j | | exact Hr]; apply take_job_Some in Ht as (_ & _ & ->)|].
    intros Ho'. destruct Hext as (rest & _ & Hrest). exfalso. apply take_job_Some in Ht as (_ & _ & ->).
    destruct (jb_rest j); cbn [advance] in Ho'; [change (is_open x = false) in Ho'; congruence|].
    pose proof (perform_open (xe_now x) op (xe_thread x)) as Hop. simpl in Ho'. destruct (perform _ op _). unfold is_open in *. simpl in *. congruence.
  - destruct (is_open x) eqn:Ho; [done|]. destruct (take_job id x) as [[j x1]|] eqn:Ht; [|done]. injection E as <-.
    destruct (take_job_accounted _ _ _ _ _ Ht Hx) as (Hr & Hc & Hon). apply take_job_Some in Ht as (_ & _ & ->).
    split; [apply refuse_accounted; done|].
    intros _. destruct (refuse_log (jb_request j) (with_tasks x (List.filter (fun j => negb (job_id j =? id)%nat) (xe_tasks x)))) as (e & _ & ->).
    by apply Hq.
  - destruct (is_open x) eqn:Ho; [|done]. injection E as <-.
    destruct (close_accounted up (effect x (with_sys (xe_thread x) (shutdown (th_sys (xe_thread x)))) Died)) as [Hcl Hcq];
      [|by apply silent_accounted|by split].
    unfold up_after. simpl. rewrite existsb_app. simpl. by rewrite !orb_true_r, andb_false_r.
  - case_decide as Hi; [|done]. destruct (runs x l); [|done]. destruct (sys_step l _) as [s|] eqn:Es; [|done]. injection E as <-.
    split; [by apply silent_accounted|]. apply internal_open in Es; [|done]. unfold is_open. simpl. by rewrite Es.
  - destruct (Z.leb_spec 0 d); [|done]. injection E as <-. split; [by apply wait_accounted | exact Hq].
Qed.

Lemma step_healthy t m x x' : Healthy t x -> exec_step m x = Some x' -> Healthy t x'.
Proof.
  intros Hx E. destruct (step_accounted t m x x' Hx E) as [Ha Hq]. split; [exact Ha | | exact Hq].
  eapply extends_replays; [apply Hx|]. eapply step_extends; [apply Hx | exact E].
Qed.

Lemma init_healthy t now : Healthy t (exec_init t now).
Proof.
  split; [|done|done]. constructor; simpl; try done; try by constructor.
  - by intros i k _ Hk%elem_of_nil.
  - by intros [] ? ?.
  - by intros [] ? ?.
  - by intros i (n & d & Hd%elem_of_nil).
Qed.

Lemma run_healthy t ms x x' : Healthy t x -> exec_run ms x = Some x' -> Healthy t x'.
Proof.
  revert x. induction ms as [|m ms IH]; intros x Hx; cbn [exec_run]; [by intros [= <-]|].
  destruct (exec_step m x) as [x1|] eqn:E; [|done]. apply IH. by eapply step_healthy.
Qed.

Lemma exec_run_app ms1 ms2 x :
  exec_run (ms1 ++ ms2) x = match exec_run ms1 x with Some x1 => exec_run ms2 x1 | None => None end.
Proof. revert x. induction ms1 as [|m ms1 IH]; intros x; [done|]. cbn [app exec_run]. by destruct (exec_step m x). Qed.

(** ** What callers can rely on *)

(** C6: concurrent requests on the stack thread.  However callers, the loop, the
    awaits of the tasks, supervisors, reports, time, a shutdown and the death of
    the transport interleave: the thread is where its log leads, every act of a
    task being done on the thread as the others left it; of the supervision system
    it has gone through exactly the steps of the control requests, in the order
    they were served, the addresses commissionings noted, and the supervisors' and
    reports' own.  Every request made is queued, in a task or answered, in exactly
    one of these and once.  A control request is answered before any request made
    after it, so that a supervisor is stopped before anything its caller asks next.
    While the loop runs a detached request is answered what its own task makes of
    the answers its own acts got; once it ended, that the thread is down. *)
Theorem executor_refines_supervision t now ms x :
  exec_run ms (exec_init t now) = Some x ->
  replays (xe_log x) t (xe_thread x) /\
  sys_run (supervision (sys_open (th_sys t)) (xe_log x)) (th_sys t) = Some (th_sys (xe_thread x)) /\
  ids (xe_queue x) ++ jids (xe_tasks x) ++ served (xe_log x) ≡ₚ seq 0 (xe_next x) /\
  (forall l1 (r : Reply) l2, xe_log x = l1 ++ Served r :: l2 -> control (rq_op (rp_request r)) = true ->
    Forall (fun i => i < rq_id (rp_request r))%nat (served l1)) /\
  (forall l1 (r : Reply) l2, xe_log x = l1 ++ Served r :: l2 -> control (rq_op (rp_request r)) = false ->
    rightly (sys_open (th_sys t)) l1 r).
Proof.
  intros Hr. destruct (run_healthy _ _ _ _ (init_healthy t now) Hr) as [Hx Hrep _].
  split; [exact Hrep|]. split; [by apply replays_supervision|]. split; [apply Hx|]. split; apply Hx.
Qed.

(** Moves on behalf of one request: of its task, and of the loop before. *)
Definition own (id : nat) (m : Move) : Prop :=
  match m with Poll i => i = id | Wait _ => True | _ => False end.

Definition serves (id : nat) (m : Move) : Prop :=
  match m with Recv => True | DropTask i => i = id | _ => own id m end.

Lemma filter_id id (js : list (Job R)) : id ∉ jids js -> List.filter (fun j => negb (job_id j =? id)%nat) js = js.
Proof.
  induction js as [|j js IH]; simpl; [done|]. intros Hn. destruct (Nat.eqb_spec (job_id j) id) as [E|E]; simpl; [set_solver|].
  f_equal. apply IH. set_solver.
Qed.

Lemma filter_absent id (js : list (Job R)) : id ∉ jids (List.filter (fun j => negb (job_id j =? id)%nat) js).
Proof.
  induction js as [|j js IH]; simpl; [by intros ?%elem_of_nil|]. destruct (Nat.eqb_spec (job_id j) id) as [E|E]; simpl; [done|].
  intros [->|Hin]%elem_of_cons; done.
Qed.

(** The task appended last. *)
Lemma take_job_last x js j :
  job_id j ∉ jids js -> take_job (job_id j) (with_tasks x (js ++ [j])) = Some (j, with_tasks x js).
Proof.
  intros Hn. unfold take_job. simpl.
  assert (Hf : List.find (fun j' => (job_id j' =? job_id j)%nat) (js ++ [j]) = Some j).
  { induction js as [|j' js IH]; simpl; [by rewrite Nat.eqb_refl|].
    destruct (Nat.eqb_spec (job_id j') (job_id j)) as [E|E]; [set_solver|]. apply IH. set_solver. }
  rewrite Hf. do 2 f_equal. rewrite List.filter_app. rewrite (filter_id _ _ Hn). simpl. rewrite Nat.eqb_refl. simpl.
  by rewrite app_nil_r.
Qed.

(** Waiting until what a task awaits is back, and polling it. *)
Lemma wait_and_poll r p w x x0 :
  is_open x = true -> take_job (rq_id r) x = Some ({| jb_request := r; jb_rest := p; jb_wakes := w |}, x0) ->
  let n := Z.max (xe_now x) w in
  exec_run [Wait (n - xe_now x); Poll (rq_id r)] x = Some (advance r p (with_now x0 n)).
Proof.
  intros Ho Ht n. cbn [exec_run exec_step]. destruct (Z.leb_spec 0 (n - xe_now x)); [|lia].
  replace (xe_now x + (n - xe_now x)) with n by lia. unfold is_open in *. cbn [with_now xe_thread]. rewrite Ho.
  unfold take_job in *. cbn [with_now xe_tasks]. destruct (List.find _ _) as [j|]; [|done]. injection Ht as -> <-. cbn.
  destruct (Z.leb_spec w n); [done | lia].
Qed.

(** A task polled whenever what it awaits is back is at its end the task run at
    once, whatever else is waiting. *)
Lemma drive r (p : Prog (Act R) (rq_type r)) : forall x w x0,
  is_open x = true -> take_job (rq_id r) x = Some ({| jb_request := r; jb_rest := p; jb_wakes := w |}, x0) ->
  exists ms x' acts, Forall (own (rq_id r)) ms /\ exec_run ms x = Some x' /\
    let s := run at_once p (xe_thread x, Z.max (xe_now x) w) in
    xe_thread x' = s.2.1 /\ xe_now x' = s.2.2 /\ xe_queue x' = xe_queue x /\ xe_tasks x' = xe_tasks x0 /\
    xe_log x' = xe_log x ++ acts ++ [Served {| rp_request := r; rp_value := s.1 |}].
Proof.
  induction p as [b|B a k IH]; intros x w x0 Ho Ht; pose proof (wait_and_poll _ _ _ _ _ Ho Ht) as Hpoll; cbn zeta in Hpoll;
    set (n := Z.max (xe_now x) w) in *; set (m2 := [Wait (n - xe_now x); Poll (rq_id r)]) in *;
    assert (Hm2 : Forall (own (rq_id r)) m2) by (repeat constructor);
    pose proof (take_job_Some _ _ _ _ Ht) as (_ & _ & Hx0).
  { eexists m2, _, []. split; [done|]. split; [exact Hpoll|]. subst x0. done. }
  cbn [advance] in Hpoll. destruct (perform (xe_now (with_now x0 n)) a (xe_thread (with_now x0 n))) as [b t] eqn:Ep.
  set (e := Acted (rq_id r) (xe_now (with_now x0 n)) (done_act a b)) in *.
  set (j := {| jb_request := r; jb_rest := k b; jb_wakes := n + lasts a b |}) in *.
  set (y := effect (with_now x0 n) t e) in *. change (xe_tasks (with_now x0 n)) with (xe_tasks x0) in Hpoll.
  change (xe_now y) with n in Hpoll. fold j in Hpoll.
  assert (Hj : take_job (rq_id r) (with_tasks y (xe_tasks x0 ++ [j])) = Some (j, with_tasks y (xe_tasks x0))).
  { apply (take_job_last y (xe_tasks x0) j). subst x0. apply filter_absent. }
  assert (Hoy : is_open (with_tasks y (xe_tasks x0 ++ [j])) = true).
  { pose proof (perform_open n a (xe_thread x)) as Hp. subst x0. simpl in Ep. rewrite Ep in Hp. unfold is_open in *. simpl in *. congruence. }
  destruct (IH b _ _ _ Hoy Hj) as (ms & x' & acts & Hms & Hrun & Hs). exists (m2 ++ ms), x', (e :: acts).
  split; [by apply Forall_app|]. split; [by rewrite exec_run_app, Hpoll|].
  subst x0. cbn [xe_now xe_thread with_now with_tasks] in Ep.
  assert (Es : at_once B a (xe_thread x, n) = (b, (t, Z.max n (n + lasts a b)))) by (unfold at_once; cbn [fst snd]; by rewrite Ep).
  cbn [run]. rewrite Es.
  destruct Hs as (Ha & Hb & Hc & Hd & He). split; [exact Ha|]. split; [exact Hb|]. split; [exact Hc|]. split; [exact Hd|].
  rewrite He. unfold y. cbn. by rewrite <- app_assoc.
Qed.

Lemma run_time {A} (p : Prog (Act R) A) d t n : takes p d -> (run at_once p (t, n)).2.2 <= n + d.
Proof.
  revert d t n. induction p as [b|B a k IH]; intros d t n Hp; cbn [takes run] in *; [simpl; lia|].
  destruct Hp as [Ha Hp]. unfold at_once at 1. cbn [fst snd]. destruct (perform n a t) as [b t1]. pose proof (lasts_timer a b).
  etransitivity; [apply IH, Hp|]. lia.
Qed.

(** A task of the list is found under its id. *)
Lemma find_job js j : j ∈ js -> NoDup (jids js) -> List.find (fun j' => (job_id j' =? job_id j)%nat) js = Some j.
Proof.
  induction js as [|j' js IH]; [by intros ?%elem_of_nil|]. simpl. intros Hin [Hn Hd]%NoDup_cons.
  destruct (Nat.eqb_spec (job_id j') (job_id j)) as [E|E].
  - apply elem_of_cons in Hin as [->|Hin]; [done|]. destruct Hn. rewrite E. by apply list_elem_of_fmap_2.
  - apply elem_of_cons in Hin as [->|Hin]; [done|]. by apply IH.
Qed.

Lemma healthy_job t x j :
  Healthy t x -> j ∈ xe_tasks x ->
  take_job (job_id j) x = Some (j, with_tasks x (List.filter (fun j' => negb (job_id j' =? job_id j)%nat) (xe_tasks x))) /\
  on_course (xe_log x) (xe_now x) j.
Proof.
  intros [Hx _ _] Hj. split; [|exact (proj1 (Forall_forall _ _) (acc_course _ _ _ Hx) _ Hj)]. unfold take_job. rewrite find_job; [done..|].
  apply distinct_ids in Hx. apply NoDup_app in Hx as (_ & _ & Hx). by apply NoDup_app in Hx as (Hx & _).
Qed.

(** What is served in a log. *)
Definition has_reply r x : Prop := exists rp, rp_request rp = r /\ Served rp ∈ xe_log x.

Lemma refuse_reply r x : has_reply r (refuse r x).
Proof. unfold refuse. destruct (request_refused _ _) as [b t]. eexists. split; [|apply elem_of_app; right; by left]. done. Qed.

Lemma serve_reply r x : has_reply r (serve r x).
Proof. unfold serve. destruct (run_request _ _ _ _) as [b t]. eexists. split; [|apply elem_of_app; right; by left]. done. Qed.

Lemma close_replies x r : r ∈ xe_queue x -> has_reply r (close x).
Proof.
  unfold close. generalize (with_queue x []). induction (xe_queue x) as [|r' q IH]; intros y; [by intros ?%elem_of_nil|].
  intros [->|Hin]%elem_of_cons; [|by apply IH]. simpl. destruct (refuse_reply r' y) as (rp & Hrp & Hin). exists rp. split; [done|].
  clear IH. revert Hin. generalize (refuse r' y). clear y. induction q as [|r2 q IH]; intros y Hin; [done|]. simpl. apply IH.
  destruct (refuse_log r2 y) as (e & -> & _). apply elem_of_app. by left.
Qed.

Lemma close_now x : xe_now (close x) = xe_now x.
Proof.
  unfold close. change (xe_now x) with (xe_now (with_queue x [])). generalize (with_queue x []).
  induction (xe_queue x) as [|r q IH]; intros y; [done|]. simpl. rewrite IH. unfold refuse. by destruct (request_refused _ _).
Qed.

Lemma budget_nonneg {B} (op : StackOp B) d : budget op = Some d -> 0 <= d.
Proof. destruct op; try done; intros [= <-]; unfold from_secs; lia. Qed.

(** A request in a task is answered within its time by moves of its own. *)
Lemma task_answered t x j :
  Healthy t x -> j ∈ xe_tasks x ->
  exists ms x', Forall (serves (job_id j)) ms /\ exec_run ms x = Some x' /\ has_reply (jb_request j) x' /\
    forall d, budget (rq_op (jb_request j)) = Some d -> xe_now x' <= xe_now x + d.
Proof.
  intros Hx Hj. destruct (healthy_job t x j Hx Hj) as [Ht [_ Htime]]. destruct (is_open x) eqn:Ho.
  - destruct j as [r p w]. destruct (drive r p x w _ Ho Ht) as (ms & x' & acts & Hms & Hrun & _ & Hnow & _ & _ & Hlog).
    exists ms, x'. split; [|split; [exact Hrun|split]].
    + eapply Forall_impl; [exact Hms|]. by intros [].
    + eexists. split; [|rewrite Hlog; apply elem_of_app; right; apply elem_of_app; right; by left]. done.
    + intros d Hd. destruct (Htime d Hd) as (d' & Htk & Hle & Hw). simpl in *. rewrite Hnow.
      pose proof (run_time p d' (xe_thread x) (Z.max (xe_now x) w) Htk). lia.
  - exists [DropTask (job_id j)]. cbn [exec_run exec_step]. rewrite Ho, Ht. cbn. eexists. split; [by repeat constructor|].
    split; [reflexivity|]. split; [apply refuse_reply|]. intros d Hd. unfold refuse. destruct (request_refused _ _). simpl.
    pose proof (budget_nonneg _ _ Hd). lia.
Qed.

(** What the loop makes of the request at the head of the queue. *)
Definition received r q x : Exec W F R :=
  if control (rq_op r) then
    let y := serve r (with_queue x q) in if is_open y then y else close y
  else detach r (with_queue x q).

Lemma recv_step r q x : is_open x = true -> xe_queue x = r :: q -> exec_step Recv x = Some (received r q x).
Proof. intros Ho Hq. cbn [exec_step]. rewrite Ho, Hq. unfold received. by destruct (control (rq_op r)). Qed.

Lemma has_reply_close r x : has_reply r x -> has_reply r (close x).
Proof.
  intros (rp & Hrp & Hin). exists rp. split; [done|]. unfold close. change (xe_log x) with (xe_log (with_queue x [])) in Hin.
  revert Hin. generalize (with_queue x []). induction (xe_queue x) as [|r' q IH]; intros y Hin; [done|]. simpl. apply IH.
  destruct (refuse_log r' y) as (e & -> & _). apply elem_of_app. by left.
Qed.

Lemma serve_fields r x : xe_now (serve r x) = xe_now x /\ xe_queue (serve r x) = xe_queue x /\ xe_tasks (serve r x) = xe_tasks x.
Proof. unfold serve. by destruct (run_request _ _ _ _). Qed.

Lemma received_now r q x : xe_now (received r q x) = xe_now x.
Proof.
  unfold received. destruct (control (rq_op r)); [|done]. cbn zeta. destruct (serve_fields r (with_queue x q)) as (E & _ & _).
  destruct (is_open _); [exact E|]. by rewrite close_now.
Qed.

(** A queued one is reached by the loop, which does not wait for anything. *)
Lemma queue_answered t q1 : forall x r q2,
  Healthy t x -> xe_queue x = q1 ++ r :: q2 ->
  exists ms x', Forall (serves (rq_id r)) ms /\ exec_run ms x = Some x' /\ has_reply r x' /\
    forall d, budget (rq_op r) = Some d -> xe_now x' <= xe_now x + d.
Proof.
  assert (Hup : forall x r q, Healthy t x -> xe_queue x = r :: q -> is_open x = true).
  { intros x r q Hx Hq. destruct (is_open x) eqn:Ho; [done|]. rewrite (hl_closed _ _ Hx Ho) in Hq. done. }
  assert (Hnow : forall r x d, budget (rq_op r) = Some d -> xe_now x <= xe_now x + d) by (intros r x d ?%budget_nonneg; lia).
  assert (Hgo : forall id m x x1 r, serves id m -> exec_step m x = Some x1 -> xe_now x1 = xe_now x ->
    (exists ms x', Forall (serves id) ms /\ exec_run ms x1 = Some x' /\ has_reply r x' /\
      forall d, budget (rq_op r) = Some d -> xe_now x' <= xe_now x1 + d) ->
    exists ms x', Forall (serves id) ms /\ exec_run ms x = Some x' /\ has_reply r x' /\
      forall d, budget (rq_op r) = Some d -> xe_now x' <= xe_now x + d).
  { intros id m x x1 r Hm Hs Hn (ms & x' & Hms & Hrun & Hr & Ht). exists (m :: ms), x'. rewrite <- Hn. cbn [exec_run]. rewrite Hs.
    split; [by constructor | done]. }
  induction q1 as [|r1 q1 IH]; intros x r q2 Hx Hq; simpl in Hq; pose proof (Hup _ _ _ Hx Hq) as Ho;
    pose proof (recv_step _ _ _ Ho Hq) as Hs; pose proof (step_healthy _ _ _ _ Hx Hs) as Hx1.
  - eapply (Hgo (rq_id r) Recv); [exact I | exact Hs | apply received_now|]. unfold received in *. destruct (control (rq_op r)).
    + cbn zeta in *. eexists [], _. split; [constructor|]. split; [reflexivity|]. split; [|apply Hnow].
      destruct (is_open (serve _ _)); [apply serve_reply | apply has_reply_close, serve_reply].
    + eapply (task_answered t _ {| jb_request := r; jb_rest := task_of r; jb_wakes := xe_now x |}); [exact Hx1|].
      apply elem_of_app. right. by left.
  - eapply (Hgo (rq_id r) Recv); [exact I | exact Hs | apply received_now|].
    unfold received in *. destruct (control (rq_op r1)); [|by apply (IH _ r q2 Hx1)]. cbn zeta in *.
    destruct (serve_fields r1 (with_queue x (q1 ++ r :: q2))) as (_ & Eq & _).
    destruct (is_open (serve r1 _)); [by apply (IH _ r q2 Hx1)|]. eexists [], _. split; [constructor|]. split; [reflexivity|]. split; [|apply Hnow].
    apply close_replies. rewrite Eq. apply elem_of_app. right. by left.
Qed.

(** C29: every request is answered, whatever the others wait for.  In every state
    the thread can get into, a request that is queued or in a task can be brought
    to its answer by receiving and by waiting and polling for it alone: no other
    task has to move, so one unreachable device holds up nobody.  And this takes at
    most what the timers of its own awaits add up to - three minutes for a
    commissioning, two for an interview, one for a window, 30 s for a single
    exchange, no time for an address -, counted from now.  Once the thread is down
    it is answered by being dropped. *)
Theorem requests_get_answered t now ms x r :
  exec_run ms (exec_init t now) = Some x -> r ∈ xe_queue x ++ map jb_request (xe_tasks x) ->
  exists ms' x', Forall (serves (rq_id r)) ms' /\ exec_run ms' x = Some x' /\ has_reply r x' /\
    forall d, budget (rq_op r) = Some d -> xe_now x' <= xe_now x + d.
Proof.
  intros Hr. pose proof (run_healthy _ _ _ _ (init_healthy t now) Hr) as Hx. intros [Hin|Hin]%elem_of_app.
  - apply list_elem_of_split in Hin as (q1 & q2 & Hq). by eapply queue_answered.
  - apply list_elem_of_fmap in Hin as (j & -> & Hj). by eapply task_answered.
Qed.

(** A call of the handle is what the executor makes of it when nobody comes
    in between.  From every state the open thread can get into, with any tasks
    waiting, the request the loop reads next can be run to its answer with no
    other task, supervisor or report moving; the answer and the thread are then
    those of the call [StackHandle] makes in one go, and the queue and the other
    tasks are as they were. *)
Theorem calls_are_schedules t now ms x r q :
  exec_run ms (exec_init t now) = Some x -> is_open x = true -> xe_queue x = r :: q -> control (rq_op r) = false ->
  punctual (rq_op r) (xe_now x) (xe_thread x) ->
  exists ms' x' acts, Forall (own (rq_id r)) ms' /\ exec_run (Recv :: ms') x = Some x' /\
    xe_thread x' = (stack_call _ (rq_op r) (xe_thread x)).2 /\
    xe_log x' = xe_log x ++ acts ++ [Served {| rp_request := r; rp_value := (stack_call _ (rq_op r) (xe_thread x)).1 |}] /\
    xe_queue x' = q /\ xe_tasks x' = xe_tasks x.
Proof.
  intros Hr Ho Hq Hc Hp. pose proof (run_healthy _ _ _ _ (init_healthy t now) Hr) as Hx.
  pose proof (recv_step _ _ _ Ho Hq) as Hs. pose proof (step_healthy _ _ _ _ Hx Hs) as Hx1. unfold received in *. rewrite Hc in *.
  set (j := {| jb_request := r; jb_rest := task_of r; jb_wakes := xe_now x |}) in *.
  assert (Hn : rq_id r ∉ jids (xe_tasks x)).
  { pose proof (distinct_ids _ _ _ (hl_accounted _ _ Hx)) as Hd. rewrite Hq in Hd. simpl in Hd. apply NoDup_cons in Hd as [Hn _]. set_solver. }
  pose proof (take_job_last (with_queue x q) (xe_tasks x) j Hn) as Ht.
  destruct (drive r (task_of r) (detach r (with_queue x q)) (xe_now x) _ Ho Ht) as (ms' & x' & acts & Hms & Hrun & Hd).
  destruct (op_alone identity window_draws (rq_op r) (xe_thread x) (xe_now x) Hc Hp) as [n' Ea].
  cbn [detach with_tasks with_queue xe_thread xe_now] in Hd. rewrite Z.max_id, Ea in Hd. cbn [fst snd] in Hd.
  destruct Hd as (Hthread & _ & Hqueue & Htasks & Hlog). exists ms', x', acts. split; [done|]. split; [cbn [exec_run]; by rewrite Hs|].
  cbn [stack_call the_stack StackHandle_stack]. unfold handle_call. unfold is_open in Ho. rewrite Ho. done.
Qed.

(** ** The end *)

Lemma closed_replays log t t' :
  sys_open (th_sys t) = false -> replays log t t' ->
  th_world t' = th_world t /\ th_fabrics t' = th_fabrics t /\
  (forall i n d, Acted i n d ∉ log) /\ (forall l, Inside l ∈ log -> exists k, l = DropFuture k).
Proof.
  revert t. induction log as [|[r|i n d|l|] log IH]; intros t Ho; cbn [replays].
  - intros ->. split; [done|]. split; [done|]. split; [by intros ? ? ? ?%elem_of_nil | by intros ? ?%elem_of_nil].
  - intros Hr. assert (Hn : exists t1, replays log t1 t' /\ sys_open (th_sys t1) = false /\ th_world t1 = th_world t /\ th_fabrics t1 = th_fabrics t).
    { destruct (control _); [|by exists t]. destruct Hr as [_ Hr]. eexists. split; [exact Hr|]. cbn. unfold handle_call. rewrite Ho.
      by destruct (rq_op (rp_request r)). }
    destruct Hn as (t1 & Hr1 & Ho1 & <- & <-). destruct (IH t1 Ho1 Hr1) as (Hw & Hf & Ha & Hi). split; [exact Hw|]. split; [exact Hf|].
    split; [intros i n d [|Hin]%elem_of_cons; [done | by eapply Ha] | intros l [|Hin]%elem_of_cons; [done | by apply Hi]].
  - intros (Ho' & _). congruence.
  - intros (s & Hl & Hor & E & Hr). pose proof (internal_open _ _ _ Hl E) as Hs.
    destruct (IH (with_sys t s)) as (Hw & Hf & Ha & Hi); [simpl; congruence | exact Hr|]. split; [exact Hw|]. split; [exact Hf|].
    split; [intros i n d [|Hin]%elem_of_cons; [done | by eapply Ha]|].
    intros l' [[= ->]|Hin]%elem_of_cons; [destruct Hor as [|Hk]; [congruence | exact Hk] | by apply Hi].
  - intros [Ho' _]. congruence.
Qed.

(** C32: the end is final.  Once a shutdown is served or the transport dies, no
    task acts any more, no supervisor is resumed and no report handled - futures
    are only dropped -, so neither a device nor the fabric table is touched again;
    nothing is left in the queue; and whatever is answered from then on, what was
    queued, what was in a task and what is called later, is told that the thread is
    down.  What a task in progress did on a device before stays done. *)
Theorem closing_abandons t now ms x l1 e l2 :
  exec_run ms (exec_init t now) = Some x -> xe_log x = l1 ++ e :: l2 -> closes e = true ->
  is_open x = false /\ xe_queue x = [] /\
  (forall i n d, Acted i n d ∉ l2) /\ (forall l, Inside l ∈ l2 -> exists k, l = DropFuture k) /\
  (forall r : Reply, Served r ∈ l2 -> refused (rq_op (rp_request r)) (rp_value r)) /\
  exists t1, replays (l1 ++ [e]) t t1 /\ th_world (xe_thread x) = th_world t1 /\ th_fabrics (xe_thread x) = th_fabrics t1.
Proof.
  intros Hr El He. destruct (run_healthy _ _ _ _ (init_healthy t now) Hr) as [Hx Hrep Hq].
  assert (Hdown : up_after (sys_open (th_sys t)) (l1 ++ [e]) = false).
  { unfold up_after. rewrite existsb_app. simpl. by rewrite He, !orb_true_r, andb_false_r. }
  assert (Ho : is_open x = false).
  { rewrite <- (open_log t x Hrep), El, cons_middle, app_assoc. by apply up_after_app. }
  split; [done|]. split; [by apply Hq|]. pose proof Hrep as Hsplit. rewrite El, cons_middle, app_assoc in Hsplit.
  apply replays_split in Hsplit as (t1 & Hr1 & Hr2). pose proof (replays_open _ _ _ Hr1) as Ho1.
  change (sys_open (th_sys t1) = up_after (sys_open (th_sys t)) (l1 ++ [e])) in Ho1. rewrite Hdown in Ho1.
  destruct (closed_replays _ _ _ Ho1 Hr2) as (Hw & Hf & Ha & Hi). split; [exact Ha|]. split; [exact Hi|].
  split; [|by exists t1]. intros r (l2a & l2b & ->)%list_elem_of_split.
  destruct (control (rq_op (rp_request r))) eqn:Hc; [destruct r as [[i B op] b]; by destruct op|].
  pose proof (acc_right _ _ _ Hx) as Hright. specialize (Hright (l1 ++ e :: l2a) r l2b). rewrite El in Hright.
  rewrite <- app_assoc in Hright. specialize (Hright eq_refl Hc). unfold rightly in Hright.
  rewrite cons_middle, app_assoc, (up_after_app _ _ _ Hdown) in Hright. exact Hright.
Qed.
End executor.

(** ** An example: two interviews that overlap *)

Section example.
#[local] Existing Instances HexBase64 EmptyTables RoomyBuf ToyOnboardCodes CountingDevices CountingMdns CountingCommissioner
  ToyPase ToyCodes ScriptRng NoLabel KeyOrder Quiet.

Abbreviation bench := (exec_run (R := list Z) bench_identity 5).

(** Both interviews are out before either is back, and the second is answered
    first; the supervisor is stopped before. *)
Definition bench_moves : list Move :=
  [Call (Interview 7); Call (Interview 8); Call (StopSupervisor 7); Recv; Recv; Recv;
   Poll 0; Poll 1; Wait 120000000; Poll 1; Poll 0].

(** One interview is out and another in a task when the shutdown is taken from the
    queue. *)
Definition bench_shutdown : list Move :=
  [Call (Interview 7); Call (Interview 8); Recv; Recv; Poll 0; Call Shutdown; Call (Interview 9); Recv; DropTask 1; DropTask 0].

Definition bench_state (ms : list Move) : Exec nat (list string) (list Z) :=
  default (exec_init supervising 0) (bench ms (exec_init supervising 0)).

Lemma bench_runs ms : match bench ms (exec_init supervising 0) with Some _ => true | None => false end = true -> bench ms (exec_init supervising 0) = Some (bench_state ms).
Proof. unfold bench_state. by destruct (bench ms (exec_init supervising 0)). Qed.

Lemma executor_refines_supervision_witness :
  let x := bench_state bench_moves in
  served (xe_log x) = [2; 1; 0]%nat /\
  sys_run [Stop 7] (th_sys supervising) = Some (th_sys (xe_thread x)).
Proof.
  intros x. split; [vm_compute; reflexivity|].
  pose proof (executor_refines_supervision (R := list Z) bench_identity 5 supervising 0 bench_moves x) as Hx.
  apply Hx, bench_runs. vm_compute. reflexivity.
Defined.

Lemma requests_get_answered_witness :
  let x := bench_state (take 7 bench_moves) in
  exists ms' x', Forall (serves 1) ms' /\ bench ms' x = Some x' /\ xe_now x' <= 120000000.
Proof.
  intros x. set (r := {| rq_id := 1; rq_type := _; rq_op := Interview 8 |}).
  destruct (requests_get_answered (R := list Z) bench_identity 5 supervising 0 (take 7 bench_moves) x r) as (ms' & x' & Hms & Hrun & _ & Ht).
  - apply bench_runs. vm_compute. reflexivity.
  - vm_compute. by left.
  - exists ms', x'. split; [exact Hms|]. split; [exact Hrun|]. assert (E : xe_now x = 0) by (vm_compute; reflexivity).
    specialize (Ht 120000000 eq_refl). rewrite E in Ht. exact Ht.
Defined.

Lemma calls_are_schedules_witness :
  let x := bench_state (take 4 bench_moves) in
  exists ms' x', bench (Recv :: ms') x = Some x' /\ xe_tasks x' = xe_tasks x.
Proof.
  intros x. set (r := {| rq_id := 1; rq_type := _; rq_op := Interview 8 |}).
  destruct (calls_are_schedules (R := list Z) bench_identity 5 supervising 0 (take 4 bench_moves) x r
    [{| rq_id := 2; rq_type := _; rq_op := StopSupervisor 7 |}]) as (ms' & x' & acts & _ & Hrun & _ & _ & _ & Ht);
    [apply bench_runs; vm_compute; reflexivity | vm_compute; reflexivity.. | exact I |]. by exists ms', x'.
Defined.

Lemma closing_abandons_witness :
  let x := bench_state bench_shutdown in
  served (xe_log x) = [2; 3; 1; 0]%nat /\ is_open x = false.
Proof.
  intros x. split; [vm_compute; reflexivity|].
  apply (closing_abandons (R := list Z) bench_identity 5 supervising 0 bench_shutdown x (take 1 (xe_log x))
    (Served {| rp_request := {| rq_id := 2; rq_type := unit; rq_op := Shutdown |}; rp_value := tt |}) (drop 2 (xe_log x)));
    [apply bench_runs; vm_compute; reflexivity | vm_compute; reflexivity..].
Defined.
End example.
