(* ===== verification/Process.v ===== *)
(** * The server process

    [main] of [crates/server/src/main.rs] from the parsed command line to the
    exit code, with [spawn] of [crates/stack/src/lib.rs] and the boot sequence
    of [run_stack] in [crates/stack/src/runtime.rs].  The process is a program
    over what it asks of its surroundings; the stack thread boots while [main]
    awaits its readiness - one that is too late is run to its end before the
    process gives up - and what it does after that is [Executor]. *)

From S2P Require Import Prelude Json Wire Prog Fs Addr Storage StackApi Controller Identity Boot.

Record StackConfig : Type := {
  sc_storage : Storage;
  sc_fabric_id : Z;
  sc_vendor_id : Z;
  sc_fabric_label : string;
  sc_primary_interface : option string;
}.

Record StackInfo : Type := { ri_identity : ServerIdentity; ri_fabric_index : Z }.    (* [ReadyInfo] *)

Definition SECOND_STACK_MESSAGE : string :=
  "a Matter stack is already running in this process (rs-matter's state lives in process-wide " +:+
  "statics, so there can only be one)".

Definition DRAIN_TIMEOUT : Z := 3.

(** The [Config] fields [Boot] has no use for. *)
Record Options : Type := {
  op_config : Config;
  op_storage_path : Path;
  op_vendor_id : Z;
  op_fabric_id : Z;
  op_primary_interface : option string;
}.

Section process.
Context `{RS : RsMatter} `{SerdeJson} `{Base64}.

(** What the process asks of its surroundings. *)
Inductive ProcOp : Type -> Type :=
| OnId {A} (op : IdOp A) : ProcOp A                             (* files and [rs-matter] *)
| StoragePathExists : ProcOp bool
| MakeStoragePath : ProcOp (Result unit IoError)                (* [create_dir_all] *)
| RestrictStoragePath : ProcOp unit                             (* mode 0700; a failure is ignored *)
| SpawnThread : ProcOp bool
| SwapClaimed : ProcOp bool                                     (* [STACK_CLAIMED.swap(true)]: the old value *)
| BindUdp : ProcOp (Result unit rs_error)                       (* [create_dual_stack_socket] *)
| LoadResumption : ProcOp unit                                  (* [matter.startup]; a failure is only logged *)
| SendReady (r : Result StackInfo string) : ProcOp unit         (* [ready.send]: nobody may be waiting any more *)
| ReadyInTime : ProcOp bool                                     (* within [STACK_START_TIMEOUT] *)
| StartRelay : ProcOp unit                                      (* events go on to the controller, their end is a death *)
| NewController (info : StackInfo) (label_locked : bool) : ProcOp unit   (* [Controller.new] *)
| BuildRouter : ProcOp unit
| BindTcp (addr : string) (dual_stack : bool) : ProcOp (Result unit IoError)
| ServeOn (addr : string) : ProcOp unit
| InstallSigterm : ProcOp bool
| AwaitStop (sigterm : bool) : ProcOp StopReason
| AnnounceShutdown : ProcOp unit                                (* [shutdown_tx.send(true)] *)
| DrainServers (secs : Z) : ProcOp unit
| ShutdownStack : ProcOp unit
| PrintFatal (message : string) : ProcOp unit.

Abbreviation Proc := (Prog ProcOp).

Fixpoint on_id {A} (p : Prog IdOp A) : Proc A :=
  match p with
  | Ret a => Ret a
  | Do op k => Do (OnId op) (fun b => on_id (k b))
  end.

Definition on_io {A} (p : Io A) : Proc A := on_id (on_fs p).

(** [claim_statics]: the gate is never released. *)
Definition claim_statics : Proc (option unit) :=
  do! claimed := do_op SwapClaimed in Ret (if (claimed : bool) then None else Some tt).

(** [run_stack] up to what it sends through [ready]. *)
Definition run_stack_ready (config : StackConfig) : Proc (Result StackInfo string) :=
  do! statics := claim_statics in
  match statics with
  | None => Ret (Err SECOND_STACK_MESSAGE)
  | Some _ =>
      do! socket := do_op BindUdp in
      match socket with
      | Err e => Ret (Err ("could not bind the Matter UDP socket: Error::" +:+ rs_show e))
      | Ok _ =>
          do! _ := do_op LoadResumption in
          do! established := on_id (ensure_identity (sc_storage config) (sc_fabric_id config) (sc_vendor_id config)
                                      (sc_fabric_label config)) in
          match established with
          | Err e => Ret (Err ("could not establish the controller identity: Error::" +:+ rs_show e))
          | Ok (stored, fab_idx) => Ret (Ok {| ri_identity := stored; ri_fabric_index := fab_idx |})
          end
      end
  end.

(** [spawn], and what [main]'s timeout makes of the ready channel. *)
Definition spawn_and_await (config : StackConfig) : Proc (ReadyOutcome StackInfo) :=
  do! spawned := do_op SpawnThread in
  if (spawned : bool) then
    do! ready := run_stack_ready config in
    do! _ := do_op (SendReady ready) in
    do! in_time := do_op ReadyInTime in
    Ret (if (in_time : bool) then match ready with Ok info => ReadyInfo info | Err e => ReadyFailed e end
         else ReadyElapsed)
  else Ret ReadyDropped.

Definition fatal (message : string) : Proc Z := do! _ := do_op (PrintFatal message) in Ret 1.

(** The loop over the addresses: [Err] is the message of the first that cannot
    be bound. *)
Fixpoint bind_all (dual_stack : bool) (addrs : list string) : Proc (Result unit string) :=
  match addrs with
  | [] => Ret (Ok tt)
  | addr :: addrs =>
      do! bound := do_op (BindTcp addr dual_stack) in
      match bound with
      | Err e => Ret (Err ("cannot bind " +:+ addr +:+ ": " +:+ io_message e))
      | Ok _ => do! _ := do_op (ServeOn addr) in bind_all dual_stack addrs
      end
  end.

(** From the open storage on. *)
Definition serve_with (o : Options) (storage : Storage) : Proc Z :=
  do! fabric_label := on_io (boot_label storage (cf_default_fabric_label (op_config o))) in
  do! ready := spawn_and_await {|
    sc_storage := storage; sc_fabric_id := op_fabric_id o; sc_vendor_id := op_vendor_id o;
    sc_fabric_label := fabric_label; sc_primary_interface := op_primary_interface o |} in
  match start_outcome ready with
  | Err message => fatal message
  | Ok info =>
      do! _ := do_op StartRelay in
      do! _ := do_op (NewController info (bool_decide (is_Some (cf_default_fabric_label (op_config o))))) in
      do! _ := do_op BuildRouter in
      let is_default_bind := match cf_listen_address (op_config o) with [] => true | _ => false end in
      do! bound := bind_all is_default_bind (bind_addrs (op_config o)) in
      match bound with
      | Err message => do! _ := do_op ShutdownStack in fatal message
      | Ok _ =>
          do! sigterm := do_op InstallSigterm in
          do! stop := do_op (AwaitStop sigterm) in
          do! _ := do_op AnnounceShutdown in
          do! _ := do_op (DrainServers DRAIN_TIMEOUT) in
          do! _ := do_op ShutdownStack in
          Ret (exit_code stop)
      end
  end.

Definition main (o : Options) : Proc Z :=
  let path := op_storage_path o in
  do! existed := do_op StoragePathExists in
  do! created := do_op MakeStoragePath in
  match created with
  | Err e => fatal ("cannot create --storage-path " +:+ show_path path +:+ ": " +:+ io_message e)
  | Ok _ =>
      do! _ := (if (existed : bool) then Ret tt else do_op RestrictStoragePath) in
      do! opened := on_io (open path) in
      match opened with
      | Err e => fatal ("cannot open --storage-path " +:+ show_path path +:+ ": " +:+ io_message e)
      | Ok storage => serve_with o storage
      end
  end.

(** ** What the process does *)

Inductive Milestone : Type :=
| NoDirectory (e : IoError)
| Restricted
| Spawned (started : bool)
| Readied (r : Result StackInfo string)
| InTime (in_time : bool)
| Relaying
| Controlling (info : StackInfo) (label_locked : bool)
| Routed
| Serving (addr : string)
| BindFailed (addr : string) (e : IoError)
| Stopped (stop : StopReason)
| Announced
| Drained
| StackStopped
| FatalError (message : string).

Definition milestone {B} (op : ProcOp B) (b : B) : list Milestone :=
  match op in ProcOp B return B -> list Milestone with
  | MakeStoragePath => fun r => match r with Ok _ => [] | Err e => [NoDirectory e] end
  | RestrictStoragePath => fun _ => [Restricted]
  | SpawnThread => fun started => [Spawned started]
  | SendReady r => fun _ => [Readied r]
  | ReadyInTime => fun in_time => [InTime in_time]
  | StartRelay => fun _ => [Relaying]
  | NewController info locked => fun _ => [Controlling info locked]
  | BuildRouter => fun _ => [Routed]
  | BindTcp addr _ => fun r => match r with Ok _ => [] | Err e => [BindFailed addr e] end
  | ServeOn addr => fun _ => [Serving addr]
  | AwaitStop _ => fun stop => [Stopped stop]
  | AnnounceShutdown => fun _ => [Announced]
  | DrainServers _ => fun _ => [Drained]
  | ShutdownStack => fun _ => [StackStopped]
  | PrintFatal message => fun _ => [FatalError message]
  | OnId _ | StoragePathExists | SwapClaimed | BindUdp | LoadResumption | InstallSigterm => fun _ => []
  end b.

(** A stack that reported its identity in time, and the controller over it. *)
Definition stack_up (o : Options) (info : StackInfo) : list Milestone :=
  [Spawned true; Readied (Ok info); InTime true; Relaying;
   Controlling info (bool_decide (is_Some (cf_default_fabric_label (op_config o)))); Routed].

(** The ways a run of the process can go, with its exit code.  [restricted] is
    what was done to the storage directory. *)
Inductive Course (o : Options) (restricted : list Milestone) : Z -> list Milestone -> Prop :=
| course_no_directory e :
    Course o restricted 1 [NoDirectory e;
      FatalError ("cannot create --storage-path " +:+ show_path (op_storage_path o) +:+ ": " +:+ io_message e)]
| course_no_storage e :
    Course o restricted 1 (restricted ++
      [FatalError ("cannot open --storage-path " +:+ show_path (op_storage_path o) +:+ ": " +:+ io_message e)])
| course_no_thread :
    Course o restricted 1 (restricted ++
      [Spawned false; FatalError "the Matter stack thread ended before it reported readiness"])
| course_too_late r :
    Course o restricted 1 (restricted ++
      [Spawned true; Readied r; InTime false; FatalError "the Matter stack did not finish starting within 60s"])
| course_no_stack e :
    Course o restricted 1 (restricted ++
      [Spawned true; Readied (Err e); InTime true; FatalError ("the Matter stack failed to start: " +:+ e)])
| course_no_listener info i addr e :
    bind_addrs (op_config o) !! i = Some addr ->
    Course o restricted 1 (restricted ++ stack_up o info ++ map Serving (take i (bind_addrs (op_config o))) ++
      [BindFailed addr e; StackStopped; FatalError ("cannot bind " +:+ addr +:+ ": " +:+ io_message e)])
| course_signal info :
    Course o restricted 0 (restricted ++ stack_up o info ++ map Serving (bind_addrs (op_config o)) ++
      [Stopped Signal; Announced; Drained; StackStopped])
| course_stack_died info :
    Course o restricted 1 (restricted ++ stack_up o info ++ map Serving (bind_addrs (op_config o)) ++
      [Stopped StackDied; Announced; Drained; StackStopped]).

Section facts.
Context {St : Type} (h : forall B, ProcOp B -> St -> B * St).

Fixpoint observed {A} (p : Proc A) (w : St) : list Milestone :=
  match p with
  | Ret _ => []
  | Do op k => let '(b, w) := h _ op w in milestone op b ++ observed (k b) w
  end.

Lemma observed_bind {A B} (p : Proc A) (f : A -> Proc B) w :
  observed (prog_bind p f) w = observed p w ++ let '(a, w) := run h p w in observed (f a) w.
Proof.
  revert w. induction p as [a|X op k IH]; intros w; simpl; [done|].
  destruct (h X op w) as [b w']. by rewrite IH, app_assoc.
Qed.

(** Files and [rs-matter] are not milestones. *)
Lemma observed_on_id {A} (p : Prog IdOp A) w : observed (on_id p) w = [].
Proof. revert w. induction p as [a|X op k IH]; intros w; simpl; [done|]. destruct (h X (OnId op) w) as [b w']. apply IH. Qed.

(** The way [p] goes. *)
Definition goes {A} (Q : A -> list Milestone -> Prop) (p : Proc A) : Prop := forall w, Q (run h p w).1 (observed p w).

Lemma goes_ret {A} (Q : A -> list Milestone -> Prop) a : Q a [] -> goes Q (Ret a).
Proof. by intros HQ w. Qed.

Lemma goes_op {A B} (Q : A -> list Milestone -> Prop) (op : ProcOp B) (k : B -> Proc A) :
  (forall b, goes (fun a ms => Q a (milestone op b ++ ms)) (k b)) -> goes Q (prog_bind (do_op op) k).
Proof. intros Hk w. simpl. destruct (h B op w) as [b w']. apply (Hk b w'). Qed.

Lemma goes_bind {A B} (P : A -> list Milestone -> Prop) (Q : B -> list Milestone -> Prop) (p : Proc A) (f : A -> Proc B) :
  goes P p -> (forall a ms, P a ms -> goes (fun b ms' => Q b (ms ++ ms')) (f a)) -> goes Q (prog_bind p f).
Proof.
  intros Hp Hf w. rewrite observed_bind, run_bind. specialize (Hp w). destruct (run h p w) as [a w']. apply (Hf a _ Hp w').
Qed.

Lemma goes_on_id {A B} (Q : B -> list Milestone -> Prop) (p : Prog IdOp A) (f : A -> Proc B) :
  (forall a, goes Q (f a)) -> goes Q (prog_bind (on_id p) f).
Proof.
  intros Hf w. rewrite observed_bind, run_bind, observed_on_id. destruct (run h (on_id p) w) as [a w']. apply (Hf a w').
Qed.

Lemma run_stack_ready_goes config : goes (fun _ ms => ms = []) (run_stack_ready config).
Proof.
  apply goes_op. intros [|]; [by apply goes_ret|]. apply goes_op. intros [[]|e]; [|by apply goes_ret].
  apply goes_op. intros []. apply goes_on_id. intros [[stored fab_idx]|e]; by apply goes_ret.
Qed.

(** What [main] gets to know about the start, and what happened. *)
Definition start_milestones (ready : ReadyOutcome StackInfo) (ms : list Milestone) : Prop :=
  match ready with
  | ReadyDropped => ms = [Spawned false]
  | ReadyElapsed => exists r, ms = [Spawned true; Readied r; InTime false]
  | ReadyFailed e => ms = [Spawned true; Readied (Err e); InTime true]
  | ReadyInfo info => ms = [Spawned true; Readied (Ok info); InTime true]
  end.

Lemma spawn_goes config : goes start_milestones (spawn_and_await config).
Proof.
  apply goes_op. intros [|]; [|by apply goes_ret]. eapply goes_bind; [apply run_stack_ready_goes|].
  intros r ms ->. apply goes_op. intros []. apply goes_op. intros [|]; [destruct r; by apply goes_ret|].
  apply goes_ret. by exists r.
Qed.

Lemma bind_all_goes dual addrs :
  goes (fun r ms =>
    match r with
    | Ok _ => ms = map Serving addrs
    | Err message => exists i addr e, addrs !! i = Some addr /\ message = "cannot bind " +:+ addr +:+ ": " +:+ io_message e /\
                 ms = map Serving (take i addrs) ++ [BindFailed addr e]
    end) (bind_all dual addrs).
Proof.
  induction addrs as [|addr addrs IH]; [by apply goes_ret|]. cbn [bind_all]. apply goes_op. intros [[]|e].
  - apply goes_op. intros [] w. specialize (IH w). destruct (run h (bind_all dual addrs) w) as [[r|e] w']; cbn [fst milestone app map] in *.
    + by rewrite IH.
    + destruct IH as (i & a & e' & Hi & -> & ->). by exists (S i), a, e'.
  - apply goes_ret. by exists 0%nat, addr, e.
Qed.

Lemma fatal_goes message : goes (fun code ms => code = 1 /\ ms = [FatalError message]) (fatal message).
Proof. apply goes_op. intros []. by apply goes_ret. Qed.

Lemma serve_with_goes o storage :
  goes (fun code ms => forall restricted, Course o restricted code (restricted ++ ms)) (serve_with o storage).
Proof.
  apply goes_on_id. intros label. eapply goes_bind; [apply spawn_goes|].
  assert (Hfatal : forall ms message, (forall restricted, Course o restricted 1 (restricted ++ ms ++ [FatalError message])) ->
    goes (fun code ms' => forall restricted, Course o restricted code (restricted ++ ms ++ ms')) (fatal message)).
  { intros ms message Hc w. destruct (fatal_goes message w) as [-> ->]. exact Hc. }
  intros [| |e|info] ms Hms; cbn [start_outcome] in *.
  - destruct Hms as [r ->]. apply Hfatal. intros restricted. apply course_too_late.
  - cbn in Hms. subst ms. apply Hfatal. intros restricted. apply course_no_thread.
  - cbn in Hms. subst ms. apply Hfatal. intros restricted. apply course_no_stack.
  - cbn in Hms. subst ms. do 3 (apply goes_op; intros []). eapply goes_bind; [apply bind_all_goes|]. intros [[]|message] ms.
    + intros ->. apply goes_op. intros sigterm. apply goes_op. intros stop. do 3 (apply goes_op; intros []).
      apply goes_ret. intros restricted. destruct stop; [apply (course_signal o restricted info) | apply (course_stack_died o restricted info)].
    + intros (i & addr & e & Hi & -> & ->). apply goes_op. intros []. intros w.
      destruct (fatal_goes ("cannot bind " +:+ addr +:+ ": " +:+ io_message e) w) as [-> ->]. intros restricted.
      cbn [milestone app]. rewrite <- app_assoc. by apply (course_no_listener o restricted info i).
Qed.

(** C31: whatever happens around it, the process takes one of these courses.  It
    reports why the storage directory could not be made or opened, why the stack
    thread was not there, was not ready within 60 seconds or failed to start, and
    exits with 1, with nothing listening.  Or the stack reported its identity in
    time, the events are relayed and the controller is built for that very
    identity, with the label locked exactly when one is pinned, and only then the
    configured addresses are bound, in order, each served as soon as it is bound;
    at the first that cannot be bound the stack is shut down, the address is
    reported and the process exits with 1.  Otherwise it serves all of them until
    it is stopped, announces the shutdown, drains and shuts the stack down once,
    last of all, and exits with 0 after a signal and with 1 when the stack died. *)
Theorem main_course o w :
  exists restricted, (restricted = [] \/ (restricted = [Restricted] /\ (h _ StoragePathExists w).1 = false)) /\
    Course o restricted (run h (main o) w).1 (observed (main o) w).
Proof.
  unfold main, do_op. cbn [prog_bind run observed milestone app]. destruct (h _ StoragePathExists w) as [existed w1].
  destruct (h _ MakeStoragePath w1) as [[[]|e] w2]; cbn [milestone app fst].
  2: { exists []. split; [by left|]. cbn [app].
       destruct (fatal_goes ("cannot create --storage-path " +:+ show_path (op_storage_path o) +:+ ": " +:+ io_message e) w2) as [-> ->].
       apply course_no_directory. }
  set (rest := fun _ : unit => do! opened := on_io (open (op_storage_path o)) in _).
  assert (Hrest : goes (fun code ms => forall restricted, Course o restricted code (restricted ++ ms)) (rest tt)).
  { apply goes_on_id. intros [storage|e]; [apply serve_with_goes|]. intros w'.
    destruct (fatal_goes ("cannot open --storage-path " +:+ show_path (op_storage_path o) +:+ ": " +:+ io_message e) w') as [-> ->].
    intros restricted. apply course_no_storage. }
  destruct existed; [exists []; split; [by left|]; apply (Hrest w2 [])|].
  exists [Restricted]. split; [by right|]. cbn [prog_bind run observed milestone app].
  destruct (h _ RestrictStoragePath w2) as [[] w3]. apply (Hrest w3 [Restricted]).
Qed.
(** The claim flag: a process-wide static, set and never reset. *)
Record ClaimFlag : Type := {
  claimed : St -> bool;
  swap_reads : forall w, (h _ SwapClaimed w).1 = claimed w;
  swap_sets : forall w, claimed (h _ SwapClaimed w).2 = true;
  never_reset : forall B (op : ProcOp B) w, claimed w = true -> claimed (h B op w).2 = true;
}.

Lemma claimed_forever (F : ClaimFlag) {A} (p : Proc A) w : claimed F w = true -> claimed F (run h p w).2 = true.
Proof.
  intros Hw. apply (states_inv h (fun w => claimed F w = true) (fun _ _ => True) p w); [|clear; by induction p; constructor|done].
  intros B op w' _. apply never_reset.
Qed.

Lemma run_stack_claims (F : ClaimFlag) config w : claimed F (run h (run_stack_ready config) w).2 = true.
Proof.
  unfold run_stack_ready, claim_statics, do_op. cbn [prog_bind run].
  pose proof (swap_sets F w) as Hs. destruct (h _ SwapClaimed w) as [[|] w1]; [done|]. by apply claimed_forever.
Qed.

(** A process starts at most one stack.  Once any stack thread got as far
    as its first step - also when that start then failed - every later one, with
    whatever configuration and whatever happened in between, is answered with
    the second-stack message and touches nothing but the claim flag: no socket,
    no file, no fabric. *)
Theorem one_stack_per_process (F : ClaimFlag) config w {A} (between : Proc A) config' :
  let w1 := (run h (run_stack_ready config) w).2 in
  let w2 := (run h between w1).2 in
  run h (run_stack_ready config') w2 = (Err SECOND_STACK_MESSAGE, (h _ SwapClaimed w2).2).
Proof.
  intros w1 w2. assert (Hw : claimed F w2 = true) by by apply claimed_forever, run_stack_claims.
  unfold run_stack_ready, claim_statics, do_op. cbn [prog_bind run]. pose proof (swap_reads F w2) as Hs.
  destruct (h _ SwapClaimed w2) as [old w3]. simpl in Hs. by rewrite Hs, Hw.
Qed.
End facts.
End process.

(** ** An example *)

Section example.
#[local] Existing Instances ToyRs TreeJson HexBase64.

(** Everything succeeds; the stop is a signal. *)
Definition toy_proc (B : Type) (op : ProcOp B) (w : bool * (gset Z * FS)) : B * (bool * (gset Z * FS)) :=
  match op with
  | OnId op => let '(b, v) := id_step toy_step _ op w.2 in (b, (w.1, v))
  | SwapClaimed => (w.1, (true, w.2))
  | StoragePathExists => (false, w)
  | MakeStoragePath => (Ok tt, w)
  | RestrictStoragePath => (tt, w)
  | SpawnThread => (true, w)
  | BindUdp => (Ok tt, w)
  | LoadResumption => (tt, w)
  | SendReady _ => (tt, w)
  | ReadyInTime => (true, w)
  | StartRelay => (tt, w)
  | NewController _ _ => (tt, w)
  | BuildRouter => (tt, w)
  | BindTcp _ _ => (Ok tt, w)
  | ServeOn _ => (tt, w)
  | InstallSigterm => (true, w)
  | AwaitStop _ => (Signal, w)
  | AnnounceShutdown => (tt, w)
  | DrainServers _ => (tt, w)
  | ShutdownStack => (tt, w)
  | PrintFatal _ => (tt, w)
  end.

Lemma toy_never_reset B (op : ProcOp B) w : w.1 = true -> (toy_proc B op w).2.1 = true.
Proof. destruct op; try exact (fun E => E); [|reflexivity]. cbn [toy_proc]. by destruct (id_step toy_step _ _ _). Qed.

Definition toy_flag : ClaimFlag toy_proc :=
  Build_ClaimFlag toy_proc fst (fun _ => eq_refl) (fun _ => eq_refl) toy_never_reset.

Definition toy_config : StackConfig :=
  {| sc_storage := toy_storage; sc_fabric_id := 1; sc_vendor_id := 65521; sc_fabric_label := "Home"; sc_primary_interface := None |}.

Definition toy_options : Options :=
  {| op_config := {| cf_port := 5580; cf_listen_address := ["127.0.0.1"; "::1"]; cf_log_level := "info"; cf_log_file := None;
       cf_default_fabric_label := None; cf_bluetooth_adapter := None; cf_ble_proxy := false; cf_disable_ota := false;
       cf_ota_provider_dir := None; cf_disable_dashboard := false; cf_enable_test_net_dcl := false; cf_production_mode := false |};
     op_storage_path := ["d"]; op_vendor_id := 65521; op_fabric_id := 1; op_primary_interface := None |}.

Lemma one_stack_per_process_witness :
  is_ok (run toy_proc (run_stack_ready toy_config) (false, (∅, empty_fs))).1 = true /\
  let w1 := (run toy_proc (run_stack_ready toy_config) (false, (∅, empty_fs))).2 in
  (run toy_proc (run_stack_ready toy_config) w1).1 = Err SECOND_STACK_MESSAGE.
Proof.
  split; [vm_compute; reflexivity|]. intros w1.
  pose proof (one_stack_per_process toy_proc toy_flag toy_config (false, (∅, empty_fs)) (Ret tt) toy_config) as E.
  cbn [run snd] in E. unfold w1. by rewrite E.
Defined.

(** A run of the whole process. *)
Example toy_main :
  (run toy_proc (main toy_options) (false, (∅, empty_fs))).1 = 0 /\
  exists info, observed toy_proc (main toy_options) (false, (∅, empty_fs)) =
    [Restricted; Spawned true; Readied (Ok info); InTime true; Relaying; Controlling info false; Routed;
     Serving "127.0.0.1:5580"; Serving "[::1]:5580"; Stopped Signal; Announced; Drained; StackStopped].
Proof. split; [vm_compute; reflexivity|]. eexists. vm_compute. reflexivity. Qed.
End example.
