(* ===== verification/Program.v ===== *)
(** * The program

    The running server over the stack thread, and the task of
    [crates/server/src/main.rs] that relays the thread's events to the
    controller: commands, node manager, connections, supervisors and reports,
    each taking its steps in any order. *)

From S2P Require Import Prelude Json Wire Prog Fs Storage Registry StackApi NodeManager ManagerOps Controller Commands Dispatch Sched CommandFacts Progress Mirror Ws.
From S2P Require Import Gen TlvJson Accumulate Ctx Interact Reports Supervisor SupervisorFacts System OneNode Identity DeviceOps Window Browse Onboard StackHandle.
From S2P Require Import Server Records.

Section program.
Context `{Base64} `{Tables} `{TxBuf} `{OnboardCodes} `{PaseCrypto} `{CodeFormats} `{HashOrder}.
Context {W F R : Type} `{!ImDevices W} `{!Mdns W} `{!Commissioner W} `{!FabricTable F} `{!Rng R} `{!Surroundings W R}.
Context (identity : ServerIdentity) (window_draws : nat).
Context {L : Type} `{SerdeJson} `{NodeDate} `{Processes} `{!LogLevels L} (c : Ctrl).

#[local] Instance program_stack : Stack (Thread W F) := StackHandle_stack (R := R) identity window_draws.

Abbreviation Server := (@Server (Thread W F) L).

(** The relay task has taken [pg_relayed] of the thread's events. *)
Record Program : Type := { pg_server : Server; pg_relayed : nat }.

Definition pg_thread (p : Program) : Thread W F := w_stack (sv_world (pg_server p)).
Definition pg_shared (p : Program) : Shared := w_shared (sv_world (pg_server p)).

(** What the thread has sent on its event channel. *)
Definition sent (p : Program) : list StackEvent := ctx_events (sys_ctx (th_sys (pg_thread p))).

Inductive PgStep : Type :=
| OfServer (l : SvStep)
| OfThread (l : Step)        (* the executor resumes or drops a supervisor, or a report arrives *)
| Relay.

(** Only the relay task sends to the controller. *)
Definition pushes (l : SvStep) : bool := match l with Manage (Push _) => true | _ => false end.

Definition internal_step (l : Step) : bool :=
  match l with Wakeup _ _ _ | DropFuture _ | Report _ _ _ _ => true | _ => false end.

Definition thread_step (l : Step) (sv : Server) : option Server :=
  if internal_step l then
    let t := w_stack (sv_world sv) in
    match sys_step l (th_sys t) with
    | Some s => Some (set_world (with_stack (with_sys t s) (sv_world sv)) sv)
    | None => None
    end
  else None.

Definition relay (p : Program) : option Program :=
  match sent p !! pg_relayed p with
  | Some ev =>
      match server_step c (Manage (Push ev)) (pg_server p) with
      | Some sv => Some {| pg_server := sv; pg_relayed := Datatypes.S (pg_relayed p) |}
      | None => None
      end
  | None => None
  end.

Definition program_step (l : PgStep) (p : Program) : option Program :=
  match l with
  | OfServer l =>
      if pushes l then None
      else (fun sv => {| pg_server := sv; pg_relayed := pg_relayed p |}) <$> server_step c l (pg_server p)
  | OfThread l => (fun sv => {| pg_server := sv; pg_relayed := pg_relayed p |}) <$> thread_step l (pg_server p)
  | Relay => relay p
  end.

Fixpoint program_run (ls : list PgStep) (p : Program) : option Program :=
  match ls with
  | [] => Some p
  | l :: ls => match program_step l p with Some p => program_run ls p | None => None end
  end.

(** The thread has started and reported its fabric; nothing has happened yet. *)
Definition launch (fs : FS) (now : Z) (log : L) (fab : Z) (w : W) (f : F) : Program :=
  {| pg_server := start c fs now log {| th_sys := sys_init fab; th_world := w; th_fabrics := f; th_joinable := true |};
     pg_relayed := 0 |}.

Lemma program_run_app ls1 ls2 p :
  program_run (ls1 ++ ls2) p = match program_run ls1 p with Some p => program_run ls2 p | None => None end.
Proof. revert p. induction ls1 as [|l ls1 IH]; intros p; cbn [app program_run]; [done|]. by destruct (program_step l p). Qed.

(** ** The thread under the server *)

(** What a step of the server does to the thread: at most one call. *)
Lemma task_step_stack id (p p' : Prog (COp (Thread W F) L) CommandResult) w w' :
  polite id p -> task_step p w = Some (p', w') ->
  w_stack w' = w_stack w \/ exists B (op : StackOp B), w_stack w' = (stack_call B op (w_stack w)).2.
Proof.
  intros Hp. destruct Hp as [a|B op k Hop _]; [done|]. cbn [task_step]. destruct (enabled op w); [|done].
  destruct op as [X f|l|l|X op|argv]; cbn [ctrl_step].
  - destruct (Hop w) as [_ Hs]. destruct (f w) as [b w1]. intros [= _ <-]. by left.
  - intros [= _ <-]. by left.
  - intros [= _ <-]. by left.
  - destruct (stack_call X op (w_stack w)) as [b st] eqn:E. intros [= _ <-]. right. exists X, op. by rewrite E.
  - intros [= _ <-]. by left.
Qed.

Lemma conn_step_stack id l (sv sv' : Server) : conn_step id l sv = Some sv' -> w_stack (sv_world sv') = w_stack (sv_world sv).
Proof.
  unfold conn_step. destruct (sv_conns sv !! id) as [s|]; [|done]. destruct (ws_step CAPACITY l s) as [s'|]; [|done].
  intros [= <-]. by destruct (is_closed s').
Qed.

Lemma server_step_stack l (sv sv' : Server) :
  SvInv c None sv -> server_step c l sv = Some sv' ->
  w_stack (sv_world sv') = w_stack (sv_world sv) \/
  exists B (op : StackOp B), w_stack (sv_world sv') = (stack_call B op (w_stack (sv_world sv))).2.
Proof.
  intros Hi. destruct l as [|id ok|id text|id|id|id|id|id ok|id ok| |id|l| | | |]; cbn [server_step].
  - intros [= <-]. by left.
  - destruct (sv_infos sv !! id); [|done]. intros Hs%conn_step_stack. by left.
  - unfold text_frame. destruct (conn_step id (Inbound text) sv) as [sv1|] eqn:E; [|done]. apply conn_step_stack in E.
    intros [= <-]. left. rewrite <- E. by destruct (parse_frame text).
  - intros Hs%conn_step_stack. by left.
  - intros Hs%conn_step_stack. by left.
  - unfold operate. destruct (sv_tasks sv !! id) as [p|] eqn:Et; [|done].
    destruct (task_step p (sv_world sv)) as [[p' w]|] eqn:Es; [|done]. intros [= <-].
    apply (task_step_stack id p p' _ _ (iv_polite _ _ _ Hi id p Et) Es).
  - unfold respond. destruct (sv_tasks sv !! id) as [[r|]|]; [|done..]. intros Hs%conn_step_stack. by left.
  - intros Hs%conn_step_stack. by left.
  - intros Hs%conn_step_stack. by left.
  - intros [= <-]. by left.
  - destruct (sv_stopping sv); [|done]. intros Hs%conn_step_stack. by left.
  - intros (m & _ & ->)%manage_effect. by left.
  - intros Ht. destruct (take_effect c sv sv' (or_introl Ht)) as (events & expired & p & -> & _). by left.
  - intros Ht. destruct (take_effect c sv sv' (or_intror Ht)) as (events & expired & p & -> & _). by left.
  - intros (s & tm & p & _ & _ & ->)%(handle_effect c); [|done]. by left.
  - intros (st & p & _ & [->|[n ->]] & ->)%(boot_effect c); [by left | right; by eexists _, _ | done].
Qed.

(** The executor drops the cancelled futures of a node before the network or a
    timer resumes one of its tasks. *)
Definition prompt (l : PgStep) (p : Program) : Prop :=
  match l with OfThread l => drops_first (th_sys (pg_thread p)) l | _ => True end.

Fixpoint promptly (ls : list PgStep) (p : Program) : Prop :=
  match ls with
  | [] => True
  | l :: ls => prompt l p /\ match program_step l p with Some p => promptly ls p | None => True end
  end.

Lemma promptly_app ls1 ls2 p p1 :
  program_run ls1 p = Some p1 -> promptly (ls1 ++ ls2) p -> promptly ls1 p /\ promptly ls2 p1.
Proof.
  revert p. induction ls1 as [|l ls1 IH]; intros p; cbn [app program_run promptly]; [by intros [= <-]|].
  destruct (program_step l p) as [p'|]; [|done]. intros Hr [Hl Ht]. destruct (IH p' Hr Ht) as [T1 T2]. by split; [split|].
Qed.

Lemma thread_step_effect l (sv sv' : Server) :
  thread_step l sv = Some sv' ->
  exists s, sys_step l (th_sys (w_stack (sv_world sv))) = Some s /\
    sv' = set_world (with_stack (with_sys (w_stack (sv_world sv)) s) (sv_world sv)) sv.
Proof.
  unfold thread_step. destruct (internal_step l); [|done]. destruct (sys_step l _) as [s|] eqn:E; [|done].
  intros [= <-]. by exists s.
Qed.

(** What a step of the program does to the supervision system: the steps of a
    call, or one of the executor's own. *)
Lemma program_step_sys l (p p' : Program) :
  SvInv c None (pg_server p) -> program_step l p = Some p' ->
  exists ls, sys_run ls (th_sys (pg_thread p)) = Some (th_sys (pg_thread p')) /\
    (Forall (fun l => ~ internal l) ls \/ exists l', l = OfThread l' /\ ls = [l']).
Proof.
  assert (G : forall l (sv sv' : Server), SvInv c None sv -> server_step c l sv = Some sv' ->
    exists ls, sys_run ls (th_sys (w_stack (sv_world sv))) = Some (th_sys (w_stack (sv_world sv'))) /\ Forall (fun l => ~ internal l) ls).
  { intros l0 sv sv' Hi Hs. destruct (server_step_stack l0 sv sv' Hi Hs) as [->|(B & op & ->)]; [by exists []|].
    destruct (call_steps identity window_draws B op (w_stack (sv_world sv))) as (ls & Hls & Hr). by exists ls. }
  intros Hi. unfold pg_thread. destruct l as [l|l|]; cbn [program_step].
  - destruct (pushes l); [done|]. intros (sv & Hs & ->)%fmap_Some. destruct (G l _ sv Hi Hs) as (ls & Hr & Hls). exists ls. by split; [|left].
  - intros (sv & (s & Hs & ->)%thread_step_effect & ->)%fmap_Some. exists [l]. cbn [sys_run]. rewrite Hs. split; [done|]. right. by exists l.
  - unfold relay. destruct (sent p !! pg_relayed p) as [ev|]; [|done].
    destruct (server_step c (Manage (Push ev)) (pg_server p)) as [sv|] eqn:E; [|done]. intros [= <-].
    destruct (G _ _ sv Hi E) as (ls & Hr & Hls). exists ls. by split; [|left].
Qed.

(** ** One node and the node manager's queue *)

Section follow.
Context (n : Z).

(** Entries of other nodes may change. *)
Definition spare (m : Z) (e e' : NodeEntry) : Prop := m = n -> e' = e.

#[local] Instance spare_preorder m : PreOrder (spare m).
Proof. split; [by intros e _|]. intros e1 e2 e3 H12 H23 Hm. by rewrite H23, H12. Qed.

(** The state in which the node manager's current handler, left alone, ends. *)
Definition rest (sv : Server) : Shared * Timers := (mg_run (sv_handler sv) (w_shared (sv_world sv), sv_timers sv)).2.

Definition outlook (sv : Server) : option (bool * Map) * bool := view n (rest sv).

Definition manager (sv : Server) : Timers * list StackEvent * MgProg unit := (sv_timers sv, sv_stack_events sv, sv_handler sv).

(** A step moves the queue on by at most one event, and the outlook with it. *)
Definition digests (sv sv' : Server) : Prop :=
  (sv_stack_events sv' = sv_stack_events sv /\
    forall from evs, follows n from evs (outlook sv) -> follows n from evs (outlook sv')) \/
  (exists ev, sv_stack_events sv = ev :: sv_stack_events sv' /\
    forall from evs, follows n from evs (outlook sv) -> follows n from (evs ++ [ev]) (outlook sv')).

Lemma idle_handler (sv : Server) : handler_idle sv = true -> sv_handler sv = Ret tt.
Proof. unfold handler_idle. by destruct (sv_handler sv) as [[]|]. Qed.

Lemma outlook_idle (sv : Server) : handler_idle sv = true -> outlook sv = view n (w_shared (sv_world sv), sv_timers sv).
Proof. intros Hh%idle_handler. unfold outlook, rest. by rewrite Hh. Qed.

Lemma outlook_same (sv sv' : Server) :
  settled n (sv_handler sv) -> sv_handler sv' = sv_handler sv -> sv_stack_events sv' = sv_stack_events sv ->
  view n (w_shared (sv_world sv'), sv_timers sv') = view n (w_shared (sv_world sv), sv_timers sv) -> digests sv sv'.
Proof.
  intros Hs Hh Hq Hv. left. split; [done|]. intros from evs. unfold outlook, rest. rewrite Hh.
  by rewrite (settled_determined n _ Hs _ _ Hv).
Qed.

(** Connections and commands leave the manager's own state alone. *)
Lemma conn_step_manager id l (sv sv' : Server) : conn_step id l sv = Some sv' -> manager sv' = manager sv.
Proof.
  unfold conn_step. destruct (sv_conns sv !! id) as [s|]; [|done]. destruct (ws_step CAPACITY l s) as [s'|]; [|done].
  intros [= <-]. by destruct (is_closed s').
Qed.

Lemma commands_leave_manager l (sv sv' : Server) : managing l = false -> server_step c l sv = Some sv' -> manager sv' = manager sv.
Proof.
  intros Hl. destruct l as [|id ok|id text|id|id|id|id|id ok|id ok| |id|l| | | |]; try done; cbn [server_step];
    try apply conn_step_manager.
  - by intros [= <-].
  - destruct (sv_infos sv !! id); [|done]. apply conn_step_manager.
  - unfold text_frame. destruct (conn_step id (Inbound text) sv) as [sv1|] eqn:E; [|done]. apply conn_step_manager in E.
    intros [= <-]. rewrite <- E. by destruct (parse_frame text).
  - unfold operate. destruct (sv_tasks sv !! id) as [p|]; [|done]. destruct (task_step p (sv_world sv)) as [[p' w]|]; [|done].
    by intros [= <-].
  - unfold respond. destruct (sv_tasks sv !! id) as [[r|]|]; [|done..]. intros E%conn_step_manager. done.
  - by intros [= <-].
  - destruct (sv_stopping sv); [|done]. apply conn_step_manager.
Qed.

Lemma digests_command hs l (sv sv' : Server) :
  managing l = false -> permitted spare l -> SvInv c None sv -> Guarded spare hs sv -> settled n (sv_handler sv) ->
  is_Some (bt_get (w_registry (sv_world sv)) n) -> is_Some (bt_get (w_registry (sv_world sv')) n) ->
  server_step c l sv = Some sv' -> digests sv sv'.
Proof.
  intros Hl Hp Hi Hg Hs [e He] [e' He'] Hstep. pose proof (commands_leave_manager l sv sv' Hl Hstep) as Hm.
  unfold manager in Hm. injection Hm as Et Eq Eh. apply outlook_same; [done..|].
  destruct (guarded_step c spare hs l sv sv' Hp Hi Hg Hstep) as [_ Hlast].
  destruct (Hlast Hl n e He) as [Hn|(e1 & He1 & Hsame)]; [congruence|]. specialize (Hsame eq_refl). subst e1.
  unfold view, served. cbn [fst snd]. rewrite Et. unfold w_registry in *. by rewrite He, He1.
Qed.

Lemma digests_manage l (sv sv' : Server) :
  settled n (sv_handler sv) -> pushes (Manage l) = false -> manage c l sv = Some sv' -> settled n (sv_handler sv') /\ digests sv sv'.
Proof.
  intros Hs Hl Hm. assert (Hidle : takes l = true -> handler_idle sv = true).
  { revert Hm. unfold manage. intros Hm Ht. rewrite Ht in Hm. by destruct (handler_idle sv). }
  apply manage_effect in Hm as (m & Hm & ->). split; [done|]. destruct l as [ev|t| |]; [done|..]; cbn [manager_step mg_rx mg_grace_rx mg_timers mg_shared] in Hm.
  - destruct (tm_tasks (sv_timers sv) !! t) as [[k| |]|]; try done. injection Hm as <-. by apply outlook_same.
  - specialize (Hidle eq_refl). destruct (sv_stack_events sv) as [|ev q] eqn:Eq; [done|].
    destruct (handle_event (c_storage c) ev (w_shared (sv_world sv)) (sv_timers sv)) as [s tm] eqn:Eh. injection Hm as <-.
    right. exists ev. split; [exact Eq|]. intros from evs. rewrite (outlook_idle sv Hidle).
    intros Hf%(follows_event (c_storage c) n from evs ev). rewrite Eh in Hf. rewrite outlook_idle; [exact Hf | exact Hidle].
  - specialize (Hidle eq_refl). destruct (sv_expired sv) as [|k q] eqn:Eq; [done|].
    destruct (handle_grace_expiry k (w_shared (sv_world sv)) (sv_timers sv)) as [s tm] eqn:Eh. injection Hm as <-.
    left. split; [done|]. intros from evs. rewrite (outlook_idle sv Hidle).
    intros Hf%(follows_expiry n from evs k). rewrite Eh in Hf. rewrite outlook_idle; [exact Hf | exact Hidle].
Qed.

Lemma digests_managing l (sv sv' : Server) :
  SvInv c None sv -> settled n (sv_handler sv) -> managing l = true -> pushes l = false -> server_step c l sv = Some sv' ->
  settled n (sv_handler sv') /\ digests sv sv'.
Proof.
  intros Hi Hs Hl Hpush. destruct l as [|id ok|id text|id|id|id|id|id ok|id ok| |id|l| | | |]; try done; cbn [server_step].
  - by apply digests_manage.
  - unfold take_stack_event. destruct (sv_stack_events sv) as [|ev q] eqn:Eq; [done|]. destruct (handler_idle sv) eqn:Hidle; [|done].
    intros [= <-]. split; [apply settled_event|]. right. exists ev. split; [exact Eq|]. intros from evs. rewrite (outlook_idle sv Hidle).
    intros Hf%(follows_event (c_storage c) n from evs ev). unfold outlook, rest. cbn [set_manager sv_handler sv_world sv_timers].
    by rewrite event_ops_at_once.
  - unfold take_expired. destruct (sv_expired sv) as [|k q] eqn:Eq; [done|]. destruct (handler_idle sv) eqn:Hidle; [|done].
    intros [= <-]. split; [apply settled_expiry|]. left. split; [done|]. intros from evs. rewrite (outlook_idle sv Hidle).
    intros Hf%(follows_expiry n from evs k). unfold outlook, rest. cbn [set_manager sv_handler sv_world sv_timers].
    by rewrite expiry_ops_at_once.
  - unfold handle. destruct (sv_handler sv) as [a|B op k] eqn:Eh; [done|].
    destruct (mg_step B op (w_shared (sv_world sv), sv_timers sv)) as [b [s tm]] eqn:Es. intros [= <-].
    split; [apply Hs|]. left. split; [done|]. intros from evs.
    assert (E : outlook (set_manager tm (sv_stack_events sv) (sv_expired sv) (k b) (Server.advance (with_shared s (sv_world sv)) sv)) = outlook sv); [|by rewrite E].
    unfold outlook, rest. rewrite Eh. unfold mg_run. cbn [run]. rewrite Es. done.
  - intros (st & p & _ & _ & ->)%(boot_effect c); [|done]. split; [done|]. by apply outlook_same.
Qed.

(** ** What holds in every state of the program *)

(** No client asks to interview or to remove the node. *)
Definition spares (l : PgStep) : Prop :=
  match l with
  | OfServer (TextFrame _ text) =>
      forall cmd, parse_frame text = Ok cmd -> cm_command cmd = "interview_node" \/ cm_command cmd = "remove_node" ->
        require_u64 (cm_args cmd) "node_id" <> Ok n
  | _ => True
  end.

Definition known (p : Program) : Prop := is_Some (bt_get (sh_registry (pg_shared p)) n).

Record PgInv (fab : Z) (p : Program) : Prop := {
  pi_server : SvInv c None (pg_server p);
  pi_guarded : exists hs, Guarded spare hs (pg_server p);
  pi_retaining : Retaining n (pg_server p);
  pi_sys : Reachable fab (th_sys (pg_thread p));
  pi_settled : settled n (sv_handler (pg_server p));
  pi_relayed : (pg_relayed p <= length (sent p))%nat;
  pi_queue : exists taken, take (pg_relayed p) (sent p) = taken ++ sv_stack_events (pg_server p);
}.

Lemma launch_thread fs now log fab w f :
  pg_thread (launch fs now log fab w f) = {| th_sys := sys_init fab; th_world := w; th_fabrics := f; th_joinable := true |}.
Proof.
  unfold pg_thread, launch, start, new. cbn [pg_server sv_world]. destruct (run_io (load_nodes (c_storage c)) fs) as [records fs1].
  by destruct (run_io (load_config (c_storage c)) fs1).
Qed.

Lemma launch_inv fs now log fab w f : PgInv fab (launch fs now log fab w f).
Proof.
  split.
  - apply started_inv.
  - exists ∅. apply guarded_start.
  - apply retaining_start.
  - rewrite launch_thread. apply reach_init.
  - apply settled_ret.
  - unfold launch. cbn [pg_relayed]. lia.
  - by exists [].
Qed.

Lemma spares_permitted l : spares (OfServer l) -> permitted spare l.
Proof.
  destruct l as [|id ok|id text|id|id|id|id|id ok|id ok| |id|l| | | |]; try done. intros Hs cmd Hparse Hname m Hm attributes now e ->.
  by destruct (Hs cmd Hparse (or_introl Hname)).
Qed.

Lemma spares_retains l : spares (OfServer l) -> keeps_node n l.
Proof.
  destruct l as [|id ok|id text|id|id|id|id|id ok|id ok| |id|l| | | |]; try done. intros Hs cmd Hparse Hname.
  by apply (Hs cmd Hparse (or_intror Hname)).
Qed.

Lemma supervision_inv fab s : Reachable fab s -> Supervisor.Inv s.
Proof. intros Hr. apply (oi_inv _ (reachable_order fab s Hr)). Qed.

Lemma program_sends l fab (p p' : Program) :
  PgInv fab p -> program_step l p = Some p' -> exists evs, sent p' = sent p ++ evs.
Proof.
  intros Hi Hs. destruct (program_step_sys l p p' (pi_server _ _ Hi) Hs) as (ls & E & _).
  by apply (sys_run_sends ls _ _ (supervision_inv fab _ (pi_sys _ _ Hi))).
Qed.

Lemma program_step_reachable l fab (p p' : Program) :
  PgInv fab p -> prompt l p -> program_step l p = Some p' -> Reachable fab (th_sys (pg_thread p')).
Proof.
  intros Hi Hl Hs. pose proof (pi_sys _ _ Hi) as Hr.
  destruct (program_step_sys l p p' (pi_server _ _ Hi) Hs) as (ls & E & [Hls|(l' & -> & ->)]).
  - refine (reachable_run fab ls _ _ Hr _ E). eapply Forall_impl; [exact Hls|]. intros [] Hn; try done; intros s; by destruct Hn.
  - cbn [sys_run] in E. destruct (sys_step l' _) as [s|] eqn:Es; [|done]. injection E as <-. by eapply reach_step.
Qed.

(** An event or a report on the thread, or a call, is not the server's affair. *)
Lemma set_stack_inv st (sv : Server) : SvInv c None sv -> SvInv c None (set_world (with_stack st (sv_world sv)) sv).
Proof.
  by intros [].
Qed.

(** The parts of a step: the server's, with what the relay task does. *)
Inductive Parts (l : PgStep) (p : Program) : Program -> Prop :=
| PartServer l' sv : l = OfServer l' -> pushes l' = false -> server_step c l' (pg_server p) = Some sv ->
    Parts l p {| pg_server := sv; pg_relayed := pg_relayed p |}
| PartThread s : Parts l p {| pg_server := set_world (with_stack (with_sys (pg_thread p) s) (sv_world (pg_server p))) (pg_server p);
                              pg_relayed := pg_relayed p |}
| PartRelay ev sv : l = Relay -> sent p !! pg_relayed p = Some ev -> server_step c (Manage (Push ev)) (pg_server p) = Some sv ->
    sv_stack_events sv = sv_stack_events (pg_server p) ++ [ev] -> sv_handler sv = sv_handler (pg_server p) -> outlook sv = outlook (pg_server p) ->
    w_stack (sv_world sv) = pg_thread p -> Parts l p {| pg_server := sv; pg_relayed := Datatypes.S (pg_relayed p) |}.

Lemma program_step_parts l p p' : program_step l p = Some p' -> Parts l p p'.
Proof.
  destruct l as [l|l|]; cbn [program_step].
  - destruct (pushes l) eqn:Hp; [done|]. intros (sv & Hs & ->)%fmap_Some. by eapply PartServer.
  - intros (sv & (s & _ & ->)%thread_step_effect & ->)%fmap_Some. apply PartThread.
  - unfold relay. destruct (sent p !! pg_relayed p) as [ev|] eqn:E; [|done].
    destruct (server_step c (Manage (Push ev)) (pg_server p)) as [sv|] eqn:Em; [|done]. intros [= <-].
    pose proof Em as (m & Hm & ->)%manage_effect. cbn in Hm. injection Hm as <-. by apply PartRelay with ev.
Qed.

Lemma server_step_queue l (sv sv' : Server) :
  SvInv c None sv -> settled n (sv_handler sv) -> pushes l = false -> server_step c l sv = Some sv' ->
  settled n (sv_handler sv') /\
  (sv_stack_events sv' = sv_stack_events sv \/ exists ev, sv_stack_events sv = ev :: sv_stack_events sv').
Proof.
  intros Hi Hs Hp Hstep. destruct (managing l) eqn:Hm.
  - destruct (digests_managing l sv sv' Hi Hs Hm Hp Hstep) as [Hs' [[Hq _]|(ev & Hq & _)]]; (split; [exact Hs'|]); [by left | right; by exists ev].
  - pose proof (commands_leave_manager l sv sv' Hm Hstep) as E. injection E as _ Eq Eh. rewrite Eh. split; [exact Hs | by left].
Qed.

Lemma take_grown {A} k (l more : list A) : (k <= length l)%nat -> take k (l ++ more) = take k l.
Proof. intros Hk. by rewrite take_app_le. Qed.

Lemma program_step_inv l fab (p p' : Program) :
  PgInv fab p -> spares l -> prompt l p -> program_step l p = Some p' -> PgInv fab p' /\ (known p -> known p').
Proof.
  intros Hi Hl Hone Hs. pose proof (program_step_reachable l fab p p' Hi Hone Hs) as Hr.
  destruct (program_sends l fab p p' Hi Hs) as [more Hmore]. destruct Hi as [Hsv [hs Hg] Hret _ Hset Hle [taken Hq]].
  assert (Hle' : (length (sent p) <= length (sent p'))%nat) by (rewrite Hmore, length_app; lia).
  destruct (program_step_parts l p p' Hs) as [l' sv Hl' Hp Hstep|s|ev sv Hl' Hev Hstep Eq Eh _ Est].
  - subst l. destruct (server_step_queue l' _ _ Hsv Hset Hp Hstep) as [Hset' Hq'].
    destruct (retaining_step c n l' _ _ (spares_retains l' Hl) Hsv Hret Hstep) as [Hret' Hkn]. split; [|exact Hkn].
    split; cbn [pg_server pg_relayed]; [by eapply server_step_inv | | done | done | done | lia |].
    + by destruct (guarded_step c spare hs l' _ _ (spares_permitted l' Hl) Hsv Hg Hstep) as [? _].
    + rewrite Hmore, take_grown by done. destruct Hq' as [->|[ev Hev]]; [by exists taken|]. exists (taken ++ [ev]).
      rewrite Hq, Hev. by rewrite <- app_assoc.
  - split; [|done]. split; cbn [pg_server pg_relayed]; [by apply set_stack_inv | | done | done | done | lia |].
    + exists hs. apply (guarded_calm spare hs (pg_server p)); [exact Hg | done | by intros m | done].
    + rewrite Hmore, take_grown by done. by exists taken.
  - apply lookup_lt_Some in Hev as Hlt. destruct (retaining_step c n (Manage (Push ev)) _ _ ltac:(done) Hsv Hret Hstep) as [Hret' Hkn].
    split; [|exact Hkn]. split; cbn [pg_server pg_relayed]; [by eapply server_step_inv | | done | done | by rewrite Eh | lia |].
    + by destruct (guarded_step c spare hs (Manage (Push ev)) _ _ ltac:(done) Hsv Hg Hstep) as [? _].
    + exists taken. rewrite Hmore, take_grown by lia. by rewrite (take_S_r _ _ ev Hev), Hq, Eq, app_assoc.
Qed.

(** ** What has been taken of the events, and what is served for it *)

(** The steps that bring the node manager up to date. *)
Definition catching (l : PgStep) : Prop := l = Relay \/ l = OfServer TakeStackEvent \/ l = OfServer Handle.

Definition followed (from : bool * Map) (p : Program) : Prop :=
  exists taken, take (pg_relayed p) (sent p) = taken ++ sv_stack_events (pg_server p) /\ follows n from taken (outlook (pg_server p)).

Lemma followed_step from l fab (p p' : Program) :
  PgInv fab p -> spares l -> (catching l \/ (known p /\ known p')) -> program_step l p = Some p' -> followed from p -> followed from p'.
Proof.
  intros Hi Hl Hk Hs (taken & Hq & Hf). destruct (program_sends l fab p p' Hi Hs) as [more Hmore].
  destruct Hi as [Hsv [hs Hg] _ _ Hset Hle _].
  destruct (program_step_parts l p p' Hs) as [l' sv Hl' Hp Hstep|s|ev sv Hl' Hev Hstep Eq Eh Eo Est].
  - assert (Hd : digests (pg_server p) sv).
    { destruct (managing l') eqn:Hm; [by apply (digests_managing l' _ _ Hsv Hset Hm Hp Hstep)|]. destruct Hk as [Hc|[Hk Hk']].
      - subst l. destruct Hc as [Hc|[Hc|Hc]]; [done|..]; by injection Hc as ->.
      - subst l. by apply (digests_command hs l' _ _ Hm (spares_permitted l' Hl) Hsv Hg Hset Hk Hk' Hstep). }
    unfold followed. cbn [pg_server pg_relayed]. rewrite Hmore, take_grown by done. destruct Hd as [[Eq Hfoll]|(ev & Eq & Hfoll)].
    + exists taken. rewrite Eq. split; [done | by apply Hfoll].
    + exists (taken ++ [ev]). split; [by rewrite Hq, Eq, <- app_assoc | by apply Hfoll].
  - unfold followed. cbn [pg_server pg_relayed]. rewrite Hmore, take_grown by done. by exists taken.
  - unfold followed. cbn [pg_server pg_relayed]. apply lookup_lt_Some in Hev as Hlt. exists taken. rewrite Hmore, take_grown by lia.
    by rewrite (take_S_r _ _ ev Hev), Hq, Eq, app_assoc, Eo.
Qed.

(** From a moment when nothing about the node has been sent. *)
Lemma manager_keeps_known s s' : mg_change (c_storage c) s s' -> is_Some (bt_get (sh_registry s) n) -> is_Some (bt_get (sh_registry s') n).
Proof.
  assert (G : forall A m (f : NodeEntry -> A * NodeEntry), is_Some (bt_get (sh_registry s) n) ->
    is_Some (bt_get (Registry.with_entry m f (sh_registry s)).2 n)).
  { intros A m f [e He]. unfold Registry.with_entry. destruct (bt_get (sh_registry s) m) as [e'|]; [|by eexists].
    destruct (f e') as [x e2]. simpl. rewrite bt_get_insert. case_decide; [by eexists | by exists e]. }
  intros []; try done; apply G.
Qed.

Lemma outlook_known (sv : Server) :
  SvInv c None sv -> is_Some (bt_get (sh_registry (w_shared (sv_world sv))) n) -> is_Some (outlook sv).1.
Proof.
  intros Hi Hk. set (I := fun st : Shared * Timers => is_Some (bt_get (sh_registry st.1) n)).
  assert (Hrest : I (rest sv)).
  { apply (states_inv mg_step I (mg_ok (c_storage c)) (sv_handler sv)); [|apply (iv_handler _ _ _ Hi) | exact Hk].
    intros B op [s tm] Hop Hs. destruct op as [X f|X f]; cbn [mg_step fst snd].
    - specialize (Hop s). destruct (f s) as [b s']. by eapply manager_keeps_known.
    - by destruct (f tm). }
  unfold outlook, view, served. cbn [fst]. destruct Hrest as [e ->]. by eexists.
Qed.

Lemma linked_none evs b : List.filter (about n) evs = [] -> fold_left (linked_step n) evs b = b.
Proof.
  revert b. induction evs as [|ev evs IH]; intros b; [done|]. simpl. destruct (about n ev) eqn:E; [done|].
  intros Hf. rewrite IH by done. destruct ev as [m st| | |]; try done. simpl in *. by rewrite E.
Qed.

Lemma followed_from fab (p : Program) :
  PgInv fab p -> known p -> List.filter (about n) (sent p) = [] -> exists from, followed from p.
Proof.
  intros Hi Hk Hno. destruct (outlook_known _ (pi_server _ _ Hi) Hk) as [from Hfrom].
  destruct (pi_queue _ _ Hi) as [taken Hq].
  assert (Ht : List.filter (about n) taken = []).
  { pose proof (take_drop (pg_relayed p) (sent p)) as E. rewrite Hq in E. rewrite <- E, !List.filter_app in Hno.
    apply app_eq_nil in Hno as [Hno _]. by apply app_eq_nil in Hno as [? _]. }
  exists from, taken. split; [done|]. exists from. split; [done|]. rewrite Ht. split; [done|].
  unfold linked. by rewrite linked_none.
Qed.

Lemma program_run_inv ls fab (p p' : Program) :
  PgInv fab p -> Forall spares ls -> promptly ls p -> program_run ls p = Some p' -> PgInv fab p'.
Proof.
  revert p. induction ls as [|l ls IH]; intros p Hi Hls; cbn [program_run promptly]; [by intros _ [= <-]|].
  apply Forall_cons in Hls as [Hl Hls]. destruct (program_step l p) as [p1|] eqn:E; [|done]. intros [Hp Ht]. apply IH; [|done..].
  by apply (program_step_inv l fab p p1).
Qed.

Lemma followed_run from ls fab (p p' : Program) :
  PgInv fab p -> Forall spares ls -> promptly ls p -> known p -> program_run ls p = Some p' -> followed from p -> followed from p'.
Proof.
  revert p. induction ls as [|l ls IH]; intros p Hi Hls; cbn [program_run promptly]; [by intros _ _ [= <-]|].
  apply Forall_cons in Hls as [Hl Hls]. destruct (program_step l p) as [p1|] eqn:E; [|done]. intros [Hp Ht] Hk Hr Hf.
  destruct (program_step_inv l fab p p1 Hi Hl Hp E) as [Hi1 Hk1]. specialize (Hk1 Hk).
  apply (IH p1); [done..|]. apply (followed_step from l fab p p1 Hi Hl); [by right | done | done].
Qed.

(** ** Catching up *)

Lemma caught_run from ls fab (p p' : Program) :
  PgInv fab p -> Forall catching ls -> program_run ls p = Some p' -> followed from p -> followed from p'.
Proof.
  intros Hi Hls. revert p Hi. induction Hls as [|l ls Hl Hls IH]; intros p Hi; cbn [program_run]; [by intros [= <-]|].
  destruct (program_step l p) as [p1|] eqn:E; [|done]. intros Hr Hf.
  assert (Hsp : spares l /\ prompt l p) by (by destruct Hl as [->|[->| ->]]). destruct Hsp as [Hsp Hpr].
  apply (IH p1); [by apply (program_step_inv l fab p p1) | done |].
  apply (followed_step from l fab p p1 Hi Hsp); [by left | done | done].
Qed.
End follow.

(** What the node manager has left to do: nothing. *)
Definition up_to_date (p : Program) : Prop :=
  pg_relayed p = length (sent p) /\ sv_stack_events (pg_server p) = [] /\ handler_idle (pg_server p) = true.

(** A run of such steps, the thread standing still. *)
Definition catches_up (p p' : Program) : Prop :=
  exists ls, Forall catching ls /\ program_run ls p = Some p' /\ pg_thread p' = pg_thread p.

Lemma catches_refl p : catches_up p p.
Proof. exists []. by repeat split. Qed.

Lemma catches_step l p p1 p' :
  catching l -> program_step l p = Some p1 -> pg_thread p1 = pg_thread p -> catches_up p1 p' -> catches_up p p'.
Proof.
  intros Hl Hs Et (ls & Hls & Hr & Et'). exists (l :: ls). split; [by constructor|]. cbn [program_run]. rewrite Hs.
  split; [done | by rewrite Et', Et].
Qed.

Lemma catches_trans p1 p2 p3 : catches_up p1 p2 -> catches_up p2 p3 -> catches_up p1 p3.
Proof.
  intros (ls & Hls & Hr & Et) (ls' & Hls' & Hr' & Et'). exists (ls ++ ls'). split; [by apply Forall_app|].
  rewrite program_run_app, Hr. split; [done | by rewrite Et', Et].
Qed.

Lemma finish_handler h (p : Program) :
  sv_handler (pg_server p) = h -> exists p', catches_up p p' /\ handler_idle (pg_server p') = true /\
    pg_relayed p' = pg_relayed p /\ sv_stack_events (pg_server p') = sv_stack_events (pg_server p).
Proof.
  revert p. induction h as [[]|B op k IH]; intros p Hh.
  - exists p. split; [apply catches_refl|]. unfold handler_idle. by rewrite Hh.
  - destruct (mg_step B op (w_shared (sv_world (pg_server p)), sv_timers (pg_server p))) as [b [s tm]] eqn:Es.
    set (sv := set_manager tm (sv_stack_events (pg_server p)) (sv_expired (pg_server p)) (k b)
      (Server.advance (with_shared s (sv_world (pg_server p))) (pg_server p))).
    destruct (IH b {| pg_server := sv; pg_relayed := pg_relayed p |} eq_refl) as (p' & Hc & Hi & Hr & Hq).
    exists p'. split; [|done]. apply (catches_step (OfServer Handle) p {| pg_server := sv; pg_relayed := pg_relayed p |} p'); [by right; right | | done | done].
    cbn [program_step pushes server_step]. unfold handle. by rewrite Hh, Es.
Qed.

Lemma empty_queue q (p : Program) :
  sv_stack_events (pg_server p) = q -> exists p', catches_up p p' /\ handler_idle (pg_server p') = true /\
    pg_relayed p' = pg_relayed p /\ sv_stack_events (pg_server p') = [].
Proof.
  revert p. induction q as [|ev q IH]; intros p Hq; destruct (finish_handler _ p eq_refl) as (p1 & Hc1 & Hi1 & Hr1 & Hq1).
  - exists p1. by rewrite Hr1, Hq1, Hq.
  - set (p2 := {| pg_server := set_manager (sv_timers (pg_server p1)) q (sv_expired (pg_server p1)) (event_ops (c_storage c) ev) (pg_server p1);
                  pg_relayed := pg_relayed p1 |}).
    destruct (IH p2 eq_refl) as (p3 & Hc3 & Hi3 & Hr3 & Hq3). exists p3. split; [|by rewrite Hr3, <- Hr1].
    apply (catches_trans p p1 p3 Hc1). apply (catches_step (OfServer TakeStackEvent) p1 p2 p3); [by right; left | | done | done].
    cbn [program_step pushes server_step]. unfold take_stack_event. by rewrite Hq1, Hq, Hi1.
Qed.

Lemma relay_all k (p : Program) :
  (pg_relayed p + k = length (sent p))%nat -> exists p', catches_up p p' /\ pg_relayed p' = length (sent p').
Proof.
  revert p. induction k as [|k IH]; intros p Hk; [exists p; split; [apply catches_refl | lia]|].
  destruct (lookup_lt_is_Some_2 (sent p) (pg_relayed p)) as [ev Hev]; [lia|].
  set (p1 := {| pg_server := set_manager (sv_timers (pg_server p)) (sv_stack_events (pg_server p) ++ [ev]) (sv_expired (pg_server p))
    (sv_handler (pg_server p)) (Server.advance (with_shared (w_shared (sv_world (pg_server p))) (sv_world (pg_server p))) (pg_server p)); pg_relayed := Datatypes.S (pg_relayed p) |}).
  destruct (IH p1) as (p' & Hc & Hr); [change (sent p1) with (sent p); cbn [pg_relayed p1]; lia|]. exists p'. split; [|done].
  apply (catches_step Relay p p1 p'); [by left | | done | done]. cbn [program_step]. unfold relay. by rewrite Hev.
Qed.

Lemma catch_up fab n (p : Program) : PgInv n fab p -> exists p', catches_up p p' /\ up_to_date p'.
Proof.
  intros Hi. pose proof (pi_relayed _ _ _ Hi) as Hle.
  destruct (relay_all (length (sent p) - pg_relayed p) p) as (p1 & Hc1 & Hr1); [lia|].
  destruct (empty_queue _ p1 eq_refl) as (p2 & Hc2 & Hi2 & Hr2 & Hq2). exists p2. split; [by eapply catches_trans|].
  split; [|done]. destruct Hc2 as (ls & _ & _ & Et). unfold sent. by rewrite Et, Hr2.
Qed.

(** The view of a node whose last announcement is that it is connected. *)
Lemma follows_connected n from before i after snapshot updates v :
  List.filter (about n) after = PrimingSnapshot n snapshot :: updates -> forallb update_event updates = true ->
  follows n from (before ++ NodeState n (Connected i) :: after) v ->
  v.1 = Some (true, apply_changes (concat (map update_changes updates)) snapshot).
Proof.
  intros Hf Hu (cur & -> & Ha & Hl). f_equal.
  assert (Hlink : linked n (before ++ NodeState n (Connected i) :: after) = true).
  { unfold linked. rewrite fold_left_app. cbn [fold_left linked_step]. rewrite Z.eqb_refl.
    assert (G : forall evs, forallb update_event (List.filter (about n) evs) = true \/
        (exists m us, List.filter (about n) evs = PrimingSnapshot n m :: us /\ forallb update_event us = true) ->
        fold_left (linked_step n) evs true = true).
    { induction evs as [|ev evs IH]; [done|]. simpl. destruct (about n ev) eqn:E.
      - intros [[Hev Hrest]%andb_true_iff|(m & us & Heq & Hus)].
        + destruct ev; try done; simpl; apply IH; by left.
        + injection Heq as -> <-. apply IH. by left.
      - intros Hrest. destruct ev as [m st| | |]; simpl in *; try (by apply IH). rewrite E. by apply IH. }
    apply G. right. by exists snapshot, updates. }
  destruct (Hl Hlink) as [Hc _]. rewrite List.filter_app, fold_left_app in Ha. simpl in Ha. rewrite Z.eqb_refl in Ha. simpl in Ha.
  rewrite Hf in Ha. simpl in Ha. rewrite advance_updates in Ha by done. destruct cur as [b m]. simpl in *. by subst.
Qed.

(** C4: what a device reports is what clients are served, through the whole
    program.  Start the program on any files and surroundings and let commands,
    connections, the node manager, the relay task, supervisors and reports take
    their steps in any order, with three provisos: the executor drops the
    cancelled futures of a node before the network or a timer resumes one of its
    tasks; no client asks to interview or to remove the node in question; and
    when the node became known nothing had been sent about it.  Whenever the
    thread then holds a subscription of the node, its events consist of a last
    announcement that the node is connected, then its complete snapshot and
    then only updates; relay task and node manager alone can always come up to
    date; and whenever they are, the node is served as available, with exactly
    the snapshot's attributes overwritten by all values reported since, in order
    - whatever handlers and commands were interleaved before, and whatever grace
    periods ran. *)
Theorem program_serves_subscribed fs now log fab w f ls1 p1 ls2 p2 n :
  program_run ls1 (launch fs now log fab w f) = Some p1 -> program_run ls2 p1 = Some p2 ->
  promptly (ls1 ++ ls2) (launch fs now log fab w f) -> Forall (spares n) (ls1 ++ ls2) ->
  known n p1 -> List.filter (about n) (sent p1) = [] ->
  is_Some (subs (sys_ctx (th_sys (pg_thread p2))) !! n) ->
  (exists p3, catches_up p2 p3 /\ up_to_date p3) /\
  exists before i after snapshot updates,
    sent p2 = before ++ NodeState n (Connected i) :: after /\
    List.filter (about n) after = PrimingSnapshot n snapshot :: updates /\ forallb update_event updates = true /\
    forall p3, catches_up p2 p3 -> up_to_date p3 ->
      served n (pg_shared p3) = Some (true, apply_changes (concat (map update_changes updates)) snapshot).
Proof.
  intros Hr1 Hr2 [Hone1 Hone2]%(promptly_app _ _ _ p1) [Hs1 Hs2]%Forall_app Hk Hno Hsub; [|done].
  pose proof (program_run_inv n ls1 fab _ p1 (launch_inv n fs now log fab w f) Hs1 Hone1 Hr1) as Hi1.
  pose proof (program_run_inv n ls2 fab p1 p2 Hi1 Hs2 Hone2 Hr2) as Hi2.
  destruct (followed_from n fab p1 Hi1 Hk Hno) as [from Hf1].
  pose proof (followed_run n from ls2 fab p1 p2 Hi1 Hs2 Hone2 Hk Hr2 Hf1) as Hf2.
  split; [by eapply catch_up|]. destruct (reachable_order fab _ (pi_sys _ _ _ Hi2)) as [_ Hp].
  destruct (Hp n) as (st & Hst & _ & Hup). rewrite (Hup Hsub) in Hst.
  destruct (subscribed_shape n _ Hst) as (before & i & after & snapshot & updates & He & Hf & Hu).
  exists before, i, after, snapshot, updates. split; [exact He|]. split; [exact Hf|]. split; [exact Hu|].
  intros p3 (ls & Hls & Hr & Et) (Hall & Hq & Hidle).
  destruct (caught_run n from ls fab p2 p3 Hi2 Hls Hr Hf2) as (taken & Htaken & Hfoll).
  rewrite Hq, app_nil_r, Hall, firstn_all in Htaken. unfold sent in Htaken. rewrite Et in Htaken. fold (sent p2) in Htaken.
  rewrite <- Htaken in Hfoll. unfold sent in Hfoll. rewrite He in Hfoll.
  pose proof (follows_connected n from before i after snapshot updates _ Hf Hu Hfoll) as Hserved.
  rewrite outlook_idle in Hserved by done. exact Hserved.
Qed.
End program.

(** ** A run *)

Section example.
#[local] Existing Instances HexBase64 EmptyTables RoomyBuf ToyOnboardCodes CountingDevices CountingMdns CountingCommissioner
  ToyPase ToyCodes ScriptRng NoLabel KeyOrder Quiet DemoRequests demo_processes demo_date.

Abbreviation DemoProgram := (@Program nat (list string) (string * option string)).
Abbreviation demo_run := (program_run (R := list Z) bench_identity 5 demo_ctrl).
Abbreviation demo_step := (program_step (R := list Z) bench_identity 5 demo_ctrl).

(** Node 5 is stored. *)
Definition stored_fs : FS := (run_io (save_node demo_storage (demo_record 5)) demo_fs).2.
Definition demo_launch : DemoProgram := launch demo_ctrl stored_fs 0 ("info", None) 1 0%nat [].

(** The supervisor is started and subscribes; while the node manager handles the
    first event a client starts to listen, and then a report arrives. *)
Definition subscribe_steps : list PgStep :=
  [OfServer Boot; OfServer Boot; OfThread (Wakeup 0 0 Polled); OfServer Accept; OfServer (Opened 1 true);
   OfThread (Wakeup 0 10 (GotChunk demo_report)); OfThread (Wakeup 0 20 (Established {| est_subscription_id := 7; est_max_int := 60 |}));
   Relay; OfServer TakeStackEvent; OfServer Handle; OfServer (TextFrame 1 start_text); OfServer Handle; OfServer (Operate 1);
   OfServer Handle; OfThread (Report 30 0 demo_sub demo_report)].

Definition prompt_b (l : PgStep) (p : DemoProgram) : bool :=
  match l with OfThread l => drops_first_b (th_sys (pg_thread p)) l | _ => true end.

Fixpoint promptly_b (ls : list PgStep) (p : DemoProgram) : bool :=
  match ls with
  | [] => true
  | l :: ls => prompt_b l p && match demo_step l p with Some p => promptly_b ls p | None => true end
  end.

Lemma promptly_b_spec ls p : promptly_b ls p = true -> promptly (R := list Z) bench_identity 5 demo_ctrl ls p.
Proof.
  revert p. induction ls as [|l ls IH]; intros p; cbn [promptly_b promptly]; [done|]. intros [Hl Hls]%andb_true_iff. split.
  - destruct l; try done. by apply drops_first_b_spec.
  - destruct (demo_step l p) as [p'|]; [by apply IH | done].
Qed.

Lemma demo_spares : Forall (spares 5) subscribe_steps.
Proof.
  repeat (constructor; [first [exact I | idtac]|]); [|constructor]. intros cmd Hparse Hname. exfalso. revert Hparse.
  vm_compute. intros [= <-]. destruct Hname as [Hname|Hname]; discriminate Hname.
Qed.

Lemma demo_run_seen {A} (f : DemoProgram -> A) a :
  f <$> demo_run subscribe_steps demo_launch = Some a -> exists p, demo_run subscribe_steps demo_launch = Some p /\ f p = a.
Proof. intros (p & Hr & Ea)%fmap_Some. exists p. split; [exact Hr | symmetry; exact Ea]. Qed.

(** The thread has sent three events about node 5, the manager has handled one:
    the node is served as available, with the attributes it had on file. *)
Lemma program_serves_subscribed_witness :
  exists p2 p3 attributes, demo_run subscribe_steps demo_launch = Some p2 /\
    length (sent p2) = 3%nat /\ served 5 (pg_shared p2) = Some (true, [("0/40/21", json_u 16973824)]) /\
    catches_up (R := list Z) bench_identity 5 demo_ctrl p2 p3 /\ served 5 (pg_shared p3) = Some (true, attributes).
Proof.
  destruct (demo_run_seen (fun p => (length (sent p), subs (sys_ctx (th_sys (pg_thread p))) !! 5, served 5 (pg_shared p)))
    (3%nat, Some 7, Some (true, [("0/40/21", json_u 16973824)]))) as (p2 & Hr & E); [by vm_compute|].
  injection E as E1 E2 E3.
  destruct (program_serves_subscribed (R := list Z) bench_identity 5 demo_ctrl stored_fs 0 ("info", None) 1 0%nat [] [] demo_launch
    subscribe_steps p2 5) as ((p3 & Hc & Hu) & before & i & after & snapshot & updates & _ & _ & _ & Hserved).
  - reflexivity.
  - exact Hr.
  - apply promptly_b_spec. by vm_compute.
  - exact demo_spares.
  - unfold known, pg_shared. by vm_compute; eexists.
  - by vm_compute.
  - rewrite E2. by eexists.
  - exists p2, p3, (apply_changes (concat (map update_changes updates)) snapshot).
    split; [exact Hr|]. split; [exact E1|]. split; [exact E3|]. split; [exact Hc | exact (Hserved p3 Hc Hu)].
Defined.
End example.
